(* ===== verification/_CoqProject ===== *)
-Q . S2P
Prelude.v
RustStr.v
Errors.v
Json.v
Types.v
Schema.v
StdPath.v
Platform.v
Os.v
Paths.v
World.v
Storage.v
Accounts.v
Secrets.v
Permissions.v
Approvals.v
Enforce.v
ProviderTypes.v
Tools.v
Dispatch.v
ToolTypes.v
McpServer.v
HttpDoor.v
Loopback.v
OAuth.v
AuthClient.v
TokenRace.v
GmailParse.v
Gmail.v
M365.v
EndToEnd.v
IpcMessages.v
IpcHandler.v
Daemon.v
Onboarding.v
Registry.v
IpcSteps.v
InFlight.v
Contract.v
Logging.v
IpcServer.v
IpcHub.v
Cache.v
Lifecycle.v
PidLock.v
StdioShim.v
Transport.v
Startup.v
IpcClient.v
Admin.v
Concrete.v
Witnesses.v
SystemWitnesses.v
