(* ===== verification/Prelude.v ===== *)
(** * mail-mcp, verified

    A development of the Rust crates of mail-mcp: [mail-mcp-core],
    [mail-mcp-daemon], [mail-mcp-admin] and [mail-mcp-stdio]. The daemon gives
    programs (over MCP, an HTTP endpoint on the loopback interface) access to the
    user's mail accounts, under per-account policies, and lets a tray application
    or a command line manage it (over IPC); the stdio shim carries MCP from
    standard input to that endpoint.

    ** The parts, and the files that model them

    Below, [core] is [crates/mail-mcp-core/src], [daemon] is
    [crates/mail-mcp-daemon/src], [admin] is [crates/mail-mcp-admin/src] and
    [stdio] is [crates/mail-mcp-stdio/src].

    The ground:
    - [Prelude], [RustStr], [Json]: results, the state and error monad, frames
      ([within]) and their automation; Rust's string operations on bytes, lines,
      decimal numerals; [serde_json::Value], the meaning of derived decoders, and
      what printing and parsing do to the order of members.
    - [Errors], [Types], [Schema]: [core/error.rs], [core/types.rs], the tables of
      [core/../migrations], [core/oauth/google.rs] and [microsoft.rs].
    - [Platform]: what is outside the repository, as type classes of functions
      (SQLite, the keychain, HTTP, sockets, the clock, ULIDs, randomness, JSON
      text, dates, codecs, MIME) and, apart, the laws of those libraries the
      code relies on. [Concrete] is an instance that satisfies every law.
    - [StdPath], [Os]: [std::path] on Unix, and the calls of [std::fs] over a map
      of files. A call may fail, by the environment's choice or its own rules;
      the state keeps every earlier state of the files, since another process can
      look between two calls.
    - [World]: the state the daemon shares ([Sys]: the database, the keychain,
      the token cells, the history of external calls) and its primitives.

    The core of the daemon:
    - [Storage], [Accounts], [Secrets]: [core/storage.rs], [accounts.rs],
      [secrets.rs].
    - [Permissions], [Approvals], [Enforce]: [core/permissions]: the policies,
      the approval queue with its oneshot channels, and [enforce].
    - [ProviderTypes], [Tools], [Dispatch], [ToolTypes]: the provider interface
      ([core/providers/trait.rs], a record of operations [MailProvider]), the tool
      catalog, the dispatcher, and the catalog's JSON schemas as types of calls.
    - [McpServer], [HttpDoor]: the handlers of [daemon/mcp/server.rs], and the
      router in front of them.
    - [Loopback], [OAuth], [AuthClient], [TokenRace]: [core/oauth] and
      [core/providers/gmail/client.rs]; the last is the interleaving of several
      refreshes of one token cell.
    - [GmailParse], [Gmail]: [core/providers/gmail]; [M365], in the module
      [Graph]: [core/providers/m365]. Both are instances of [MailProvider].
    - [EndToEnd]: a tool call from the HTTP door to the provider's requests, against
      an interface ([TriageHttp]) that both providers implement.
    - [IpcMessages], [IpcHandler], [Daemon]: [core/ipc/messages.rs],
      [daemon/ipc_handler.rs], the daemon as a transition system.
    - [Onboarding]: the protocol by which an account is added, across the requests
      of both doors.
    - [Registry]: the providers registered and the accounts stored, over all requests
      of both doors.
    - [IpcSteps]: the methods of the IPC handler as programs ([Prog]), a step per lock,
      SQL statement or call to the keychain, and a logic for their invariants.
    - [InFlight]: [dispatch] with [enforce] and [await_outcome] as phases of a call,
      many calls at once, interleaved with the requests of the IPC door.
    - [Contract]: what the daemon promises, as an abstract specification ([Spec],
      its operations [Op]), with the handler and the calls in flight refining it.
    - [Logging]: [redact] of [core/logging.rs].
    - [IpcServer], [IpcHub]: [core/ipc/server.rs]: one connection, stated against
      the interface [Handler] that the daemon implements; and the accept loop with
      all connections over one broadcast channel.
    - [Cache]: [core/cache.rs].

    The processes around it:
    - [Paths], [Transport]: [core/paths.rs]; the Unix socket and the Windows pipe
      of [core/ipc/transport.rs].
    - [Lifecycle], [PidLock]: [daemon/lifecycle.rs]: the calls of one process, and
      the pid lock when the calls of several interleave.
    - [Startup]: [daemon/main.rs] and [Storage::open]: the start of the daemon in
      the order of the code.
    - [StdioShim]: [stdio/main.rs], on the HTTP door.
    - [IpcClient], [Admin]: [admin/ipc_client.rs] on a connection of [IpcServer],
      and the commands of [admin/main.rs] on that client.
    - [Witnesses], [SystemWitnesses]: theorems with hypotheses applied to concrete
      runs.

    ** How state and effects correspond

    A function of the source that awaits or fails is a computation of the monad
    [ST S E]: it takes a state, answers [Ok], [Err], [Panic] or [Hang], and
    leaves a state; nothing is rolled back on failure. The states nest as the
    Rust structs share their fields: [Sys] in [Desk] (the approval queue and the
    session trust, for [enforce]) in [Context] ([DispatchContext]: the provider
    registry, the pause flag) in [Daemon] ([DaemonHandler]: the pending
    authorizations, the notifications broadcast). [zoom] runs an operation of an
    inner state in an outer one; the start runs on a [Context] beside the files
    ([Startup.Boot]). An [Arc<Mutex<OAuthTokens>>] is a cell of [sys_cells], so
    that clones of a client share it. Errors are [Error] in the core and their
    message under [anyhow].

    An external call is a function of the history of external calls, so an
    instance of [Platform] or [OsLib] can describe any behaviour of the
    environment, with every failure, and a run remains a function.

    ** Concurrency

    In [Daemon.dstep] requests are handled to completion one after the other, in
    any order. What interleaves more finely is modelled where it matters:
    - tool calls interleave lock by lock and await by await ([InFlight.fstep]): a
      call is a phase, a turn of it goes to its next lock or await, and between two
      turns other calls come in, take turns or are dropped with their connection,
      requests of the IPC door come in and take steps, and the queue serves others. The
      provider operation a call ends with is one turn. [InFlight.dispatch_is_a_flight]
      ties it to [Dispatch.dispatch]; a fired timer gives a call its answer within eight
      turns ([InFlight.turns_left]);
    - requests of the IPC door interleave with each other and with the calls step by
      step: a request is a program of [IpcSteps], and between two of its steps (a lock,
      a SQL statement, a call to the keychain, a store to an atomic) anyone takes
      theirs. [InFlight.request_is_a_flight] ties it to [IpcHandler.handle]. The
      requests of [Daemon.dstep], and what [Contract], [Registry] and [Onboarding] say
      of a method, are of requests that nobody interleaves with; what can go wrong
      without that is [SystemWitnesses.removal_races_completion];
    - while a call waits for the user, other tasks act on the approval queue: a
      [Script] gives, for each wait, the actions before its timer fires and those
      between the timer and the queue's lock, and the theorems hold for every
      script;
    - on the IPC server the lines of all clients, accepts, broadcasts and turns of
      the fan-out tasks interleave as a list of events ([IpcServer.CEvent],
      [IpcHub.HubEvent]); a line is handled and answered in one event, so a
      fan-out writes before or after it, not in between;
    - several processes take and drop the pid lock, and die, as steps of a
      relation ([PidLock.lock_step]); several tasks refresh one token cell
      ([TokenRace.race_step]), with a step between any two locks;
    - another process sees every state of the file system on the way of a
      sequence of calls ([Os.seen]).

    The task that awaits a browser's redirect has its effects at the moment it is
    joined, which is one step. So are the requests that one provider operation sends.

    ** What the theorems show

    - Authorization ([Dispatch], [Enforce], [HttpDoor]): without the bearer token
      nothing happens; a tool call has an effect only when its stored policy or
      the user authorised it; [enforce] refines the policy table
      [Enforce.policy_table]; [Draftify] never sends; trust comes from approvals.
    - The whole path ([ToolTypes], [EndToEnd]): arguments valid against the
      advertised schema are read without loss; an accepted request is one typed
      operation of the account's provider, and on Gmail and Graph a triage call is
      the requests of its messages, in order.
    - Calls in flight ([InFlight]): whatever interleaves, only the last turn of a
      call has an effect, and what entitles it was read earlier in the run; calls
      decide nothing themselves; every call, and every request of the IPC door, is
      answered.
    - The contract ([Contract]): an IPC method performs the one operation it names
      or none; a turn of a call asks, takes back, records trust or changes nothing.
    - The approval queue: its invariant in every interleaving, one decision per
      request, no entry left behind, ids that decide what they name.
    - Who may change what ([Onboarding]): no request over MCP touches accounts,
      policies, settings, providers or the pause; an account needs a redirect to
      the browser with the nonce of an authorization the daemon issued; an
      authorization is used once; and completing one does all it should.
    - Integrity ([Daemon], [InFlight], [Registry], [Permissions], [Accounts],
      [Secrets]): from an intact database every reachable one is intact (keys, CHECKs,
      foreign keys), under every interleaving; a registered provider has a stored
      account while requests do not overlap;
      accounts, policies and secrets are read back as written; adding and
      removing an account does all of its parts.
    - OAuth ([Loopback], [OAuth], [AuthClient], [TokenRace]): a code is accepted
      only with the nonce and exchanged with the matching verifier; a refresh
      merges tokens and reports rotation; a 401 cannot loop; a rotated token is
      kept unless refreshes overlap.
    - Providers ([GmailParse], [Gmail], [M365]): bodies and attachments of a MIME
      tree; batches in order, stopping at the first failure; grouping by
      conversation; category updates.
    - Redaction ([Logging]): nothing its own patterns would find is left.
    - IPC ([IpcServer], [IpcHub], [IpcClient], [Admin]): frames survive the byte
      stream; a call of the client is the handler's method, run once; one order of
      notifications for all clients, and no client disturbs another; the commands
      do what they acknowledge, and a pause reaches the other door.
    - The processes ([Startup], [Lifecycle], [PidLock], [Paths], [Transport],
      [StdioShim]): a started daemon is consistent with the endpoint file, which
      is never exposed nor half written and which the shim reads back; a second
      daemon does no harm; one holder of the lock; a socket no other user reaches;
      the shim adds and loses nothing.
    - What modelling showed to be amiss is stated as theorems too: a fan-out that
      never restarts, an accept error that ends the IPC server, a lock that two
      daemons can hold, a rotated token that is lost, a call that acts after the
      pause and the removal of its account ([SystemWitnesses.revoked_call_acts]), a
      removal that meets the completion of a sign-in and leaves a provider without an
      account ([SystemWitnesses.removal_races_completion]),
      a dropped call whose request stays listed, a text attachment that is lost, a
      half-created account, a pause that [list_accounts] ignores, a notification
      that is answered, an [error] parameter that ends a sign-in without the
      nonce, an attachment id that is never read, a comma in a display name that
      splits an address, a runtime directory other than documented.

    ** Bounds and fuel

    Recursion is structural on the data, with two exceptions. Decoding a MIME
    tree from JSON takes the depth [json_depth_limit], 128, which is the nesting
    serde_json accepts; [GmailParse.de_raw_part_enough] shows that any depth from
    the nesting of the value on decodes it alike, so no body that parses is cut.
    [Os.create_dir_all] takes the length of the path, and
    [Os.create_dirs_enough] shows that more changes nothing. A request of the IPC door has at most
    thirteen steps ([IpcSteps.handle_steps]). The client of a busy pipe tries 50 times, as the code does. Casts [as u32] are taken modulo 2^32,
    the ids of the IPC client modulo 2^64, [i64] parsing and [chrono] durations
    are bounded, JSON is printed and read up to the depth serde_json accepts
    ([Json.printable]), and the broadcast channel keeps 64 values, as in
    [daemon/main.rs].

    ** What is not modelled

    The tray applications; argument parsing (clap); [init_tracing], which sets up a
    logger, but for the directory it creates; how the regex crate searches, of which
    [redact] uses a documented law; the wait for signals; the delegation of byte streams
    in [core/ipc/transport.rs]; links and aliases of paths, and the file system of
    Windows, whose paths are only built; the text of SQL, which is modelled as the
    statements' effect on the tables. *)
From Stdlib Require Export ZArith Lia.
From stdpp Require Export pretty numbers base tactics relations option countable strings
  list fin_maps gmap.

(** * Results

    The outcome of running a piece of the program. [Ok] and [Err] are Rust's
    [Result]; [Panic] is a panic of the running task ([unreachable!],
    [unwrap] of a [None], an arithmetic panic); [Hang] is an await that no
    later event completes. *)
Inductive Res (E A : Type) : Type :=
| Ok (a : A)
| Err (e : E)
| Panic
| Hang.
Arguments Ok {E A} a.
Arguments Err {E A} e.
Arguments Panic {E A}.
Arguments Hang {E A}.

Definition res_map {E A B} (f : A → B) (r : Res E A) : Res E B :=
  match r with
  | Ok a => Ok (f a)
  | Err e => Err e
  | Panic => Panic
  | Hang => Hang
  end.

Definition is_ok {E A} (r : Res E A) : bool :=
  match r with Ok _ => true | _ => false end.

(** [Option::ok_or_else]. *)
Definition ok_or {E A} (o : option A) (e : E) : Res E A :=
  match o with Some a => Ok a | None => Err e end.

(** [Result::map_err], on the Rust [Result]s that carry a foreign error. *)
Definition map_err {X E A} (r : X + A) (f : X → E) : Res E A :=
  match r with inl x => Err (f x) | inr a => Ok a end.

(** The results of a fallible step other than a value, at another type. *)
Definition res_cast {E A B} (r : Res E A) (on_ok : A → Res E B) : Res E B :=
  match r with
  | Ok a => on_ok a
  | Err e => Err e
  | Panic => Panic
  | Hang => Hang
  end.

(** * A state and error monad

    An operation of the program takes the state and returns its result and
    the state it leaves. The state is kept when the operation fails: nothing
    is rolled back, as in the code. *)
Definition ST (S E A : Type) : Type := S → Res E A * S.

Global Instance st_ret {S E} : MRet (ST S E) := λ A a s, (Ok a, s).
Global Instance st_bind {S E} : MBind (ST S E) := λ A B f m s,
  match m s with
  | (Ok a, s') => f a s'
  | (Err e, s') => (Err e, s')
  | (Panic, s') => (Panic, s')
  | (Hang, s') => (Hang, s')
  end.

Section operations.
Context {S E : Type}.

Definition throw {A} (e : E) : ST S E A := λ s, (Err e, s).

Definition panic {A} : ST S E A := λ s, (Panic, s).

Definition gets {A} (f : S → A) : ST S E A := λ s, (Ok (f s), s).

Definition modify (f : S → S) : ST S E unit := λ s, (Ok tt, f s).

(** Use an already computed result: the [?] operator. *)
Definition lift_res {A} (r : Res E A) : ST S E A := λ s, (r, s).

(** [let _ = m;]: the value or error of [m] is dropped, a panic is not. *)
Definition ignore {A} (m : ST S E A) : ST S E unit := λ s,
  match m s with
  | (Ok _, s') => (Ok tt, s')
  | (Err _, s') => (Ok tt, s')
  | (Panic, s') => (Panic, s')
  | (Hang, s') => (Hang, s')
  end.

(** Observe the Rust [Result] of [m] instead of propagating its error. *)
Definition catch {A} (m : ST S E A) : ST S E (E + A) := λ s,
  match m s with
  | (Ok a, s') => (Ok (inr a), s')
  | (Err e, s') => (Ok (inl e), s')
  | (Panic, s') => (Panic, s')
  | (Hang, s') => (Hang, s')
  end.

(** [for x in xs { f(x)?; }] *)
Fixpoint for_each {X} (xs : list X) (f : X → ST S E unit) : ST S E unit :=
  match xs with
  | [] => mret tt
  | x :: xs => _ ← f x; for_each xs f
  end.

(** A loop that pushes one element per iteration into a [Vec]. *)
Fixpoint collect {X Y} (xs : list X) (f : X → ST S E Y) : ST S E (list Y) :=
  match xs with
  | [] => mret []
  | x :: xs => y ← f x; ys ← collect xs f; mret (y :: ys)
  end.
End operations.

(** Run an operation of a part [T] of the state [S]. *)
Definition zoom {S T E A} (get : S → T) (put : T → S → S) (m : ST T E A) :
    ST S E A := λ s,
  let '(r, t) := m (get s) in (r, put t s).

(** Two computations are equivalent when they agree on every state; this is
    the equality the monad laws hold for, without functional extensionality. *)
Global Instance st_equiv {S E A} : Equiv (ST S E A) := λ m1 m2, ∀ s, m1 s = m2 s.

Global Instance st_equivalence {S E A} :
  Equivalence (≡@{ST S E A}).
Proof.
  split.
  - by intros m s.
  - by intros m1 m2 H s; rewrite H.
  - by intros m1 m2 m3 H1 H2 s; rewrite H1, H2.
Qed.

Global Instance st_bind_proper {S E A B} :
  Proper (pointwise_relation A (≡) ==> (≡) ==> (≡))
    (mbind : (A → ST S E B) → ST S E A → ST S E B).
Proof.
  intros f1 f2 Hf m1 m2 Hm s. unfold mbind, st_bind. rewrite Hm.
  destruct (m2 s) as [[a|e| |] s']; [apply Hf|done..].
Qed.

Section laws.
Context {S E : Type}.

Lemma bind_ret_l {A B} (a : A) (f : A → ST S E B) : mret a ≫= f ≡ f a.
Proof. by intros s. Qed.

Lemma bind_ret_r {A} (m : ST S E A) : m ≫= mret ≡ m.
Proof.
  intros s. unfold mbind, st_bind. by destruct (m s) as [[] ?].
Qed.

Lemma bind_assoc {A B C} (m : ST S E A) (f : A → ST S E B) (g : B → ST S E C) :
  (m ≫= f) ≫= g ≡ m ≫= (λ a, f a ≫= g).
Proof.
  intros s. unfold mbind, st_bind. by destruct (m s) as [[] ?].
Qed.

(** Inverting a successful sequence: the first step succeeded, in a state
    from which the rest did. *)
Lemma bind_Ok {A B} (m : ST S E A) (f : A → ST S E B) s b s' :
  (m ≫= f) s = (Ok b, s') ↔ ∃ a s1, m s = (Ok a, s1) ∧ f a s1 = (Ok b, s').
Proof.
  unfold mbind, st_bind. split.
  - destruct (m s) as [[a|e| |] s1]; naive_solver.
  - by intros (a & s1 & -> & ?).
Qed.

Lemma ret_Ok {A} (a b : A) s s' :
  (mret a : ST S E A) s = (Ok b, s') ↔ a = b ∧ s = s'.
Proof. unfold mret, st_ret. split; [by intros [= -> ->]|by intros [-> ->]]. Qed.

Lemma throw_Ok {A} (e : E) (b : A) s s' : (throw e : ST S E A) s = (Ok b, s') ↔ False.
Proof. done. Qed.

Lemma lift_res_Ok {A} (r : Res E A) b s s' :
  (lift_res r : ST S E A) s = (Ok b, s') ↔ r = Ok b ∧ s = s'.
Proof. unfold lift_res. split; [by intros [= -> ->]|by intros [-> ->]]. Qed.

Lemma gets_Ok {A} (f : S → A) b s s' :
  (gets f : ST S E A) s = (Ok b, s') ↔ f s = b ∧ s = s'.
Proof. unfold gets. split; [by intros [= -> ->]|by intros [-> ->]]. Qed.

Lemma modify_Ok (f : S → S) b s s' :
  (modify f : ST S E unit) s = (Ok b, s') ↔ f s = s'.
Proof. unfold modify. destruct b. split; [by intros [= ->]|by intros ->]. Qed.

Lemma bind_step {A B} (m : ST S E A) (f : A → ST S E B) s a s1 :
  m s = (Ok a, s1) → (m ≫= f) s = f a s1.
Proof. unfold mbind, st_bind. by intros ->. Qed.

(** What holds after the first step, and is kept by the rest when it is run,
    holds at the end. *)
Lemma bind_final {A B} (P : S → Prop) (m : ST S E A) (f : A → ST S E B) s :
  P (m s).2 → (∀ a s1, m s = (Ok a, s1) → P s1 → P (f a s1).2) → P ((m ≫= f) s).2.
Proof.
  unfold mbind, st_bind. destruct (m s) as [[a|e| |] s1]; simpl; auto.
Qed.

Lemma bind_err {A B} (m : ST S E A) (f : A → ST S E B) s e s1 :
  m s = (Err e, s1) → (m ≫= f) s = (Err e, s1).
Proof. unfold mbind, st_bind. by intros ->. Qed.
End laws.

(** * Frames

    [within R m]: every run of [m], whatever its result, takes the state to
    one related by [R]. With [R] a preorder this composes along the monad,
    so "this operation never touches X" and "this operation preserves the
    invariant I" are proved by the hints of the database [within]. *)
Definition within {S E A} (R : relation S) (m : ST S E A) : Prop :=
  ∀ s, R s (m s).2.

(** The relation of the states that keep an invariant. *)
Definition keeps {S} (I : S → Prop) : relation S := λ s s', I s → I s'.

Global Instance keeps_preorder {S} (I : S → Prop) : PreOrder (keeps I).
Proof. split; unfold keeps; [by intros s|intros s1 s2 s3; auto]. Qed.

(** The relation of the states with the same view. *)
Definition same {S V} (view : S → V) : relation S := λ s s', view s' = view s.

Global Instance same_preorder {S V} (view : S → V) : PreOrder (same view).
Proof. split; unfold same; [done|intros s1 s2 s3; congruence]. Qed.

Section within.
Context {S E : Type} (R : relation S) `{!PreOrder R}.

Lemma within_ret {A} (a : A) : within (E:=E) R (mret a).
Proof. intros s. reflexivity. Qed.

Lemma within_throw {A} (e : E) : within R (throw e : ST S E A).
Proof. intros s. reflexivity. Qed.

Lemma within_panic {A} : within R (panic : ST S E A).
Proof. intros s. reflexivity. Qed.

Lemma within_gets {A} (f : S → A) : within (E:=E) R (gets f).
Proof. intros s. reflexivity. Qed.

Lemma within_lift_res {A} (r : Res E A) : within R (lift_res r).
Proof. intros s. reflexivity. Qed.

Lemma within_modify (f : S → S) :
  (∀ s, R s (f s)) → within (E:=E) R (modify f).
Proof. intros H s. apply H. Qed.

Lemma within_bind {A B} (m : ST S E A) (f : A → ST S E B) :
  within R m → (∀ a, within R (f a)) → within R (m ≫= f).
Proof.
  intros Hm Hf s. specialize (Hm s). unfold mbind, st_bind.
  destruct (m s) as [[a|e| |] s']; simpl in *; try done.
  etrans; [exact Hm|apply Hf].
Qed.

(** As above, when what follows depends on what the first step answers. *)
Lemma within_bind_post {A B} (Q : A → Prop) (m : ST S E A) (f : A → ST S E B) :
  within R m → (∀ s a s', m s = (Ok a, s') → Q a) → (∀ a, Q a → within R (f a)) →
  within R (m ≫= f).
Proof.
  intros Hm HQ Hf s. specialize (Hm s). unfold mbind, st_bind.
  destruct (m s) as [[a|e| |] s'] eqn:Ems; simpl in *; try done.
  etrans; [exact Hm|]. eapply Hf, HQ. exact Ems.
Qed.

Lemma within_ignore {A} (m : ST S E A) : within R m → within R (ignore m).
Proof.
  intros Hm s. specialize (Hm s). unfold ignore.
  by destruct (m s) as [[] s'].
Qed.

Lemma within_catch {A} (m : ST S E A) : within R m → within R (catch m).
Proof.
  intros Hm s. specialize (Hm s). unfold catch.
  by destruct (m s) as [[] s'].
Qed.

Lemma within_for_each {X} (xs : list X) (f : X → ST S E unit) :
  (∀ x, within R (f x)) → within R (for_each xs f).
Proof.
  intros Hf. induction xs as [|x xs IH]; simpl.
  - apply within_ret.
  - apply within_bind; auto.
Qed.

Lemma within_collect {X Y} (xs : list X) (f : X → ST S E Y) :
  (∀ x, within R (f x)) → within R (collect xs f).
Proof.
  intros Hf. induction xs as [|x xs IH]; simpl.
  - apply within_ret.
  - apply within_bind; [done|]. intros y.
    apply within_bind; [done|]. intros ys. apply within_ret.
Qed.

Lemma within_if {A} (b : bool) (m1 m2 : ST S E A) :
  within R m1 → within R m2 → within R (if b then m1 else m2).
Proof. by destruct b. Qed.
End within.

Lemma within_weaken {S E A} (R1 R2 : relation S) (m : ST S E A) :
  (∀ s s', R1 s s' → R2 s s') → within R1 m → within R2 m.
Proof. intros H Hm s. apply H, Hm. Qed.

Lemma within_zoom {S T E A} (get : S → T) (put : T → S → S) (R : relation S)
    (Q : relation T) (m : ST T E A) :
  (∀ s t, Q (get s) t → R s (put t s)) → within Q m → within R (zoom get put m).
Proof.
  intros H Hm s. unfold zoom. specialize (Hm (get s)).
  destruct (m (get s)) as [r t]. by apply H.
Qed.

Create HintDb within.
#[export] Hint Resolve within_ret within_throw within_panic within_gets
  within_lift_res within_bind within_ignore within_catch within_for_each
  within_collect within_if : within.

(** Prove [within R m] along the structure of [m]: the database's lemmas, and
    a case analysis where the code matches. *)
Ltac frame :=
  repeat first
    [ progress intros
    | solve [eauto 2 with within typeclass_instances]
    | apply within_ret; [typeclasses eauto]
    | apply within_throw; [typeclasses eauto]
    | apply within_panic; [typeclasses eauto]
    | apply within_gets; [typeclasses eauto]
    | apply within_lift_res; [typeclasses eauto]
    | apply within_ignore; [typeclasses eauto|]
    | apply within_catch; [typeclasses eauto|]
    | apply within_for_each; [typeclasses eauto|]
    | apply within_collect; [typeclasses eauto|]
    | apply within_bind; [typeclasses eauto| |]
    | match goal with
      | |- within _ (match ?x with _ => _ end) => destruct x
      | |- within _ (let '_ := ?x in _) => destruct x
      end ].

(** Follow a concrete run: decompose [(m ≫= f) s = (Ok b, s')] hypotheses. *)
Ltac run_ok :=
  repeat match goal with
  | H : (_ ≫= _) _ = (Ok _, _) |- _ =>
      apply bind_Ok in H as (? & ? & ? & H)
  | H : mret _ _ = (Ok _, _) |- _ => apply ret_Ok in H as [? ?]; subst
  | H : throw _ _ = (Ok _, _) |- _ => by apply throw_Ok in H
  | H : lift_res _ _ = (Ok _, _) |- _ => apply lift_res_Ok in H as [? ?]; subst
  | H : gets _ _ = (Ok _, _) |- _ => apply gets_Ok in H as [? ?]; subst
  | H : modify _ _ = (Ok _, _) |- _ => apply modify_Ok in H; subst
  end.

(** * Lists and options *)

(** [Iterator::find]. *)
Fixpoint find_first {A} (f : A → bool) (l : list A) : option A :=
  match l with
  | [] => None
  | x :: l => if f x then Some x else find_first f l
  end.

Lemma find_first_Some {A} (f : A → bool) l x :
  find_first f l = Some x → x ∈ l ∧ f x = true.
Proof.
  induction l as [|y l IH]; simpl; [done|].
  destruct (f y) eqn:E; intros H; rewrite elem_of_cons.
  - injection H as ->. by split; [left|].
  - apply IH in H as [??]. by split; [right|].
Qed.

Lemma find_first_None {A} (f : A → bool) l :
  find_first f l = None ↔ ∀ x, x ∈ l → f x = false.
Proof.
  induction l as [|y l IH]; simpl.
  { split; [|done]. intros _ x Hx. by apply not_elem_of_nil in Hx. }
  setoid_rewrite elem_of_cons. destruct (f y) eqn:E.
  - split; [done|]. intros H. rewrite (H y) in E; [done|by left].
  - rewrite IH. split; [intros H x [->|Hx]; auto|auto].
Qed.

(** [Iterator::any] with an equality test. *)
Definition any_eq (x : string) (l : list string) : bool :=
  existsb (String.eqb x) l.

Lemma any_eq_spec x l : any_eq x l = true ↔ x ∈ l.
Proof.
  unfold any_eq. rewrite existsb_exists. split.
  - intros (y & Hy & ->%String.eqb_eq). by apply list_elem_of_In.
  - intros H. exists x. rewrite <- list_elem_of_In. by rewrite String.eqb_refl.
Qed.
