(* ===== verification/RustStr.v ===== *)
(** * Rust's [str] and [String], as far as the program uses them

    A string is the list of its UTF-8 bytes ([String.string], one [ascii] per
    byte). Delimiters are ASCII, so searching and splitting bytewise is what
    Rust does on characters; trimming knows the encodings of every
    [White_Space] character. *)
From S2P Require Export Prelude.
From Stdlib Require Export Ascii.

Definition byte (a : ascii) : N := N_of_ascii a.

(** ** Searching and splitting at a character *)

(** [s.split_once(c)] *)
Fixpoint split_once (c : ascii) (s : string) : option (string * string) :=
  match s with
  | EmptyString => None
  | String a s' =>
      if Ascii.eqb a c then Some ("", s')
      else match split_once c s' with
           | Some (l, r) => Some (String a l, r)
           | None => None
           end
  end.

(** The text before and after the last [c]: [s[..i]] and [s[i + 1..]] for
    [Some(i) = s.rfind(c)]. *)
Fixpoint rsplit_once (c : ascii) (s : string) : option (string * string) :=
  match s with
  | EmptyString => None
  | String a s' =>
      match rsplit_once c s' with
      | Some (l, r) => Some (String a l, r)
      | None => if Ascii.eqb a c then Some ("", s') else None
      end
  end.

(** [s.split(c)] *)
Fixpoint split (c : ascii) (s : string) : list string :=
  match s with
  | EmptyString => [""]
  | String a s' =>
      if Ascii.eqb a c then "" :: split c s'
      else match split c s' with
           | [] => [String a ""]
           | w :: ws => String a w :: ws
           end
  end.

Fixpoint contains (c : ascii) (s : string) : bool :=
  match s with
  | EmptyString => false
  | String a s' => Ascii.eqb a c || contains c s'
  end.

(** [s.str_strip_prefix(p)] *)
Fixpoint str_strip_prefix (p s : string) : option string :=
  match p, s with
  | EmptyString, _ => Some s
  | String a p', String b s' => if Ascii.eqb a b then str_strip_prefix p' s' else None
  | String _ _, EmptyString => None
  end.

(** [s.starts_with(p)] *)
Definition starts_with (p s : string) : bool :=
  match str_strip_prefix p s with Some _ => true | None => false end.

(** [parts.join(sep)] *)
Definition join (sep : string) (parts : list string) : string :=
  String.concat sep parts.

(** ** White space *)

(** The [White_Space] characters, by the bytes of their encodings. *)
Definition ws1 (a : ascii) : bool :=
  ((9 <=? byte a) && (byte a <=? 13) || (byte a =? 32))%N.
Definition ws2 (a b : ascii) : bool :=
  ((byte a =? 0xC2) && ((byte b =? 0x85) || (byte b =? 0xA0)))%N.
Definition ws3 (a b c : ascii) : bool :=
  ((byte a =? 0xE1) && (byte b =? 0x9A) && (byte c =? 0x80) ||
   (byte a =? 0xE2) && (byte b =? 0x80) &&
     ((0x80 <=? byte c) && (byte c <=? 0x8A) || (byte c =? 0xA8) ||
      (byte c =? 0xA9) || (byte c =? 0xAF)) ||
   (byte a =? 0xE2) && (byte b =? 0x81) && (byte c =? 0x9F) ||
   (byte a =? 0xE3) && (byte b =? 0x80) && (byte c =? 0x80))%N.

Section trim.
Context (w1 : ascii → bool) (w2 : ascii → ascii → bool)
  (w3 : ascii → ascii → ascii → bool).

Fixpoint drop_ws (s : string) : string :=
  match s with
  | EmptyString => EmptyString
  | String a s1 =>
      if w1 a then drop_ws s1 else
      match s1 with
      | EmptyString => s
      | String b s2 =>
          if w2 a b then drop_ws s2 else
          match s2 with
          | EmptyString => s
          | String c s3 => if w3 a b c then drop_ws s3 else s
          end
      end
  end.
End trim.

Definition trim_start : string → string := drop_ws ws1 ws2 ws3.

Definition trim_end (s : string) : string :=
  String.rev (drop_ws ws1 (λ b a, ws2 a b) (λ c b a, ws3 a b c) (String.rev s)).

(** [s.trim()] *)
Definition trim (s : string) : string := trim_end (trim_start s).

Fixpoint drop_char (c : ascii) (s : string) : string :=
  match s with
  | String a s' => if Ascii.eqb a c then drop_char c s' else s
  | EmptyString => s
  end.

(** [s.trim_matches(c)] *)
Definition trim_matches (c : ascii) (s : string) : string :=
  String.rev (drop_char c (String.rev (drop_char c s))).

(** The first word of a string that does not start with white space, and what
    follows it. *)
Fixpoint take_word (s : string) : string * string :=
  match s with
  | EmptyString => ("", "")
  | String a s1 =>
      if ws1 a then ("", s1) else
      let go := let '(w, r) := take_word s1 in (String a w, r) in
      match s1 with
      | EmptyString => go
      | String b s2 =>
          if ws2 a b then ("", s2) else
          match s2 with
          | EmptyString => go
          | String c s3 => if ws3 a b c then ("", s3) else go
          end
      end
  end.

(** One [next()] of [s.split_whitespace()]. *)
Definition next_word (s : string) : option (string * string) :=
  match trim_start s with
  | EmptyString => None
  | s' => Some (take_word s')
  end.

(** [s.lines().next().unwrap_or("")]: up to the first line feed, without the
    carriage return before it. *)
Definition first_line (s : string) : string :=
  match split_once "010"%char s with
  | None => s
  | Some (l, _) =>
      match String.rev l with
      | String "013"%char r => String.rev r
      | _ => l
      end
  end.

(** ** ASCII case *)

Definition ascii_lower (a : ascii) : ascii :=
  if ((65 <=? byte a) && (byte a <=? 90))%N then ascii_of_N (byte a + 32) else a.

(** [s.to_ascii_lowercase()] *)
Fixpoint to_ascii_lowercase (s : string) : string :=
  match s with
  | EmptyString => EmptyString
  | String a s' => String (ascii_lower a) (to_ascii_lowercase s')
  end.

(** [a.eq_ignore_ascii_case(b)] *)
Definition eq_ignore_ascii_case (a b : string) : bool :=
  String.eqb (to_ascii_lowercase a) (to_ascii_lowercase b).

(** ** Machine integers in text *)

Definition i64_min : Z := - 2 ^ 63.
Definition i64_max : Z := 2 ^ 63 - 1.

Definition in_i64 (z : Z) : bool := ((i64_min <=? z) && (z <=? i64_max))%Z.

Definition digit (a : ascii) : option Z :=
  if ((48 <=? byte a) && (byte a <=? 57))%N
  then Some (Z.of_N (byte a) - 48)%Z else None.

Fixpoint digits (acc : Z) (s : string) : option Z :=
  match s with
  | EmptyString => Some acc
  | String a s' => d ← digit a; digits (acc * 10 + d)%Z s'
  end.

Definition unsigned (s : string) : option Z :=
  match s with EmptyString => None | _ => digits 0 s end.

(** [s.parse::<i64>().ok()]: an optional sign, one or more digits, in range. *)
Definition parse_i64 (s : string) : option Z :=
  z ← match s with
      | String "045"%char r => Z.opp <$> unsigned r
      | String "043"%char r => unsigned r
      | _ => unsigned s
      end;
  if in_i64 z then Some z else None.

(** [n as u32] of an unsigned integer. *)
Definition as_u32 (n : Z) : Z := (n mod 2 ^ 32)%Z.

(** ** UTF-8 *)

Definition cont (a : ascii) : bool := ((0x80 <=? byte a) && (byte a <=? 0xBF))%N.

Definition between (lo hi : N) (a : ascii) : bool :=
  ((lo <=? byte a) && (byte a <=? hi))%N.

(** [std::str::from_utf8(bytes).is_ok()] *)
Fixpoint utf8_valid (s : string) : bool :=
  match s with
  | EmptyString => true
  | String a s1 =>
      if (byte a <? 0x80)%N then utf8_valid s1 else
      match s1 with
      | EmptyString => false
      | String b s2 =>
          if between 0xC2 0xDF a then cont b && utf8_valid s2 else
          match s2 with
          | EmptyString => false
          | String c s3 =>
              let lead3 :=
                (byte a =? 0xE0)%N && between 0xA0 0xBF b ||
                between 0xE1 0xEC a && cont b ||
                (byte a =? 0xED)%N && between 0x80 0x9F b ||
                between 0xEE 0xEF a && cont b in
              if lead3 then cont c && utf8_valid s3 else
              match s3 with
              | EmptyString => false
              | String d s4 =>
                  let lead4 :=
                    (byte a =? 0xF0)%N && between 0x90 0xBF b ||
                    between 0xF1 0xF3 a && cont b ||
                    (byte a =? 0xF4)%N && between 0x80 0x8F b in
                  lead4 && cont c && cont d && utf8_valid s4
              end
          end
      end
  end.

(** ** Lemmas *)

Lemma split_once_Some c s l r :
  split_once c s = Some (l, r) → s = l +:+ String c r ∧ contains c l = false.
Proof.
  revert l r. induction s as [|a s IH]; intros l r; simpl; [done|].
  destruct (Ascii.eqb_spec a c) as [->|Ha].
  - intros [= <- <-]. done.
  - destruct (split_once c s) as [[l' r']|]; [|done].
    intros [= <- <-]. destruct (IH l' r' eq_refl) as [-> H]. simpl.
    apply Ascii.eqb_neq in Ha. by rewrite Ha.
Qed.

Lemma split_once_None c s : split_once c s = None ↔ contains c s = false.
Proof.
  induction s as [|a s IH]; simpl; [done|].
  destruct (Ascii.eqb a c); simpl; [done|].
  destruct (split_once c s) as [[]|]; [|by rewrite <-IH].
  split; [done|]. intros H. apply IH in H. done.
Qed.

Lemma rsplit_once_Some c s l r :
  rsplit_once c s = Some (l, r) → s = l +:+ String c r ∧ contains c r = false.
Proof.
  assert (Hnone : ∀ s, rsplit_once c s = None → contains c s = false).
  { intros s'. induction s' as [|a s' IH]; simpl; [done|].
    destruct (rsplit_once c s') as [[]|]; [done|].
    destruct (Ascii.eqb a c); [done|]. intros _. simpl. auto. }
  revert l r. induction s as [|a s IH]; intros l r; simpl; [done|].
  destruct (rsplit_once c s) as [[l' r']|] eqn:E.
  - intros [= <- <-]. destruct (IH l' r' eq_refl) as [-> H]. done.
  - destruct (Ascii.eqb_spec a c) as [->|]; [|done].
    intros [= <- <-]. auto.
Qed.

Lemma str_strip_prefix_Some p s r : str_strip_prefix p s = Some r ↔ s = p +:+ r.
Proof.
  revert s. induction p as [|a p IH]; intros s; simpl.
  - split; [by intros [= ->]|by intros ->].
  - destruct s as [|b s]; [done|]. destruct (Ascii.eqb_spec a b) as [->|Hab].
    + rewrite IH. simpl. split; [by intros ->|by intros [= ->]].
    + split; [done|]. simpl. intros [= -> _]. done.
Qed.

Lemma split_not_nil c s : split c s ≠ [].
Proof.
  destruct s as [|a s]; simpl; [done|].
  destruct (Ascii.eqb a c); [done|]. by destruct (split c s).
Qed.

(** Splitting loses nothing. *)
Lemma join_split c s : join (String c "") (split c s) = s.
Proof.
  unfold join. induction s as [|a s IH]; [done|]. simpl.
  pose proof (split_not_nil c s) as Hn.
  destruct (Ascii.eqb_spec a c) as [->|Ha];
    destruct (split c s) as [|w [|w' ws]] eqn:E; simpl in *; try done; by rewrite <-IH.
Qed.

Lemma split_no_sep c s w : w ∈ split c s → contains c w = false.
Proof.
  revert w. induction s as [|a s IH]; intros w; simpl.
  - intros ->%list_elem_of_singleton. done.
  - destruct (Ascii.eqb a c) eqn:Ha.
    + intros [->|Hw]%elem_of_cons; auto.
    + pose proof (split_not_nil c s) as Hn.
      destruct (split c s) as [|w' ws]; [done|].
      intros [->|Hw]%elem_of_cons; simpl.
      * rewrite Ha. simpl. apply IH. left.
      * apply IH. by right.
Qed.

Lemma parse_i64_range s z : parse_i64 s = Some z → (i64_min ≤ z ≤ i64_max)%Z.
Proof.
  unfold parse_i64. intros (z' & _ & H)%bind_Some.
  unfold in_i64 in H. destruct (_ <=? z')%Z eqn:E1; [|done].
  destruct (z' <=? _)%Z eqn:E2; [|done]. injection H as ->. lia.
Qed.

(** ** Strings as lists of bytes *)

Abbreviation chars := String.list_ascii_of_string.

Lemma las_app s1 s2 :
  chars (s1 +:+ s2) = chars s1 ++ chars s2.
Proof. induction s1 as [|a s1 IH]; simpl; [done|]. by f_equal. Qed.

Lemma las_inj s1 s2 : chars s1 = chars s2 → s1 = s2.
Proof.
  intros H. by rewrite <-(String.string_of_list_ascii_of_string s1), H,
    String.string_of_list_ascii_of_string.
Qed.

Lemma las_rev s : chars (String.rev s) = reverse (chars s).
Proof.
  unfold String.rev. rewrite <-(app_nil_r (reverse _)).
  change [] with (chars ""). generalize "" as t.
  induction s as [|a s IH]; intros t; simpl; [done|].
  rewrite IH, reverse_cons, <-app_assoc. done.
Qed.

Lemma rev_involutive s : String.rev (String.rev s) = s.
Proof. apply las_inj. by rewrite !las_rev, reverse_involutive. Qed.

Lemma string_app_assoc s1 s2 s3 : (s1 +:+ s2) +:+ s3 = s1 +:+ (s2 +:+ s3).
Proof. apply las_inj. by rewrite !las_app, app_assoc. Qed.

Lemma string_app_nil_r s : s +:+ "" = s.
Proof. apply las_inj. by rewrite las_app, app_nil_r. Qed.

Lemma string_length_app s1 s2 :
  String.length (s1 +:+ s2) = String.length s1 + String.length s2.
Proof. induction s1 as [|a s1 IH]; simpl; [done|]. by rewrite IH. Qed.

Lemma contains_las c s : contains c s = true ↔ c ∈ chars s.
Proof.
  induction s as [|a s IH]; simpl.
  - split; [done|]. by intros ?%not_elem_of_nil.
  - rewrite orb_true_iff, Ascii.eqb_eq, IH, elem_of_cons. naive_solver.
Qed.

Lemma contains_app c s1 s2 : contains c (s1 +:+ s2) = contains c s1 || contains c s2.
Proof. induction s1 as [|a s1 IH]; simpl; [done|]. by rewrite IH, orb_assoc. Qed.

Lemma split_no_char c s : contains c s = false → split c s = [s].
Proof.
  induction s as [|a s IH]; simpl; [done|]. intros [Ha Hs]%orb_false_iff.
  by rewrite Ha, IH.
Qed.

Lemma split_app c s r :
  contains c s = false → split c (s +:+ String c r) = s :: split c r.
Proof.
  induction s as [|a s IH]; simpl; [by rewrite Ascii.eqb_refl|].
  intros [Ha Hs]%orb_false_iff. by rewrite Ha, IH.
Qed.

(** ** Trimming text that has no margin *)

(** An ASCII character that is not white space. *)
Definition plain (a : ascii) : bool := negb (ws1 a) && (byte a <? 128)%N.

Lemma plain_drops a : plain a = true →
  ws1 a = false ∧ (∀ b, ws2 a b = false) ∧ (∀ b, ws2 b a = false) ∧
  (∀ b c, ws3 a b c = false) ∧ (∀ b c, ws3 b c a = false).
Proof.
  unfold plain, ws2, ws3. intros [Hw Hb%N.ltb_lt]%andb_prop. apply negb_true_iff in Hw.
  assert (Heq : ∀ n, (128 <= n)%N → (byte a =? n)%N = false) by (intros n ?; apply N.eqb_neq; lia).
  assert (Hle : ∀ n, (128 <= n)%N → (n <=? byte a)%N = false) by (intros n ?; apply N.leb_gt; lia).
  split_and!; [done|..]; intros; rewrite ?Heq, ?Hle by lia; simpl;
    by rewrite ?andb_false_r, ?orb_false_r.
Qed.

Lemma drop_ws_plain w1 w2 w3 a s :
  w1 a = false → (∀ b, w2 a b = false) → (∀ b c, w3 a b c = false) →
  drop_ws w1 w2 w3 (String a s) = String a s.
Proof.
  intros H1 H2 H3. destruct s as [|b [|c s]]; simpl; by rewrite ?H1, ?H2, ?H3.
Qed.

Lemma trim_start_plain a s : plain a = true → trim_start (String a s) = String a s.
Proof. intros (? & ? & _ & ? & _)%plain_drops. by apply drop_ws_plain. Qed.

Lemma trim_end_plain s a w :
  plain a = true → Forall (λ b, ws1 b = true) (chars w) →
  trim_end ((s +:+ String a "") +:+ w) = s +:+ String a "".
Proof.
  intros (Hw1 & _ & Hw2 & _ & Hw3)%plain_drops Hw. unfold trim_end.
  assert (Hrev : String.rev ((s +:+ String a "") +:+ w) =
    String.rev w +:+ String a (String.rev s)).
  { apply las_inj. rewrite las_app, !las_rev, !las_app. simpl. rewrite !las_rev.
    by rewrite !reverse_app. }
  rewrite Hrev. clear Hrev.
  assert (Hwr : Forall (λ b, ws1 b = true) (chars (String.rev w))).
  { rewrite las_rev. by apply Forall_reverse. }
  induction (String.rev w) as [|b w' IH].
  - change ("" +:+ String a (String.rev s)) with (String a (String.rev s)).
    rewrite drop_ws_plain by auto. apply las_inj.
    rewrite las_rev. simpl. by rewrite las_rev, reverse_cons, reverse_involutive, las_app.
  - simpl in Hwr |- *. apply Forall_cons in Hwr as [-> Hwr]. by apply IH.
Qed.

(** Text that begins and ends with a plain character, and the line it makes. *)
Lemma trim_plain a s b w :
  plain a = true → plain b = true → Forall (λ c, ws1 c = true) (chars w) →
  trim ((String a s +:+ String b "") +:+ w) = String a s +:+ String b "".
Proof.
  intros Ha Hb Hw. unfold trim.
  change ((String a s +:+ String b "") +:+ w) with (String a ((s +:+ String b "") +:+ w)).
  rewrite trim_start_plain by done.
  exact (trim_end_plain (String a s) b w Hb Hw).
Qed.

Lemma trim_char a w :
  plain a = true → Forall (λ c, ws1 c = true) (chars w) →
  trim (String a w) = String a "".
Proof.
  intros Ha Hw. unfold trim. rewrite trim_start_plain by done.
  exact (trim_end_plain "" a w Ha Hw).
Qed.

(** ** Lines of a byte stream *)

Definition LF : ascii := "010"%char.
Definition lf : string := String LF "".

(** The results of [read_line] until the end of the stream: each line with its
    line feed, the last perhaps without. *)
Fixpoint read_lines (s : string) : list string :=
  match s with
  | EmptyString => []
  | String a s' =>
      if Ascii.eqb a LF then lf :: read_lines s'
      else match read_lines s' with
           | [] => [String a ""]
           | w :: ws => String a w :: ws
           end
  end.

Lemma read_lines_cons s r :
  contains LF s = false → read_lines ((s +:+ lf) +:+ r) = (s +:+ lf) :: read_lines r.
Proof.
  induction s as [|a s IH]; [done|]. simpl. intros [Ha Hs]%orb_false_iff.
  rewrite Ha. simpl in IH. by rewrite IH.
Qed.

(** Lines written one after the other are read back as they were written. *)
Lemma read_lines_written ls :
  Forall (λ l, contains LF l = false) ls →
  read_lines (String.concat "" ((λ l, l +:+ lf) <$> ls)) = (λ l, l +:+ lf) <$> ls.
Proof.
  induction 1 as [|l ls Hl Hls IH]; [done|].
  assert (Hcat : String.concat "" ((λ l, l +:+ lf) <$> (l :: ls)) =
    (l +:+ lf) +:+ String.concat "" ((λ l, l +:+ lf) <$> ls)).
  { destruct ls; [by rewrite string_app_nil_r|done]. }
  rewrite Hcat, read_lines_cons by done. by rewrite IH.
Qed.

(** ** Decimal numerals *)

Lemma pretty_N_char_digit n : between 48 57 (pretty_N_char n) = true.
Proof. unfold pretty_N_char. by repeat case_match. Qed.

Lemma pretty_N_digits (n : N) : Forall (λ a, between 48 57 a = true) (chars (pretty n)).
Proof.
  assert (Hgo : ∀ s, Forall (λ a, between 48 57 a = true) (chars s) →
    Forall (λ a, between 48 57 a = true) (chars (pretty_N_go n s))).
  { induction (N.lt_wf_0 n) as [n _ IH]. intros s Hs.
    destruct (decide (n = 0)%N) as [->|]; [by rewrite pretty_N_go_0|].
    rewrite pretty_N_go_step by lia. apply IH.
    - apply N.div_lt; lia.
    - simpl. constructor; [apply pretty_N_char_digit|done]. }
  unfold pretty, pretty_N. destruct (decide _); [by repeat constructor|]. by apply Hgo.
Qed.

Lemma pretty_N_no_char c n : between 48 57 c = false → contains c (pretty (n : N)) = false.
Proof.
  intros Hc. destruct (contains c (pretty n)) eqn:E; [|done]. apply contains_las in E.
  pose proof (pretty_N_digits n) as H. rewrite Forall_forall in H. apply H in E. congruence.
Qed.

(** ** Trimmed text *)

Lemma drop_ws_suffix w1 w2 w3 s : ∃ pre, s = pre +:+ drop_ws w1 w2 w3 s.
Proof.
  remember (String.length s) as n eqn:Hn. revert s Hn.
  induction (lt_wf n) as [n _ IH]. intros s ->.
  destruct s as [|a s1]; [by exists ""|]. simpl. destruct (w1 a).
  { destruct (IH (String.length s1)) with s1 as [pre Hp]; [simpl; lia|done|].
    exists (String a pre). exact (f_equal (String a) Hp). }
  destruct s1 as [|b s2]; [by exists ""|]. destruct (w2 a b).
  { destruct (IH (String.length s2)) with s2 as [pre Hp]; [simpl; lia|done|].
    exists (String a (String b pre)).
    exact (f_equal (λ s, String a (String b s)) Hp). }
  destruct s2 as [|c s3]; [by exists ""|]. destruct (w3 a b c); [|by exists ""].
  destruct (IH (String.length s3)) with s3 as [pre Hp]; [simpl; lia|done|].
  exists (String a (String b (String c pre))).
  exact (f_equal (λ s, String a (String b (String c s))) Hp).
Qed.

Lemma string_length_rev s : String.length (String.rev s) = String.length s.
Proof.
  assert (Hlen : ∀ s, String.length s = length (chars s)).
  { intros s'. induction s' as [|a s' IH]; simpl; [done|]. by rewrite IH. }
  by rewrite !Hlen, las_rev, length_reverse.
Qed.

Lemma trim_end_length s : String.length (trim_end s) ≤ String.length s.
Proof.
  unfold trim_end. rewrite string_length_rev, <- (string_length_rev s).
  set (f := drop_ws _ _ _). destruct (drop_ws_suffix ws1 (λ b a, ws2 a b) (λ c b a, ws3 a b c)
    (String.rev s)) as [pre Hp].
  rewrite Hp at 2. rewrite string_length_app. unfold f. lia.
Qed.

(** Text without margins has none at its end. *)
Lemma trim_end_of_trimmed s : trim s = s → trim_end s = s.
Proof.
  intros H. unfold trim in H. destruct (drop_ws_suffix ws1 ws2 ws3 s) as [pre Hp].
  fold trim_start in Hp. pose proof (trim_end_length (trim_start s)) as Hlen.
  rewrite H in Hlen. rewrite Hp in Hlen at 1. rewrite string_length_app in Hlen.
  destruct pre as [|a pre]; [|simpl in Hlen; lia].
  change (s = trim_start s) in Hp. congruence.
Qed.
