(* ===== verification/Errors.v ===== *)
(** * The core error type

    [crates/mail-mcp-core/src/error.rs]: the enum [Error], with the text of
    the foreign error where the source wraps one, and its [Display]. *)
From S2P Require Export Prelude.

Inductive Error : Type :=
| Config (msg : string)
| NotFound (msg : string)
| PermissionDenied (msg : string)
| Provider (msg : string)
| OAuth (msg : string)
| Storage (text : string)
| Keychain (text : string)
| Io (text : string)
| Http (text : string)
| Json (text : string)
| ApprovalTimeout
| ApprovalRejected
| Internal (msg : string).

Global Instance Error_eq_dec : EqDecision Error.
Proof. solve_decision. Defined.

(** [e.to_string()]: the [#[error(...)]] attributes. *)
Definition error_to_string (e : Error) : string :=
  match e with
  | Config m => "config error: " +:+ m
  | NotFound m => "not found: " +:+ m
  | PermissionDenied m => "permission denied: " +:+ m
  | Provider m => "provider error: " +:+ m
  | OAuth m => "oauth error: " +:+ m
  | Storage m => "storage error: " +:+ m
  | Keychain m => "keychain error: " +:+ m
  | Io m => "io error: " +:+ m
  | Http m => "http error: " +:+ m
  | Json m => "json error: " +:+ m
  | ApprovalTimeout => "approval timed out"
  | ApprovalRejected => "approval rejected by user"
  | Internal m => "internal: " +:+ m
  end.

(** [error::Result] *)
Abbreviation Result := (Res Error).
