(* ===== verification/Json.v ===== *)
(** * JSON values

    The data model of [serde_json::Value], its accessors, and the meaning of
    the [#[derive(Deserialize)]] field attributes on a JSON object: a plain
    field must be present, [#[serde(default)]] supplies the default when the
    key is absent, an [Option] field is [None] when the key is absent or
    [null], and unknown keys are ignored. A decoder answers [None] where
    serde answers an error. Printing and parsing of JSON text belong to the
    serde library (see [Platform]). *)
From Stdlib Require OrdersEx.
From S2P Require Export Prelude.

Inductive Number : Type :=
| PosInt (n : Z)
| NegInt (n : Z)
| Float (text : string).

Inductive Value : Type :=
| VNull
| VBool (b : bool)
| VNumber (n : Number)
| VString (s : string)
| VArray (vs : list Value)
| VObject (kvs : list (string * Value)).

(** ** Accessors *)

Fixpoint assoc (k : string) (kvs : list (string * Value)) : option Value :=
  match kvs with
  | [] => None
  | (k', v) :: kvs => if String.eqb k' k then Some v else assoc k kvs
  end.

Definition get (k : string) (v : Value) : option Value :=
  match v with VObject kvs => assoc k kvs | _ => None end.

Definition as_str (v : Value) : option string :=
  match v with VString s => Some s | _ => None end.

Definition as_bool (v : Value) : option bool :=
  match v with VBool b => Some b | _ => None end.

Definition as_u64 (v : Value) : option Z :=
  match v with VNumber (PosInt n) => Some n | _ => None end.

Definition as_array (v : Value) : option (list Value) :=
  match v with VArray vs => Some vs | _ => None end.

(** [v.get(k).and_then(|v| v.as_str())] *)
Definition get_str (k : string) (v : Value) : option string := get k v ≫= as_str.

Definition get_bool (k : string) (v : Value) : option bool := get k v ≫= as_bool.

(** [serde_json::json!] of an integer and of an [Option]. *)
Definition VInt (n : Z) : Value := VNumber (if (n <? 0)%Z then NegInt n else PosInt n).

Definition VOption {A} (f : A → Value) (o : option A) : Value :=
  match o with Some a => f a | None => VNull end.

(** A field written under [skip_serializing_if = "Option::is_none"]. *)
Definition opt_field {A} (k : string) (f : A → Value) (o : option A) :
    list (string * Value) :=
  match o with Some a => [(k, f a)] | None => [] end.

(** ** Nesting *)

(** How deep arrays and objects nest. *)
Fixpoint value_depth (v : Value) : nat :=
  match v with
  | VArray vs => S (max_list (value_depth <$> vs))
  | VObject kvs =>
      S (max_list ((λ kv : string * Value, let '(_, v) := kv in value_depth v) <$> kvs))
  | _ => 0
  end.

Lemma get_depth k v x : get k v = Some x → value_depth x < value_depth v.
Proof.
  destruct v as [| | | | |kvs]; simpl; try done. intros Hx.
  apply Nat.lt_succ_r, max_list_elem_of_le, list_elem_of_fmap.
  induction kvs as [|[k' v] kvs IH]; simpl in Hx; [done|].
  destruct (String.eqb k' k).
  - injection Hx as ->. exists (k', x). split; [done|left].
  - destruct (IH Hx) as (kv & Hd & Hin). exists kv. split; [done|by right].
Qed.

Lemma elem_depth v vs : v ∈ vs → value_depth v < value_depth (VArray vs).
Proof.
  intros Hv. simpl. apply Nat.lt_succ_r, max_list_elem_of_le, list_elem_of_fmap. eauto.
Qed.

(** ** Values that survive printing and parsing

    Integers in the range of serde_json's [u64] and [i64], objects in the order
    of its [BTreeMap], nested no deeper than its recursion limit allows. Floats
    are left out. *)
Fixpoint keys_ascending (keys : list string) : bool :=
  match keys with
  | k1 :: (k2 :: _) as rest => String.ltb k1 k2 && keys_ascending rest
  | _ => true
  end.

Fixpoint canonical (depth : nat) (v : Value) : bool :=
  match v, depth with
  | VNull, _ | VBool _, _ | VString _, _ => true
  | VNumber (PosInt n), _ => ((0 <=? n) && (n <? 2 ^ 64))%Z
  | VNumber (NegInt n), _ => ((- 2 ^ 63 <=? n) && (n <? 0))%Z
  | VNumber (Float _), _ => false
  | VArray vs, S depth => forallb (canonical depth) vs
  | VObject kvs, S depth =>
      keys_ascending kvs.*1 && forallb (canonical depth) kvs.*2
  | _, 0 => false
  end.

Lemma canonical_array depth vs :
  canonical (S depth) (VArray vs) = forallb (canonical depth) vs.
Proof. done. Qed.

Lemma canonical_string depth s : canonical depth (VString s) = true.
Proof. by destruct depth. Qed.

(** ** What parsing makes of an object

    [serde_json::Map] is a [BTreeMap]: parsing collects the members in the order
    of their keys. *)
Fixpoint insert_key (k : string) (v : Value) (kvs : list (string * Value)) :
    list (string * Value) :=
  match kvs with
  | [] => [(k, v)]
  | (k', v') :: rest =>
      if String.eqb k k' then (k, v) :: rest
      else if String.ltb k k' then (k, v) :: kvs
      else (k', v') :: insert_key k v rest
  end.

Definition sort_keys (kvs : list (string * Value)) : list (string * Value) :=
  foldl (λ m (kv : string * Value), insert_key kv.1 kv.2 m) [] kvs.

Fixpoint normalize (v : Value) : Value :=
  match v with
  | VArray vs => VArray (normalize <$> vs)
  | VObject kvs =>
      VObject (sort_keys ((λ kv : string * Value, let '(k, v) := kv in (k, normalize v)) <$> kvs))
  | _ => v
  end.

(** What [normalize] is the reading of: as [canonical], in any order of keys. *)
Fixpoint printable (depth : nat) (v : Value) : bool :=
  match v, depth with
  | VNull, _ | VBool _, _ | VString _, _ => true
  | VNumber (PosInt n), _ => ((0 <=? n) && (n <? 2 ^ 64))%Z
  | VNumber (NegInt n), _ => ((- 2 ^ 63 <=? n) && (n <? 0))%Z
  | VNumber (Float _), _ => false
  | VArray vs, S depth => forallb (printable depth) vs
  | VObject kvs, S depth =>
      bool_decide (NoDup kvs.*1) && forallb (printable depth) kvs.*2
  | _, 0 => false
  end.

Lemma printable_object depth kvs :
  printable (S depth) (VObject kvs) =
    bool_decide (NoDup kvs.*1) && forallb (printable depth) kvs.*2.
Proof. done. Qed.

Lemma printable_string depth s : printable depth (VString s) = true.
Proof. by destruct depth. Qed.

#[global] Arguments canonical : simpl never.
#[global] Arguments printable : simpl never.

(** The deepest nesting the parser accepts. *)
Definition json_max_depth : nat := 127.

(** ** Decoding *)

Definition De (A : Type) : Type := Value → option A.

Definition de_value : De Value := Some.
Definition de_string : De string := as_str.
Definition de_bool : De bool := as_bool.
Definition de_u64 : De Z := as_u64.

Definition de_i64 : De Z := λ v,
  match v with
  | VNumber (PosInt n) => if (n <=? 2 ^ 63 - 1)%Z then Some n else None
  | VNumber (NegInt n) => if (- 2 ^ 63 <=? n)%Z then Some n else None
  | _ => None
  end.

Definition de_vec {A} (d : De A) : De (list A) := λ v, as_array v ≫= mapM d.

Definition de_option {A} (d : De A) : De (option A) := λ v,
  match v with VNull => Some None | _ => Some <$> d v end.

(** A struct is read from a JSON object. *)
Definition de_struct {A} (d : De A) : De A := λ v,
  match v with VObject _ => d v | _ => None end.

Section fields.
Context {A : Type} (k : string) (d : De A).

Definition field : De A := λ v, get k v ≫= d.

Definition field_default (dflt : A) : De A := λ v,
  match get k v with Some x => d x | None => Some dflt end.

Definition field_option : De (option A) := λ v,
  match get k v with Some x => de_option d x | None => Some None end.
End fields.

(** ** Lemmas *)

(** Decoding an array depends on the decoder only at its elements. *)
Lemma de_vec_ext {A} (d1 d2 : De A) v :
  (∀ x, value_depth x < value_depth v → d1 x = d2 x) → de_vec d1 v = de_vec d2 v.
Proof.
  destruct v as [| | | |vs|]; try done. intros Hd.
  assert (Hall : Forall (λ x, d1 x = d2 x) vs).
  { apply Forall_forall. intros x Hx. by apply Hd, elem_depth. }
  unfold de_vec. simpl. clear Hd. induction Hall as [|x l Hx Hl IH]; [done|].
  simpl. by rewrite Hx, IH.
Qed.

Lemma field_default_absent {A} k (d : De A) dflt v :
  get k v = None → field_default k d dflt v = Some dflt.
Proof. unfold field_default. by intros ->. Qed.

Lemma field_option_absent {A} k (d : De A) v :
  get k v = None → field_option k d v = Some None.
Proof. unfold field_option. by intros ->. Qed.

Lemma field_present {A} k (d : De A) v a :
  field k d v = Some a → ∃ x, get k v = Some x ∧ d x = Some a.
Proof. unfold field. intros (x & ? & ?)%bind_Some. eauto. Qed.

(** ** Reading an object in another order of keys *)

Lemma assoc_insert_key k k' v m :
  assoc k (insert_key k' v m) = if String.eqb k' k then Some v else assoc k m.
Proof.
  induction m as [|[k1 v1] m IH]; simpl; [done|].
  destruct (String.eqb_spec k' k1) as [->|Hne]; simpl.
  { by destruct (String.eqb_spec k1 k). }
  destruct (String.ltb k' k1); simpl; [done|]. rewrite IH.
  destruct (String.eqb_spec k1 k) as [->|]; [|done].
  by destruct (String.eqb_spec k' k).
Qed.

Lemma assoc_not_in k kvs : k ∉ kvs.*1 → assoc k kvs = None.
Proof.
  induction kvs as [|[k' v] kvs IH]; simpl; [done|]. intros [Hne Hin]%not_elem_of_cons.
  rewrite (proj2 (String.eqb_neq k' k)) by congruence. by apply IH.
Qed.

Lemma assoc_sort_keys_from k kvs m :
  NoDup kvs.*1 →
  assoc k (foldl (λ m (kv : string * Value), insert_key kv.1 kv.2 m) m kvs) =
    match assoc k kvs with Some v => Some v | None => assoc k m end.
Proof.
  revert m. induction kvs as [|[k' v] kvs IH]; intros m; simpl; [done|].
  intros [Hnin Hnd]%NoDup_cons. rewrite IH by done. rewrite assoc_insert_key.
  destruct (String.eqb_spec k' k) as [->|]; [|done]. by rewrite assoc_not_in.
Qed.

Lemma assoc_sort_keys k kvs : NoDup kvs.*1 → assoc k (sort_keys kvs) = assoc k kvs.
Proof.
  intros Hnd. unfold sort_keys. rewrite assoc_sort_keys_from by done.
  by destruct (assoc k kvs).
Qed.

Lemma assoc_fmap (f : Value → Value) k kvs :
  assoc k ((λ kv : string * Value, let '(k, v) := kv in (k, f v)) <$> kvs) =
    f <$> assoc k kvs.
Proof.
  induction kvs as [|[k' v] kvs IH]; simpl; [done|]. by destruct (String.eqb k' k).
Qed.

Lemma keys_fmap (f : Value → Value) (kvs : list (string * Value)) :
  ((λ kv : string * Value, let '(k, v) := kv in (k, f v)) <$> kvs).*1 = kvs.*1.
Proof. induction kvs as [|[k v] kvs IH]; simpl; [done|]. by f_equal. Qed.

(** Reading a key does not see the reordering. *)
Lemma get_normalize k kvs :
  NoDup kvs.*1 → get k (normalize (VObject kvs)) = normalize <$> get k (VObject kvs).
Proof.
  intros Hnd. simpl. rewrite assoc_sort_keys by (by rewrite keys_fmap). apply assoc_fmap.
Qed.

Lemma normalize_string s : normalize (VString s) = VString s.
Proof. done. Qed.

(** ** Canonical values are their own reading *)

Lemma string_compare_OT s1 s2 :
  String.compare s1 s2 = OrdersEx.String_as_OT.compare s1 s2.
Proof. reflexivity. Qed.

Lemma ltb_lt s1 s2 : String.ltb s1 s2 = true ↔ OrdersEx.String_as_OT.lt s1 s2.
Proof.
  unfold String.ltb, OrdersEx.String_as_OT.lt. rewrite string_compare_OT.
  by destruct (OrdersEx.String_as_OT.compare s1 s2).
Qed.

Lemma ltb_irrefl s : String.ltb s s = false.
Proof.
  destruct (String.ltb s s) eqn:E; [|done]. apply ltb_lt in E.
  exfalso. revert E. apply OrdersEx.String_as_OT.lt_strorder.
Qed.

Lemma ltb_trans s1 s2 s3 :
  String.ltb s1 s2 = true → String.ltb s2 s3 = true → String.ltb s1 s3 = true.
Proof. rewrite !ltb_lt. intros H1 H2. by transitivity s2. Qed.

Lemma ltb_asym s1 s2 : String.ltb s1 s2 = true → String.ltb s2 s1 = false.
Proof.
  intros H1. destruct (String.ltb s2 s1) eqn:H2; [|done].
  pose proof (ltb_trans _ _ _ H1 H2) as H. by rewrite ltb_irrefl in H.
Qed.

Definition above (kvs : list (string * Value)) (k : string) : Prop :=
  Forall (λ k', String.ltb k' k = true) kvs.*1.

Lemma insert_key_above k v kvs : above kvs k → insert_key k v kvs = kvs ++ [(k, v)].
Proof.
  induction kvs as [|[k' v'] kvs IH]; simpl; [done|]. intros [Hlt Hall]%Forall_cons. simpl in Hlt.
  destruct (String.eqb_spec k k') as [->|]; [by rewrite ltb_irrefl in Hlt|].
  rewrite (ltb_asym _ _ Hlt). by rewrite IH.
Qed.

Lemma keys_ascending_cons k keys :
  keys_ascending (k :: keys) = true →
  Forall (λ k', String.ltb k k' = true) keys ∧ keys_ascending keys = true.
Proof.
  revert k. induction keys as [|k1 keys IH]; intros k; [done|]. cbn -[String.ltb].
  intros [Hlt Hasc]%andb_prop. split; [|exact Hasc]. constructor; [done|].
  destruct (IH k1 Hasc) as [Hall _]. eapply Forall_impl; [exact Hall|].
  intros k' ?. by eapply ltb_trans.
Qed.

Lemma sort_keys_from kvs m :
  keys_ascending kvs.*1 = true → Forall (above m) kvs.*1 →
  foldl (λ m (kv : string * Value), insert_key kv.1 kv.2 m) m kvs = m ++ kvs.
Proof.
  revert m. induction kvs as [|[k v] kvs IH]; intros m Hasc Hall.
  { simpl. by rewrite app_nil_r. }
  change (((k, v) :: kvs).*1) with (k :: kvs.*1) in *.
  apply keys_ascending_cons in Hasc as [Hlt Hasc]. apply Forall_cons in Hall as [Hk Hall].
  simpl. rewrite insert_key_above by done. rewrite IH; [by rewrite <- app_assoc|done|].
  rewrite Forall_forall in Hlt, Hall |- *. intros k' Hin. unfold above.
  rewrite fmap_app. simpl. apply Forall_app. split; [by apply Hall|].
  constructor; [by apply Hlt|constructor].
Qed.

Lemma sort_keys_ascending kvs : keys_ascending kvs.*1 = true → sort_keys kvs = kvs.
Proof.
  intros Hasc. unfold sort_keys. rewrite sort_keys_from; [done|done|].
  apply Forall_forall. intros k _. constructor.
Qed.

Lemma keys_ascending_NoDup keys : keys_ascending keys = true → NoDup keys.
Proof.
  induction keys as [|k keys IH]; [constructor|]. intros [Hall Hasc]%keys_ascending_cons.
  constructor; [|by apply IH]. intros Hin. rewrite Forall_forall in Hall.
  specialize (Hall k Hin). simpl in Hall. by rewrite ltb_irrefl in Hall.
Qed.

(** A printed canonical value is read back as it is. *)
Lemma normalize_canonical depth v : canonical depth v = true → normalize v = v.
Proof.
  revert v. induction depth as [|depth IH]; intros [|b|[]|s|vs|kvs]; try done.
  - unfold canonical; fold canonical. intros Hall. simpl. f_equal.
    induction vs as [|v vs IHl]; [done|]. simpl in *. apply andb_prop in Hall as [Hv Hall].
    apply (f_equal2 cons); [by apply IH|by apply IHl].
  - unfold canonical; fold canonical. intros [Hasc Hall]%andb_prop. simpl. f_equal.
    assert (Heq : (λ kv : string * Value, let '(k, v) := kv in (k, normalize v)) <$> kvs = kvs).
    { clear Hasc. induction kvs as [|[k v] kvs IHl]; [done|]. simpl in *.
      apply andb_prop in Hall as [Hv Hall].
      apply (f_equal2 cons); [by rewrite IH|by apply IHl]. }
    rewrite Heq. by apply sort_keys_ascending.
Qed.

Lemma canonical_printable depth v : canonical depth v = true → printable depth v = true.
Proof.
  revert v. induction depth as [|depth IH]; intros [|b|[]|s|vs|kvs]; try done.
  - unfold canonical, printable; fold canonical printable.
    induction vs as [|v vs IHl]; simpl; [done|]. intros [Hv Hall]%andb_prop.
    rewrite IH by done. by apply IHl.
  - unfold canonical, printable; fold canonical printable. intros [Hasc Hall]%andb_prop.
    rewrite bool_decide_eq_true_2 by (by apply keys_ascending_NoDup). simpl. clear Hasc.
    induction kvs as [|[k v] kvs IHl]; simpl in *; [done|].
    apply andb_prop in Hall as [Hv Hall]. rewrite IH by done. by apply IHl.
Qed.
