(* ===== verification/Types.v ===== *)
(** * Identifiers and accounts

    [crates/mail-mcp-core/src/types.rs]. Each newtype of the source is a
    record of its own, so that a message id is never taken for a thread id. *)
From S2P Require Export Errors Json.

(** A ULID is a 128-bit number; its text form is the ulid library's. *)
Definition Ulid : Type := N.

Record AccountId : Type := mkAccountId { account_ulid : Ulid }.

Record MessageId : Type := MessageId_from { message_str : string }.
Record ThreadId : Type := ThreadId_from { thread_str : string }.
Record DraftId : Type := DraftId_from { draft_str : string }.
Record LabelId : Type := LabelId_from { label_str : string }.
Record FolderId : Type := FolderId_from { folder_str : string }.

Global Instance AccountId_eq_dec : EqDecision AccountId.
Proof. solve_decision. Defined.
Global Instance AccountId_countable : Countable AccountId :=
  inj_countable' account_ulid mkAccountId (λ '(mkAccountId _), eq_refl).
Global Instance MessageId_eq_dec : EqDecision MessageId.
Proof. solve_decision. Defined.
Global Instance MessageId_countable : Countable MessageId :=
  inj_countable' message_str MessageId_from (λ '(MessageId_from _), eq_refl).
Global Instance ThreadId_eq_dec : EqDecision ThreadId.
Proof. solve_decision. Defined.
Global Instance LabelId_eq_dec : EqDecision LabelId.
Proof. solve_decision. Defined.
Global Instance FolderId_eq_dec : EqDecision FolderId.
Proof. solve_decision. Defined.
Global Instance DraftId_eq_dec : EqDecision DraftId.
Proof. solve_decision. Defined.

(** Which mail provider an account belongs to. *)
Inductive ProviderKind : Type := Gmail | Microsoft365 | Imap.

Global Instance ProviderKind_eq_dec : EqDecision ProviderKind.
Proof. solve_decision. Defined.

(** [ProviderKind::as_str]; its serde names are the same strings. *)
Definition provider_as_str (k : ProviderKind) : string :=
  match k with
  | Gmail => "gmail"
  | Microsoft365 => "m365"
  | Imap => "imap"
  end.

(** [ProviderKind::from_str] *)
Definition provider_from_str (s : string) : string + ProviderKind :=
  if String.eqb s "gmail" then inr Gmail
  else if String.eqb s "m365" then inr Microsoft365
  else if String.eqb s "imap" then inr Imap
  else inl ("unknown provider kind: " +:+ s).

(** An instant, in nanoseconds since the epoch. *)
Definition DateTime : Type := Z.

Record Account : Type := mkAccount {
  acc_id : AccountId;
  acc_label : string;
  acc_provider : ProviderKind;
  acc_email : string;
  acc_config : Value;
  acc_scopes : list string;
  acc_created_at : DateTime;
  acc_last_validated : option DateTime;
}.

Lemma provider_from_as_str k : provider_from_str (provider_as_str k) = inr k.
Proof. by destruct k. Qed.

Lemma provider_from_str_Ok s k :
  provider_from_str s = inr k → s = provider_as_str k.
Proof.
  unfold provider_from_str.
  destruct (String.eqb_spec s "gmail"); [by intros [= <-]|].
  destruct (String.eqb_spec s "m365"); [by intros [= <-]|].
  destruct (String.eqb_spec s "imap"); [by intros [= <-]|done].
Qed.
