(* ===== verification/Schema.v ===== *)
(** * Data at rest

    The tables of [crates/mail-mcp-core/migrations], the row type of
    [accounts.rs], and the token and provider records of [oauth/mod.rs] that
    the rest of the state refers to. *)
From S2P Require Export Types.

(** A row of the table [accounts] ([AccountRow]). *)
Record AccountRow : Type := mkAccountRow {
  row_id : string;
  row_label : string;
  row_provider : string;
  row_email : string;
  row_config_json : string;
  row_scopes_json : string;
  row_created_at : Z;
  row_last_validated : option Z;
}.

(** The database: [accounts] by its primary key, [permissions] by its primary
    key [(account_id, category)], [app_state] by its key. *)
Record Db : Type := mkDb {
  db_accounts : gmap string AccountRow;
  db_permissions : gmap (string * string) string;
  db_app_state : gmap string string;
}.

Definition empty_db : Db := mkDb ∅ ∅ ∅.

(** Static configuration of an OAuth provider. *)
Record ProviderConfig : Type := mkProviderConfig {
  auth_url : string;
  token_url : string;
  client_id : string;
  default_scopes : list string;
}.

(** Tokens returned by the token endpoint. *)
Record OAuthTokens : Type := mkOAuthTokens {
  access_token : string;
  refresh_token : option string;
  expires_at : DateTime;
  scope : option string;
}.

(** [oauth::google::config] *)
Definition google_config (client_id : string) : ProviderConfig := {|
  auth_url := "https://accounts.google.com/o/oauth2/v2/auth";
  token_url := "https://oauth2.googleapis.com/token";
  client_id := client_id;
  default_scopes := [
    "https://www.googleapis.com/auth/gmail.modify";
    "https://www.googleapis.com/auth/gmail.compose";
    "https://www.googleapis.com/auth/gmail.send";
    "openid";
    "email";
    "profile"
  ];
|}.

(** [oauth::microsoft::config] *)
Definition microsoft_config (client_id : string) : ProviderConfig := {|
  auth_url := "https://login.microsoftonline.com/common/oauth2/v2.0/authorize";
  token_url := "https://login.microsoftonline.com/common/oauth2/v2.0/token";
  client_id := client_id;
  default_scopes := [
    "offline_access";
    "https://graph.microsoft.com/Mail.ReadWrite";
    "https://graph.microsoft.com/Mail.Send";
    "https://graph.microsoft.com/User.Read"
  ];
|}.
