(* ===== verification/StdPath.v ===== *)
(** * Paths, as [std::path] reads them on Unix

    A path is its text. [Path::join], [parent] and [file_name] split it at the
    slashes; empty and single-dot segments are skipped, except a leading dot. *)
From S2P Require Export RustStr.

Definition SLASH : ascii := "/"%char.

Definition is_absolute (p : string) : bool :=
  match p with String a _ => Ascii.eqb a SLASH | EmptyString => false end.

Definition ends_in (c : ascii) (p : string) : bool :=
  match String.rev p with String a _ => Ascii.eqb a c | EmptyString => false end.

(** [p.join(q)] *)
Definition path_join (p q : string) : string :=
  if is_absolute q then q
  else if String.eqb p "" || ends_in SLASH p then p +:+ q
  else p +:+ String SLASH q.

Definition skipped (seg : string) : bool := String.eqb seg "" || String.eqb seg ".".

Fixpoint drop_skipped (segs : list string) : list string :=
  match segs with
  | seg :: rest => if skipped seg then drop_skipped rest else segs
  | [] => []
  end.

(** [p.file_name()] *)
Definition file_name (p : string) : option string :=
  match drop_skipped (reverse (split SLASH p)) with
  | [] => None
  | seg :: _ => if String.eqb seg ".." then None else Some seg
  end.

(** The path made of the segments before the last component: the root, the
    leading dot or nothing when none is left. *)
Definition path_of (absolute dotted : bool) (segs : list string) : string :=
  match drop_skipped segs with
  | [] => if absolute then "/" else if dotted then "." else ""
  | segs => join "/" (reverse segs)
  end.

Definition dotted (segs : list string) : bool :=
  match segs with seg :: _ => String.eqb seg "." | [] => false end.

(** [p.parent()] *)
Definition parent (p : string) : option string :=
  let segs := split SLASH p in
  match drop_skipped (reverse segs) with
  | [] => if is_absolute p then None else if dotted segs then Some "" else None
  | _ :: rest => Some (path_of (is_absolute p) (dotted segs) rest)
  end.

(** A name that is one normal component. *)
Definition normal (n : string) : bool :=
  negb (contains SLASH n) && negb (skipped n) && negb (String.eqb n "..").

(** A path as [join] leaves it: without a trailing separator or dot. *)
Definition clean (p : string) : bool :=
  String.eqb p "" || String.eqb p "/" ||
  match reverse (split SLASH p) with seg :: _ => negb (skipped seg) | [] => false end.

(** ** Lemmas *)

#[global] Arguments SLASH : simpl never.

Lemma split_sep c s r : split c (s +:+ String c r) = split c s ++ split c r.
Proof.
  induction s as [|a s IH]; simpl; [by rewrite Ascii.eqb_refl|].
  destruct (Ascii.eqb a c); [by rewrite IH|]. rewrite IH.
  pose proof (split_not_nil c s). by destruct (split c s).
Qed.

Lemma normal_split n : normal n = true → split SLASH n = [n] ∧ skipped n = false ∧
  is_absolute n = false ∧ String.eqb n ".." = false.
Proof.
  unfold normal. intros [[Hc%negb_true_iff Hs%negb_true_iff]%andb_prop Hd%negb_true_iff]%andb_prop.
  split; [by apply split_no_char|]. split; [done|]. split; [|done].
  destruct n as [|a n]; [done|]. simpl in *. by apply orb_false_iff in Hc as [? _].
Qed.

Lemma split_join_normal p n :
  normal n = true →
  ∃ segs, split SLASH (path_join p n) = segs ++ [n] ∧
    (clean p = true → p ≠ "" → p ≠ "/" → segs = split SLASH p).
Proof.
  intros (Hn & _ & Habs & _)%normal_split. unfold path_join. rewrite Habs.
  destruct (String.eqb_spec p "") as [->|Hp]; simpl.
  { exists []. split; [exact Hn|done]. }
  destruct (ends_in SLASH p) eqn:He.
  - unfold ends_in in He. destruct (String.rev p) as [|a q] eqn:Hr; [done|].
    apply Ascii.eqb_eq in He as ->.
    assert (Hpq : p = String.rev q +:+ String SLASH "").
    { apply las_inj. rewrite <- (rev_involutive p), Hr, las_rev, las_app, las_rev. simpl.
      by rewrite reverse_cons. }
    exists (split SLASH (String.rev q)). split.
    { rewrite Hpq, string_app_assoc. change (String SLASH "" +:+ n) with (String SLASH n).
      by rewrite split_sep, Hn. }
    intros Hcl _ Hroot. exfalso. revert Hcl. unfold clean.
    rewrite (proj2 (String.eqb_neq p "") Hp), (proj2 (String.eqb_neq p "/") Hroot).
    rewrite Hpq, split_sep. by rewrite reverse_app.
  - exists (split SLASH p). by rewrite split_sep, Hn.
Qed.

Lemma file_name_join p n : normal n = true → file_name (path_join p n) = Some n.
Proof.
  intros Hn. destruct (split_join_normal p n Hn) as (segs & Hsegs & _).
  apply normal_split in Hn as (_ & Hs & _ & Hd). unfold file_name.
  rewrite Hsegs, reverse_app. simpl. by rewrite Hs, Hd.
Qed.

Lemma is_absolute_join p n :
  normal n = true → is_absolute (path_join p n) = is_absolute p.
Proof.
  intros (_ & _ & Habs & _)%normal_split. unfold path_join. rewrite Habs.
  destruct p as [|a p]; [done|]. simpl. by destruct (ends_in _ _).
Qed.

Lemma dotted_app segs segs' : segs ≠ [] → dotted (segs ++ segs') = dotted segs.
Proof. by destruct segs. Qed.

Lemma parent_join p n : clean p = true → normal n = true → parent (path_join p n) = Some p.
Proof.
  intros Hcl Hn. pose proof (is_absolute_join p n Hn) as Habs.
  destruct (split_join_normal p n Hn) as (segs & Hsegs & Hkeep).
  pose proof (normal_split n Hn) as (Hsn & Hs & Hna & _).
  destruct (String.eqb_spec p "") as [->|Hp].
  { assert (Hj : path_join "" n = n) by (unfold path_join; by rewrite Hna).
    unfold parent. rewrite Hj, Hsn, Hna. simpl. rewrite Hs.
    unfold skipped in Hs. apply orb_false_iff in Hs as [_ Hdot]. by rewrite Hdot. }
  destruct (String.eqb_spec p "/") as [->|Hroot].
  { assert (Hj : path_join "/" n = "" +:+ String SLASH n) by (unfold path_join; by rewrite Hna).
    unfold parent. rewrite Habs, Hj, split_sep, Hsn. simpl. by rewrite Hs. }
  unfold parent. rewrite Hsegs, (Hkeep Hcl Hp Hroot), Habs, reverse_app. simpl. rewrite Hs.
  f_equal. revert Hcl. unfold clean, path_of.
  rewrite (proj2 (String.eqb_neq p "") Hp), (proj2 (String.eqb_neq p "/") Hroot). simpl.
  destruct (reverse (split SLASH p)) as [|seg rest] eqn:Hr; [done|].
  intros Hseg%negb_true_iff. simpl. rewrite Hseg, <- Hr, reverse_involutive. apply join_split.
Qed.

Lemma clean_join p n : normal n = true → clean (path_join p n) = true.
Proof.
  intros Hn. destruct (split_join_normal p n Hn) as (segs & Hsegs & _).
  apply normal_split in Hn as (_ & Hs & _). unfold clean. rewrite Hsegs, reverse_app. simpl.
  rewrite Hs. by rewrite !orb_true_r.
Qed.

(** ** A parent is shorter *)

Lemma join_cons w ws : ws ≠ [] → join "/" (w :: ws) = w +:+ "/" +:+ join "/" ws.
Proof. by destruct ws. Qed.

Lemma length_join_app l1 l2 :
  l1 ≠ [] → l2 ≠ [] →
  String.length (join "/" (l1 ++ l2)) =
    String.length (join "/" l1) + 1 + String.length (join "/" l2).
Proof.
  intros H1 H2. induction l1 as [|w l1 IH]; [done|].
  destruct l1 as [|w' l1].
  - change ([w] ++ l2) with (w :: l2). rewrite join_cons, !string_length_app by done.
    change (join "/" [w]) with w. simpl. lia.
  - change ((w :: w' :: l1) ++ l2) with (w :: ((w' :: l1) ++ l2)).
    rewrite !join_cons, !string_length_app, IH by done. simpl String.length. lia.
Qed.

Lemma drop_skipped_suffix segs : ∃ pre, segs = pre ++ drop_skipped segs ∧
  Forall (λ seg, skipped seg = true) pre.
Proof.
  induction segs as [|seg segs (pre & IH & Hpre)]; simpl; [by exists []|].
  destruct (skipped seg) eqn:E.
  - exists (seg :: pre). simpl. split; [by f_equal|by constructor].
  - by exists [].
Qed.

Lemma drop_skipped_head segs seg rest :
  drop_skipped segs = seg :: rest → skipped seg = false.
Proof.
  induction segs as [|s segs IH]; simpl; [done|]. destruct (skipped s) eqn:E; [done|].
  by intros [= -> _].
Qed.

Lemma not_skipped_length seg : skipped seg = false → 1 ≤ String.length seg.
Proof. destruct seg; [done|]. simpl. lia. Qed.

(** The text of a list of segments is at least as long as that of its parts. *)
Lemma length_join_parts l1 seg l2 :
  String.length (join "/" l1) + String.length seg ≤
    String.length (join "/" (l1 ++ seg :: l2)) ∧
  (l1 ≠ [] → String.length (join "/" l1) + 1 + String.length seg ≤
    String.length (join "/" (l1 ++ seg :: l2))).
Proof.
  assert (Hseg : String.length seg ≤ String.length (join "/" (seg :: l2))).
  { destruct l2; [done|]. rewrite join_cons, string_length_app by done. lia. }
  destruct l1 as [|w l1].
  - simpl app. split; [simpl in *; lia|done].
  - rewrite length_join_app by done. lia.
Qed.

Lemma parent_shorter p d : parent p = Some d → String.length d < String.length p.
Proof.
  unfold parent. pose proof (join_split SLASH p) as Hp.
  set (segs := split SLASH p) in *. change (String SLASH "") with "/" in Hp.
  destruct (drop_skipped_suffix (reverse segs)) as (pre & Hpre & _).
  destruct (drop_skipped (reverse segs)) as [|seg rest] eqn:Hd.
  - destruct (is_absolute p) eqn:Habs; [done|].
    destruct (dotted segs) eqn:Hdot; [|done]. intros [= <-].
    destruct segs as [|s segs]; [done|]. simpl in Hdot. apply String.eqb_eq in Hdot as ->.
    rewrite <- Hp. destruct segs; simpl; lia.
  - pose proof (not_skipped_length seg (drop_skipped_head _ _ _ Hd)) as Hseg.
    apply (f_equal reverse) in Hpre. rewrite reverse_involutive, reverse_app, reverse_cons,
      <- app_assoc in Hpre. simpl in Hpre.
    intros [= <-]. unfold path_of.
    destruct (drop_skipped_suffix rest) as (pre' & Hrest & Hskip).
    destruct (drop_skipped rest) as [|seg' rest'].
    + (* only the root, the dot or nothing is left *)
      rewrite app_nil_r in Hrest. subst pre'.
      destruct (length_join_parts (reverse rest) seg (reverse pre)) as [H1 H2].
      rewrite <- Hpre, Hp in H1, H2.
      destruct (is_absolute p) eqn:Habs; [|destruct (dotted segs) eqn:Hdot; [|simpl; lia]].
      * destruct rest as [|r rest]; [|assert (reverse (r :: rest) ≠ []) as Hne
          by (intros Hn; apply (f_equal length) in Hn; rewrite length_reverse in Hn; done);
          specialize (H2 Hne); simpl; lia].
        exfalso. clear -Hpre Habs Hd Hp. simpl in Hpre.
        (* the first segment of an absolute path is empty *)
        destruct p as [|a p]; [done|]. simpl in Habs.
        unfold segs in Hpre. simpl in Hpre. rewrite Habs in Hpre. injection Hpre as <- _.
        by apply drop_skipped_head in Hd.
      * destruct rest as [|r rest]; [|assert (reverse (r :: rest) ≠ []) as Hne
          by (intros Hn; apply (f_equal length) in Hn; rewrite length_reverse in Hn; done);
          specialize (H2 Hne); simpl; lia].
        exfalso. simpl in Hpre. rewrite Hpre in Hdot. simpl in Hdot.
        apply String.eqb_eq in Hdot as ->. by apply drop_skipped_head in Hd.
    + (* a proper prefix of the segments *)
      rewrite Hrest, reverse_app in Hpre.
      set (l1 := reverse (seg' :: rest')) in *.
      assert (Hne : l1 ≠ []).
      { unfold l1. intros Hn. apply (f_equal length) in Hn. by rewrite length_reverse in Hn. }
      rewrite <- app_assoc in Hpre.
      assert (Hlen := length_join_app l1 (reverse pre' ++ seg :: reverse pre) Hne).
      rewrite <- Hpre, Hp in Hlen.
      rewrite Hlen by (by destruct (reverse pre')). lia.
Qed.

(** ** Names *)

Lemma file_name_no_slash p n : file_name p = Some n → contains SLASH n = false ∧ skipped n = false.
Proof.
  unfold file_name. destruct (drop_skipped (reverse (split SLASH p))) as [|seg rest] eqn:Hd; [done|].
  destruct (String.eqb seg ".."); [done|]. intros [= <-].
  split; [|by eapply drop_skipped_head].
  apply (split_no_sep SLASH p). rewrite <- elem_of_reverse.
  destruct (drop_skipped_suffix (reverse (split SLASH p))) as (pre & -> & _).
  rewrite Hd, elem_of_app, elem_of_cons. auto.
Qed.

Lemma file_name_parent p n : file_name p = Some n → parent p ≠ None.
Proof. unfold file_name, parent. by destruct (drop_skipped _). Qed.

(** A name made longer by a suffix is another normal name. *)
Lemma normal_suffix n x :
  contains SLASH n = false → contains SLASH x = false → 2 < String.length x →
  normal (n +:+ x) = true ∧ n +:+ x ≠ n.
Proof.
  intros Hn Hx Hlen.
  assert (Hl : String.length (n +:+ x) > 2) by (rewrite string_length_app; lia).
  split.
  - unfold normal, skipped. rewrite contains_app, Hn, Hx. simpl.
    destruct (String.eqb_spec (n +:+ x) "") as [E|]; [rewrite E in Hl; simpl in Hl; lia|].
    destruct (String.eqb_spec (n +:+ x) ".") as [E|]; [rewrite E in Hl; simpl in Hl; lia|].
    destruct (String.eqb_spec (n +:+ x) "..") as [E|]; [rewrite E in Hl; simpl in Hl; lia|done].
  - intros E. apply (f_equal String.length) in E. rewrite string_length_app in E. lia.
Qed.
