(* ===== verification/Platform.v ===== *)
(** * What lies outside the repository

    Third-party libraries, the operating system and the network are
    parameters of the model, grouped in type classes. An external call that
    can answer differently each time takes the history of the external calls
    made so far, so an instance can describe any behaviour of the
    environment, and a run is still a function. The laws the code relies on
    are separate classes, named where a theorem uses them. *)
From Stdlib Require Import Sorted.
From S2P Require Export Schema RustStr.

(** ** HTTP requests, as [reqwest] sends them *)

Inductive Method : Type := GET | POST | PUT | PATCH | DELETE.

Inductive Body : Type :=
| NoBody
| JsonBody (v : Value)
| FormBody (fields : list (string * string)).

Record Request : Type := mkRequest {
  rq_method : Method;
  rq_url : string;
  rq_bearer : option string;
  rq_body : Body;
}.

(** A response; the body is [None] when it is not JSON. *)
Record Response : Type := mkResponse {
  rs_status : Z;
  rs_body : option Value;
}.

(** ** The history of external calls *)

Inductive Ev : Type :=
| EvClock
| EvUlid
| EvRandom
| EvSql
| EvKeyring
| EvSocket
| EvHttp (rq : Request).

(** Newest first. *)
Definition History : Type := list Ev.

(** ** Libraries *)

(** The ulid crate: text forms of a ULID. *)
Class UlidLib := {
  ulid_to_string : Ulid → string;
  ulid_from_str : string → string + Ulid;
}.

(** serde_json: the compact and the indented text of a value, and the text of a
    decoding error of the named type. *)
Class SerdeLib := {
  json_to_string : Value → string;
  json_pretty : Value → string;
  json_from_str : string → string + Value;
  de_error : string → Value → string;
}.

(** chrono: conversions that can fail, and the range of an instant. *)
Class ChronoLib := {
  timestamp_opt : Z → option DateTime;
  from_timestamp_millis : Z → option DateTime;
  parse_from_rfc2822 : string → option DateTime;
  parse_from_rfc3339 : string → option DateTime;
  date_to_json : DateTime → Value;
  date_in_range : DateTime → bool;
}.

(** base64 (URL-safe alphabet, no padding), percent-encoding, SHA-256. *)
Class CodecLib := {
  b64url_encode : string → string;
  b64url_decode : string → option string;
  pct_encode : string → string;
  pct_decode_lossy : string → string;
  sha256 : string → string;
}.

(** Constraints of the schema a statement can violate. *)
Inductive Constraint : Type := Unique | CheckFailed | ForeignKey.

(** sqlx and SQLite: a statement may fail to run; [ORDER BY created_at ASC];
    the text of a constraint violation. *)
Class SqliteLib := {
  sql_fault : History → option string;
  constraint_text : Constraint → string;
  order_by_created_at : gmap string AccountRow → list AccountRow;
}.

Inductive KeyringError : Type :=
| NoEntry
| KeyringOther (text : string).

(** The keyring crate over the operating system's keychain. *)
Class KeyringLib := {
  kr_store : Type;
  kr_entry_new : string → string → option string;
  kr_set_password : string → string → string → kr_store →
    (KeyringError + unit) * kr_store;
  kr_get_password : string → string → kr_store → KeyringError + string;
  kr_delete_credential : string → string → kr_store →
    (KeyringError + unit) * kr_store;
  kr_error_text : KeyringError → string;
}.

(** reqwest: the reply to a request, and the texts of its errors. *)
Class HttpLib := {
  http_reply : History → Request → string + Response;
  http_status_text : Z → string;
  http_decode_text : string;
  header_to_str : string → option string;
}.

(** What a local process does to a listening port: the reads of the accepted
    socket, with the time each step takes; a process may also stay silent. *)
Inductive ReadResult : Type :=
| ReadBytes (s : string)
| ReadError (text : string)
| Silent.

Inductive Accept : Type :=
| Accepted (wait : Z) (r : ReadResult) (took : Z)
| AcceptError (wait : Z) (text : string).

(** tokio's listener on 127.0.0.1: the port (or the error) of a bind, and the
    traffic a port then receives; the text of a join error. *)
Class NetLib := {
  bind_loopback : History → string + Z;
  loopback_traffic : History → Z → list Accept;
  join_error_text : string;
}.

(** mail-builder: what a builder was given, and the bytes it writes (the
    message id and the boundaries are its own). *)
Record Mime : Type := mkMime {
  mm_from : option string;
  mm_to : list string;
  mm_cc : option (list string);
  mm_bcc : option (list string);
  mm_subject : string;
  mm_text : option string;
  mm_html : option string;
  mm_in_reply_to : option string;
}.

Class MimeLib := {
  mime_write : History → Mime → string + string;
}.

(** The clock (nanoseconds since the epoch), fresh ULIDs and randomness. *)
Class EntropyLib := {
  clock_at : History → DateTime;
  ulid_at : History → Ulid;
  alphanumeric_at : History → nat → string;
  random_bytes_at : History → nat → string;
}.

Class Platform := {
  platform_ulid :: UlidLib;
  platform_serde :: SerdeLib;
  platform_chrono :: ChronoLib;
  platform_codec :: CodecLib;
  platform_sqlite :: SqliteLib;
  platform_keyring :: KeyringLib;
  platform_http :: HttpLib;
  platform_net :: NetLib;
  platform_mime :: MimeLib;
  platform_entropy :: EntropyLib;
}.

(** ** Laws *)

(** Printing a ULID and parsing it back. *)
Class UlidLaws `{UlidLib} : Prop := {
  ulid_round_trip u : ulid_from_str (ulid_to_string u) = inr u;
}.

(** ULIDs drawn at different moments differ. *)
Class UlidFresh `{EntropyLib} : Prop := {
  ulid_fresh h1 h2 : ulid_at h1 = ulid_at h2 → length h1 = length h2;
}.

(** Printing a JSON value and parsing it back, which puts the members of the
    objects in order; compact text is one line without margins. *)
Class SerdeLaws `{SerdeLib} : Prop := {
  json_print_parse v :
    printable json_max_depth v = true → json_from_str (json_to_string v) = inr (normalize v);
  json_pretty_parse v :
    printable json_max_depth v = true → json_from_str (json_pretty v) = inr (normalize v);
  json_one_line v : contains LF (json_to_string v) = false;
  json_trim v : trim (json_to_string v) = json_to_string v;
  json_trim_line v : trim (json_to_string v +:+ lf) = json_to_string v;
}.

Lemma json_round_trip `{SerdeLaws} v :
  canonical json_max_depth v = true → json_from_str (json_to_string v) = inr v.
Proof.
  intros Hc. rewrite json_print_parse by (by apply canonical_printable).
  f_equal. by eapply normalize_canonical.
Qed.

(** base64url without padding is letters, digits, [-] and [_]. *)
Class CodecLaws `{CodecLib} : Prop := {
  b64url_visible s : Forall (λ a, between 32 126 a = true) (chars (b64url_encode s));
}.

(** [Utc::now().timestamp()] is in the range of [timestamp_opt]; a whole
    second converts to the instant of that second. *)
Class ChronoLaws `{ChronoLib, EntropyLib} : Prop := {
  timestamp_opt_second t d : timestamp_opt t = Some d → d = (t * 10 ^ 9)%Z;
  timestamp_opt_now h : is_Some (timestamp_opt (clock_at h / 10 ^ 9));
}.

(** [ORDER BY created_at ASC] returns every row once, oldest first. *)
Class SqliteLaws `{SqliteLib} : Prop := {
  order_by_perm m : order_by_created_at m ≡ₚ (map_to_list m).*2;
  order_by_sorted m :
    StronglySorted (λ r1 r2, row_created_at r1 ≤ row_created_at r2)%Z
      (order_by_created_at m);
}.

(** The keychain is a map from (service, user) to password; a failed call
    leaves it as it was. *)
Class KeyringLaws `{KeyringLib} := {
  kr_view : kr_store → gmap (string * string) string;
  kr_set_ok s u p k k' :
    kr_set_password s u p k = (inr tt, k') → kr_view k' = <[(s, u) := p]> (kr_view k);
  kr_set_err s u p k e k' :
    kr_set_password s u p k = (inl e, k') → kr_view k' = kr_view k;
  kr_get_ok s u p k :
    kr_get_password s u k = inr p → kr_view k !! (s, u) = Some p;
  kr_get_no_entry s u k :
    kr_get_password s u k = inl NoEntry → kr_view k !! (s, u) = None;
  kr_delete_ok s u k k' :
    kr_delete_credential s u k = (inr tt, k') → kr_view k' = delete (s, u) (kr_view k);
  kr_delete_no_entry s u k k' :
    kr_delete_credential s u k = (inl NoEntry, k') →
    kr_view k' = kr_view k ∧ kr_view k !! (s, u) = None;
  kr_delete_err s u k e k' :
    kr_delete_credential s u k = (inl e, k') → kr_view k' = kr_view k;
}.
