(* ===== verification/Os.v ===== *)
(** * The file system, as other processes see it change

    The calls of [std::fs] the program makes, over a map from paths to files. A
    call may fail for any reason; the state keeps the earlier states of the file
    system, since another process can look between two calls. A path is the name
    of one file: links and aliases are left out. *)
From S2P Require Export StdPath Platform.

(** ** Files and errors *)

Inductive Kind : Type := Regular | Directory | Socket.

Global Instance Kind_eq_dec : EqDecision Kind.
Proof. solve_decision. Defined.

Record File : Type := mkFile { f_kind : Kind; f_mode : Z; f_content : string }.

Abbreviation Fs := (gmap string File).

(** The kinds of [std::io::Error] the program can tell apart, and the others. *)
Inductive IoKind : Type := KNotFound | KExists | KIsDirectory | KNotDirectory | KInUse | KOther.

Global Instance IoKind_eq_dec : EqDecision IoKind.
Proof. solve_decision. Defined.

Record IoError : Type := mkIoError { io_kind : IoKind; io_text : string }.

(** The system calls, as the environment tells them apart. *)
Inductive OsCall : Type :=
| OsMkdir (p : string)
| OsChmod (p : string) (mode : Z)
| OsUnlink (p : string)
| OsCreate (p : string)
| OsOpen (p : string)
| OsLock (p : string)
| OsTruncate (p : string)
| OsWrite (p : string)
| OsRename (p q : string)
| OsListen (p : string)
| OsRead (p : string).

(** The operating system: which call fails, given those made before; how much of
    the data a failed write leaves; the messages of errors; the process. *)
Class OsLib := {
  os_fault : list OsCall → OsCall → option IoError;
  os_short_write : list OsCall → nat;
  os_message : IoKind → string;
  os_umask : Z;
  os_pid : N;
}.

(** The files now, the states before, newest first, and the calls made. *)
Record Os : Type := mkOs { os_fs : Fs; os_past : list Fs; os_calls : list OsCall }.

Definition seen (s : Os) : list Fs := os_fs s :: os_past s.

Definition record_call (c : OsCall) (s : Os) : Os :=
  mkOs (os_fs s) (os_past s) (c :: os_calls s).
Definition put_fs (fs : Fs) (s : Os) : Os := mkOs fs (seen s) (os_calls s).

Definition kind_of (fs : Fs) (p : string) : option Kind :=
  if String.eqb p "/" || String.eqb p "." then Some Directory else f_kind <$> fs !! p.

Definition is_dir (fs : Fs) (p : string) : bool :=
  bool_decide (kind_of fs p = Some Directory).

Definition fs_exists (fs : Fs) (p : string) : bool := bool_decide (is_Some (kind_of fs p)).

Definition masked (umask mode : Z) : Z := Z.land mode (Z.lnot umask).

(** Whether a process of another user may use the file. *)
Definition exposed (f : File) : bool := negb (Z.land (f_mode f) 63 =? 0)%Z.

Section os.
Context `{OS : OsLib}.

(** [io::Result] *)
Definition FM (A : Type) : Type := ST Os IoError A.

(** One system call: it fails by the environment's choice or by its own rules,
    or takes effect at once. *)
Definition os_call {A} (c : OsCall) (f : Fs → IoKind + (A * Fs)) : FM A := λ s,
  let s1 := record_call c s in
  match os_fault (os_calls s) c with
  | Some e => (Err e, s1)
  | None =>
      match f (os_fs s) with
      | inl k => (Err (mkIoError k (os_message k)), s1)
      | inr (a, fs) => (Ok a, put_fs fs s1)
      end
  end.

(** A name can be created when it is free and its parent is a directory. *)
Definition creatable (fs : Fs) (p : string) : option IoKind :=
  if fs_exists fs p then Some KExists
  else match parent p with
       | None => Some KExists
       | Some d =>
           if String.eqb d "" || is_dir fs d then None
           else if fs_exists fs d then Some KNotDirectory else Some KNotFound
       end.

Definition create_node (p : string) (f : File) (fs : Fs) : IoKind + (unit * Fs) :=
  match creatable fs p with
  | Some k => inl k
  | None => inr (tt, <[p := f]> fs)
  end.

Definition mkdir (p : string) : FM unit :=
  os_call (OsMkdir p) (create_node p (mkFile Directory (masked os_umask 511) "")).

(** A failed [mkdir] is fine when a directory was there. *)
Definition unless_dir (p : string) (e : IoError) : FM unit :=
  ok ← gets (λ s, is_dir (os_fs s) p);
  if bool_decide (io_kind e = KExists) && ok then mret tt else throw e.

(** [fs::create_dir_all]: a missing parent is created first; a directory that is
    there is fine. *)
Fixpoint create_dirs (fuel : nat) (p : string) : FM unit :=
  match parent p with
  | None => mret tt
  | Some d =>
      r ← catch (mkdir p);
      match r with
      | inr _ => mret tt
      | inl e =>
          match io_kind e, fuel with
          | KNotFound, S fuel =>
              _ ← create_dirs fuel d;
              r ← catch (mkdir p);
              match r with inr _ => mret tt | inl e => unless_dir p e end
          | _, _ => unless_dir p e
          end
      end
  end.

Definition create_dir_all (p : string) : FM unit := create_dirs (String.length p) p.

(** [fs::set_permissions] *)
Definition set_permissions (p : string) (mode : Z) : FM unit :=
  os_call (OsChmod p mode) (λ fs,
    match fs !! p with
    | Some f => inr (tt, <[p := mkFile (f_kind f) mode (f_content f)]> fs)
    | None => inl KNotFound
    end).

(** [path.exists()] *)
Definition path_exists (p : string) : FM bool := gets (λ s, fs_exists (os_fs s) p).

(** [fs::remove_file] *)
Definition remove_file (p : string) : FM unit :=
  os_call (OsUnlink p) (λ fs,
    match kind_of fs p with
    | None => inl KNotFound
    | Some Directory => inl KIsDirectory
    | Some _ => inr (tt, delete p fs)
    end).

(** [OpenOptions::create_new(true).mode(mode).open] *)
Definition open_new (p : string) (mode : Z) : FM unit :=
  os_call (OsCreate p) (create_node p (mkFile Regular (masked os_umask mode) "")).

(** [OpenOptions::create(true).truncate(false).open] *)
Definition open_create (p : string) : FM unit :=
  os_call (OsOpen p) (λ fs,
    match kind_of fs p with
    | Some Regular => inr (tt, fs)
    | Some Directory => inl KIsDirectory
    | Some Socket => inl KOther
    | None => create_node p (mkFile Regular (masked os_umask 438) "") fs
    end).

(** [FileExt::try_lock_exclusive]; who holds the lock is the environment's. *)
Definition try_lock (p : string) : FM unit := os_call (OsLock p) (λ fs, inr (tt, fs)).

(** Writing at the start of a file keeps what lies beyond. *)
Definition overwrite (bytes old : string) : string :=
  bytes +:+ String.substring (String.length bytes) (String.length old) old.

Definition set_content (p : string) (g : string → string) (fs : Fs) : Fs :=
  alter (λ f, mkFile (f_kind f) (f_mode f) (g (f_content f))) p fs.

(** [file.set_len(0)] *)
Definition truncate_file (p : string) : FM unit :=
  os_call (OsTruncate p) (λ fs, inr (tt, set_content p (λ _, "") fs)).

(** [file.write_all(bytes)] of a file just opened; a failure may leave some. *)
Definition write_file (p : string) (bytes : string) : FM unit := λ s,
  let s1 := record_call (OsWrite p) s in
  match os_fault (os_calls s) (OsWrite p) with
  | Some e =>
      let part := String.substring 0 (os_short_write (os_calls s)) bytes in
      (Err e, put_fs (set_content p (overwrite part) (os_fs s)) s1)
  | None => (Ok tt, put_fs (set_content p (overwrite bytes) (os_fs s)) s1)
  end.

(** [fs::rename], which replaces the destination. *)
Definition rename (p q : string) : FM unit :=
  os_call (OsRename p q) (λ fs,
    match fs !! p, kind_of fs q with
    | None, _ => inl KNotFound
    | Some _, Some Directory => inl KIsDirectory
    | Some f, _ => inr (tt, <[q := f]> (delete p fs))
    end).

(** [UnixListener::bind]: the socket file appears. *)
Definition listen (p : string) : FM unit :=
  os_call (OsListen p) (λ fs,
    match create_node p (mkFile Socket (masked os_umask 511) "") fs with
    | inl KExists => inl KInUse
    | other => other
    end).

(** [fs::read] *)
Definition read_file (p : string) : FM string :=
  os_call (OsRead p) (λ fs,
    match kind_of fs p, fs !! p with
    | Some Directory, _ => inl KIsDirectory
    | _, Some f => inr (f_content f, fs)
    | _, None => inl KNotFound
    end).
End os.

(** The errors of another result type: [?] and [with_context]. *)
Definition map_error {S E1 E2 A} (f : E1 → E2) (m : ST S E1 A) : ST S E2 A := λ s,
  match m s with
  | (Ok a, s') => (Ok a, s')
  | (Err e, s') => (Err (f e), s')
  | (Panic, s') => (Panic, s')
  | (Hang, s') => (Hang, s')
  end.

(** [Error::Io], and the message of an [anyhow::Error]. *)
Definition core_io {A} (m : FM A) : ST Os Error A := map_error (λ e, Io (io_text e)) m.
Definition anyhow_io {A} (m : FM A) : ST Os string A := map_error io_text m.

(** [with_context(|| text)]: the message is the context's. *)
Definition with_context {S E A} (text : string) (m : ST S E A) : ST S string A :=
  map_error (λ _, text) m.

Lemma set_content_eq p g (fs : Fs) f :
  fs !! p = Some f → set_content p g fs = <[p := mkFile (f_kind f) (f_mode f) (g (f_content f))]> fs.
Proof.
  intros Hf. apply map_eq. intros q. unfold set_content. destruct (decide (p = q)) as [<-|Hne].
  - by rewrite lookup_alter_eq, lookup_insert_eq, Hf.
  - by rewrite lookup_alter_ne, lookup_insert_ne.
Qed.

(** ** What the calls keep *)

(** Every state of the file system so far satisfies [I]. *)
Definition always (I : Fs → Prop) (s : Os) : Prop := Forall I (seen s).

Lemma within_map_error {S E1 E2 A} (R : relation S) (f : E1 → E2) (m : ST S E1 A) :
  within R m → within R (map_error f m).
Proof.
  intros Hm s. specialize (Hm s). unfold map_error. by destruct (m s) as [[] s'].
Qed.

Lemma within_with_context {S E A} (R : relation S) text (m : ST S E A) :
  within R m → within R (with_context text m).
Proof. apply within_map_error. Qed.

#[export] Hint Resolve within_map_error within_with_context : within.

Lemma masked_private umask mode : Z.land mode 63 = 0%Z → Z.land (masked umask mode) 63 = 0%Z.
Proof.
  intros H. unfold masked. rewrite (Z.land_comm mode), <- Z.land_assoc, H. apply Z.land_0_r.
Qed.

Section keeps.
Context `{OS : OsLib} (I : Fs → Prop).

Definition kept {E A} (m : ST Os E A) : Prop := within (keeps (always I)) m.

Lemma os_call_kept {A} c (f : Fs → IoKind + (A * Fs)) :
  (∀ fs a fs', I fs → f fs = inr (a, fs') → I fs') → kept (os_call c f).
Proof.
  intros Hf s Hs. unfold os_call. destruct (os_fault _ _); [exact Hs|].
  destruct (f (os_fs s)) as [k|[a fs]] eqn:E; [exact Hs|].
  apply Forall_cons. split; [|exact Hs].
  eapply Hf; [|exact E]. by apply Forall_cons in Hs as [? _].
Qed.

Lemma creatable_free fs p : creatable fs p = None → fs !! p = None ∧ p ≠ "/" ∧ p ≠ ".".
Proof.
  unfold creatable. destruct (fs_exists fs p) eqn:E; [done|]. intros _.
  apply bool_decide_eq_false in E. rewrite <- eq_None_not_Some in E. unfold kind_of in E.
  destruct (String.eqb_spec p "/"); [done|]. destruct (String.eqb_spec p "."); [done|].
  simpl in E. apply fmap_None in E. done.
Qed.

Lemma create_node_Ok p f fs a fs' :
  create_node p f fs = inr (a, fs') → creatable fs p = None ∧ fs' = <[p := f]> fs.
Proof. unfold create_node. destruct (creatable fs p); [done|]. by intros [= _ <-]. Qed.

(** The invariant is kept when a directory of a name in [P] appears. *)
Definition dirs_fine (P : string → Prop) : Prop := ∀ fs p m,
  P p → fs !! p = None → I fs → I (<[p := mkFile Directory m ""]> fs).

Lemma mkdir_kept p : dirs_fine (eq p) → kept (mkdir p).
Proof.
  intros Hd. apply os_call_kept. intros fs a fs' Hfs (Hc & ->)%create_node_Ok.
  apply creatable_free in Hc as [Hc _]. by apply Hd.
Qed.

Lemma unless_dir_kept p e : kept (unless_dir p e).
Proof. unfold unless_dir. apply within_bind; [apply _|apply within_gets, _|intros ok]. frame. Qed.

Lemma create_dirs_kept fuel p :
  dirs_fine (λ q, String.length q ≤ String.length p) → kept (create_dirs fuel p).
Proof.
  revert p. induction fuel as [|fuel IH]; intros p Hd; simpl;
    (destruct (parent p) as [d|] eqn:Hp; [|apply within_ret, _]);
    assert (Hmk : kept (mkdir p)) by (apply mkdir_kept; intros fs q m ->; by apply Hd);
    (apply within_bind; [apply _|by apply within_catch|]);
    intros [e|[]]; try (apply within_ret, _);
    assert (Hun : ∀ e, kept (unless_dir p e)) by (intros; apply unless_dir_kept).
  - destruct (io_kind e); apply Hun.
  - assert (Hrec : kept (create_dirs fuel d)).
    { apply IH. intros fs q m Hq. apply Hd. apply parent_shorter in Hp. simpl in *. lia. }
    destruct (io_kind e); frame.
Qed.

Lemma create_dir_all_kept p :
  dirs_fine (λ q, String.length q ≤ String.length p) → kept (create_dir_all p).
Proof. apply create_dirs_kept. Qed.

Lemma chmod_kept p mode :
  (∀ fs f, fs !! p = Some f → I fs → I (<[p := mkFile (f_kind f) mode (f_content f)]> fs)) →
  kept (set_permissions p mode).
Proof.
  intros H. apply os_call_kept. intros fs a fs' Hfs. destruct (fs !! p) eqn:E; [|done].
  intros [= _ <-]. by apply H.
Qed.

Lemma open_new_kept p mode :
  (∀ fs, fs !! p = None → I fs →
     I (<[p := mkFile Regular (masked os_umask mode) ""]> fs)) → kept (open_new p mode).
Proof.
  intros H. apply os_call_kept. intros fs a fs' Hfs (Hc & ->)%create_node_Ok.
  apply creatable_free in Hc as [Hc _]. by apply H.
Qed.

Lemma write_file_kept p bytes :
  (∀ fs g, I fs → I (set_content p g fs)) → kept (write_file p bytes).
Proof.
  intros H s Hs. unfold write_file.
  assert (Hfs : I (os_fs s)) by (by apply Forall_cons in Hs as [? _]).
  destruct (os_fault _ _); apply Forall_cons; split; try exact Hs; by apply H.
Qed.

Lemma remove_file_kept p :
  (∀ fs, I fs → I (delete p fs)) → kept (remove_file p).
Proof.
  intros H. apply os_call_kept. intros fs a fs' Hfs.
  destruct (kind_of fs p) as [[]|]; try done; intros [= _ <-]; by apply H.
Qed.

Lemma rename_kept p q :
  (∀ fs f, fs !! p = Some f → I fs → I (<[q := f]> (delete p fs))) → kept (rename p q).
Proof.
  intros H. apply os_call_kept. intros fs a fs' Hfs. destruct (fs !! p) eqn:E; [|done].
  destruct (kind_of fs q) as [[]|]; try done; intros [= _ <-]; by apply H.
Qed.

Lemma listen_kept p :
  (∀ fs m, fs !! p = None → I fs → I (<[p := mkFile Socket m ""]> fs)) → kept (listen p).
Proof.
  intros H. apply os_call_kept. intros fs a fs' Hfs.
  destruct (create_node _ _ fs) as [[]|] eqn:E; try done.
  intros [= ->]. apply create_node_Ok in E as (Hc & ->).
  apply creatable_free in Hc as [Hc _]. by apply H.
Qed.
End keeps.

(** A call that keeps a fact of the current file system which implies the
    invariant of all of them. *)
Lemma os_call_kept_now `{OS : OsLib} {A} (I J : Fs → Prop) c (f : Fs → IoKind + (A * Fs)) :
  (∀ fs, J fs → I fs) → (∀ fs a fs', J fs → f fs = inr (a, fs') → J fs') →
  within (keeps (λ s, always I s ∧ J (os_fs s))) (os_call c f).
Proof.
  intros HIJ HJ s [Hs Hj]. unfold os_call. destruct (os_fault _ _); [done|].
  destruct (f (os_fs s)) as [k|[a fs]] eqn:E; [done|]. apply HJ in E; [|done].
  split; [apply Forall_cons; split; [by apply HIJ|exact Hs]|exact E].
Qed.

Section created.
Context `{OS : OsLib}.

(** The fuel of [create_dir_all] is enough: more of it changes nothing. *)
Lemma create_dirs_enough f1 f2 p s :
  String.length p ≤ f1 → String.length p ≤ f2 → create_dirs f1 p s = create_dirs f2 p s.
Proof.
  revert f2 p s. induction f1 as [|f1 IH]; intros [|f2] p s H1 H2; try done.
  1,2: assert (Hlen : String.length p = 0) by lia; destruct p; [done|discriminate Hlen].
  simpl. destruct (parent p) as [d|] eqn:Hd; [|done]. apply parent_shorter in Hd.
  unfold mbind, st_bind. destruct (catch (mkdir p) s) as [[[e|[]]|e| |] s1]; try done.
  destruct (io_kind e); try done. by rewrite (IH f2 d s1) by lia.
Qed.

Lemma kind_of_insert p f fs :
  p ≠ "/" → p ≠ "." → kind_of (<[p := f]> fs) p = Some (f_kind f).
Proof.
  intros H1 H2. unfold kind_of. rewrite (proj2 (String.eqb_neq _ _) H1).
  rewrite (proj2 (String.eqb_neq _ _) H2). simpl. by rewrite lookup_insert_eq.
Qed.

Lemma mkdir_Ok p s u s' : mkdir p s = (Ok u, s') → is_dir (os_fs s') p = true.
Proof.
  unfold mkdir, os_call. destruct (os_fault _ _); [done|].
  destruct (create_node _ _ _) as [|[[] fs]] eqn:E; [done|]. intros [= _ <-].
  apply create_node_Ok in E as [Hc ->]. apply creatable_free in Hc as (_ & H1 & H2).
  apply bool_decide_eq_true. by apply kind_of_insert.
Qed.

Lemma catch_Ok {S E A} (m : ST S E A) s r s' :
  catch m s = (Ok r, s') →
  match r with inr a => m s = (Ok a, s') | inl e => m s = (Err e, s') end.
Proof. unfold catch. by destruct (m s) as [[] s1]; intros [= <- <-]. Qed.

Lemma unless_dir_Ok p e s u s' :
  unless_dir p e s = (Ok u, s') → is_dir (os_fs s') p = true.
Proof.
  intros H. apply bind_Ok in H as (ok & s1 & H1 & H). apply gets_Ok in H1 as [<- <-].
  destruct (_ && _) eqn:E; [|done]. apply ret_Ok in H as [_ <-]. by apply andb_prop in E as [_ ?].
Qed.

(** A directory that was to be made is there. *)
Lemma create_dirs_Ok fuel p s u s' :
  create_dirs fuel p s = (Ok u, s') → parent p ≠ None → is_dir (os_fs s') p = true.
Proof.
  intros H Hp. destruct fuel; simpl in H; destruct (parent p) as [d|]; try done;
    apply bind_Ok in H as (r & s1 & Hr & H); apply catch_Ok in Hr;
    (destruct r as [e|[]]; [|apply ret_Ok in H as [_ <-]; by eapply mkdir_Ok]).
  - destruct (io_kind e); by eapply unless_dir_Ok.
  - destruct (io_kind e); try (by eapply unless_dir_Ok).
    apply bind_Ok in H as (_ & s2 & _ & H). apply bind_Ok in H as (r & s3 & Hr' & H).
    apply catch_Ok in Hr'. destruct r as [e'|[]]; [by eapply unless_dir_Ok|].
    apply ret_Ok in H as [_ <-]. by eapply mkdir_Ok.
Qed.

Lemma create_dir_all_Ok p s u s' :
  create_dir_all p s = (Ok u, s') → parent p ≠ None → is_dir (os_fs s') p = true.
Proof. apply create_dirs_Ok. Qed.
End created.
