(* ===== verification/Paths.v ===== *)
(** * Where an installation keeps its files

    [crates/mail-mcp-core/src/paths.rs]: the four directories of a user, on each
    platform, the files in them, and their creation. The [dirs] crate, the
    environment and the user id are parameters. *)
From S2P Require Export Os.

Inductive Target : Type := MacOS | Linux | Windows.

Global Instance Target_eq_dec : EqDecision Target.
Proof. solve_decision. Defined.

(** The dirs crate, [std::env::var_os] and [geteuid]. *)
Class DirsLib := {
  dirs_home : option string;
  dirs_data : option string;
  dirs_data_local : option string;
  dirs_state : option string;
  dirs_cache : option string;
  dirs_runtime : option string;
  env_var : string → option string;
  euid : N;
}.

Record Paths : Type := mkPaths {
  data_dir : string;
  logs_dir : string;
  cache_dir : string;
  runtime_dir : string;
}.

Definition BACKSLASH : ascii := "\"%char.

(** [Path::join] of a relative name, with the separator of the platform. *)
Definition join_on (t : Target) (p n : string) : string :=
  match t with
  | Windows =>
      if String.eqb p "" || ends_in BACKSLASH p || ends_in SLASH p then p +:+ n
      else p +:+ String BACKSLASH n
  | _ => path_join p n
  end.

Section paths.
Context (t : Target).

(** [Paths::default_for_user] *)
Definition default_for_user `{DirsLib} : Result Paths :=
  match t with
  | MacOS =>
      match dirs_home with
      | None => Err (Config "no HOME dir")
      | Some home =>
          let tmpdir := default "/tmp" (env_var "TMPDIR") in
          Ok {| data_dir := path_join home "Library/Application Support/mail-mcp";
                logs_dir := path_join home "Library/Logs/mail-mcp";
                cache_dir := path_join home "Library/Caches/mail-mcp";
                runtime_dir := path_join tmpdir ("mail-mcp-" +:+ pretty euid) |}
      end
  | Linux =>
      match dirs_data with
      | None => Err (Config "no XDG data dir")
      | Some data =>
          match (match dirs_state with Some d => Some d | None => dirs_data_local end) with
          | None => Err (Config "no XDG state dir")
          | Some state =>
              match dirs_cache with
              | None => Err (Config "no XDG cache dir")
              | Some cache =>
                  Ok {| data_dir := path_join data "mail-mcp";
                        logs_dir := path_join state "mail-mcp/logs";
                        cache_dir := path_join cache "mail-mcp";
                        runtime_dir :=
                          match dirs_runtime with
                          | Some d => path_join d "mail-mcp"
                          | None => "/tmp/mail-mcp-" +:+ pretty euid
                          end |}
              end
          end
      end
  | Windows =>
      match dirs_data_local with
      | None => Err (Config "no LOCALAPPDATA")
      | Some d =>
          let local := join_on t d "mail-mcp" in
          Ok {| data_dir := local;
                logs_dir := join_on t local "logs";
                cache_dir := join_on t local "cache";
                runtime_dir := join_on t local "run" |}
      end
  end.

(** [Paths::with_root] *)
Definition with_root (root : string) : Paths := {|
  data_dir := join_on t root "data";
  logs_dir := join_on t root "logs";
  cache_dir := join_on t root "cache";
  runtime_dir := join_on t root "run";
|}.

Definition state_db (p : Paths) : string := join_on t (data_dir p) "state.db".
Definition endpoint_json (p : Paths) : string := join_on t (data_dir p) "endpoint.json".
Definition pid_file (p : Paths) : string := join_on t (runtime_dir p) "daemon.pid".

(** [ipc_socket] *)
Definition ipc_socket `{DirsLib} (p : Paths) : string :=
  match t with
  | Windows => "\\.\pipe\mail-mcp-" +:+ default "default" (env_var "USERNAME")
  | _ => join_on t (runtime_dir p) "ipc.sock"
  end.

(** [0o700] *)
Definition OWNER_ONLY : Z := 448.

(** [ensure_dirs] *)
Definition ensure_dirs `{OsLib} (p : Paths) : ST Os Error unit :=
  _ ← core_io (create_dir_all (data_dir p));
  _ ← core_io (create_dir_all (logs_dir p));
  _ ← core_io (create_dir_all (cache_dir p));
  _ ← core_io (create_dir_all (runtime_dir p));
  match t with
  | Windows => mret tt
  | _ =>
      _ ← core_io (set_permissions (runtime_dir p) OWNER_ONLY);
      core_io (set_permissions (data_dir p) OWNER_ONLY)
  end.
End paths.

(** ** Lemmas *)

Lemma map_error_Ok {S E1 E2 A} (f : E1 → E2) (m : ST S E1 A) s a s' :
  map_error f m s = (Ok a, s') ↔ m s = (Ok a, s').
Proof. unfold map_error. destruct (m s) as [[] s1]; naive_solver. Qed.

Section dirs.
Context `{OS : OsLib}.

(** A directory stays one whatever else is created or made private. *)
Lemma is_dir_insert fs p q f :
  is_dir fs q = true → (fs !! p = None ∨ ∃ g, fs !! p = Some g ∧ f_kind f = f_kind g) →
  is_dir (<[p := f]> fs) q = true.
Proof.
  unfold is_dir, kind_of. rewrite !bool_decide_eq_true.
  destruct (_ || _); [done|]. intros Hq Hp. destruct (decide (p = q)) as [->|Hne].
  - rewrite lookup_insert_eq. destruct Hp as [Hp|(g & Hp & Hk)]; rewrite Hp in Hq; [done|].
    simpl in *. by rewrite Hk.
  - by rewrite lookup_insert_ne.
Qed.

(** Once a path is a directory, the calls of this file leave it one. *)
Definition stays_dir (q : string) : relation Os :=
  keeps (λ s, is_dir (os_fs s) q = true).

Global Instance stays_dir_preorder q : PreOrder (stays_dir q) := keeps_preorder _.

Lemma os_call_fs {A} (Q : Fs → Prop) c (f : Fs → IoKind + (A * Fs)) :
  (∀ fs a fs', Q fs → f fs = inr (a, fs') → Q fs') →
  within (keeps (Q ∘ os_fs)) (os_call c f).
Proof.
  intros Hf s Hs. unfold os_call. destruct (os_fault _ _); [done|].
  destruct (f (os_fs s)) as [k|[a fs]] eqn:E; [done|]. simpl. by eapply Hf.
Qed.

Lemma mkdir_stays q p : within (stays_dir q) (mkdir p).
Proof.
  apply (os_call_fs (λ fs, is_dir fs q = true)).
  intros fs a fs' Hq (Hc & ->)%create_node_Ok. apply creatable_free in Hc as [Hc _].
  apply is_dir_insert; auto.
Qed.

Lemma create_dir_all_stays q p : within (stays_dir q) (create_dir_all p).
Proof.
  unfold create_dir_all. generalize (String.length p) as fuel. intros fuel. revert p.
  induction fuel as [|fuel IH]; intros p; simpl; (destruct (parent p); [|apply within_ret, _]);
    (apply within_bind; [apply _|apply within_catch, mkdir_stays|]);
    assert (Hun : ∀ e, within (stays_dir q) (unless_dir p e)) by (intros e; unfold unless_dir; frame);
    intros [e|[]]; try (apply within_ret, _).
  - destruct (io_kind e); apply Hun.
  - pose proof (mkdir_stays q p). destruct (io_kind e); frame.
Qed.

Lemma chmod_stays q p mode : within (stays_dir q) (set_permissions p mode).
Proof.
  apply (os_call_fs (λ fs, is_dir fs q = true)).
  intros fs a fs' Hq. destruct (fs !! p) as [g|] eqn:E; [|done].
  intros [= _ <-]. apply is_dir_insert; [done|]. right. by exists g.
Qed.

Lemma chmod_Ok p mode s u s' :
  set_permissions p mode s = (Ok u, s') →
  ∃ f, os_fs s !! p = Some f ∧
    os_fs s' = <[p := mkFile (f_kind f) mode (f_content f)]> (os_fs s).
Proof.
  unfold set_permissions, os_call. destruct (os_fault _ _); [done|].
  destruct (os_fs s !! p) as [f|] eqn:E; [|done]. intros [= _ <-]. by exists f.
Qed.
End dirs.

(** ** Properties *)

Section properties.
Context `{OS : OsLib} (t : Target).

(** When [ensure_dirs] succeeds on a Unix system, the four directories exist,
    and those of the state database, the endpoint file and the IPC socket are
    closed to every other user, whatever their modes were before. *)
Theorem ensure_dirs_ready p s s' :
  t ≠ Windows → ensure_dirs t p s = (Ok tt, s') →
  Forall (λ d, parent d ≠ None → is_dir (os_fs s') d = true)
    [data_dir p; logs_dir p; cache_dir p; runtime_dir p] ∧
  f_mode <$> os_fs s' !! data_dir p = Some OWNER_ONLY ∧
  f_mode <$> os_fs s' !! runtime_dir p = Some OWNER_ONLY.
Proof.
  intros Ht H. unfold ensure_dirs in H.
  apply bind_Ok in H as ([] & s1 & H1%map_error_Ok & H).
  apply bind_Ok in H as ([] & s2 & H2%map_error_Ok & H).
  apply bind_Ok in H as ([] & s3 & H3%map_error_Ok & H).
  apply bind_Ok in H as ([] & s4 & H4%map_error_Ok & H).
  assert (H56 : ∃ s5, set_permissions (runtime_dir p) OWNER_ONLY s4 = (Ok tt, s5) ∧
    set_permissions (data_dir p) OWNER_ONLY s5 = (Ok tt, s')).
  { destruct t; [..|done]; apply bind_Ok in H as ([] & s5 & H5%map_error_Ok & H6%map_error_Ok);
      by exists s5. }
  destruct H56 as (s5 & H5 & H6).
  assert (Hstep : ∀ q (m : FM unit) s s', within (stays_dir q) m → m s = (Ok tt, s') →
    is_dir (os_fs s) q = true → is_dir (os_fs s') q = true).
  { intros q m r r' Hm Hr. specialize (Hm r). rewrite Hr in Hm. exact Hm. }
  pose proof (λ q, Hstep q _ _ _ (create_dir_all_stays q _) H2) as K2.
  pose proof (λ q, Hstep q _ _ _ (create_dir_all_stays q _) H3) as K3.
  pose proof (λ q, Hstep q _ _ _ (create_dir_all_stays q _) H4) as K4.
  pose proof (λ q, Hstep q _ _ _ (chmod_stays q _ _) H5) as K5.
  pose proof (λ q, Hstep q _ _ _ (chmod_stays q _ _) H6) as K6.
  split.
  { repeat constructor; intros Hp; apply K6, K5;
      [apply K4, K3, K2|apply K4, K3|apply K4|]; by eapply create_dir_all_Ok. }
  apply chmod_Ok in H5 as (f & Hf & Hs5). apply chmod_Ok in H6 as (g & Hg & ->).
  split; [by rewrite lookup_insert_eq|].
  destruct (decide (data_dir p = runtime_dir p)) as [->|Hne]; [by rewrite lookup_insert_eq|].
  rewrite lookup_insert_ne by done. by rewrite Hs5, lookup_insert_eq.
Qed.

(** The files of an installation under one root are four different files, in two
    of its directories. *)
Theorem installed_files_apart `{DL : DirsLib} root :
  t ≠ Windows → clean root = true →
  let p := with_root t root in
  NoDup [state_db t p; endpoint_json t p; pid_file t p; ipc_socket t p] ∧
  parent (state_db t p) = Some (data_dir p) ∧ parent (endpoint_json t p) = Some (data_dir p) ∧
  parent (pid_file t p) = Some (runtime_dir p) ∧ parent (ipc_socket t p) = Some (runtime_dir p).
Proof.
  intros Ht Hr p. unfold p, state_db, endpoint_json, pid_file, ipc_socket, with_root, join_on.
  assert (Hpar : ∀ d n, d ∈ ["data"; "run"] →
    n ∈ ["state.db"; "endpoint.json"; "daemon.pid"; "ipc.sock"] →
    file_name (path_join (path_join root d) n) = Some n ∧
    parent (path_join (path_join root d) n) = Some (path_join root d)).
  { intros d n Hd Hn. assert (normal d = true ∧ normal n = true) as [Hnd Hnn].
    { split; [clear Hn; revert d Hd|clear Hd; revert n Hn]; apply Forall_forall;
        by repeat constructor. }
    split; [by apply file_name_join|]. apply parent_join; [by apply clean_join|done]. }
  assert (Hall : ∀ d1 n1 d2 n2,
    d1 ∈ ["data"; "run"] → n1 ∈ ["state.db"; "endpoint.json"; "daemon.pid"; "ipc.sock"] →
    d2 ∈ ["data"; "run"] → n2 ∈ ["state.db"; "endpoint.json"; "daemon.pid"; "ipc.sock"] →
    n1 ≠ n2 → path_join (path_join root d1) n1 ≠ path_join (path_join root d2) n2).
  { intros d1 n1 d2 n2 Hd1 Hn1 Hd2 Hn2 Hne Heq. apply Hne.
    destruct (Hpar d1 n1 Hd1 Hn1) as [H1 _]. destruct (Hpar d2 n2 Hd2 Hn2) as [H2 _].
    rewrite Heq, H2 in H1. by injection H1. }
  destruct t; [..|done]; cbv zeta; simpl.
  all: split; [|by split_and!; apply Hpar; set_solver].
  all: repeat (apply NoDup_cons; split; [rewrite ?not_elem_of_cons; split_and?;
    try apply not_elem_of_nil; apply Hall; try set_solver; done|]); apply NoDup_nil_2.
Qed.

(** The comment of [Paths] gives [/run/user/<uid>] for a missing
    [XDG_RUNTIME_DIR]; the code takes a directory of [/tmp]. *)
Theorem linux_runtime_fallback `{DL : DirsLib} p :
  dirs_runtime = None → default_for_user Linux = Ok p →
  runtime_dir p = "/tmp/mail-mcp-" +:+ pretty euid.
Proof.
  intros Hr H. unfold default_for_user in H. rewrite Hr in H.
  destruct dirs_data; [|done].
  destruct (match dirs_state with Some d => Some d | None => dirs_data_local end); [|done].
  destruct dirs_cache; [|done]. by injection H as <-.
Qed.
End properties.
