(* ===== verification/World.v ===== *)
(** * The state the daemon shares, and its primitive operations

    [Sys] is what lives outside a single request: the SQLite database, the
    keychain, the token cells ([Arc<Mutex<OAuthTokens>>]) the provider clients
    share, and the history of external calls. Every operation of the program
    is built from the primitives of this file. *)
From S2P Require Export Platform.

Section world.
Context `{PF : Platform}.

(** A token cell is shared: every clone of a client holds its index. *)
Record Sys : Type := mkSys {
  sys_db : Db;
  sys_keychain : kr_store;
  sys_cells : list OAuthTokens;
  sys_hist : History;
}.

Definition set_db (db : Db) (s : Sys) : Sys :=
  mkSys db (sys_keychain s) (sys_cells s) (sys_hist s).
Definition set_keychain (k : kr_store) (s : Sys) : Sys :=
  mkSys (sys_db s) k (sys_cells s) (sys_hist s).
Definition set_cells (cs : list OAuthTokens) (s : Sys) : Sys :=
  mkSys (sys_db s) (sys_keychain s) cs (sys_hist s).
Definition record_ev (e : Ev) (s : Sys) : Sys :=
  mkSys (sys_db s) (sys_keychain s) (sys_cells s) (e :: sys_hist s).

(** [async fn(..) -> Result<A>] over the shared state. *)
Definition M (A : Type) : Type := ST Sys Error A.

(** ** Entropy *)

(** [Utc::now()] *)
Definition utc_now : M DateTime := λ s,
  (Ok (clock_at (sys_hist s)), record_ev EvClock s).

(** [Utc::now().timestamp()] *)
Definition now_timestamp : M Z := t ← utc_now; mret (t / 10 ^ 9)%Z.

(** [Ulid::new()] *)
Definition ulid_new : M Ulid := λ s,
  (Ok (ulid_at (sys_hist s)), record_ev EvUlid s).

(** [sample_iter(&Alphanumeric).take(n)] *)
Definition alphanumeric (n : nat) : M string := λ s,
  (Ok (alphanumeric_at (sys_hist s) n), record_ev EvRandom s).

(** ** SQL *)

(** Run one statement: it either takes effect as a whole or fails, with the
    text of the driver's error. *)
Definition sql {A} (stmt : Db → Constraint + (A * Db)) : M A := λ s,
  let s1 := record_ev EvSql s in
  match sql_fault (sys_hist s) with
  | Some text => (Err (Storage text), s1)
  | None =>
      match stmt (sys_db s) with
      | inl c => (Err (Storage (constraint_text c)), s1)
      | inr (a, db) => (Ok a, set_db db s1)
      end
  end.

(** A [SELECT]. *)
Definition select {A} (q : Db → A) : M A := sql (λ db, inr (q db, db)).

(** ** Keychain *)

(** Run one keychain call that may change the store. *)
Definition keyring_call {A} (f : kr_store → (KeyringError + A) * kr_store) :
    M (KeyringError + A) := λ s,
  let '(r, k) := f (sys_keychain s) in (Ok r, set_keychain k (record_ev EvKeyring s)).

(** ** HTTP *)

(** [send().await?] *)
Definition http_send (rq : Request) : M Response := λ s,
  match http_reply (sys_hist s) rq with
  | inl e => (Err (Http e), record_ev (EvHttp rq) s)
  | inr rs => (Ok rs, record_ev (EvHttp rq) s)
  end.

(** [error_for_status()?]: 4xx and 5xx are errors. *)
Definition error_for_status (rs : Response) : Result Response :=
  if ((400 <=? rs_status rs) && (rs_status rs <? 600))%Z
  then Err (Http (http_status_text (rs_status rs))) else Ok rs.

(** [json::<A>().await?] *)
Definition json_body {A} (d : De A) (rs : Response) : Result A :=
  ok_or (rs_body rs ≫= d) (Http http_decode_text).

(** ** Token cells *)

(** [Arc::new(Mutex::new(tokens))] *)
Definition cell_new (t : OAuthTokens) : M nat := λ s,
  (Ok (length (sys_cells s)), set_cells (sys_cells s ++ [t]) s).

Definition cell_read (c : nat) : M OAuthTokens := λ s,
  match sys_cells s !! c with Some t => (Ok t, s) | None => (Panic, s) end.

Definition cell_write (c : nat) (t : OAuthTokens) : M unit := λ s,
  match sys_cells s !! c with
  | Some _ => (Ok tt, set_cells (<[c := t]> (sys_cells s)) s)
  | None => (Panic, s)
  end.

(** ** The HTTP requests a state has sent, newest first *)

Definition http_log (s : Sys) : list Request :=
  omap (λ e, match e with EvHttp rq => Some rq | _ => None end) (sys_hist s).

(** ** What each primitive leaves alone *)

Lemma utc_now_same {V} (view : Sys → V) :
  (∀ s, view (record_ev EvClock s) = view s) → within (same view) utc_now.
Proof. intros H s. apply H. Qed.

Lemma now_timestamp_same {V} (view : Sys → V) :
  (∀ s, view (record_ev EvClock s) = view s) → within (same view) now_timestamp.
Proof.
  intros H. unfold now_timestamp. apply within_bind; [apply _|by apply utc_now_same|].
  intros t. apply within_ret, _.
Qed.

Lemma ulid_new_same {V} (view : Sys → V) :
  (∀ s, view (record_ev EvUlid s) = view s) → within (same view) ulid_new.
Proof. intros H s. apply H. Qed.

Lemma alphanumeric_same {V} (view : Sys → V) n :
  (∀ s, view (record_ev EvRandom s) = view s) → within (same view) (alphanumeric n).
Proof. intros H s. apply H. Qed.

(** A statement keeps what depends neither on the database nor on the count
    of SQL calls. *)
Lemma sql_same {V A} (view : Sys → V) (stmt : Db → Constraint + (A * Db)) :
  (∀ s, view (record_ev EvSql s) = view s) →
  (∀ s db, view (set_db db s) = view s) → within (same view) (sql stmt).
Proof.
  intros H1 H2 s. unfold sql, same. destruct (sql_fault _); simpl; [apply H1|].
  destruct (stmt _) as [c|[a db]]; simpl; [apply H1|]. by rewrite H2, H1.
Qed.

(** A statement preserves an invariant of the database when its effect does. *)
Lemma sql_keeps {A} (I : Db → Prop) (stmt : Db → Constraint + (A * Db)) :
  (∀ db a db', I db → stmt db = inr (a, db') → I db') →
  within (keeps (I ∘ sys_db)) (sql stmt).
Proof.
  intros H s. unfold sql, keeps. destruct (sql_fault _); simpl; [done|].
  destruct (stmt _) as [c|[a db]] eqn:E; simpl; [done|]. eauto.
Qed.

Lemma select_same {V A} (view : Sys → V) (q : Db → A) :
  (∀ s, view (record_ev EvSql s) = view s) → within (same view) (select q).
Proof.
  intros H s. unfold select, sql, same. destruct (sql_fault _); simpl; [apply H|].
  etrans; [|apply (H s)]. by destruct s.
Qed.

Lemma keyring_call_same {V A} (view : Sys → V)
    (f : kr_store → (KeyringError + A) * kr_store) :
  (∀ s, view (record_ev EvKeyring s) = view s) →
  (∀ s k, view (set_keychain k s) = view s) → within (same view) (keyring_call f).
Proof.
  intros H1 H2 s. unfold keyring_call, same. destruct (f _). simpl.
  by rewrite H2, H1.
Qed.

Lemma http_send_same {V} (view : Sys → V) rq :
  (∀ s, view (record_ev (EvHttp rq) s) = view s) → within (same view) (http_send rq).
Proof. intros H s. unfold http_send, same. destruct (http_reply _ _); apply H. Qed.

Lemma cell_new_same {V} (view : Sys → V) t :
  (∀ s cs, view (set_cells cs s) = view s) → within (same view) (cell_new t).
Proof. intros H s. apply H. Qed.

Lemma cell_read_same {V} (view : Sys → V) c : within (same view) (cell_read c).
Proof. intros s. unfold cell_read, same. by destruct (_ !! _). Qed.

Lemma cell_write_same {V} (view : Sys → V) c t :
  (∀ s cs, view (set_cells cs s) = view s) → within (same view) (cell_write c t).
Proof. intros H s. unfold cell_write, same. destruct (_ !! _); [apply H|done]. Qed.

(** An invariant of a view kept by equality of the view. *)
Lemma same_keeps {V A} (view : Sys → V) (I : V → Prop) (m : M A) :
  within (same view) m → within (keeps (I ∘ view)) m.
Proof.
  apply within_weaken. unfold same, keeps. intros s s' H. simpl. by rewrite H.
Qed.

(** How a statement that is not faulted runs. *)
Lemma sql_run {A} (stmt : Db → Constraint + (A * Db)) s :
  sql_fault (sys_hist s) = None →
  sql stmt s =
    match stmt (sys_db s) with
    | inl c => (Err (Storage (constraint_text c)), record_ev EvSql s)
    | inr (a, db) => (Ok a, set_db db (record_ev EvSql s))
    end.
Proof. unfold sql. by intros ->. Qed.

(** A statement answers. *)
Lemma sql_answers {A} (stmt : Db → Constraint + (A * Db)) s :
  match (sql stmt s).1 with Ok _ | Err _ => True | _ => False end.
Proof.
  unfold sql. destruct (sql_fault _); [done|]. by destruct (stmt _) as [|[]].
Qed.

(** A successful statement had its effect on the database and only there. *)
Lemma sql_Ok {A} (stmt : Db → Constraint + (A * Db)) s a s' :
  sql stmt s = (Ok a, s') →
  ∃ db, stmt (sys_db s) = inr (a, db) ∧ s' = set_db db (record_ev EvSql s).
Proof.
  unfold sql. destruct (sql_fault _); [done|].
  destruct (stmt _) as [c|[a' db]]; [done|]. intros [= -> <-]. by exists db.
Qed.

Lemma select_Ok {A} (q : Db → A) s a s' :
  select q s = (Ok a, s') → a = q (sys_db s) ∧ sys_db s' = sys_db s.
Proof. intros (db & [= <- <-] & ->)%sql_Ok. done. Qed.
End world.

#[export] Hint Extern 1 (within (same _) utc_now) =>
  apply utc_now_same; reflexivity : within.
#[export] Hint Extern 1 (within (same _) now_timestamp) =>
  apply now_timestamp_same; reflexivity : within.
#[export] Hint Extern 1 (within (same _) ulid_new) =>
  apply ulid_new_same; reflexivity : within.
#[export] Hint Extern 1 (within (same _) (alphanumeric _)) =>
  apply alphanumeric_same; reflexivity : within.
#[export] Hint Extern 1 (within (same _) (select _)) =>
  apply select_same; reflexivity : within.
#[export] Hint Extern 1 (within (same _) (sql _)) =>
  apply sql_same; reflexivity : within.
#[export] Hint Extern 1 (within (same _) (keyring_call _)) =>
  apply keyring_call_same; reflexivity : within.
#[export] Hint Extern 1 (within (same _) (http_send _)) =>
  apply http_send_same; reflexivity : within.
#[export] Hint Extern 1 (within (same _) (cell_new _)) =>
  apply cell_new_same; reflexivity : within.
#[export] Hint Extern 1 (within (same _) (cell_read _)) =>
  apply cell_read_same : within.
#[export] Hint Extern 1 (within (same _) (cell_write _ _)) =>
  apply cell_write_same; reflexivity : within.
