(* ===== verification/Storage.v ===== *)
(** * The database: constraints, integrity, application state

    The constraints of the schema of [crates/mail-mcp-core/migrations], the
    integrity invariant they establish, and the [app_state] operations of
    [storage.rs]. *)
From S2P Require Export World.

(** ** Constraints of the schema *)

Definition check_provider (p : string) : bool := any_eq p ["gmail"; "m365"; "imap"].

Definition check_category (c : string) : bool :=
  any_eq c ["read"; "modify"; "trash"; "draft"; "send"].

Definition check_policy (p : string) : bool :=
  any_eq p ["allow"; "confirm"; "session"; "draftify"; "block"].

(** ** Updates of the tables *)

Definition with_accounts (f : gmap string AccountRow → gmap string AccountRow)
    (db : Db) : Db :=
  mkDb (f (db_accounts db)) (db_permissions db) (db_app_state db).

Definition with_permissions
    (f : gmap (string * string) string → gmap (string * string) string)
    (db : Db) : Db :=
  mkDb (db_accounts db) (f (db_permissions db)) (db_app_state db).

Definition with_app_state (f : gmap string string → gmap string string)
    (db : Db) : Db :=
  mkDb (db_accounts db) (db_permissions db) (f (db_app_state db)).

(** [REFERENCES accounts(id) ON DELETE CASCADE]: deleting an account deletes
    the permissions that refer to it. *)
Definition cascade (id : string) (perms : gmap (string * string) string) :
    gmap (string * string) string :=
  filter (λ kv : (string * string) * string, kv.1.1 ≠ id) perms.

(** ** Integrity *)

(** Every row is stored under its key, satisfies its CHECKs, and every
    permission belongs to an account. *)
Record db_wf (db : Db) : Prop := {
  wf_key id row : db_accounts db !! id = Some row → row_id row = id;
  wf_provider id row :
    db_accounts db !! id = Some row → check_provider (row_provider row) = true;
  wf_owner id cat pol :
    db_permissions db !! (id, cat) = Some pol → is_Some (db_accounts db !! id);
  wf_category id cat pol :
    db_permissions db !! (id, cat) = Some pol → check_category cat = true;
  wf_policy id cat pol :
    db_permissions db !! (id, cat) = Some pol → check_policy pol = true;
}.

Lemma db_wf_empty : db_wf empty_db.
Proof. split; simpl; intros *; rewrite lookup_empty; done. Qed.

Lemma db_wf_app_state f db : db_wf db → db_wf (with_app_state f db).
Proof. intros []. split; simpl; eauto. Qed.

Lemma lookup_cascade_Some id perms a cat pol :
  cascade id perms !! (a, cat) = Some pol ↔ perms !! (a, cat) = Some pol ∧ a ≠ id.
Proof. unfold cascade. by rewrite map_lookup_filter_Some. Qed.

(** ** [Storage]: the table [app_state] *)

Section app_state.
Context `{PF : Platform}.

(** [INSERT .. ON CONFLICT(key) DO UPDATE SET value = excluded.value] *)
Definition set_app_state (key value : string) : M unit :=
  sql (λ db, inr (tt, with_app_state <[key := value]> db)).

Definition get_app_state (key : string) : M (option string) :=
  select (λ db, db_app_state db !! key).

(** The only way these fail is a failure of the statement. *)
Lemma get_app_state_run key s :
  sql_fault (sys_hist s) = None →
  (get_app_state key s).1 = Ok (db_app_state (sys_db s) !! key).
Proof. intros H. unfold get_app_state, select. by rewrite sql_run. Qed.

Lemma set_app_state_Ok key value s s' :
  set_app_state key value s = (Ok tt, s') →
  sys_db s' = with_app_state <[key := value]> (sys_db s).
Proof. by intros (db & [= <-] & ->)%sql_Ok. Qed.

Lemma set_app_state_wf key value :
  within (keeps (db_wf ∘ sys_db)) (set_app_state key value).
Proof. apply sql_keeps. intros db [] db' H [= <-]. by apply db_wf_app_state. Qed.
End app_state.

#[export] Hint Resolve set_app_state_wf : within.

(** A view of the database is kept by what keeps the database. *)
Lemma same_db_keeps `{Platform} {A} (I : Db → Prop) (m : M A) :
  within (same sys_db) m → within (keeps (I ∘ sys_db)) m.
Proof. apply same_keeps. Qed.
