(* ===== verification/Accounts.v ===== *)
(** * Accounts

    [crates/mail-mcp-core/src/accounts.rs] and the textual form of an
    [AccountId]. *)
From Stdlib Require Import Sorted.
From S2P Require Export Storage.

Section accounts.
Context `{PF : Platform}.

(** [Display for AccountId] *)
Definition account_to_string (id : AccountId) : string :=
  ulid_to_string (account_ulid id).

(** [FromStr for AccountId] *)
Definition account_from_str (s : string) : string + AccountId :=
  match ulid_from_str s with
  | inl e => inl e
  | inr u => inr (mkAccountId u)
  end.

(** [AccountId::new] *)
Definition account_id_new : M AccountId := u ← ulid_new; mret (mkAccountId u).

Record NewAccount : Type := mkNewAccount {
  new_label : string;
  new_provider : ProviderKind;
  new_email : string;
  new_config : Value;
  new_scopes : list string;
}.

Definition scopes_value (scopes : list string) : Value :=
  VArray (VString <$> scopes).

(** [INSERT INTO accounts ..]: the primary key and the CHECK on [provider]. *)
Definition insert_account (row : AccountRow) : M unit :=
  sql (λ db,
    if check_provider (row_provider row) then
      match db_accounts db !! row_id row with
      | Some _ => inl Unique
      | None => inr (tt, with_accounts <[row_id row := row]> db)
      end
    else inl CheckFailed).

(** [AccountStore::create] *)
Definition create (new : NewAccount) : M AccountId :=
  id ← account_id_new;
  let scopes_json := json_to_string (scopes_value (new_scopes new)) in
  let config_json := json_to_string (new_config new) in
  now ← now_timestamp;
  _ ← insert_account {|
        row_id := account_to_string id;
        row_label := new_label new;
        row_provider := provider_as_str (new_provider new);
        row_email := new_email new;
        row_config_json := config_json;
        row_scopes_json := scopes_json;
        row_created_at := now;
        row_last_validated := None |};
  mret id.

(** [serde_json::from_str::<A>(text)?] *)
Definition parse_json {A} (what : string) (d : De A) (text : string) : Result A :=
  match json_from_str text with
  | inl e => Err (Json e)
  | inr v => ok_or (d v) (Json (de_error what v))
  end.

(** [AccountRow::into_account] *)
Definition into_account (r : AccountRow) : Result Account :=
  match account_from_str (row_id r) with
  | inl e => Err (Internal ("bad account id in db: " +:+ e))
  | inr id =>
  match provider_from_str (row_provider r) with
  | inl e => Err (Internal ("bad provider in db: " +:+ e))
  | inr provider =>
  res_cast (parse_json "Value" de_value (row_config_json r)) (λ config,
  res_cast (parse_json "Vec<String>" (de_vec de_string) (row_scopes_json r)) (λ scopes,
  match timestamp_opt (row_created_at r) with
  | None => Err (Internal "bad created_at in db")
  | Some created_at =>
      Ok {| acc_id := id;
            acc_label := row_label r;
            acc_provider := provider;
            acc_email := row_email r;
            acc_config := config;
            acc_scopes := scopes;
            acc_created_at := created_at;
            acc_last_validated := row_last_validated r ≫= timestamp_opt |}
  end))
  end
  end.

(** [rows.into_iter().map(..).collect::<Result<Vec<_>>>()]: the first error. *)
Fixpoint into_accounts (rows : list AccountRow) : Result (list Account) :=
  match rows with
  | [] => Ok []
  | r :: rows =>
      res_cast (into_account r) (λ a,
      res_cast (into_accounts rows) (λ accs, Ok (a :: accs)))
  end.

(** [AccountStore::list] *)
Definition list_rows : M (list AccountRow) :=
  select (λ db, order_by_created_at (db_accounts db)).

Definition list_accounts : M (list Account) :=
  rows ← list_rows; lift_res (into_accounts rows).

(** [AccountStore::get] *)
Definition get_account (id : AccountId) : M (option Account) :=
  row ← select (λ db, db_accounts db !! account_to_string id);
  match row with
  | None => mret None
  | Some r => lift_res (res_map Some (into_account r))
  end.

(** [DELETE FROM accounts WHERE id = ?1], answering the rows affected. *)
Definition delete_row (key : string) : M bool :=
  sql (λ db,
    match db_accounts db !! key with
    | None => inr (false, db)
    | Some _ =>
        inr (true,
          with_permissions (cascade key) (with_accounts (delete key) db))
    end).

(** [AccountStore::delete] *)
Definition delete_account (id : AccountId) : M unit :=
  affected ← delete_row (account_to_string id);
  if (affected : bool) then mret tt
  else throw (NotFound ("account " +:+ account_to_string id)).

(** [AccountStore::touch_last_validated] *)
Definition touch_last_validated (id : AccountId) : M unit :=
  now ← now_timestamp;
  sql (λ db, inr (tt, with_accounts
    (alter (λ r, {| row_id := row_id r;
                    row_label := row_label r;
                    row_provider := row_provider r;
                    row_email := row_email r;
                    row_config_json := row_config_json r;
                    row_scopes_json := row_scopes_json r;
                    row_created_at := row_created_at r;
                    row_last_validated := Some now |}) (account_to_string id)) db)).

(** The account a row created from [new] at second [now] stands for. *)
Definition account_of (id : AccountId) (new : NewAccount) (now : Z) : Account := {|
  acc_id := id;
  acc_label := new_label new;
  acc_provider := new_provider new;
  acc_email := new_email new;
  acc_config := new_config new;
  acc_scopes := new_scopes new;
  acc_created_at := (now * 10 ^ 9)%Z;
  acc_last_validated := None;
|}.

(** A database whose every row decodes. *)
Definition rows_decode (db : Db) : Prop :=
  ∀ id row, db_accounts db !! id = Some row → is_ok (into_account row) = true.
End accounts.

Lemma scopes_value_round_trip scopes :
  de_vec de_string (scopes_value scopes) = Some scopes.
Proof.
  unfold de_vec, scopes_value; simpl. by apply mapM_fmap_Some.
Qed.

Lemma scopes_value_canonical scopes :
  canonical json_max_depth (scopes_value scopes) = true.
Proof.
  unfold json_max_depth, scopes_value. generalize 126. intros n.
  rewrite canonical_array. apply forallb_forall.
  by intros v (x & <- & _)%in_map_iff; rewrite canonical_string.
Qed.

Section facts.
Context `{PF : Platform}.

Lemma account_from_to_string `{!UlidLaws} id :
  account_from_str (account_to_string id) = inr id.
Proof.
  unfold account_from_str, account_to_string. rewrite ulid_round_trip. by destruct id.
Qed.

Lemma account_to_string_inj `{!UlidLaws} id1 id2 :
  account_to_string id1 = account_to_string id2 → id1 = id2.
Proof.
  intros Heq. apply (f_equal account_from_str) in Heq.
  rewrite !account_from_to_string in Heq. by injection Heq.
Qed.

Lemma check_provider_as_str k : check_provider (provider_as_str k) = true.
Proof. by destruct k. Qed.

Lemma parse_json_print `{!SerdeLaws} {A} what (d : De A) v a :
  canonical json_max_depth v = true → d v = Some a →
  parse_json what d (json_to_string v) = Ok a.
Proof.
  intros Hc Hd. unfold parse_json. rewrite json_round_trip by done. by rewrite Hd.
Qed.

(** A created row decodes to the account it was created from. *)
Lemma into_account_created `{!UlidLaws, !SerdeLaws, !ChronoLaws} id new now d :
  canonical json_max_depth (new_config new) = true →
  timestamp_opt now = Some d →
  into_account {|
    row_id := account_to_string id;
    row_label := new_label new;
    row_provider := provider_as_str (new_provider new);
    row_email := new_email new;
    row_config_json := json_to_string (new_config new);
    row_scopes_json := json_to_string (scopes_value (new_scopes new));
    row_created_at := now;
    row_last_validated := None |} = Ok (account_of id new now).
Proof.
  intros Hc Hd. unfold into_account; cbn -[json_max_depth scopes_value].
  rewrite account_from_to_string, provider_from_as_str.
  rewrite (parse_json_print _ _ _ (new_config new)) by done. cbn -[scopes_value].
  rewrite (parse_json_print _ _ _ (new_scopes new))
    by first [apply scopes_value_canonical | apply scopes_value_round_trip]. simpl.
  rewrite Hd. by rewrite (timestamp_opt_second _ _ Hd).
Qed.

Lemma into_accounts_Ok rows accs :
  into_accounts rows = Ok accs ↔ Forall2 (λ r a, into_account r = Ok a) rows accs.
Proof.
  revert accs. induction rows as [|r rows IH]; intros accs; simpl.
  { split; [intros [= <-]; constructor|inversion 1; done]. }
  destruct (into_account r) as [a| | |] eqn:E; simpl;
    try by (split; [done|inversion 1; congruence]).
  split.
  - destruct (into_accounts rows) as [accs'| | |]; [|done..].
    intros [= <-]. constructor; [done|]. by apply IH.
  - inversion 1 as [|r' a' rows' accs' Ha Hrest]; subst.
    rewrite E in Ha. injection Ha as ->. apply IH in Hrest. by rewrite Hrest.
Qed.

Lemma into_accounts_decode rows :
  (∀ r, r ∈ rows → is_ok (into_account r) = true) →
  ∃ accs, into_accounts rows = Ok accs.
Proof.
  induction rows as [|r rows IH]; intros H; simpl; [by eexists|].
  pose proof (H r (list_elem_of_here _ _)) as Hr.
  destruct (into_account r) as [a| | |]; try done.
  destruct IH as [accs Haccs]; [intros; apply H; by right|].
  simpl. rewrite Haccs. by eexists.
Qed.

(** The row a successful [create] stored, in a slot that was free. *)
Lemma create_Ok new s id s' :
  create new s = (Ok id, s') →
  ∃ row, db_accounts (sys_db s) !! account_to_string id = None ∧
    sys_db s' = with_accounts <[account_to_string id := row]> (sys_db s) ∧
    row = {| row_id := account_to_string id;
             row_label := new_label new;
             row_provider := provider_as_str (new_provider new);
             row_email := new_email new;
             row_config_json := json_to_string (new_config new);
             row_scopes_json := json_to_string (scopes_value (new_scopes new));
             row_created_at := (clock_at (EvUlid :: sys_hist s) / 10 ^ 9)%Z;
             row_last_validated := None |}.
Proof.
  unfold create, insert_account. intros Hrun. run_ok.
  match goal with Hi : account_id_new _ = _ |- _ => injection Hi as <- <- end.
  match goal with Hn : now_timestamp _ = _ |- _ => injection Hn as <- <- end.
  match goal with Hs : sql _ _ = _ |- _ => apply sql_Ok in Hs as (db & Hdb & ->) end.
  simpl in Hdb. rewrite check_provider_as_str in Hdb.
  destruct (_ !! _) eqn:E; [done|]. injection Hdb as <-. simpl in *.
  eexists. repeat split; done.
Qed.

(** Reading an account whose row was created from [new]. *)
Lemma get_account_stored `{!UlidLaws, !SerdeLaws, !ChronoLaws} id new now d s o s' row :
  canonical json_max_depth (new_config new) = true →
  timestamp_opt now = Some d →
  db_accounts (sys_db s) !! account_to_string id = Some row →
  row = {| row_id := account_to_string id;
           row_label := new_label new;
           row_provider := provider_as_str (new_provider new);
           row_email := new_email new;
           row_config_json := json_to_string (new_config new);
           row_scopes_json := json_to_string (scopes_value (new_scopes new));
           row_created_at := now;
           row_last_validated := None |} →
  get_account id s = (Ok o, s') → o = Some (account_of id new now).
Proof.
  intros Hc Hd Hrow -> Hget. unfold get_account in Hget. run_ok.
  match goal with Hs : select _ _ = _ |- _ => apply select_Ok in Hs as [-> _] end.
  rewrite Hrow in Hget. run_ok. rewrite (into_account_created _ _ _ d Hc Hd) in *.
  by simplify_eq/=.
Qed.

(** What a successful deletion did. *)
Lemma delete_account_Ok id s u s' :
  delete_account id s = (Ok u, s') →
  let key := account_to_string id in
  db_accounts (sys_db s') = delete key (db_accounts (sys_db s)) ∧
  db_permissions (sys_db s') = cascade key (db_permissions (sys_db s)).
Proof.
  unfold delete_account, delete_row. intros (b & s1 & H1 & H2)%bind_Ok.
  apply sql_Ok in H1 as (db & Hstmt & ->).
  destruct b; [|done]. run_ok. simpl in *.
  by destruct (db_accounts _ !! account_to_string id); simplify_eq/=.
Qed.

Lemma insert_account_wf row : within (keeps (db_wf ∘ sys_db)) (insert_account row).
Proof.
  apply sql_keeps. intros db [] db' Hwf Hs. simpl in Hs.
  destruct (check_provider _) eqn:E; [|done].
  destruct (_ !! _) eqn:Hfree; [done|]. injection Hs as <-. destruct Hwf.
  split; simpl.
  - intros id r [[<- <-]|[_ ?]]%lookup_insert_Some; eauto.
  - intros id r [[<- <-]|[_ ?]]%lookup_insert_Some; eauto.
  - intros id cat pol H. apply lookup_insert_is_Some'. right. eauto.
  - eauto.
  - eauto.
Qed.

Lemma create_wf new : within (keeps (db_wf ∘ sys_db)) (create new).
Proof.
  unfold create, account_id_new.
  repeat first [apply insert_account_wf | apply same_db_keeps; solve [frame]
    | apply within_bind; [apply _| |intros] | apply within_ret; apply _].
Qed.

Lemma delete_row_wf key : within (keeps (db_wf ∘ sys_db)) (delete_row key).
Proof.
  apply sql_keeps. intros db b db' Hwf Hs. simpl in Hs.
  destruct (_ !! _) eqn:E; injection Hs as <- <-; [|done]. destruct Hwf.
  split; simpl.
  - intros id r [_ ?]%lookup_delete_Some; eauto.
  - intros id r [_ ?]%lookup_delete_Some; eauto.
  - intros id cat pol [H Hne]%lookup_cascade_Some.
    rewrite lookup_delete_ne by done. eauto.
  - intros id cat pol [H Hne]%lookup_cascade_Some. eauto.
  - intros id cat pol [H Hne]%lookup_cascade_Some. eauto.
Qed.

Lemma delete_account_wf id : within (keeps (db_wf ∘ sys_db)) (delete_account id).
Proof.
  unfold delete_account. apply within_bind; [apply _|apply delete_row_wf|].
  intros []; [apply within_ret|apply within_throw]; apply _.
Qed.

Lemma touch_last_validated_wf id :
  within (keeps (db_wf ∘ sys_db)) (touch_last_validated id).
Proof.
  unfold touch_last_validated.
  apply within_bind; [apply _|apply same_db_keeps; frame|].
  intros now. apply sql_keeps. intros db [] db' [] [= <-]. split; simpl.
  - intros k r [(<- & r' & Hr & ->)|[_ Hr]]%lookup_alter_Some; simpl; eauto.
  - intros k r [(<- & r' & Hr & ->)|[_ Hr]]%lookup_alter_Some; simpl; eauto.
  - intros k cat pol H. apply lookup_alter_is_Some. eauto.
  - eauto.
  - eauto.
Qed.
End facts.

(** ** Properties *)

Section properties.
Context `{PF : Platform} `{UL : !UlidLaws, SL : !SerdeLaws, CL : !ChronoLaws}.

(** An account just created can be read back: [get] of the id [create]
    returned yields exactly the label, provider, email, configuration and scopes
    that were given, created now and never validated, unless the driver fails. *)
Theorem create_get_round_trip new s id s' :
  canonical json_max_depth (new_config new) = true →
  create new s = (Ok id, s') →
  (get_account id s').1 =
    match sql_fault (sys_hist s') with
    | Some text => Err (Storage text)
    | None =>
        Ok (Some (account_of id new (clock_at (EvUlid :: sys_hist s) / 10 ^ 9)%Z))
    end.
Proof.
  intros Hc (row & Hfree & Hdb & ->)%create_Ok.
  unfold get_account, select, sql, mbind, st_bind.
  destruct (sql_fault (sys_hist s')); [done|]. simpl. rewrite Hdb. simpl.
  rewrite lookup_insert_eq. unfold lift_res. simpl.
  destruct (timestamp_opt_now (EvUlid :: sys_hist s)) as [d Hd].
  by rewrite (into_account_created _ _ _ d Hc Hd).
Qed.

(** Deleting an account that exists removes it and its permissions; deleting
    one that does not is a not-found error that changes nothing stored. *)
Theorem delete_account_exact id s :
  sql_fault (sys_hist s) = None →
  let key := account_to_string id in
  (delete_account id s).1 =
    (if decide (is_Some (db_accounts (sys_db s) !! key)) then Ok tt
     else Err (NotFound ("account " +:+ key))) ∧
  db_accounts (sys_db (delete_account id s).2) = delete key (db_accounts (sys_db s)) ∧
  (is_Some (db_accounts (sys_db s) !! key) →
   db_permissions (sys_db (delete_account id s).2) =
     cascade key (db_permissions (sys_db s))).
Proof.
  intros Hf. simpl. unfold delete_account, delete_row, sql, mbind, st_bind. rewrite Hf.
  destruct (db_accounts (sys_db s) !! account_to_string id) as [row|] eqn:E; simpl.
  - done.
  - split; [done|].
    split; [by rewrite delete_id|by intros [? ?]].
Qed.

(** Listing accounts whose rows all decode never fails but with the driver,
    and yields every account once, oldest first. *)
Theorem list_accounts_complete `{!SqliteLaws} s :
  rows_decode (sys_db s) → sql_fault (sys_hist s) = None →
  ∃ rows accs, (list_accounts s).1 = Ok accs ∧
    rows ≡ₚ (map_to_list (db_accounts (sys_db s))).*2 ∧
    StronglySorted (λ r1 r2, row_created_at r1 ≤ row_created_at r2)%Z rows ∧
    Forall2 (λ r a, into_account r = Ok a) rows accs.
Proof.
  intros Hdec Hf. unfold list_accounts, list_rows, select, sql, mbind, st_bind. rewrite Hf.
  simpl. set (rows := order_by_created_at (db_accounts (sys_db s))).
  pose proof (order_by_perm (db_accounts (sys_db s))) as Hperm.
  destruct (into_accounts_decode rows) as [accs Haccs].
  { intros r Hr. unfold rows in Hr. rewrite Hperm in Hr.
    apply list_elem_of_fmap in Hr as ([k r'] & -> & Hk%elem_of_map_to_list). eauto. }
  exists rows, accs. unfold lift_res. rewrite Haccs. split_and!; [done|done| |].
  - apply order_by_sorted.
  - by apply into_accounts_Ok.
Qed.

(** Creating an account keeps every row decodable, so a created account can
    never make the list of accounts unreadable. *)
Theorem create_keeps_rows_decodable new s id s' :
  canonical json_max_depth (new_config new) = true →
  create new s = (Ok id, s') → rows_decode (sys_db s) → rows_decode (sys_db s').
Proof.
  intros Hc (row & _ & Hdb & ->)%create_Ok Hdec k r Hr. rewrite Hdb in Hr. simpl in Hr.
  apply lookup_insert_Some in Hr as [[_ <-]|[_ ?]]; [|eauto].
  destruct (timestamp_opt_now (EvUlid :: sys_hist s)) as [d Hd].
  by rewrite (into_account_created _ _ _ d Hc Hd).
Qed.
End properties.

#[export] Hint Resolve create_wf delete_account_wf touch_last_validated_wf : within.
