(* ===== verification/Secrets.v ===== *)
(** * Secrets

    [crates/mail-mcp-core/src/secrets.rs]: the secrets of an account in the
    keychain of the operating system. *)
From S2P Require Export Accounts.

Inductive KeyKind : Type := RefreshToken | ImapPassword | SmtpPassword.

Global Instance KeyKind_eq_dec : EqDecision KeyKind.
Proof. solve_decision. Defined.

(** [KeyKind::as_str] *)
Definition key_kind_str (k : KeyKind) : string :=
  match k with
  | RefreshToken => "refresh_token"
  | ImapPassword => "imap_password"
  | SmtpPassword => "smtp_password"
  end.

Lemma key_kind_str_inj k1 k2 : key_kind_str k1 = key_kind_str k2 → k1 = k2.
Proof. by destruct k1, k2. Qed.

Section secrets.
Context `{PF : Platform}.

Definition service_name (id : AccountId) : string :=
  "mail-mcp." +:+ account_to_string id.

(** [Entry::new(service, user)?] *)
Definition entry_new (id : AccountId) (kind : KeyKind) : Result (string * string) :=
  match kr_entry_new (service_name id) (key_kind_str kind) with
  | Some text => Err (Keychain text)
  | None => Ok (service_name id, key_kind_str kind)
  end.

(** [SecretStore::set] *)
Definition secret_set (id : AccountId) (kind : KeyKind) (value : string) : M unit :=
  '(s, u) ← lift_res (entry_new id kind);
  r ← keyring_call (kr_set_password s u value);
  match r with
  | inr _ => mret tt
  | inl e => throw (Keychain (kr_error_text e))
  end.

(** [SecretStore::get] *)
Definition secret_get (id : AccountId) (kind : KeyKind) : M (option string) :=
  '(s, u) ← lift_res (entry_new id kind);
  r ← keyring_call (λ k, (kr_get_password s u k, k));
  match r with
  | inr v => mret (Some v)
  | inl NoEntry => mret None
  | inl e => throw (Keychain (kr_error_text e))
  end.

(** [SecretStore::delete] *)
Definition secret_delete (id : AccountId) (kind : KeyKind) : M unit :=
  '(s, u) ← lift_res (entry_new id kind);
  r ← keyring_call (kr_delete_credential s u);
  match r with
  | inr _ => mret tt
  | inl NoEntry => mret tt
  | inl e => throw (Keychain (kr_error_text e))
  end.

(** [SecretStore::purge]: best effort, every kind is tried. *)
Definition secret_purge (id : AccountId) : M unit :=
  _ ← ignore (secret_delete id RefreshToken);
  _ ← ignore (secret_delete id ImapPassword);
  _ ← ignore (secret_delete id SmtpPassword);
  mret tt.
End secrets.

(** ** What each operation leaves alone *)

Section frames.
Context `{PF : Platform}.

Lemma secret_set_same {V} (view : Sys → V) id kind v :
  (∀ s, view (record_ev EvKeyring s) = view s) →
  (∀ s k, view (set_keychain k s) = view s) → within (same view) (secret_set id kind v).
Proof.
  intros. unfold secret_set. apply within_bind; [apply _|apply within_lift_res, _|].
  intros [s u]. apply within_bind; [apply _|by apply keyring_call_same|].
  intros []; [apply within_throw|apply within_ret]; apply _.
Qed.

Lemma secret_get_same {V} (view : Sys → V) id kind :
  (∀ s, view (record_ev EvKeyring s) = view s) →
  (∀ s k, view (set_keychain k s) = view s) → within (same view) (secret_get id kind).
Proof.
  intros. unfold secret_get. apply within_bind; [apply _|apply within_lift_res, _|].
  intros [s u]. apply within_bind; [apply _|by apply keyring_call_same|].
  intros [[]|]; first [apply within_throw|apply within_ret]; apply _.
Qed.

Lemma secret_delete_same {V} (view : Sys → V) id kind :
  (∀ s, view (record_ev EvKeyring s) = view s) →
  (∀ s k, view (set_keychain k s) = view s) → within (same view) (secret_delete id kind).
Proof.
  intros. unfold secret_delete. apply within_bind; [apply _|apply within_lift_res, _|].
  intros [s u]. apply within_bind; [apply _|by apply keyring_call_same|].
  intros [[]|]; first [apply within_throw|apply within_ret]; apply _.
Qed.

Lemma secret_purge_same {V} (view : Sys → V) id :
  (∀ s, view (record_ev EvKeyring s) = view s) →
  (∀ s k, view (set_keychain k s) = view s) → within (same view) (secret_purge id).
Proof.
  intros. unfold secret_purge.
  repeat (apply within_bind; [apply _| |intros ?]);
    first [apply within_ret, _|apply within_ignore; by apply secret_delete_same].
Qed.
End frames.

#[export] Hint Extern 1 (within (same _) (secret_set _ _ _)) =>
  apply secret_set_same; reflexivity : within.
#[export] Hint Extern 1 (within (same _) (secret_get _ _)) =>
  apply secret_get_same; reflexivity : within.
#[export] Hint Extern 1 (within (same _) (secret_delete _ _)) =>
  apply secret_delete_same; reflexivity : within.
#[export] Hint Extern 1 (within (same _) (secret_purge _)) =>
  apply secret_purge_same; reflexivity : within.

(** ** The contract: a map from (account, kind) to secret *)

Section contract.
Context `{PF : Platform} `{!UlidLaws, KL : !KeyringLaws}.

Definition secret_at (id : AccountId) (kind : KeyKind) (s : Sys) : option string :=
  kr_view (sys_keychain s) !! (service_name id, key_kind_str kind).

Lemma service_name_inj id1 id2 : service_name id1 = service_name id2 → id1 = id2.
Proof.
  unfold service_name. intros Heq. apply account_to_string_inj.
  by apply (inj (String.append "mail-mcp.")) in Heq.
Qed.

Lemma secret_set_Ok id kind v s s' :
  secret_set id kind v s = (Ok tt, s') →
  secret_at id kind s' = Some v ∧
  ∀ id' kind', (id', kind') ≠ (id, kind) → secret_at id' kind' s' = secret_at id' kind' s.
Proof.
  unfold secret_set. intros Hrun. run_ok. destruct x as [sv u].
  unfold entry_new in *. destruct (kr_entry_new _ _); simplify_eq/=.
  run_ok. unfold keyring_call in *.
  destruct (kr_set_password _ _ _ _) as [r k] eqn:E. simplify_eq/=.
  destruct x as [e|[]]; run_ok. apply kr_set_ok in E.
  unfold secret_at; simpl. rewrite E. split; [apply lookup_insert_eq|].
  intros id' kind' Hne. rewrite lookup_insert_ne; [done|].
  intros [?%service_name_inj ?%key_kind_str_inj]%pair_eq. congruence.
Qed.

Lemma secret_get_Ok id kind o s s' :
  secret_get id kind s = (Ok o, s') → o = secret_at id kind s.
Proof.
  unfold secret_get. intros Hrun. run_ok. destruct x as [sv u].
  unfold lift_res, entry_new in *. destruct (kr_entry_new _ _); simplify_eq/=.
  run_ok. unfold keyring_call in *. simplify_eq/=.
  destruct (kr_get_password _ _ _) as [[]|p] eqn:E; run_ok.
  - by apply kr_get_no_entry in E.
  - by apply kr_get_ok in E.
Qed.

(** What one deletion does to the view, whatever its result. *)
Lemma secret_delete_view id kind s :
  ∀ id' kind',
    secret_at id' kind' (secret_delete id kind s).2 = secret_at id' kind' s ∨
    (id' = id ∧ kind' = kind ∧ secret_at id' kind' (secret_delete id kind s).2 = None).
Proof.
  intros id' kind'.
  unfold secret_delete, mbind, st_bind, mret, st_ret, throw, lift_res, entry_new.
  destruct (kr_entry_new _ _); [by left|]. unfold keyring_call.
  destruct (kr_delete_credential _ _ _) as [[e|[]] k] eqn:E.
  - left. apply kr_delete_err in E. unfold secret_at. destruct e; simpl; by rewrite E.
  - apply kr_delete_ok in E. unfold secret_at; simpl. rewrite E.
    destruct (decide ((id', kind') = (id, kind))) as [[= -> ->]|Hne].
    + right. by rewrite lookup_delete_eq.
    + left. rewrite lookup_delete_ne; [done|].
      intros [?%service_name_inj ?%key_kind_str_inj]%pair_eq. congruence.
Qed.

Lemma secret_delete_Ok id kind s s' :
  secret_delete id kind s = (Ok tt, s') → secret_at id kind s' = None.
Proof.
  unfold secret_delete. intros Hrun. run_ok. destruct x as [sv u].
  unfold entry_new in *. destruct (kr_entry_new _ _); simplify_eq/=.
  run_ok. unfold keyring_call in *.
  destruct (kr_delete_credential _ _ _) as [r k] eqn:E. simplify_eq/=.
  unfold secret_at. destruct x as [[]|[]]; run_ok; simpl.
  - by apply kr_delete_no_entry in E as [-> ?].
  - apply kr_delete_ok in E as ->. by rewrite lookup_delete_eq.
Qed.

(** Purging never fails. *)
Lemma secret_purge_total id s : ∃ s', secret_purge id s = (Ok tt, s').
Proof.
  assert (Hdel : ∀ kind s, ∃ s', ignore (secret_delete id kind) s = (Ok tt, s')).
  { intros kind s0. unfold ignore, secret_delete, mbind, st_bind, lift_res, entry_new.
    destruct (kr_entry_new _ _); [by eexists|]. unfold keyring_call.
    destruct (kr_delete_credential _ _ _) as [[[]|[]] k]; by eexists. }
  unfold secret_purge.
  destruct (Hdel RefreshToken s) as [s1 H1]. rewrite (bind_step _ _ _ _ _ H1).
  destruct (Hdel ImapPassword s1) as [s2 H2]. rewrite (bind_step _ _ _ _ _ H2).
  destruct (Hdel SmtpPassword s2) as [s3 H3]. rewrite (bind_step _ _ _ _ _ H3).
  by eexists.
Qed.
End contract.

(** ** Properties *)

Section properties.
Context `{PF : Platform} `{UL : !UlidLaws, KL : !KeyringLaws}.

(** A stored secret is read back, and storing it touches no other secret: no
    other account's and no other kind. *)
Theorem secret_set_get id kind v s s' :
  secret_set id kind v s = (Ok tt, s') →
  (∀ o s'', secret_get id kind s' = (Ok o, s'') → o = Some v) ∧
  ∀ id' kind', (id', kind') ≠ (id, kind) → secret_at id' kind' s' = secret_at id' kind' s.
Proof.
  intros [Hv Hother]%secret_set_Ok. split; [|done].
  intros o s'' ->%secret_get_Ok. done.
Qed.

(** Purging an account never fails, whatever the keychain does; a secret of
    the account is afterwards gone or, when the keychain refused, unchanged; no
    other account's secret is touched. *)
Theorem secret_purge_contract id s :
  ∃ s', secret_purge id s = (Ok tt, s') ∧
    ∀ id' kind', secret_at id' kind' s' = secret_at id' kind' s ∨
      (id' = id ∧ secret_at id' kind' s' = None).
Proof.
  destruct (secret_purge_total id s) as [s' Hs]. exists s'. split; [done|].
  assert (Hstep : ∀ kind s0 s1, ignore (secret_delete id kind) s0 = (Ok tt, s1) →
    ∀ id' kind', secret_at id' kind' s1 = secret_at id' kind' s0 ∨
      (id' = id ∧ secret_at id' kind' s1 = None)).
  { intros kind s0 s1 H1 id' kind'.
    pose proof (secret_delete_view id kind s0 id' kind') as Hv. revert H1. unfold ignore.
    destruct (secret_delete id kind s0) as [[[]|e| |] s2]; simpl in Hv;
      intros [= ->] || done; destruct Hv as [?|(? & ? & ?)]; auto. }
  revert Hs. unfold secret_purge.
  intros ([] & s1 & H1 & ([] & s2 & H2 & ([] & s3 & H3 & [_ ->]%ret_Ok)%bind_Ok)%bind_Ok)%bind_Ok.
  intros id' kind'.
  destruct (Hstep _ _ _ H1 id' kind') as [E1|[? E1]],
    (Hstep _ _ _ H2 id' kind') as [E2|[? E2]],
    (Hstep _ _ _ H3 id' kind') as [E3|[? E3]]; rewrite ?E3, ?E2, ?E1; auto.
Qed.
End properties.
