(* ===== verification/Permissions.v ===== *)
(** * Permissions

    [crates/mail-mcp-core/src/permissions/mod.rs]: the policy of each
    (account, category), stored in the table [permissions]. *)
From S2P Require Export Secrets.

Inductive Category : Type := Read | Modify | Trash | Draft | Send.

Global Instance Category_eq_dec : EqDecision Category.
Proof. solve_decision. Defined.

(** [Category::as_str]; its serde names are the same strings. *)
Definition category_str (c : Category) : string :=
  match c with
  | Read => "read"
  | Modify => "modify"
  | Trash => "trash"
  | Draft => "draft"
  | Send => "send"
  end.

Definition Category_ALL : list Category := [Read; Modify; Trash; Draft; Send].

(** [Category::from_str] *)
Definition category_from_str (s : string) : string + Category :=
  if String.eqb s "read" then inr Read
  else if String.eqb s "modify" then inr Modify
  else if String.eqb s "trash" then inr Trash
  else if String.eqb s "draft" then inr Draft
  else if String.eqb s "send" then inr Send
  else inl ("unknown category: " +:+ s).

Inductive Policy : Type := Allow | Confirm | Session | Draftify | Block.

Global Instance Policy_eq_dec : EqDecision Policy.
Proof. solve_decision. Defined.

(** [Policy::as_str]; its serde names are the same strings. *)
Definition policy_str (p : Policy) : string :=
  match p with
  | Allow => "allow"
  | Confirm => "confirm"
  | Session => "session"
  | Draftify => "draftify"
  | Block => "block"
  end.

(** [Policy::from_str] *)
Definition policy_from_str (s : string) : string + Policy :=
  if String.eqb s "allow" then inr Allow
  else if String.eqb s "confirm" then inr Confirm
  else if String.eqb s "session" then inr Session
  else if String.eqb s "draftify" then inr Draftify
  else if String.eqb s "block" then inr Block
  else inl ("unknown policy: " +:+ s).

Definition default_policy (category : Category) : Policy :=
  match category with
  | Read => Allow
  | Modify => Allow
  | Trash => Confirm
  | Draft => Allow
  | Send => Draftify
  end.

Lemma category_from_to_str c : category_from_str (category_str c) = inr c.
Proof. by destruct c. Qed.

Lemma policy_from_to_str p : policy_from_str (policy_str p) = inr p.
Proof. by destruct p. Qed.

Lemma category_str_inj c1 c2 : category_str c1 = category_str c2 → c1 = c2.
Proof. by destruct c1, c2. Qed.

Lemma elem_of_Category_ALL c : c ∈ Category_ALL.
Proof. unfold Category_ALL. rewrite !elem_of_cons. destruct c; tauto. Qed.

Global Instance Category_countable : Countable Category.
Proof.
  refine (inj_countable category_str
    (λ s, match category_from_str s with inr c => Some c | inl _ => None end) _).
  intros c. by rewrite category_from_to_str.
Defined.

(** The CHECKs of the table are exactly the names of the two enums. *)
Lemma check_category_spec s :
  check_category s = true ↔ ∃ c, category_from_str s = inr c.
Proof.
  unfold check_category, any_eq, category_from_str. simpl.
  repeat (destruct (String.eqb s _); simpl; [split; [by eauto|done]|]).
  split; [done|by intros [??]].
Qed.

Lemma check_policy_spec s :
  check_policy s = true ↔ ∃ p, policy_from_str s = inr p.
Proof.
  unfold check_policy, any_eq, policy_from_str. simpl.
  repeat (destruct (String.eqb s _); simpl; [split; [by eauto|done]|]).
  split; [done|by intros [??]].
Qed.

Lemma category_from_str_Ok s c : category_from_str s = inr c → s = category_str c.
Proof.
  unfold category_from_str.
  repeat match goal with
  | |- context [String.eqb s ?w] =>
      destruct (String.eqb_spec s w) as [->|]; [by intros [= <-]|]
  end. done.
Qed.

(** [struct Permissions { map: HashMap<Category, Policy> }] *)
Abbreviation Permissions := (gmap Category Policy).

(** [Permissions::with_defaults], and the first loop of [for_account]. *)
Definition with_defaults : Permissions :=
  foldl (λ m c, <[c := default_policy c]> m) ∅ Category_ALL.

(** [Permissions::policy_for] *)
Definition policy_for (p : Permissions) (category : Category) : Policy :=
  default (default_policy category) (p !! category).

(** [Permissions::override_for] *)
Definition override_for (p : Permissions) (c : Category) (pol : Policy) : Permissions :=
  <[c := pol]> p.

(** The second loop of [for_account]: each row overrides a default. *)
Fixpoint load_rows (m : Permissions) (rows : list (string * string)) :
    Result Permissions :=
  match rows with
  | [] => Ok m
  | (cat, pol) :: rows =>
      match category_from_str cat with
      | inl e => Err (Internal ("bad category in db: " +:+ e))
      | inr category =>
      match policy_from_str pol with
      | inl e => Err (Internal ("bad policy in db: " +:+ e))
      | inr policy => load_rows (<[category := policy]> m) rows
      end
      end
  end.

(** [SELECT category, policy FROM permissions WHERE account_id = ?1] *)
Definition permission_rows (id : string) (db : Db) : list (string * string) :=
  omap (λ kv : (string * string) * string,
    if String.eqb kv.1.1 id then Some (kv.1.2, kv.2) else None)
    (map_to_list (db_permissions db)).

Section permissions.
Context `{PF : Platform}.

(** [Permissions::for_account] *)
Definition for_account (id : AccountId) : M Permissions :=
  rows ← select (permission_rows (account_to_string id));
  lift_res (load_rows with_defaults rows).

(** [INSERT INTO permissions .. ON CONFLICT DO UPDATE]: the CHECKs and the
    foreign key are enforced. *)
Definition upsert_permission (id cat pol : string) : M unit :=
  sql (λ db,
    if check_category cat && check_policy pol then
      match db_accounts db !! id with
      | Some _ => inr (tt, with_permissions <[(id, cat) := pol]> db)
      | None => inl ForeignKey
      end
    else inl CheckFailed).

(** [Permissions::set] *)
Definition set_permission (id : AccountId) (category : Category) (policy : Policy) :
    M unit :=
  upsert_permission (account_to_string id) (category_str category) (policy_str policy).

(** [Permissions::install_defaults] *)
Definition install_defaults (id : AccountId) : M unit :=
  for_each Category_ALL (λ cat, set_permission id cat (default_policy cat)).

(** The policy the database holds for a pair. *)
Definition stored_policy (db : Db) (id : AccountId) (c : Category) : Policy :=
  match db_permissions db !! (account_to_string id, category_str c) with
  | Some s => match policy_from_str s with inr p => p | inl _ => default_policy c end
  | None => default_policy c
  end.
End permissions.

Section facts.
Context `{PF : Platform}.

Lemma with_defaults_lookup c : with_defaults !! c = Some (default_policy c).
Proof. by destruct c. Qed.

Lemma permission_rows_spec id db cat pol :
  (cat, pol) ∈ permission_rows id db ↔ db_permissions db !! (id, cat) = Some pol.
Proof.
  unfold permission_rows. rewrite list_elem_of_omap. split.
  - intros ([[i c] p] & Hin & H). simpl in H.
    destruct (String.eqb_spec i id) as [->|]; [|done]. injection H as <- <-.
    by apply elem_of_map_to_list in Hin.
  - intros H. exists ((id, cat), pol). rewrite elem_of_map_to_list. split; [done|].
    simpl. by rewrite String.eqb_refl.
Qed.

Lemma permission_rows_functional id db cat p1 p2 :
  (cat, p1) ∈ permission_rows id db → (cat, p2) ∈ permission_rows id db → p1 = p2.
Proof. rewrite !permission_rows_spec. congruence. Qed.

(** The loading loop, on rows whose categories and policies decode and where
    a category has one policy: a listed category gets its policy, the others
    keep theirs. *)
Lemma load_rows_spec rows m :
  (∀ cat pol, (cat, pol) ∈ rows →
    (∃ c, category_from_str cat = inr c) ∧ ∃ p, policy_from_str pol = inr p) →
  (∀ cat p1 p2, (cat, p1) ∈ rows → (cat, p2) ∈ rows → p1 = p2) →
  ∃ m', load_rows m rows = Ok m' ∧ ∀ c,
    (∀ pol p, (category_str c, pol) ∈ rows → policy_from_str pol = inr p →
      m' !! c = Some p) ∧
    ((∀ pol, (category_str c, pol) ∉ rows) → m' !! c = m !! c).
Proof.
  revert m. induction rows as [|[cat pol] rows IH]; intros m Hdec Hfun; simpl.
  { eexists. split; [done|]. intros c. split; [|done].
    by intros ? ? ?%not_elem_of_nil. }
  destruct (Hdec cat pol) as [[c0 Hc0] [p0 Hp0]]; [by left|].
  rewrite Hc0, Hp0. pose proof (category_from_str_Ok _ _ Hc0) as ->.
  destruct (IH (<[c0 := p0]> m)) as (m' & Hm' & Hspec).
  { intros cat' pol' ?. apply Hdec. by right. }
  { intros cat' p1 p2 ??. eapply Hfun; by right. }
  exists m'. split; [done|]. intros c. destruct (Hspec c) as [Hin Hout]. split.
  - intros pol' p [[= Hcat ->]|Hrest]%elem_of_cons Hpol'; [|by eapply Hin].
    apply category_str_inj in Hcat as ->. rewrite Hp0 in Hpol'. injection Hpol' as ->.
    destruct (decide (category_str c0 ∈ rows.*1)) as [Hex|Hno].
    + apply list_elem_of_fmap in Hex as ([cat' pol''] & Heq & Hel).
      simpl in Heq. subst cat'.
      eapply Hin; [exact Hel|]. by rewrite (Hfun (category_str c0) pol'' pol); [|right|left].
    + rewrite Hout; [apply lookup_insert_eq|].
      intros pol'' Hel. apply Hno, list_elem_of_fmap. by eexists (_, _).
  - intros Hnot. rewrite Hout.
    + rewrite lookup_insert_ne; [done|]. intros ->. by apply (Hnot pol); left.
    + intros pol'' Hel. apply (Hnot pol''). by right.
Qed.

Lemma permission_rows_load id db :
  db_wf db →
  ∃ m, load_rows with_defaults (permission_rows (account_to_string id) db) = Ok m ∧
    ∀ c, policy_for m c = stored_policy db id c.
Proof.
  intros Hwf.
  destruct (load_rows_spec (permission_rows (account_to_string id) db) with_defaults)
    as (m & Hm & Hspec).
  { intros cat pol Hin%permission_rows_spec.
    rewrite <- check_category_spec, <- check_policy_spec. destruct Hwf; eauto. }
  { intros *. apply permission_rows_functional. }
  exists m. split; [done|]. intros c. destruct (Hspec c) as [Hin Hout].
  unfold policy_for, stored_policy.
  destruct (db_permissions db !! _) as [pol|] eqn:E.
  - assert (∃ p, policy_from_str pol = inr p) as [p Hp].
    { apply check_policy_spec. destruct Hwf; eauto. }
    rewrite Hp. rewrite (Hin pol p); [done| |done]. by apply permission_rows_spec.
  - rewrite Hout; [by rewrite with_defaults_lookup|].
    intros pol Hel%permission_rows_spec. congruence.
Qed.

(** Loading the policies of an account: on an intact database it fails only
    with the driver, and it yields the stored policy of every category. *)
Lemma for_account_run id s :
  db_wf (sys_db s) →
  (∃ text, for_account id s = (Err (Storage text), record_ev EvSql s)) ∨
  (∃ m s', for_account id s = (Ok m, s') ∧ sys_db s' = sys_db s ∧
    sys_keychain s' = sys_keychain s ∧ sys_cells s' = sys_cells s ∧
    sys_hist s' = EvSql :: sys_hist s ∧
    ∀ c, policy_for m c = stored_policy (sys_db s) id c).
Proof.
  intros Hwf. unfold for_account, select, sql, mbind, st_bind.
  destruct (sql_fault _) as [text|]; [by left; eexists|right].
  destruct (permission_rows_load id (sys_db s) Hwf) as (m & Hm & Hpol).
  unfold lift_res. simpl. rewrite Hm. do 2 eexists. split; [reflexivity|]. done.
Qed.

Lemma set_permission_Ok id c p s s' :
  set_permission id c p s = (Ok tt, s') →
  is_Some (db_accounts (sys_db s) !! account_to_string id) ∧
  sys_db s' = with_permissions
    <[(account_to_string id, category_str c) := policy_str p]> (sys_db s).
Proof.
  intros (db & Hdb & ->)%sql_Ok. simpl in Hdb.
  destruct (_ && _); [|done]. destruct (_ !! _) eqn:E; [|done].
  injection Hdb as <-. done.
Qed.

(** What a stored policy changes, and what it does not. *)
Lemma set_permission_stored `{!UlidLaws} id c p s s' :
  set_permission id c p s = (Ok tt, s') →
  ∀ id' c', stored_policy (sys_db s') id' c' =
    if decide (id' = id ∧ c' = c) then p else stored_policy (sys_db s) id' c'.
Proof.
  intros [_ ->]%set_permission_Ok id' c'. unfold stored_policy; simpl.
  destruct (decide (id' = id ∧ c' = c)) as [[-> ->]|Hne].
  - by rewrite lookup_insert_eq, policy_from_to_str.
  - rewrite lookup_insert_ne; [done|].
    intros [= ?%account_to_string_inj ?%category_str_inj]. by apply Hne.
Qed.

Lemma set_permission_wf id c p : within (keeps (db_wf ∘ sys_db)) (set_permission id c p).
Proof.
  apply sql_keeps. intros db [] db' Hwf Hs. simpl in Hs.
  destruct (_ && _) eqn:Hchk; [|done]. apply andb_true_iff in Hchk as [Hc Hp].
  destruct (_ !! _) eqn:E; [|done]. injection Hs as <-. destruct Hwf.
  split; simpl; [by eauto|by eauto|..].
  - intros id' cat pol [[[= <- <-] <-]|[_ ?]]%lookup_insert_Some; eauto.
  - intros id' cat pol [[[= <- <-] <-]|[_ ?]]%lookup_insert_Some; eauto.
  - intros id' cat pol [[[= <- <-] <-]|[_ ?]]%lookup_insert_Some; eauto.
Qed.

Lemma install_defaults_accounts id :
  within (same (db_accounts ∘ sys_db)) (install_defaults id).
Proof.
  apply within_for_each; [apply _|]. intros c s.
  unfold set_permission, upsert_permission, sql, same, compose.
  destruct (sql_fault _); [done|]. destruct (_ && _); [|done].
  by destruct (db_accounts _ !! _).
Qed.

Lemma install_defaults_stored id s u s' c :
  install_defaults id s = (Ok u, s') → stored_policy (sys_db s') id c = default_policy c.
Proof.
  unfold install_defaults, Category_ALL, for_each. intros H. run_ok.
  repeat match goal with
  | H : set_permission _ _ _ _ = (Ok ?u, _) |- _ =>
      destruct u; apply set_permission_Ok in H as [_ H]
  end.
  unfold stored_policy.
  repeat match goal with H : sys_db _ = _ |- _ => rewrite H; clear H; simpl end.
  destruct c; repeat first [rewrite lookup_insert_eq; reflexivity
    | rewrite lookup_insert_ne by (intros [= ?]; done)].
Qed.

Lemma install_defaults_wf id : within (keeps (db_wf ∘ sys_db)) (install_defaults id).
Proof. apply within_for_each; [apply _|]. intros c. apply set_permission_wf. Qed.
End facts.

(** ** Properties *)

Section properties.
Context `{PF : Platform} `{UL : !UlidLaws}.

(** Setting a policy stores it: a later load of the same account yields
    the new policy for that category and the old one for every other, and the
    policies of every other account are what they were. *)
Theorem set_permission_round_trip id c p s s' :
  set_permission id c p s = (Ok tt, s') →
  ∀ id' c', stored_policy (sys_db s') id' c' =
    if decide (id' = id ∧ c' = c) then p else stored_policy (sys_db s) id' c'.
Proof. apply set_permission_stored. Qed.

(** Loading an account's policies from an intact database cannot meet a
    bad category or policy: it fails only when the driver does, and otherwise
    yields exactly the stored policy of each of the five categories. *)
Theorem for_account_loads_stored id s :
  db_wf (sys_db s) →
  match (for_account id s).1 with
  | Ok m => ∀ c, policy_for m c = stored_policy (sys_db s) id c
  | Err e => ∃ text, e = Storage text
  | Panic | Hang => False
  end.
Proof.
  intros Hwf. destruct (for_account_run id s Hwf) as [(text & ->)|(m & s' & -> & H)];
    simpl; [by eexists|apply H].
Qed.

(** Installing the defaults of a new account leaves it with the default
    policy of every category: reading, changing and drafting are allowed,
    trashing must be confirmed, and a send becomes a draft. *)
Theorem install_defaults_stores id s s' :
  install_defaults id s = (Ok tt, s') →
  ∀ c, stored_policy (sys_db s') id c = default_policy c.
Proof. intros H c. by eapply install_defaults_stored. Qed.
End properties.

#[export] Hint Resolve set_permission_wf install_defaults_wf : within.
