(* ===== verification/Approvals.v ===== *)
(** * The approval queue

    [crates/mail-mcp-core/src/permissions/approvals.rs]: requests waiting for
    the user, each with the sending half of a oneshot channel whose receiving
    half the requesting task awaits under a timeout. What other tasks do while
    that task waits is a script: the actions before its timer fires, and the
    actions between the timer and the moment it takes the queue's lock. *)
From S2P Require Export Permissions.

Record ApprovalId : Type := mkApprovalId { approval_ulid : Ulid }.

Global Instance ApprovalId_eq_dec : EqDecision ApprovalId.
Proof. solve_decision. Defined.
Global Instance ApprovalId_countable : Countable ApprovalId :=
  inj_countable' approval_ulid mkApprovalId (λ '(mkApprovalId _), eq_refl).

Record ApprovalRequest : Type := mkApprovalRequest {
  ar_account : AccountId;
  ar_category : Category;
  ar_summary : string;
  ar_details : Value;
}.

Record PendingApproval : Type := mkPendingApproval {
  pa_id : ApprovalId;
  pa_request : ApprovalRequest;
  pa_created_at : DateTime;
}.

Inductive ApprovalDecision : Type := Approve | Reject.

Inductive ApprovalOutcome : Type := Approved | Rejected | Timeout.

Global Instance ApprovalDecision_eq_dec : EqDecision ApprovalDecision.
Proof. solve_decision. Defined.
Global Instance ApprovalOutcome_eq_dec : EqDecision ApprovalOutcome.
Proof. solve_decision. Defined.

Inductive ApprovalEvent : Type :=
| Requested (p : PendingApproval)
| Resolved (id : ApprovalId) (decision : ApprovalDecision).

(** A oneshot channel: its sender is alive, has sent, or was dropped. *)
Inductive Chan : Type := COpen | CSent (o : ApprovalOutcome) | CClosed.

(** [ApprovalQueue] and its [Inner]; the channels ever created, by index; the
    events broadcast, newest first. *)
Record Queue : Type := mkQueue {
  q_pending : gmap ApprovalId (PendingApproval * nat);
  q_chans : list Chan;
  q_events : list ApprovalEvent;
}.

(** [ApprovalQueue::new] *)
Definition queue_new : Queue := mkQueue ∅ [] [].

(** ** The critical sections, as functions of the queue *)

(** Dropping an unused sender closes its channel. *)
Definition drop_sender (e : option (PendingApproval * nat)) (chans : list Chan) :
    list Chan :=
  match e with
  | Some (_, c) => alter (λ ch, match ch with COpen => CClosed | _ => ch end) c chans
  | None => chans
  end.

(** The body of [enqueue] once the id and the time are known: a new channel,
    [HashMap::insert] (which drops the entry it replaces), the event. *)
Definition q_insert (p : PendingApproval) (q : Queue) : Queue := {|
  q_pending := <[pa_id p := (p, length (q_chans q))]> (q_pending q);
  q_chans := drop_sender (q_pending q !! pa_id p) (q_chans q ++ [COpen]);
  q_events := Requested p :: q_events q;
|}.

Definition outcome_of (d : ApprovalDecision) : ApprovalOutcome :=
  match d with Approve => Approved | Reject => Rejected end.

(** The body of [decide] on the entry it removed. *)
Definition q_resolve (id : ApprovalId) (d : ApprovalDecision) (c : nat) (q : Queue) :
    Queue := {|
  q_pending := delete id (q_pending q);
  q_chans := <[c := CSent (outcome_of d)]> (q_chans q);
  q_events := Resolved id d :: q_events q;
|}.

(** [inner.pending.remove(&id)] with the entry dropped. *)
Definition q_remove (id : ApprovalId) (q : Queue) : Queue := {|
  q_pending := delete id (q_pending q);
  q_chans := drop_sender (q_pending q !! id) (q_chans q);
  q_events := q_events q;
|}.

(** ** The operations *)

(** What another task does to the queue. *)
Inductive QAction : Type :=
| AEnqueue (r : ApprovalRequest)
| ADecide (id : ApprovalId) (d : ApprovalDecision)
| AExpire (id : ApprovalId).

(** For one await: the actions before its timer fires, and those between the
    timer and the lock. *)
Definition Script : Type := list (list QAction * list QAction).

(** [SessionTrust] *)
Abbreviation SessionTrust := (gmap (AccountId * Category) bool).

Section approvals.
Context `{PF : Platform}.

(** The state behind the permission system. *)
Record Desk : Type := mkDesk {
  dk_sys : Sys;
  dk_queue : Queue;
  dk_trust : gmap (AccountId * Category) bool;
  dk_script : Script;
}.

Definition set_dk_sys (s : Sys) (d : Desk) : Desk :=
  mkDesk s (dk_queue d) (dk_trust d) (dk_script d).
Definition set_queue (q : Queue) (d : Desk) : Desk :=
  mkDesk (dk_sys d) q (dk_trust d) (dk_script d).
Definition set_trust (t : gmap (AccountId * Category) bool) (d : Desk) : Desk :=
  mkDesk (dk_sys d) (dk_queue d) t (dk_script d).
Definition set_script (sc : Script) (d : Desk) : Desk :=
  mkDesk (dk_sys d) (dk_queue d) (dk_trust d) sc.

Definition DM (A : Type) : Type := ST Desk Error A.

Definition on_sys {A} (m : M A) : DM A := zoom dk_sys set_dk_sys m.

Definition approval_to_string (id : ApprovalId) : string :=
  ulid_to_string (approval_ulid id).

(** [ApprovalFuture]: the id and the receiving half. *)
Record ApprovalFuture : Type := mkFuture { fut_id : ApprovalId; fut_rx : nat }.

(** [ApprovalQueue::enqueue] *)
Definition enqueue (request : ApprovalRequest) : DM ApprovalFuture :=
  id ← on_sys ulid_new;
  now ← on_sys utc_now;
  let pending := mkPendingApproval (mkApprovalId id) request now in
  rx ← gets (λ d, length (q_chans (dk_queue d)));
  _ ← modify (λ d, set_queue (q_insert pending (dk_queue d)) d);
  mret (mkFuture (mkApprovalId id) rx).

(** [ApprovalQueue::decide] *)
Definition decide_approval (id : ApprovalId) (decision : ApprovalDecision) : DM unit :=
  entry ← gets (λ d, q_pending (dk_queue d) !! id);
  match entry with
  | None => throw (NotFound ("approval " +:+ approval_to_string id))
  | Some (_, tx) => modify (λ d, set_queue (q_resolve id decision tx (dk_queue d)) d)
  end.

(** [ApprovalQueue::list] *)
Definition list_approvals : DM (list PendingApproval) :=
  gets (λ d, (map_to_list (q_pending (dk_queue d))).*2.*1).

(** The timeout branch's cleanup. *)
Definition expire (id : ApprovalId) : DM unit :=
  modify (λ d, set_queue (q_remove id (dk_queue d)) d).

Definition run_action (a : QAction) : DM unit :=
  match a with
  | AEnqueue r => ignore (enqueue r)
  | ADecide id d => ignore (decide_approval id d)
  | AExpire id => expire id
  end.

Definition next_script : DM (list QAction * list QAction) := λ d,
  match dk_script d with
  | [] => (Ok ([], []), d)
  | x :: sc => (Ok x, set_script sc d)
  end.

(** [ApprovalFuture::await_outcome]: the timeout polls the receiver, then the
    timer; what was sent before the timer fired is received. *)
Definition await_outcome (fut : ApprovalFuture) : DM ApprovalOutcome :=
  '(before, between) ← next_script;
  _ ← for_each before run_action;
  ch ← gets (λ d, q_chans (dk_queue d) !! fut_rx fut);
  match ch with
  | Some (CSent o) => mret o
  | Some CClosed => throw (Internal "approval channel dropped")
  | Some COpen =>
      _ ← for_each between run_action;
      _ ← expire (fut_id fut);
      mret Timeout
  | None => panic
  end.
End approvals.

(** ** The queue as a transition system *)

Inductive qstep : Queue → Queue → Prop :=
| QEnqueue p q : qstep q (q_insert p q)
| QDecide id d p c q :
    q_pending q !! id = Some (p, c) → qstep q (q_resolve id d c q)
| QExpire id q : qstep q (q_remove id q).

Definition qreachable (q : Queue) : Prop := rtc qstep queue_new q.

(** Every pending entry is filed under its id, its channel is open, and no two
    entries share a channel. *)
Record queue_inv (q : Queue) : Prop := {
  qi_key id p c : q_pending q !! id = Some (p, c) → pa_id p = id;
  qi_open id p c : q_pending q !! id = Some (p, c) → q_chans q !! c = Some COpen;
  qi_inj id1 id2 p1 p2 c :
    q_pending q !! id1 = Some (p1, c) → q_pending q !! id2 = Some (p2, c) → id1 = id2;
}.

Lemma queue_inv_new : queue_inv queue_new.
Proof. split; intros *; unfold queue_new; simpl; rewrite lookup_empty; done. Qed.

Lemma drop_sender_length e chans : length (drop_sender e chans) = length chans.
Proof. destruct e as [[p c]|]; simpl; [by rewrite length_alter|done]. Qed.

Lemma drop_sender_other e chans c :
  (∀ p, e ≠ Some (p, c)) → drop_sender e chans !! c = chans !! c.
Proof.
  intros H. destruct e as [[p c']|]; simpl; [|done].
  rewrite list_lookup_alter_ne; [done|]. intros ->. by apply (H p).
Qed.

Lemma drop_sender_same p chans c :
  drop_sender (Some (p, c)) chans !! c =
    (λ ch, match ch with COpen => CClosed | _ => ch end) <$> chans !! c.
Proof. simpl. by rewrite list_lookup_alter_eq. Qed.

Lemma queue_inv_bound q id p c :
  queue_inv q → q_pending q !! id = Some (p, c) → c < length (q_chans q).
Proof. intros [_ H _] ?. apply lookup_lt_is_Some. eauto. Qed.

Lemma queue_inv_insert p q : queue_inv q → queue_inv (q_insert p q).
Proof.
  intros Hq. pose proof (queue_inv_bound q) as Hb. pose proof Hq as [Hk Ho Hi].
  split; simpl.
  - intros id p' c [[<- [= <- <-]]|[_ ?]]%lookup_insert_Some; eauto.
  - intros id p' c [[<- [= <- <-]]|[Hne ?]]%lookup_insert_Some.
    + rewrite drop_sender_other.
      * by rewrite lookup_app_r, Nat.sub_diag by lia.
      * intros p' Hp'. apply Hb in Hp'; [lia|done].
    + rewrite drop_sender_other.
      * rewrite lookup_app_l by eauto. eauto.
      * intros p'' Hp''. apply Hne. eauto.
  - intros id1 id2 p1 p2 c.
    intros [[<- [= <- <-]]|[Hne1 H1]]%lookup_insert_Some
      [[<- Heq]|[Hne2 H2]]%lookup_insert_Some; [done|..|by eauto].
    + apply Hb in H2; [lia|done].
    + injection Heq as <- <-. apply Hb in H1; [lia|done].
Qed.

Lemma queue_inv_resolve id d p c q :
  queue_inv q → q_pending q !! id = Some (p, c) → queue_inv (q_resolve id d c q).
Proof.
  intros [Hk Ho Hi] Hp. split; simpl.
  - intros id' p' c' [_ ?]%lookup_delete_Some. eauto.
  - intros id' p' c' [Hne Hp']%lookup_delete_Some.
    rewrite list_lookup_insert_ne; [eauto|]. intros ->. apply Hne. eauto.
  - intros * [_ ?]%lookup_delete_Some [_ ?]%lookup_delete_Some. eauto.
Qed.

Lemma queue_inv_remove id q : queue_inv q → queue_inv (q_remove id q).
Proof.
  intros [Hk Ho Hi]. split; simpl.
  - intros id' p' c' [_ ?]%lookup_delete_Some. eauto.
  - intros id' p' c' [Hne Hp']%lookup_delete_Some.
    rewrite drop_sender_other; [eauto|]. intros p'' Hp''. apply Hne. eauto.
  - intros * [_ ?]%lookup_delete_Some [_ ?]%lookup_delete_Some. eauto.
Qed.

Lemma queue_inv_step q q' : queue_inv q → qstep q q' → queue_inv q'.
Proof.
  intros Hq Hs. destruct Hs;
    eauto using queue_inv_insert, queue_inv_resolve, queue_inv_remove.
Qed.

Lemma queue_inv_reachable q : qreachable q → queue_inv q.
Proof.
  unfold qreachable. intros H.
  cut (queue_inv queue_new → queue_inv q); [intros Hc; apply Hc, queue_inv_new|].
  induction H; eauto using queue_inv_step.
Qed.

(** ** Every operation is a sequence of steps *)

Section facts.
Context `{PF : Platform}.

Definition qsteps : relation Desk := λ d d', rtc qstep (dk_queue d) (dk_queue d').

Global Instance qsteps_preorder : PreOrder qsteps.
Proof. split; unfold qsteps; [by intros d|intros d1 d2 d3 ??; by etrans]. Qed.

Lemma qsteps_on_sys {A} (m : M A) : within qsteps (on_sys m).
Proof. intros d. unfold on_sys, zoom, qsteps. by destruct (m _). Qed.

Lemma enqueue_qsteps r : within qsteps (enqueue r).
Proof.
  unfold enqueue. repeat (apply within_bind; [apply _| |intros ?]);
    try apply qsteps_on_sys; try (apply within_gets, _); try (apply within_ret, _).
  apply within_modify. intros d. apply rtc_once. constructor.
Qed.

Lemma decide_qsteps id d : within qsteps (decide_approval id d).
Proof.
  intros dk. unfold decide_approval, mbind, st_bind, gets.
  destruct (q_pending _ !! id) as [[p c]|] eqn:E; [|by unfold qsteps].
  apply rtc_once. simpl. by eapply QDecide.
Qed.

Lemma expire_qsteps id : within qsteps (expire id).
Proof. apply within_modify. intros d. apply rtc_once. constructor. Qed.

Lemma run_action_qsteps a : within qsteps (run_action a).
Proof.
  destruct a; unfold run_action.
  - apply within_ignore, enqueue_qsteps.
  - apply within_ignore, decide_qsteps.
  - apply expire_qsteps.
Qed.

Lemma next_script_qsteps : within qsteps next_script.
Proof. intros d. unfold next_script, qsteps. by destruct (dk_script d). Qed.

Lemma await_qsteps fut : within qsteps (await_outcome fut).
Proof.
  unfold await_outcome. apply within_bind; [apply _|apply next_script_qsteps|].
  intros [before between]. apply within_bind; [apply _| |intros _].
  { apply within_for_each; [apply _|]. apply run_action_qsteps. }
  apply within_bind; [apply _|apply within_gets, _|].
  intros [[|o|]|]; try (apply within_ret, _); try (apply within_throw, _);
    try (apply within_panic, _).
  apply within_bind; [apply _| |intros _].
  { apply within_for_each; [apply _|]. apply run_action_qsteps. }
  apply within_bind; [apply _|apply expire_qsteps|intros _; apply within_ret, _].
Qed.

Lemma qsteps_inv {A} (m : DM A) :
  within qsteps m → within (keeps (queue_inv ∘ dk_queue)) m.
Proof.
  apply within_weaken. intros d d' Hs Hd. unfold qsteps, compose in *.
  induction Hs; eauto using queue_inv_step.
Qed.

(** ** The fate of one entry *)

Lemma run_action_total a d : ∃ d', run_action a d = (Ok tt, d').
Proof.
  destruct a as [r|id dec|id]; simpl; [by eexists| |by eexists].
  unfold ignore, decide_approval, mbind, st_bind, gets.
  destruct (q_pending _ !! id) as [[p c]|]; by eexists.
Qed.

Lemma run_actions_total l d : ∃ d', for_each l run_action d = (Ok tt, d').
Proof.
  revert d. induction l as [|a l IH]; intros d; simpl; [by eexists|].
  destruct (run_action_total a d) as [d1 H1]. rewrite (bind_step _ _ _ _ _ H1).
  apply IH.
Qed.

Lemma run_action_inv a d : queue_inv (dk_queue d) → queue_inv (dk_queue (run_action a d).2).
Proof. apply (qsteps_inv _ (run_action_qsteps a)). Qed.

Lemma run_actions_inv l d :
  queue_inv (dk_queue d) → queue_inv (dk_queue (for_each l run_action d).2).
Proof.
  apply (qsteps_inv (for_each l run_action)). apply within_for_each; [apply _|].
  apply run_action_qsteps.
Qed.

(** An open channel of a pending entry stays so, or the user decided that
    entry, or the entry was dropped. *)
Definition fate (id : ApprovalId) (p : PendingApproval) (c : nat) (d : Desk) : Prop :=
  q_pending (dk_queue d) !! id = Some (p, c) ∧ q_chans (dk_queue d) !! c = Some COpen.

Definition drops (a : QAction) (id : ApprovalId) (d : Desk) : Prop :=
  match a with
  | AEnqueue _ => mkApprovalId (ulid_at (sys_hist (dk_sys d))) = id
  | ADecide _ _ => False
  | AExpire id' => id' = id
  end.

Lemma run_action_fate a id p c d :
  queue_inv (dk_queue d) → fate id p c d →
  let d' := (run_action a d).2 in
  fate id p c d' ∨
  (∃ dec, a = ADecide id dec ∧ q_chans (dk_queue d') !! c = Some (CSent (outcome_of dec))) ∨
  (drops a id d ∧ q_chans (dk_queue d') !! c = Some CClosed).
Proof.
  intros Hinv [Hp Hc]. pose proof Hinv as [_ _ Hi]. destruct a as [r|id' dec|id'].
  - simpl. set (id' := mkApprovalId _). set (p' := mkPendingApproval id' _ _).
    pose proof (lookup_lt_Some _ _ _ Hc) as Hlt.
    destruct (decide (id = id')) as [Heq|Hne].
    + right; right. split; [done|]. rewrite <- Heq, Hp. rewrite drop_sender_same.
      by rewrite lookup_app_l, Hc.
    + left. split; simpl; [by rewrite lookup_insert_ne|].
      rewrite drop_sender_other; [by rewrite lookup_app_l|].
      intros p0 Hp0. apply Hne. eapply Hi; eauto.
  - simpl. unfold ignore, decide_approval, mbind, st_bind, gets.
    destruct (q_pending _ !! id') as [[p' c']|] eqn:E; [|by left].
    simpl. destruct (decide (id = id')) as [<-|Hne].
    + right; left. exists dec. split; [done|]. rewrite Hp in E. injection E as <- <-.
      apply list_lookup_insert_eq. by eapply lookup_lt_Some.
    + left. split; simpl; [by rewrite lookup_delete_ne|].
      rewrite list_lookup_insert_ne; [done|]. intros ->. apply Hne. eauto.
  - simpl. destruct (decide (id = id')) as [<-|Hne].
    + right; right. split; [done|]. rewrite Hp. rewrite drop_sender_same. by rewrite Hc.
    + left. split; simpl; [by rewrite lookup_delete_ne|].
      rewrite drop_sender_other; [done|]. intros p0 Hp0. apply Hne. eauto.
Qed.

(** A channel that is no longer open never changes again. *)
Lemma run_action_settled a c ch d :
  queue_inv (dk_queue d) → q_chans (dk_queue d) !! c = Some ch → ch ≠ COpen →
  q_chans (dk_queue (run_action a d).2) !! c = Some ch.
Proof.
  intros [_ Ho _] Hc Hne.
  assert (Hno : ∀ id p c', q_pending (dk_queue d) !! id = Some (p, c') → c' ≠ c).
  { intros id p c' Hp ->. rewrite (Ho _ _ _ Hp) in Hc. congruence. }
  destruct a as [r|id dec|id]; simpl.
  - rewrite drop_sender_other; [|intros p Hp; by apply Hno in Hp].
    rewrite lookup_app_l; [done|]. by eapply lookup_lt_Some.
  - unfold ignore, decide_approval, mbind, st_bind, gets.
    destruct (q_pending _ !! id) as [[p c']|] eqn:E; [|done]. simpl.
    rewrite list_lookup_insert_ne; [done|]. by eapply Hno.
  - rewrite drop_sender_other; [done|]. intros p Hp. by apply Hno in Hp.
Qed.

Lemma run_actions_settled l c ch d :
  queue_inv (dk_queue d) → q_chans (dk_queue d) !! c = Some ch → ch ≠ COpen →
  q_chans (dk_queue (for_each l run_action d).2) !! c = Some ch.
Proof.
  revert d. induction l as [|a l IH]; intros d Hinv Hc Hne; simpl; [done|].
  pose proof (run_action_inv a d Hinv). pose proof (run_action_settled a c ch d Hinv Hc Hne).
  destruct (run_action_total a d) as [d1 H1]. rewrite (bind_step _ _ _ _ _ H1).
  rewrite H1 in *. by apply IH.
Qed.

(** After a sequence of actions the channel holds the outcome of a decision
    about this entry that the sequence contains, or the entry was dropped, or
    it is still pending. *)
Lemma run_actions_fate l id p c d :
  queue_inv (dk_queue d) → fate id p c d →
  let d' := (for_each l run_action d).2 in
  fate id p c d' ∨
  (∃ dec, ADecide id dec ∈ l ∧ q_chans (dk_queue d') !! c = Some (CSent (outcome_of dec))) ∨
  q_chans (dk_queue d') !! c = Some CClosed.
Proof.
  revert d. induction l as [|a l IH]; intros d Hinv Hf; simpl; [by left|].
  pose proof (run_action_inv a d Hinv) as Hinv1.
  pose proof (run_action_fate a id p c d Hinv Hf) as Hcase. simpl in Hcase.
  destruct (run_action_total a d) as [d1 H1]. rewrite (bind_step _ _ _ _ _ H1).
  rewrite H1 in *. simpl in *. destruct Hcase as [Hf1|[(dec & -> & Hc)|[_ Hc]]].
  - destruct (IH d1 Hinv1 Hf1) as [?|[(dec & ? & ?)|?]]; [by left| |by right; right].
    right; left. exists dec. split; [by right|done].
  - right; left. exists dec. split; [by left|]. by apply run_actions_settled.
  - right; right. by apply run_actions_settled.
Qed.

(** The first decision about [id] in a sequence of actions. *)
Fixpoint answer (id : ApprovalId) (l : list QAction) : option ApprovalDecision :=
  match l with
  | [] => None
  | ADecide id' d :: l => if decide (id' = id) then Some d else answer id l
  | _ :: l => answer id l
  end.

Lemma run_action_hist a d :
  length (sys_hist (dk_sys d)) ≤ length (sys_hist (dk_sys (run_action a d).2)).
Proof.
  destruct a as [r|id dec|id]; simpl; [lia| |lia].
  unfold ignore, decide_approval, mbind, st_bind, gets.
  destruct (q_pending _ !! id) as [[p c]|]; simpl; lia.
Qed.

(** When ULIDs drawn at different times differ and no other task expires the
    entry, its channel holds the user's first answer. *)
Lemma run_actions_answer l h p c d :
  (∀ h1 h2, ulid_at h1 = ulid_at h2 → length h1 = length h2) →
  let id := mkApprovalId (ulid_at h) in
  length h < length (sys_hist (dk_sys d)) → AExpire id ∉ l →
  queue_inv (dk_queue d) → fate id p c d →
  q_chans (dk_queue (for_each l run_action d).2) !! c =
    Some (match answer id l with Some dec => CSent (outcome_of dec) | None => COpen end).
Proof.
  intros Hfresh id. revert d. induction l as [|a l IH]; intros d Hlen Hno Hinv Hf; simpl.
  { by destruct Hf. }
  apply not_elem_of_cons in Hno as [Ha Hno].
  pose proof (run_action_inv a d Hinv) as Hinv1.
  pose proof (run_action_hist a d) as Hlen1.
  pose proof (run_action_fate a id p c d Hinv Hf) as Hcase. simpl in Hcase.
  destruct (run_action_total a d) as [d1 H1]. rewrite (bind_step _ _ _ _ _ H1).
  rewrite H1 in *. simpl in *. destruct Hcase as [Hf1|[(dec & -> & Hc)|[Hdrop _]]].
  - rewrite IH; [|lia|done..]. destruct a as [|id' dec|]; try done. simpl.
    destruct (decide (id' = id)) as [->|]; [|done].
    exfalso. destruct Hf as [Hp _], Hf1 as [Hp1 _]. revert H1 Hp1.
    unfold run_action, ignore, decide_approval, mbind, st_bind, gets. rewrite Hp.
    intros [= <-]. simpl. by rewrite lookup_delete_eq.
  - simpl. rewrite decide_True by done. by apply run_actions_settled.
  - exfalso. destruct a as [r| |id']; simpl in Hdrop; [|done|by subst].
    injection Hdrop as Hdrop. apply Hfresh in Hdrop. lia.
Qed.

(** Enqueueing makes the entry pending on a fresh open channel. *)
Lemma enqueue_run r d :
  queue_inv (dk_queue d) →
  ∃ fut d', enqueue r d = (Ok fut, d') ∧ queue_inv (dk_queue d') ∧
    (∃ p, fate (fut_id fut) p (fut_rx fut) d' ∧ pa_request p = r) ∧
    dk_trust d' = dk_trust d ∧ dk_script d' = dk_script d ∧
    fut_id fut = mkApprovalId (ulid_at (sys_hist (dk_sys d))) ∧
    length (sys_hist (dk_sys d)) < length (sys_hist (dk_sys d')) ∧
    sys_db (dk_sys d') = sys_db (dk_sys d) ∧
    sys_keychain (dk_sys d') = sys_keychain (dk_sys d) ∧
    http_log (dk_sys d') = http_log (dk_sys d).
Proof.
  intros Hinv. destruct (enqueue r d) as [res d'] eqn:E.
  injection E as <- <-.
  set (p := mkPendingApproval (mkApprovalId (ulid_at (sys_hist (dk_sys d)))) r
    (clock_at (EvUlid :: sys_hist (dk_sys d)))).
  pose proof (queue_inv_insert p _ Hinv) as Hinv'.
  do 2 eexists. split; [reflexivity|]. split; [exact Hinv'|].
  split; [|repeat split; simpl; lia].
  exists p. split; [split|done].
  - apply lookup_insert_eq.
  - eapply (qi_open _ Hinv'). apply lookup_insert_eq.
Qed.
End facts.
