(* ===== verification/Enforce.v ===== *)
(** * Enforcement

    [crates/mail-mcp-core/src/permissions/enforce.rs]: what the policy of an
    (account, category) lets a caller do, with the session trust and the
    approval queue; and the policy table it implements. *)
From S2P Require Export Approvals.

Inductive EnforceOutcome : Type := Proceed | Blocked | ConvertToDraft.

Global Instance EnforceOutcome_eq_dec : EqDecision EnforceOutcome.
Proof. solve_decision. Defined.

(** [SessionTrust::is_trusted] *)
Definition is_trusted (t : SessionTrust) (account : AccountId) (cat : Category) : bool :=
  default false (t !! (account, cat)).

(** [SessionTrust::grant] *)
Definition grant (account : AccountId) (cat : Category) (t : SessionTrust) :
    SessionTrust := <[(account, cat) := true]> t.

(** [SessionTrust::revoke_all] *)
Definition revoke_all (t : SessionTrust) : SessionTrust := ∅.

Section enforce.
Context `{PF : Platform}.

(** [ask_confirm] *)
Definition ask_confirm (request : ApprovalRequest) : DM EnforceOutcome :=
  fut ← enqueue request;
  outcome ← await_outcome fut;
  mret match outcome with
       | Approved => Proceed
       | Rejected => Blocked
       | Timeout => Blocked
       end.

(** [enforce] *)
Definition enforce (perms : Permissions) (category : Category)
    (request : ApprovalRequest) : DM EnforceOutcome :=
  match policy_for perms category with
  | Allow => mret Proceed
  | Block => mret Blocked
  | Draftify =>
      match category with
      | Send => mret ConvertToDraft
      | _ => ask_confirm request
      end
  | Confirm => ask_confirm request
  | Session =>
      let account := ar_account request in
      trusted ← gets (λ d, is_trusted (dk_trust d) account category);
      if trusted : bool then mret Proceed
      else
        outcome ← ask_confirm request;
        match outcome with
        | Proceed =>
            _ ← modify (λ d, set_trust (grant account category (dk_trust d)) d);
            mret outcome
        | _ => mret outcome
        end
  end.
End enforce.

(** ** The policy table *)

(** The answer of the policy table: what a call may do, given whether the
    pair is trusted and what the user would answer when asked. *)
Definition policy_table (p : Policy) (c : Category) (trusted : bool)
    (user : option ApprovalDecision) : EnforceOutcome :=
  let ask := match user with Some Approve => Proceed | _ => Blocked end in
  match p, c with
  | Allow, _ => Proceed
  | Block, _ => Blocked
  | Draftify, Send => ConvertToDraft
  | Draftify, _ => ask
  | Confirm, _ => ask
  | Session, _ => if trusted then Proceed else ask
  end.

Section facts.
Context `{PF : Platform}.

(** The script's head, as [next_script] reads it. *)
Definition script_before (d : Desk) : list QAction :=
  match dk_script d with [] => [] | (before, _) :: _ => before end.

(** A successful wait: the script's actions run first; then either a value was
    sent, or the timer fires, the actions before the lock run, and the entry is
    removed. *)
Lemma await_Ok fut o d d' :
  await_outcome fut d = (Ok o, d') →
  ∃ d0 d1, dk_queue d0 = dk_queue d ∧
    for_each (script_before d) run_action d0 = (Ok tt, d1) ∧
    ((q_chans (dk_queue d1) !! fut_rx fut = Some (CSent o) ∧ d' = d1) ∨
     (q_chans (dk_queue d1) !! fut_rx fut = Some COpen ∧ o = Timeout ∧
      ∃ between d2, for_each between run_action d1 = (Ok tt, d2) ∧
        dk_queue d' = q_remove (fut_id fut) (dk_queue d2))).
Proof.
  unfold await_outcome. intros ([before between] & d0 & Hs & H)%bind_Ok.
  assert (dk_queue d0 = dk_queue d ∧ before = script_before d) as [Hq ->].
  { unfold next_script, script_before in *.
    destruct (dk_script d) as [|[b1 b2] sc]; simplify_eq/=; done. }
  apply bind_Ok in H as ([] & d1 & Hr & H).
  apply bind_Ok in H as (ch & d1' & [Hch <-]%gets_Ok & H).
  exists d0, d1. do 2 (split; [done|]). destruct ch as [[|o'|]|].
  - right. apply bind_Ok in H as ([] & d2 & Hr2 & H). run_ok. unfold expire in *. run_ok.
    split; [done|]. split; [done|]. exists between, d2. done.
  - left. run_ok. done.
  - done.
  - done.
Qed.

Lemma await_Approved fut p d d' :
  queue_inv (dk_queue d) → fate (fut_id fut) p (fut_rx fut) d →
  await_outcome fut d = (Ok Approved, d') →
  ADecide (fut_id fut) Approve ∈ script_before d.
Proof.
  intros Hinv Hf (d0 & d1 & Hq & Hrun & Hcase)%await_Ok.
  assert (Hinv0 : queue_inv (dk_queue d0)) by by rewrite Hq.
  assert (Hf0 : fate (fut_id fut) p (fut_rx fut) d0).
  { unfold fate in *. by rewrite Hq. }
  pose proof (run_actions_fate (script_before d) _ _ _ _ Hinv0 Hf0) as Hfate.
  rewrite Hrun in Hfate. simpl in Hfate.
  destruct Hcase as [[Hsent _]|(? & ? & _)]; [|done].
  destruct Hfate as [[_ ?]|[(dec & Hin & ?)|?]]; [congruence| |congruence].
  assert (dec = Approve) as -> by (destruct dec; simplify_eq/=; congruence).
  done.
Qed.

(** Whatever the outcome of a wait that returns one, the request is no longer
    pending. *)
Lemma await_settled fut p o d d' :
  queue_inv (dk_queue d) → fate (fut_id fut) p (fut_rx fut) d →
  await_outcome fut d = (Ok o, d') →
  ∀ id q, q_pending (dk_queue d') !! id = Some q → q.2 ≠ fut_rx fut.
Proof.
  intros Hinv Hf Hrun id [q c] Hq Heq. simpl in Heq. subst c.
  assert (Hopen : q_chans (dk_queue d') !! fut_rx fut = Some COpen).
  { eapply qi_open; [|exact Hq].
    pose proof (qsteps_inv _ (await_qsteps fut) d Hinv) as H'. by rewrite Hrun in H'. }
  apply await_Ok in Hrun as (d0 & d1 & Hq0 & Hrun1 & Hcase).
  assert (Hinv0 : queue_inv (dk_queue d0)) by by rewrite Hq0.
  assert (Hf0 : fate (fut_id fut) p (fut_rx fut) d0).
  { unfold fate in *. by rewrite Hq0. }
  pose proof (run_actions_inv (script_before d) _ Hinv0) as Hinv1.
  pose proof (run_actions_fate (script_before d) _ _ _ _ Hinv0 Hf0) as Hf1.
  rewrite Hrun1 in Hinv1, Hf1. simpl in *.
  destruct Hcase as [[Hsent ->]|(Hopen1 & _ & between & d2 & Hrun2 & Hd')]; [congruence|].
  destruct Hf1 as [Hf1|[(? & _ & ?)|?]]; [|congruence..].
  pose proof (run_actions_fate between _ _ _ _ Hinv1 Hf1) as Hf2.
  pose proof (run_actions_inv between _ Hinv1) as Hinv2.
  rewrite Hrun2 in Hf2, Hinv2. simpl in *. rewrite Hd' in Hopen. simpl in Hopen.
  destruct Hf2 as [[Hp2 Hc2]|Hother].
  - rewrite Hp2, drop_sender_same, Hc2 in Hopen. done.
  - rewrite drop_sender_other in Hopen.
    + destruct Hother as [(? & _ & ?)|?]; congruence.
    + intros q' Hq'. apply (qi_open _ Hinv2) in Hq'.
      destruct Hother as [(? & _ & ?)|?]; congruence.
Qed.

(** ** The table, operation by operation *)

Lemma ask_confirm_run request d :
  queue_inv (dk_queue d) →
  ∃ fut d1, enqueue request d = (Ok fut, d1) ∧
    fut_id fut = mkApprovalId (ulid_at (sys_hist (dk_sys d))) ∧
    script_before d1 = script_before d ∧
    length (sys_hist (dk_sys d)) < length (sys_hist (dk_sys d1)) ∧ queue_inv (dk_queue d1) ∧
    (∃ p, fate (fut_id fut) p (fut_rx fut) d1) ∧
    ask_confirm request d =
      match await_outcome fut d1 with
      | (Ok Approved, d') => (Ok Proceed, d')
      | (Ok _, d') => (Ok Blocked, d')
      | (Err e, d') => (Err e, d')
      | (Panic, d') => (Panic, d')
      | (Hang, d') => (Hang, d')
      end.
Proof.
  intros Hinv.
  destruct (enqueue_run request d Hinv)
    as (fut & d1 & He & Hinv1 & (p & Hf & _) & _ & Hsc & Hid & Hlen & _).
  exists fut, d1. split; [done|]. split; [done|].
  split; [unfold script_before; by rewrite Hsc|].
  split; [done|]. split; [done|]. split; [by eexists|].
  unfold ask_confirm. rewrite (bind_step _ _ _ _ _ He). unfold mbind, st_bind.
  by destruct (await_outcome fut d1) as [[[]| | |] d'].
Qed.

(** [ask_confirm] lets a call proceed only when the user approved this very
    request before its timer fired. *)
Lemma ask_confirm_Proceed request d d' :
  queue_inv (dk_queue d) → ask_confirm request d = (Ok Proceed, d') →
  ADecide (mkApprovalId (ulid_at (sys_hist (dk_sys d)))) Approve ∈ script_before d.
Proof.
  intros Hinv Hrun.
  destruct (ask_confirm_run request d Hinv)
    as (fut & d1 & He & Hid & Hsb & _ & Hinv1 & (p & Hf) & Heq).
  rewrite Heq in Hrun. rewrite <- Hid, <- Hsb.
  destruct (await_outcome fut d1) as [[[]| | |] d''] eqn:E; try done.
  by eapply await_Approved.
Qed.

Lemma ask_confirm_never_converts request d d' :
  ask_confirm request d ≠ (Ok ConvertToDraft, d').
Proof.
  unfold ask_confirm. intros Hrun. run_ok.
  match goal with H : context [match ?o with Approved => _ | _ => _ end] |- _ =>
    by destruct o end.
Qed.

Lemma enqueue_trust request : within (same dk_trust) (enqueue request).
Proof. by intros d. Qed.

Lemma run_action_trust a : within (same dk_trust) (run_action a).
Proof.
  intros d. destruct a as [r|id dec|id]; [done| |done]. simpl.
  unfold ignore, decide_approval, mbind, st_bind, gets, same.
  by destruct (q_pending _ !! id) as [[p c]|].
Qed.

Lemma next_script_trust : within (same dk_trust) next_script.
Proof. intros d. unfold next_script, same. by destruct (dk_script d). Qed.

Lemma ask_confirm_trust request : within (same dk_trust) (ask_confirm request).
Proof.
  unfold ask_confirm. apply within_bind; [apply _|apply enqueue_trust|intros fut].
  apply within_bind; [apply _| |intros o; apply within_ret, _].
  unfold await_outcome. apply within_bind; [apply _|apply next_script_trust|].
  intros [before between].
  assert (Hfor : ∀ l, within (same dk_trust) (for_each l run_action)).
  { intros l. apply within_for_each; [apply _|apply run_action_trust]. }
  apply within_bind; [apply _|apply Hfor|intros _].
  apply within_bind; [apply _|apply within_gets, _|].
  intros [[|o|]|]; try (apply within_ret, _); try (apply within_throw, _);
    try (apply within_panic, _).
  apply within_bind; [apply _|apply Hfor|intros _].
  apply within_bind; [apply _|by intros d|intros _; apply within_ret, _].
Qed.

(** The id the next request will be enqueued under. *)
Definition next_id (d : Desk) : ApprovalId :=
  mkApprovalId (ulid_at (sys_hist (dk_sys d))).

(** When no other task expires the request, asking answers as the user did. *)
Lemma ask_confirm_answer `{!UlidFresh} request d :
  queue_inv (dk_queue d) → AExpire (next_id d) ∉ script_before d →
  (ask_confirm request d).1 =
    Ok (match answer (next_id d) (script_before d) with
        | Some Approve => Proceed | _ => Blocked end).
Proof.
  intros Hinv Hno.
  destruct (ask_confirm_run request d Hinv)
    as (fut & d1 & He & Hid & Hsb & Hlen & Hinv1 & (p & Hf) & ->).
  destruct (next_script d1) as [r d0] eqn:Hs.
  assert (Hd0 : ∃ between, r = Ok (script_before d, between) ∧
    dk_queue d0 = dk_queue d1 ∧ dk_sys d0 = dk_sys d1).
  { unfold next_script in Hs. rewrite <- Hsb. unfold script_before.
    destruct (dk_script d1) as [|[b1 b2] sc]; simplify_eq/=; by eexists. }
  destruct Hd0 as (between & -> & Hq & Hsys).
  assert (Hans : q_chans (dk_queue (for_each (script_before d) run_action d0).2) !!
    fut_rx fut = Some (match answer (next_id d) (script_before d) with
      | Some dec => CSent (outcome_of dec) | None => COpen end)).
  { eapply run_actions_answer; unfold fate in *; rewrite ?Hq, ?Hsys;
      [apply ulid_fresh|exact Hlen|exact Hno|exact Hinv1|].
    unfold next_id in *. rewrite <- Hid. exact Hf. }
  destruct (run_actions_total (script_before d) d0) as [d2 Hd2].
  rewrite Hd2 in Hans. simpl in Hans.
  unfold await_outcome. rewrite (bind_step _ _ _ _ _ Hs).
  rewrite (bind_step _ _ _ _ _ Hd2). unfold mbind at 1, st_bind at 1, gets.
  rewrite Hans. destruct (answer _ _) as [[]|]; [done..|].
  destruct (run_actions_total between d2) as [d3 Hd3].
  by rewrite (bind_step _ _ _ _ _ Hd3).
Qed.
End facts.

(** ** Properties *)

Section properties.
Context `{PF : Platform}.

(** A call is let through only if its policy is [Allow], or [Session] and
    the pair is already trusted, or the user approved this very request before
    its timer fired; so no timeout, rejection or stale approval lets a call
    through. *)
Theorem enforce_proceed_authorized perms cat request d d' :
  queue_inv (dk_queue d) →
  enforce perms cat request d = (Ok Proceed, d') →
  policy_for perms cat = Allow ∨
  (policy_for perms cat = Session ∧
   is_trusted (dk_trust d) (ar_account request) cat = true) ∨
  (policy_for perms cat ≠ Block ∧
   ADecide (next_id d) Approve ∈ script_before d).
Proof.
  intros Hinv. unfold enforce. destruct (policy_for perms cat) eqn:Hp; [by left|..].
  - intros ?%ask_confirm_Proceed; [|done]. by right; right.
  - unfold mbind at 1, st_bind at 1, gets.
    destruct (is_trusted _ _ _) eqn:Ht; [by right; left|].
    intros (o & d1 & Ho & Hrest)%bind_Ok. right; right. split; [done|].
    destruct o; run_ok; try done. by eapply ask_confirm_Proceed.
  - destruct cat; try (intros ?%ask_confirm_Proceed; [|done]; by right; right).
    by intros [= <-].
  - by intros [= <-].
Qed.

(** C9: enforcement computes the policy table: on every policy, category,
    trust state and user answer, [enforce] returns (it neither fails nor
    hangs) and its outcome is the table's. *)
Theorem enforce_refines_table `{!UlidFresh} perms cat request d :
  queue_inv (dk_queue d) → AExpire (next_id d) ∉ script_before d →
  (enforce perms cat request d).1 =
    Ok (policy_table (policy_for perms cat) cat
          (is_trusted (dk_trust d) (ar_account request) cat)
          (answer (next_id d) (script_before d))).
Proof.
  intros Hinv Hno. pose proof (ask_confirm_answer request d Hinv Hno) as Hask.
  unfold enforce, policy_table.
  destruct (policy_for perms cat); [done|exact Hask| |destruct cat; done|done].
  unfold mbind at 1, st_bind at 1, gets. destruct (is_trusted _ _ _); [done|].
  unfold mbind at 1, st_bind at 1.
  destruct (ask_confirm request d) as [[o| | |] d1]; simplify_eq/=.
  by destruct (answer _ _) as [[]|].
Qed.

(** Under [Session], once a call was let through every later call of the
    same account and category is let through at once: no request is enqueued,
    the state does not change. *)
Theorem session_trust_sticks perms cat request d d' request' :
  policy_for perms cat = Session →
  enforce perms cat request d = (Ok Proceed, d') →
  ar_account request' = ar_account request →
  enforce perms cat request' d' = (Ok Proceed, d').
Proof.
  unfold enforce. intros -> Hrun Hacc. rewrite Hacc. revert Hrun.
  unfold mbind at 1, st_bind at 1, gets.
  destruct (is_trusted (dk_trust d) _ _) eqn:Ht.
  { intros [= <-]. unfold mbind, st_bind. by rewrite Ht. }
  intros (o & d1 & Ho & Hrest)%bind_Ok. destruct o; run_ok; try done.
  unfold mbind, st_bind. simpl. unfold is_trusted, grant. by rewrite lookup_insert_eq.
Qed.

(** Enforcement grants trust in one case only: the policy is [Session] and
    the user approved this request; it never grants it for another pair and
    never revokes any. *)
Theorem trust_granted_by_approval perms cat request d acc c :
  queue_inv (dk_queue d) →
  is_trusted (dk_trust (enforce perms cat request d).2) acc c ≠
    is_trusted (dk_trust d) acc c →
  acc = ar_account request ∧ c = cat ∧ policy_for perms cat = Session ∧
  ADecide (next_id d) Approve ∈ script_before d.
Proof.
  intros Hinv. unfold enforce. pose proof (ask_confirm_trust request d) as Hsame.
  unfold same in Hsame.
  destruct (policy_for perms cat) eqn:Hp; [done|by rewrite Hsame| |
    by destruct cat; simpl; rewrite ?Hsame|done].
  unfold mbind at 1, st_bind at 1, gets. destruct (is_trusted _ _ cat) eqn:Ht; [done|].
  unfold mbind at 1, st_bind at 1.
  destruct (ask_confirm request d) as [[o| | |] d1] eqn:Hask; simpl in *;
    [|by rewrite Hsame..].
  destruct o; simpl; [|by rewrite Hsame..].
  unfold is_trusted, grant. intros Hne.
  assert ((acc, c) = (ar_account request, cat)) as [= -> ->].
  { destruct (decide ((ar_account request, cat) = (acc, c))); [done|].
    rewrite lookup_insert_ne in Hne by done. by rewrite Hsame in Hne. }
  do 3 (split; [done|]). by eapply ask_confirm_Proceed.
Qed.

(** Every queue reachable through the operations, in any interleaving,
    files each request under its own id with an open channel of its own. *)
Theorem reachable_queue_inv q : qreachable q → queue_inv q.
Proof. apply queue_inv_reachable. Qed.

(** Deciding a pending request settles its channel with that decision and
    broadcasts it, and a second decision about it is refused. *)
Theorem decide_once id dec dec' p c d :
  queue_inv (dk_queue d) → q_pending (dk_queue d) !! id = Some (p, c) →
  ∃ d', decide_approval id dec d = (Ok tt, d') ∧
    q_chans (dk_queue d') !! c = Some (CSent (outcome_of dec)) ∧
    q_events (dk_queue d') = Resolved id dec :: q_events (dk_queue d) ∧
    decide_approval id dec' d' =
      (Err (NotFound ("approval " +:+ approval_to_string id)), d').
Proof.
  intros Hinv Hp. unfold decide_approval, mbind, st_bind, gets. rewrite Hp.
  eexists. split; [reflexivity|]. simpl. rewrite lookup_delete_eq.
  split; [|done]. apply list_lookup_insert_eq.
  eapply lookup_lt_Some, qi_open; done.
Qed.

(** When a wait ends with an outcome, including a timeout, its request is
    no longer pending: nothing is left to decide and no entry leaks. *)
Theorem wait_leaves_no_entry request o d d1 d2 fut :
  queue_inv (dk_queue d) →
  enqueue request d = (Ok fut, d1) → await_outcome fut d1 = (Ok o, d2) →
  ∀ id q, q_pending (dk_queue d2) !! id = Some q → q.2 ≠ fut_rx fut.
Proof.
  intros Hinv He Ha.
  destruct (enqueue_run request d Hinv) as (fut' & d1' & He' & Hinv1 & (p & Hf & _) & _).
  rewrite He in He'. injection He' as <- <-. by eapply await_settled.
Qed.
End properties.
