(* ===== verification/ProviderTypes.v ===== *)
(** * The provider interface

    [crates/mail-mcp-core/src/providers/types.rs]: the data a provider
    exchanges with the tools, with its serde form; and the trait
    [MailProvider] of [providers/trait.rs] as a record of operations. *)
From S2P Require Export Enforce.

Record EmailAddress : Type := mkEmailAddress {
  ea_email : string;
  ea_name : option string;
}.

Global Instance EmailAddress_eq_dec : EqDecision EmailAddress.
Proof. solve_decision. Defined.

Record SearchQuery : Type := mkSearchQuery {
  sq_text : option string;
  sq_folder : option FolderId;
  sq_label : option LabelId;
  sq_limit : option Z;
  sq_cursor : option string;
}.

Record ThreadSummary : Type := mkThreadSummary {
  ts_id : ThreadId;
  ts_last_message_id : MessageId;
  ts_subject : string;
  ts_snippet : string;
  ts_from : option EmailAddress;
  ts_date : DateTime;
  ts_message_count : Z;
  ts_unread : bool;
  ts_starred : bool;
  ts_labels : list LabelId;
  ts_folder : option FolderId;
}.

Record MessageFlags : Type := mkMessageFlags {
  fl_read : bool;
  fl_starred : bool;
  fl_draft : bool;
}.

Record AttachmentMeta : Type := mkAttachmentMeta {
  at_id : string;
  at_filename : string;
  at_mime_type : string;
  at_size_bytes : Z;
}.

Record Message : Type := mkMessage {
  msg_id : MessageId;
  msg_thread_id : ThreadId;
  msg_from : option EmailAddress;
  msg_to : list EmailAddress;
  msg_cc : list EmailAddress;
  msg_bcc : list EmailAddress;
  msg_subject : string;
  msg_date : DateTime;
  msg_body_text : option string;
  msg_body_html : option string;
  msg_labels : list LabelId;
  msg_folder : option FolderId;
  msg_flags : MessageFlags;
  msg_attachments : list AttachmentMeta;
  msg_snippet : string;
}.

Record Thread : Type := mkThread {
  th_id : ThreadId;
  th_subject : string;
  th_messages : list Message;
}.

Record DraftSummary : Type := mkDraftSummary {
  ds_id : DraftId;
  ds_message_id : MessageId;
  ds_subject : string;
  ds_snippet : string;
  ds_date : DateTime;
}.

Record DraftInput : Type := mkDraftInput {
  di_to : list EmailAddress;
  di_cc : list EmailAddress;
  di_bcc : list EmailAddress;
  di_subject : string;
  di_body_text : option string;
  di_body_html : option string;
  di_in_reply_to : option MessageId;
  di_thread_id : option ThreadId;
}.

Record OutgoingMessage : Type := mkOutgoingMessage {
  om_to : list EmailAddress;
  om_cc : list EmailAddress;
  om_bcc : list EmailAddress;
  om_subject : string;
  om_body_text : option string;
  om_body_html : option string;
  om_in_reply_to : option MessageId;
  om_thread_id : option ThreadId;
}.

Record Folder : Type := mkFolder {
  fo_id : FolderId;
  fo_name : string;
  fo_system : bool;
}.

Record Label : Type := mkLabel {
  la_id : LabelId;
  la_name : string;
  la_system : bool;
}.

Record SearchResults : Type := mkSearchResults {
  sr_threads : list ThreadSummary;
  sr_next_cursor : option string;
}.

(** ** The serde forms *)

Definition address_value (a : EmailAddress) : Value :=
  VObject ([("email", VString (ea_email a))] ++ opt_field "name" VString (ea_name a)).

Definition label_id_value (l : LabelId) : Value := VString (label_str l).
Definition folder_id_value (f : FolderId) : Value := VString (folder_str f).
Definition message_id_value (m : MessageId) : Value := VString (message_str m).
Definition draft_id_value (d : DraftId) : Value := VString (draft_str d).

Definition flags_value (f : MessageFlags) : Value :=
  VObject [("read", VBool (fl_read f)); ("starred", VBool (fl_starred f));
           ("draft", VBool (fl_draft f))].

Definition attachment_value (a : AttachmentMeta) : Value :=
  VObject [("id", VString (at_id a)); ("filename", VString (at_filename a));
           ("mime_type", VString (at_mime_type a)); ("size_bytes", VInt (at_size_bytes a))].

Definition folder_value (f : Folder) : Value :=
  VObject [("id", folder_id_value (fo_id f)); ("name", VString (fo_name f));
           ("system", VBool (fo_system f))].

Definition label_value (l : Label) : Value :=
  VObject [("id", label_id_value (la_id l)); ("name", VString (la_name l));
           ("system", VBool (la_system l))].

Section values.
Context `{PF : Platform}.

Definition thread_summary_value (t : ThreadSummary) : Value :=
  VObject [
    ("id", VString (thread_str (ts_id t)));
    ("last_message_id", message_id_value (ts_last_message_id t));
    ("subject", VString (ts_subject t));
    ("snippet", VString (ts_snippet t));
    ("from", VOption address_value (ts_from t));
    ("date", date_to_json (ts_date t));
    ("message_count", VInt (ts_message_count t));
    ("unread", VBool (ts_unread t));
    ("starred", VBool (ts_starred t));
    ("labels", VArray (label_id_value <$> ts_labels t));
    ("folder", VOption folder_id_value (ts_folder t))].

Definition message_value (m : Message) : Value :=
  VObject ([
    ("id", message_id_value (msg_id m));
    ("thread_id", VString (thread_str (msg_thread_id m)));
    ("from", VOption address_value (msg_from m));
    ("to", VArray (address_value <$> msg_to m));
    ("cc", VArray (address_value <$> msg_cc m));
    ("bcc", VArray (address_value <$> msg_bcc m));
    ("subject", VString (msg_subject m));
    ("date", date_to_json (msg_date m))] ++
    opt_field "body_text" VString (msg_body_text m) ++
    opt_field "body_html" VString (msg_body_html m) ++ [
    ("labels", VArray (label_id_value <$> msg_labels m))] ++
    opt_field "folder" folder_id_value (msg_folder m) ++ [
    ("flags", flags_value (msg_flags m));
    ("attachments", VArray (attachment_value <$> msg_attachments m));
    ("snippet", VString (msg_snippet m))]).

Definition thread_value (t : Thread) : Value :=
  VObject [("id", VString (thread_str (th_id t)));
           ("subject", VString (th_subject t));
           ("messages", VArray (message_value <$> th_messages t))].

Definition draft_summary_value (d : DraftSummary) : Value :=
  VObject [
    ("id", draft_id_value (ds_id d));
    ("message_id", message_id_value (ds_message_id d));
    ("subject", VString (ds_subject d));
    ("snippet", VString (ds_snippet d));
    ("date", date_to_json (ds_date d))].

Definition search_results_value (r : SearchResults) : Value :=
  VObject ([("threads", VArray (thread_summary_value <$> sr_threads r))] ++
    opt_field "next_cursor" VString (sr_next_cursor r)).

(** [serde_json::to_value(account)] *)
Definition account_value (a : Account) : Value :=
  VObject [
    ("id", VString (account_to_string (acc_id a)));
    ("label", VString (acc_label a));
    ("provider", VString (provider_as_str (acc_provider a)));
    ("email", VString (acc_email a));
    ("config", acc_config a);
    ("scopes", VArray (VString <$> acc_scopes a));
    ("created_at", date_to_json (acc_created_at a));
    ("last_validated", VOption date_to_json (acc_last_validated a))].

(** ** The trait [MailProvider] *)

Record MailProvider : Type := mkMailProvider {
  p_search : SearchQuery → M SearchResults;
  p_get_thread : ThreadId → M Thread;
  p_get_message : MessageId → M Message;
  p_list_folders : M (list Folder);
  p_list_labels : M (list Label);
  p_list_drafts : M (list DraftSummary);
  p_mark_read : list MessageId → bool → M unit;
  p_star : list MessageId → bool → M unit;
  p_label : list MessageId → LabelId → bool → M unit;
  p_move_to : list MessageId → FolderId → M unit;
  p_archive : list MessageId → M unit;
  p_trash : list MessageId → M unit;
  p_untrash : list MessageId → M unit;
  p_create_draft : DraftInput → M DraftId;
  p_update_draft : DraftId → DraftInput → M unit;
  p_send_message : OutgoingMessage → M MessageId;
  p_send_draft : DraftId → M MessageId;
}.

(** What every provider owes its callers: whatever happens, its operations
    stay within [R] (its own network traffic and tokens, not the database). *)
Class ProviderWithin (R : relation Sys) (p : MailProvider) : Prop := {
  pw_search q : within R (p_search p q);
  pw_get_thread t : within R (p_get_thread p t);
  pw_get_message m : within R (p_get_message p m);
  pw_list_folders : within R (p_list_folders p);
  pw_list_labels : within R (p_list_labels p);
  pw_list_drafts : within R (p_list_drafts p);
  pw_mark_read l b : within R (p_mark_read p l b);
  pw_star l b : within R (p_star p l b);
  pw_label l x b : within R (p_label p l x b);
  pw_move_to l f : within R (p_move_to p l f);
  pw_archive l : within R (p_archive p l);
  pw_trash l : within R (p_trash p l);
  pw_untrash l : within R (p_untrash p l);
  pw_create_draft d : within R (p_create_draft p d);
  pw_update_draft i d : within R (p_update_draft p i d);
  pw_send_message m : within R (p_send_message p m);
  pw_send_draft d : within R (p_send_draft p d);
}.
End values.
