(* ===== verification/Tools.v ===== *)
(** * The tool catalog

    [crates/mail-mcp-daemon/src/mcp/tools.rs]: the MCP tools the daemon
    exposes, each with the JSON schema of its arguments and the permission
    category the dispatcher enforces. *)
From S2P Require Export ProviderTypes.

Record ToolSpec : Type := mkToolSpec {
  tool_name : string;
  tool_description : string;
  tool_input_schema : Value;
  tool_category : Category;
}.

(** The shapes the schemas are written with. *)
Definition type_value (t : string) : Value := VObject [("type", VString t)].
Definition string_array : Value :=
  VObject [("type", VString "array"); ("items", type_value "string")].
Definition object_schema (props : list (string * Value)) (required : list string) :
    Value :=
  VObject [("type", VString "object"); ("properties", VObject props);
           ("required", VArray (VString <$> required));
           ("additionalProperties", VBool false)].
Definition account_only : Value :=
  object_schema [("account_id", type_value "string")] ["account_id"].

Definition read_tools : list ToolSpec := [
  mkToolSpec "list_accounts"
    "List all connected mail accounts. Returns account ids, labels, providers, emails. Use this first to find an account_id before any other tool call."
    (VObject [("type", VString "object"); ("properties", VObject []);
              ("additionalProperties", VBool false)])
    Read;
  mkToolSpec "search"
    "Search threads on a single account. The query string uses provider-native syntax (Gmail's search operators e.g. 'from:alice subject:invoice'). Returns thread summaries plus an opaque cursor for pagination."
    (object_schema [
      ("account_id", type_value "string");
      ("query", type_value "string");
      ("label_id", type_value "string");
      ("folder_id", type_value "string");
      ("limit", VObject [("type", VString "integer"); ("minimum", VInt 1);
                         ("maximum", VInt 100); ("default", VInt 20)]);
      ("cursor", type_value "string")] ["account_id"])
    Read;
  mkToolSpec "get_thread"
    "Get a full mail thread (all messages, including bodies) by id."
    (object_schema [("account_id", type_value "string");
                    ("thread_id", type_value "string")] ["account_id"; "thread_id"])
    Read;
  mkToolSpec "get_message"
    "Get a single message by id with full body and attachment metadata."
    (object_schema [("account_id", type_value "string");
                    ("message_id", type_value "string")] ["account_id"; "message_id"])
    Read;
  mkToolSpec "list_folders"
    "List system folders. On Gmail these are the system labels (INBOX, SENT, TRASH, DRAFT, SPAM); on M365/IMAP these are real folders."
    account_only Read;
  mkToolSpec "list_labels"
    "List user-created labels (Gmail) / categories (M365) / IMAP keywords. Excludes system folders, which are returned by list_folders."
    account_only Read;
  mkToolSpec "list_drafts" "List existing drafts on the account." account_only Read
].

Definition modify_tools : list ToolSpec := [
  mkToolSpec "mark_read" "Mark messages as read or unread."
    (object_schema [("account_id", type_value "string");
                    ("message_ids", string_array);
                    ("read", type_value "boolean")]
                   ["account_id"; "message_ids"; "read"])
    Modify;
  mkToolSpec "star" "Star or unstar messages."
    (object_schema [("account_id", type_value "string");
                    ("message_ids", string_array);
                    ("starred", type_value "boolean")]
                   ["account_id"; "message_ids"; "starred"])
    Modify;
  mkToolSpec "label"
    "Add or remove a label on messages. On Gmail this maps to label modify; on IMAP to keyword set/clear."
    (object_schema [("account_id", type_value "string");
                    ("message_ids", string_array);
                    ("label_id", type_value "string");
                    ("on", type_value "boolean")]
                   ["account_id"; "message_ids"; "label_id"; "on"])
    Modify;
  mkToolSpec "move_to"
    "Move messages to a folder. On Gmail this re-labels (e.g., move from INBOX to TRASH); on IMAP/M365 it's a real folder move."
    (object_schema [("account_id", type_value "string");
                    ("message_ids", string_array);
                    ("folder_id", type_value "string")]
                   ["account_id"; "message_ids"; "folder_id"])
    Modify;
  mkToolSpec "archive"
    "Archive messages (Gmail: remove INBOX label; IMAP/M365: move to All Mail / Archive folder)."
    (object_schema [("account_id", type_value "string");
                    ("message_ids", string_array)] ["account_id"; "message_ids"])
    Modify
].

Definition trash_tools : list ToolSpec := [
  mkToolSpec "trash" "Move messages to Trash. Reversible until the user empties Trash."
    (object_schema [("account_id", type_value "string");
                    ("message_ids", string_array)] ["account_id"; "message_ids"])
    Trash;
  mkToolSpec "untrash" "Restore messages from Trash."
    (object_schema [("account_id", type_value "string");
                    ("message_ids", string_array)] ["account_id"; "message_ids"])
    Trash
].

Definition draft_tools : list ToolSpec := [
  mkToolSpec "create_draft"
    "Create a new draft. The draft is saved on the provider's server and will be visible in the user's drafts folder."
    (object_schema [("account_id", type_value "string");
                    ("to", string_array); ("cc", string_array); ("bcc", string_array);
                    ("subject", type_value "string");
                    ("body_text", type_value "string");
                    ("body_html", type_value "string");
                    ("in_reply_to", type_value "string");
                    ("thread_id", type_value "string")]
                   ["account_id"; "to"; "subject"])
    Draft;
  mkToolSpec "update_draft" "Update an existing draft."
    (object_schema [("account_id", type_value "string");
                    ("draft_id", type_value "string");
                    ("to", string_array); ("cc", string_array); ("bcc", string_array);
                    ("subject", type_value "string");
                    ("body_text", type_value "string");
                    ("body_html", type_value "string")]
                   ["account_id"; "draft_id"; "to"; "subject"])
    Draft
].

Definition send_tools : list ToolSpec := [
  mkToolSpec "send_message"
    "Send a message directly. Subject to the user's send-policy (default: Convert to draft, in which case this returns a draft_created result instead of actually sending)."
    (object_schema [("account_id", type_value "string");
                    ("to", string_array); ("cc", string_array); ("bcc", string_array);
                    ("subject", type_value "string");
                    ("body_text", type_value "string");
                    ("body_html", type_value "string");
                    ("in_reply_to", type_value "string");
                    ("thread_id", type_value "string")]
                   ["account_id"; "to"; "subject"])
    Send;
  mkToolSpec "send_draft"
    "Send an existing draft. Subject to send-policy like send_message."
    (object_schema [("account_id", type_value "string");
                    ("draft_id", type_value "string")] ["account_id"; "draft_id"])
    Send
].

(** [tools()] *)
Definition tools : list ToolSpec :=
  read_tools ++ modify_tools ++ trash_tools ++ draft_tools ++ send_tools.

Definition find_tool (name : string) : option ToolSpec :=
  find_first (λ t, String.eqb (tool_name t) name) tools.

(** ** Facts of the catalog *)

Lemma tools_NoDup : NoDup (tool_name <$> tools).
Proof. refine (bool_decide_eq_true_1 _ _). vm_compute. reflexivity. Qed.

Lemma find_tool_Some name t : find_tool name = Some t → t ∈ tools ∧ tool_name t = name.
Proof. intros [? H%String.eqb_eq]%find_first_Some. done. Qed.

Lemma find_tool_name t : t ∈ tools → ∃ t', find_tool (tool_name t) = Some t'.
Proof.
  intros Hin. destruct (find_tool _) eqn:E; [by eexists|].
  unfold find_tool in E. rewrite find_first_None in E. specialize (E t Hin).
  by rewrite String.eqb_refl in E.
Qed.
