(* ===== verification/Dispatch.v ===== *)
(** * The dispatcher

    [crates/mail-mcp-daemon/src/mcp/dispatch.rs]: a tool call is refused while
    the server is paused, resolved to the provider of its account, submitted
    to the policy of the tool's category, and then executed, converted to a
    draft, held or refused. *)
From S2P Require Export Tools RustStr.

Section dispatch.
Context `{PF : Platform}.

(** [DispatchContext]: the storage and the keychain live in the desk's [Sys];
    the registry maps an account to its provider. *)
Record Context : Type := mkContext {
  cx_desk : Desk;
  cx_providers : gmap AccountId MailProvider;
  cx_paused : bool;
}.

Definition set_desk (d : Desk) (c : Context) : Context :=
  mkContext d (cx_providers c) (cx_paused c).
Definition set_providers (p : gmap AccountId MailProvider) (c : Context) : Context :=
  mkContext (cx_desk c) p (cx_paused c).
Definition set_paused (b : bool) (c : Context) : Context :=
  mkContext (cx_desk c) (cx_providers c) b.

Definition CM (A : Type) : Type := ST Context Error A.

Definition at_desk {A} (m : DM A) : CM A := zoom cx_desk set_desk m.
Definition at_sys {A} (m : M A) : CM A := at_desk (on_sys m).

(** [ProviderRegistry::insert], [remove] and [get] *)
Definition registry_insert (id : AccountId) (p : MailProvider) : CM unit :=
  modify (λ c, set_providers (<[id := p]> (cx_providers c)) c).
Definition registry_remove (id : AccountId) : CM unit :=
  modify (λ c, set_providers (delete id (cx_providers c)) c).
Definition registry_get (id : AccountId) : CM (option MailProvider) :=
  gets (λ c, cx_providers c !! id).

(** [parse_account_id] *)
Definition parse_account_id (args : Value) : Result AccountId :=
  match get_str "account_id" args with
  | None => Err (Provider "missing account_id")
  | Some s =>
      match account_from_str s with
      | inl e => Err (Provider ("bad account_id: " +:+ e))
      | inr id => Ok id
      end
  end.

Record SendArgs : Type := mkSendArgs {
  sa_account_id : string;
  sa_to : list string;
  sa_cc : list string;
  sa_bcc : list string;
  sa_subject : string;
  sa_body_text : option string;
  sa_body_html : option string;
  sa_in_reply_to : option string;
  sa_thread_id : option string;
}.

Definition de_send_args : De SendArgs := de_struct (λ v,
  account_id ← field "account_id" de_string v;
  to ← field "to" (de_vec de_string) v;
  cc ← field_default "cc" (de_vec de_string) [] v;
  bcc ← field_default "bcc" (de_vec de_string) [] v;
  subject ← field "subject" de_string v;
  body_text ← field_option "body_text" de_string v;
  body_html ← field_option "body_html" de_string v;
  in_reply_to ← field_option "in_reply_to" de_string v;
  thread_id ← field_option "thread_id" de_string v;
  Some (mkSendArgs account_id to cc bcc subject body_text body_html in_reply_to
          thread_id)).

Record UpdateArgs : Type := mkUpdateArgs {
  ua_draft_id : string;
  ua_to : list string;
  ua_cc : list string;
  ua_bcc : list string;
  ua_subject : string;
  ua_body_text : option string;
  ua_body_html : option string;
}.

Definition de_update_args : De UpdateArgs := de_struct (λ v,
  draft_id ← field "draft_id" de_string v;
  to ← field "to" (de_vec de_string) v;
  cc ← field_default "cc" (de_vec de_string) [] v;
  bcc ← field_default "bcc" (de_vec de_string) [] v;
  subject ← field "subject" de_string v;
  body_text ← field_option "body_text" de_string v;
  body_html ← field_option "body_html" de_string v;
  Some (mkUpdateArgs draft_id to cc bcc subject body_text body_html)).

(** [addrs] *)
Definition addrs (v : list string) : list EmailAddress :=
  (λ s, mkEmailAddress s None) <$> v.

Definition draft_input (s : SendArgs) : DraftInput := {|
  di_to := addrs (sa_to s);
  di_cc := addrs (sa_cc s);
  di_bcc := addrs (sa_bcc s);
  di_subject := sa_subject s;
  di_body_text := sa_body_text s;
  di_body_html := sa_body_html s;
  di_in_reply_to := MessageId_from <$> sa_in_reply_to s;
  di_thread_id := ThreadId_from <$> sa_thread_id s;
|}.

(** [convert_send_to_draft] *)
Definition convert_send_to_draft (provider : MailProvider) (tool : string)
    (args : Value) : M Value :=
  s ← lift_res (ok_or (de_send_args args)
        (Provider ("bad send args: " +:+ de_error "SendArgs" args)));
  id ← p_create_draft provider (draft_input s);
  mret (VObject [
    ("result", VString "draft_created");
    ("draft_id", draft_id_value id);
    ("note", VString "Send was converted to a draft per user policy. Please review and send from your mail client.")]).

(** [args.get("message_ids").and_then(as_array).map(..).unwrap_or_default()]:
    the elements that are not strings are skipped. *)
Definition message_ids (args : Value) : list MessageId :=
  match get "message_ids" args ≫= as_array with
  | Some a => MessageId_from <$> omap as_str a
  | None => []
  end.

Definition str_or_empty (k : string) (args : Value) : string :=
  default "" (get_str k args).

Definition ok_true : Value := VObject [("ok", VBool true)].

Definition search_query (args : Value) : SearchQuery := {|
  sq_text := get_str "query" args;
  sq_folder := FolderId_from <$> get_str "folder_id" args;
  sq_label := LabelId_from <$> get_str "label_id" args;
  sq_limit := as_u32 <$> (get "limit" args ≫= as_u64);
  sq_cursor := get_str "cursor" args;
|}.

Definition outgoing_message (s : SendArgs) : OutgoingMessage := {|
  om_to := addrs (sa_to s);
  om_cc := addrs (sa_cc s);
  om_bcc := addrs (sa_bcc s);
  om_subject := sa_subject s;
  om_body_text := sa_body_text s;
  om_body_html := sa_body_html s;
  om_in_reply_to := MessageId_from <$> sa_in_reply_to s;
  om_thread_id := ThreadId_from <$> sa_thread_id s;
|}.

Definition update_input (s : UpdateArgs) : DraftInput := {|
  di_to := addrs (ua_to s);
  di_cc := addrs (ua_cc s);
  di_bcc := addrs (ua_bcc s);
  di_subject := ua_subject s;
  di_body_text := ua_body_text s;
  di_body_html := ua_body_html s;
  di_in_reply_to := None;
  di_thread_id := None;
|}.

Definition exec_read (provider : MailProvider) (tool : string) (args : Value) :
    option (M Value) :=
  if String.eqb tool "search" then Some (
    res ← p_search provider (search_query args);
    mret (search_results_value res))
  else if String.eqb tool "get_thread" then Some (
    t ← p_get_thread provider (ThreadId_from (str_or_empty "thread_id" args));
    mret (thread_value t))
  else if String.eqb tool "get_message" then Some (
    m ← p_get_message provider (MessageId_from (str_or_empty "message_id" args));
    mret (message_value m))
  else if String.eqb tool "list_folders" then Some (
    fs ← p_list_folders provider;
    mret (VArray (folder_value <$> fs)))
  else if String.eqb tool "list_labels" then Some (
    ls ← p_list_labels provider;
    mret (VArray (label_value <$> ls)))
  else if String.eqb tool "list_drafts" then Some (
    ds ← p_list_drafts provider;
    mret (VArray (draft_summary_value <$> ds)))
  else None.

Definition exec_triage (provider : MailProvider) (tool : string) (args : Value) :
    option (M Value) :=
  if String.eqb tool "mark_read" then Some (
    let ids := message_ids args in
    let read := default true (get_bool "read" args) in
    _ ← p_mark_read provider ids read;
    mret ok_true)
  else if String.eqb tool "star" then Some (
    let ids := message_ids args in
    let on := default true (get_bool "starred" args) in
    _ ← p_star provider ids on;
    mret ok_true)
  else if String.eqb tool "label" then Some (
    let ids := message_ids args in
    let label := LabelId_from (str_or_empty "label_id" args) in
    let on := default true (get_bool "on" args) in
    _ ← p_label provider ids label on;
    mret ok_true)
  else if String.eqb tool "move_to" then Some (
    let ids := message_ids args in
    let folder := FolderId_from (str_or_empty "folder_id" args) in
    _ ← p_move_to provider ids folder;
    mret ok_true)
  else if String.eqb tool "archive" then Some (
    _ ← p_archive provider (message_ids args);
    mret ok_true)
  else if String.eqb tool "trash" then Some (
    _ ← p_trash provider (message_ids args);
    mret ok_true)
  else if String.eqb tool "untrash" then Some (
    _ ← p_untrash provider (message_ids args);
    mret ok_true)
  else None.

Definition exec_compose (provider : MailProvider) (tool : string) (args : Value) :
    option (M Value) :=
  if String.eqb tool "create_draft" then Some (
    s ← lift_res (ok_or (de_send_args args)
          (Provider ("bad args: " +:+ de_error "SendArgs" args)));
    id ← p_create_draft provider (draft_input s);
    mret (VObject [("draft_id", draft_id_value id)]))
  else if String.eqb tool "update_draft" then Some (
    s ← lift_res (ok_or (de_update_args args)
          (Provider ("bad args: " +:+ de_error "UpdateArgs" args)));
    _ ← p_update_draft provider (DraftId_from (ua_draft_id s)) (update_input s);
    mret ok_true)
  else if String.eqb tool "send_message" then Some (
    s ← lift_res (ok_or (de_send_args args)
          (Provider ("bad args: " +:+ de_error "SendArgs" args)));
    id ← p_send_message provider (outgoing_message s);
    mret (VObject [("message_id", message_id_value id)]))
  else if String.eqb tool "send_draft" then Some (
    let did := DraftId_from (str_or_empty "draft_id" args) in
    id ← p_send_draft provider did;
    mret (VObject [("message_id", message_id_value id)]))
  else None.

(** [execute] *)
Definition execute (provider : MailProvider) (tool : string) (args : Value) : M Value :=
  match exec_read provider tool args with
  | Some m => m
  | None =>
  match exec_triage provider tool args with
  | Some m => m
  | None =>
  match exec_compose provider tool args with
  | Some m => m
  | None =>
      if String.eqb tool "list_accounts" then panic
      else throw (NotFound ("tool " +:+ tool))
  end end end.

Definition paused_message : string := "MCP is paused — open mail-mcp Settings to resume.".

Definition send_held (args : Value) : Value :=
  VObject [
    ("result", VString "send_held");
    ("draft_id", VString (str_or_empty "draft_id" args));
    ("note", VString "Send was held per user policy. The draft remains in your drafts folder; please review and send from your mail client.")].

(** [dispatch] *)
Definition dispatch (tool : ToolSpec) (args : Value) : CM Value :=
  paused ← gets cx_paused;
  if paused : bool then throw (PermissionDenied paused_message)
  else
    account_id ← lift_res (parse_account_id args);
    found ← registry_get account_id;
    provider ← lift_res (ok_or found
      (NotFound ("account " +:+ account_to_string account_id)));
    perms ← at_sys (for_account account_id);
    let request := mkApprovalRequest account_id (tool_category tool) (tool_name tool) args in
    outcome ← at_desk (enforce perms (tool_category tool) request);
    match outcome with
    | Blocked =>
        throw (PermissionDenied (tool_name tool +:+ ": blocked by user policy"))
    | ConvertToDraft =>
        if String.eqb (tool_name tool) "send_draft" then mret (send_held args)
        else at_sys (convert_send_to_draft provider (tool_name tool) args)
    | Proceed => at_sys (execute provider (tool_name tool) args)
    end.
End dispatch.

(** ** Lemmas *)

Section facts.
Context `{PF : Platform}.

(** [execute] handles every tool of the catalog but [list_accounts] with a
    provider operation. *)
Definition handled (name : string) (p : MailProvider) (args : Value) : Prop :=
  ∃ m, (exec_read p name args = Some m ∨
        (exec_read p name args = None ∧ exec_triage p name args = Some m) ∨
        (exec_read p name args = None ∧ exec_triage p name args = None ∧
         exec_compose p name args = Some m)) ∧ execute p name args = m.

Lemma execute_handles p args t :
  t ∈ tools → tool_name t ≠ "list_accounts" → handled (tool_name t) p args.
Proof.
  intros Hin Hne. unfold handled, execute.
  destruct (exec_read p (tool_name t) args) as [m|] eqn:E1.
  { exists m. split; [by left|done]. }
  destruct (exec_triage p (tool_name t) args) as [m|] eqn:E2.
  { exists m. split; [by right; left|done]. }
  destruct (exec_compose p (tool_name t) args) as [m|] eqn:E3.
  { exists m. split; [by right; right|done]. }
  exfalso. revert Hne E1 E2 E3. apply list_elem_of_In in Hin. simpl in Hin.
  by decompose [or] Hin; subst.
Qed.

(** Frames of the zooms. *)
Lemma within_on_sys {A} (R : relation Desk) (Q : relation Sys) (m : M A) :
  (∀ d s, Q (dk_sys d) s → R d (set_dk_sys s d)) → within Q m → within R (on_sys m).
Proof. apply within_zoom. Qed.

Lemma within_at_desk {A} (R : relation Context) (Q : relation Desk) (m : DM A) :
  (∀ c d, Q (cx_desk c) d → R c (set_desk d c)) → within Q m → within R (at_desk m).
Proof. apply within_zoom. Qed.

Lemma on_sys_step {A} (m : M A) d r s' :
  m (dk_sys d) = (r, s') → on_sys m d = (r, set_dk_sys s' d).
Proof. unfold on_sys, zoom. by intros ->. Qed.

Lemma at_desk_step {A} (m : DM A) c r d' :
  m (cx_desk c) = (r, d') → at_desk m c = (r, set_desk d' c).
Proof. unfold at_desk, zoom. by intros ->. Qed.

Definition cx_sys (c : Context) : Sys := dk_sys (cx_desk c).

Lemma at_sys_Ok {A} (m : M A) c a c' :
  at_sys m c = (Ok a, c') →
  ∃ s', m (cx_sys c) = (Ok a, s') ∧ c' = set_desk (set_dk_sys s' (cx_desk c)) c.
Proof.
  unfold at_sys, at_desk, on_sys, zoom, cx_sys.
  destruct (m _) as [r s'] eqn:E. intros [= -> <-]. by exists s'.
Qed.

Lemma at_sys_run {A} (m : M A) c :
  at_sys m c =
    ((m (cx_sys c)).1, set_desk (set_dk_sys (m (cx_sys c)).2 (cx_desk c)) c).
Proof. unfold at_sys, at_desk, on_sys, zoom, cx_sys. by destruct (m _). Qed.

Lemma at_desk_run {A} (m : DM A) c :
  at_desk m c = ((m (cx_desk c)).1, set_desk (m (cx_desk c)).2 c).
Proof. unfold at_desk, zoom. by destruct (m _). Qed.

(** Enforcement leaves the database, the keychain, the token cells and the
    network alone. *)
Definition quiet (s : Sys) : Db * kr_store * list OAuthTokens * list Request :=
  (sys_db s, sys_keychain s, sys_cells s, http_log s).

Lemma run_action_quiet a : within (same (quiet ∘ dk_sys)) (run_action a).
Proof.
  intros d. destruct a as [r|id dec|id]; [done| |done].
  unfold run_action, ignore, decide_approval, mbind, st_bind, gets, same.
  by destruct (q_pending _ !! id) as [[p c]|].
Qed.

Lemma ask_confirm_quiet r : within (same (quiet ∘ dk_sys)) (ask_confirm r).
Proof.
  unfold ask_confirm. apply within_bind; [apply _|by intros d|intros fut].
  apply within_bind; [apply _| |intros o; apply within_ret, _].
  unfold await_outcome. apply within_bind; [apply _| |].
  { intros d. unfold next_script, same. by destruct (dk_script d). }
  intros [before between].
  assert (Hfor : ∀ l, within (same (quiet ∘ dk_sys)) (for_each l run_action)).
  { intros l. apply within_for_each; [apply _|apply run_action_quiet]. }
  apply within_bind; [apply _|apply Hfor|intros _].
  apply within_bind; [apply _|apply within_gets, _|].
  intros [[|o|]|]; try (apply within_ret, _); try (apply within_throw, _);
    try (apply within_panic, _).
  apply within_bind; [apply _|apply Hfor|intros _].
  apply within_bind; [apply _|by intros d|intros _; apply within_ret, _].
Qed.

Lemma enforce_quiet perms cat r : within (same (quiet ∘ dk_sys)) (enforce perms cat r).
Proof.
  unfold enforce. destruct (policy_for perms cat);
    [apply within_ret, _|apply ask_confirm_quiet| | |apply within_ret, _].
  - apply within_bind; [apply _|apply within_gets, _|intros []].
    { apply within_ret, _. }
    apply within_bind; [apply _|apply ask_confirm_quiet|intros []];
      try (apply within_ret, _).
    apply within_bind; [apply _|by intros d|intros _; apply within_ret, _].
  - destruct cat; first [apply within_ret, _|apply ask_confirm_quiet].
Qed.

Lemma enforce_inv perms cat r :
  within (keeps (queue_inv ∘ dk_queue)) (enforce perms cat r).
Proof.
  assert (Hask : within (keeps (queue_inv ∘ dk_queue)) (ask_confirm r)).
  { unfold ask_confirm. apply within_bind; [apply _| |intros fut].
    { apply qsteps_inv, enqueue_qsteps. }
    apply within_bind; [apply _|apply qsteps_inv, await_qsteps|].
    intros o. apply within_ret, _. }
  unfold enforce. destruct (policy_for perms cat);
    [apply within_ret, _|exact Hask| | |apply within_ret, _].
  - apply within_bind; [apply _|apply within_gets, _|intros []].
    { apply within_ret, _. }
    apply within_bind; [apply _|exact Hask|intros []]; try (apply within_ret, _).
    apply within_bind; [apply _|by intros d ?|intros _; apply within_ret, _].
  - destruct cat; first [apply within_ret, _|exact Hask].
Qed.
End facts.

(** ** Properties *)

Section properties.
Context `{PF : Platform}.

(** The state in which the policy of a dispatched call is enforced: one SQL
    call later. *)
Definition after_select (c : Context) : Context :=
  set_desk (set_dk_sys (record_ev EvSql (cx_sys c)) (cx_desk c)) c.

(** The two stages of [dispatch]: resolving the call, and acting on the
    outcome of enforcement. *)
Definition act (tool : ToolSpec) (args : Value) (provider : MailProvider)
    (outcome : EnforceOutcome) : CM Value :=
  match outcome with
  | Blocked =>
      throw (PermissionDenied (tool_name tool +:+ ": blocked by user policy"))
  | ConvertToDraft =>
      if String.eqb (tool_name tool) "send_draft" then mret (send_held args)
      else at_sys (convert_send_to_draft provider (tool_name tool) args)
  | Proceed => at_sys (execute provider (tool_name tool) args)
  end.

Definition request_of (tool : ToolSpec) (args : Value) (id : AccountId) :
    ApprovalRequest :=
  mkApprovalRequest id (tool_category tool) (tool_name tool) args.

(** A call that resolves to a provider is enforced. *)
Lemma dispatch_enforced tool args c id p :
  cx_paused c = false → parse_account_id args = Ok id → cx_providers c !! id = Some p →
  dispatch tool args c =
    (at_sys (for_account id) ≫= λ perms,
       at_desk (enforce perms (tool_category tool) (request_of tool args id))
         ≫= act tool args p) c.
Proof.
  intros Hp Hid Hprov. unfold dispatch.
  etrans; [apply (bind_step (gets cx_paused) _ c false c); unfold gets; by rewrite Hp|].
  etrans; [eapply (bind_step _ _ c id c); unfold lift_res; by rewrite Hid|].
  etrans; [eapply (bind_step _ _ c (Some p) c);
    unfold registry_get, gets; by rewrite Hprov|].
  etrans; [by apply (bind_step _ _ c p c)|]. done.
Qed.

(** Either the call stops before enforcement, having read the database at
    most, or it is enforced under the stored policy of its account. *)
Lemma dispatch_resolve tool args c :
  db_wf (sys_db (cx_sys c)) →
  (∃ e, (dispatch tool args c = (Err e, c) ∨
         dispatch tool args c = (Err e, after_select c))) ∨
  (∃ id p perms,
    cx_paused c = false ∧ parse_account_id args = Ok id ∧
    cx_providers c !! id = Some p ∧
    (∀ cat, policy_for perms cat = stored_policy (sys_db (cx_sys c)) id cat) ∧
    dispatch tool args c =
      (at_desk (enforce perms (tool_category tool) (request_of tool args id))
        ≫= act tool args p) (after_select c)).
Proof.
  intros Hwf. destruct (cx_paused c) eqn:Hp.
  { left. eexists. left. unfold dispatch, mbind, st_bind, gets. by rewrite Hp. }
  assert (Hid : (∃ e, parse_account_id args = Err e) ∨ ∃ id, parse_account_id args = Ok id).
  { unfold parse_account_id. destruct (get_str _ _) as [s|]; [|by left; eexists].
    destruct (account_from_str s); [left|right]; by eexists. }
  destruct Hid as [[e Hid]|[id Hid]].
  { left. exists e. left. unfold dispatch, mbind, st_bind, gets, lift_res.
    by rewrite Hp, Hid. }
  destruct (cx_providers c !! id) as [p|] eqn:Hprov.
  2:{ left. eexists. left.
    unfold dispatch, mbind, st_bind, gets, lift_res, registry_get.
    rewrite Hp, Hid. unfold gets. by rewrite Hprov. }
  rewrite (dispatch_enforced _ _ _ _ _ Hp Hid Hprov).
  destruct (for_account_run id (cx_sys c) Hwf)
    as [(text & Hrun)|(m & s' & Hrun & Hdb & Hkr & Hcells & Hhist & Hpol)].
  - left. eexists. right. apply bind_err. by rewrite at_sys_run, Hrun.
  - right. exists id, p, m. do 4 (split; [done|]).
    etrans; [eapply bind_step; rewrite at_sys_run, Hrun; reflexivity|]. simpl.
    assert (s' = record_ev EvSql (cx_sys c)) as ->.
    { destruct s'; simpl in *. unfold record_ev. congruence. }
    done.
Qed.

(** While the server is paused every dispatched call is refused with the
    pause message, and nothing whatsoever happens. *)
Theorem paused_dispatch_refused tool args c :
  cx_paused c = true →
  dispatch tool args c = (Err (PermissionDenied paused_message), c).
Proof. intros Hp. unfold dispatch, mbind, st_bind, gets. by rewrite Hp. Qed.

(** C1: the daemon touches the mail provider, the tokens, the keychain or the
    database on behalf of a tool call only when the server is not paused, the
    account is registered, and the stored policy of the tool's category is
    [Allow], or [Session] with the pair trusted, or the user approved this very
    call in time, or the call is a [send] turned into a draft. *)
Theorem dispatch_effects_authorized tool args c :
  db_wf (sys_db (cx_sys c)) → queue_inv (dk_queue (cx_desk c)) →
  quiet (cx_sys (dispatch tool args c).2) ≠ quiet (cx_sys c) →
  ∃ id p, cx_paused c = false ∧ parse_account_id args = Ok id ∧
    cx_providers c !! id = Some p ∧
    let policy := stored_policy (sys_db (cx_sys c)) id (tool_category tool) in
    policy = Allow ∨
    (policy = Session ∧
     is_trusted (dk_trust (cx_desk c)) id (tool_category tool) = true) ∨
    (policy ≠ Block ∧
     ADecide (next_id (cx_desk (after_select c))) Approve ∈
       script_before (cx_desk c)) ∨
    (policy = Draftify ∧ tool_category tool = Send ∧ tool_name tool ≠ "send_draft").
Proof.
  intros Hwf Hinv Hne.
  destruct (dispatch_resolve tool args c Hwf)
    as [(e & [Hd|Hd])|(id & p & perms & Hp & Hid & Hprov & Hpol & Hd)];
    rewrite Hd in Hne; [done..|].
  exists id, p. do 3 (split; [done|]). simpl. rewrite <- Hpol.
  set (c1 := after_select c) in *.
  pose proof (enforce_quiet perms (tool_category tool) (request_of tool args id)
    (cx_desk c1)) as Hquiet.
  unfold mbind, st_bind in Hne. rewrite at_desk_run in Hne.
  destruct (enforce perms (tool_category tool) (request_of tool args id) (cx_desk c1))
    as [[o| | |] d'] eqn:Henf; unfold same in Hquiet; simpl in *; try done.
  destruct o; simpl in Hne; [| |]; try done.
  - destruct (enforce_proceed_authorized _ _ _ (cx_desk c1) d' Hinv Henf)
      as [?|[[??]|[??]]]; [by left|by right; left|by right; right; left].
  - right; right; right. unfold enforce in Henf.
    destruct (policy_for perms _) eqn:Hpf; try done.
    + by apply ask_confirm_never_converts in Henf.
    + revert Henf. unfold mbind at 1, st_bind at 1, gets at 1.
      destruct (is_trusted _ _ _); [done|].
      intros (o & d1 & Ho & Hrest)%bind_Ok.
      destruct o; run_ok; try done. by apply ask_confirm_never_converts in Ho.
    + destruct (tool_category tool) eqn:Hcat;
        try by apply ask_confirm_never_converts in Henf.
      split; [done|]. split; [done|]. intros Hname. by rewrite Hname in Hne.
Qed.

(** A provider whose sending operations cannot be called. *)
Definition disarm (p : MailProvider) : MailProvider :=
  mkMailProvider (p_search p) (p_get_thread p) (p_get_message p) (p_list_folders p)
    (p_list_labels p) (p_list_drafts p) (p_mark_read p) (p_star p) (p_label p)
    (p_move_to p) (p_archive p) (p_trash p) (p_untrash p) (p_create_draft p)
    (p_update_draft p) (λ _, panic) (λ _, panic).

(** The same context with one account's provider disarmed. *)
Definition disarm_account (id : AccountId) (c : Context) : Context :=
  set_providers (alter disarm id (cx_providers c)) c.

(** C10: an account whose [send] policy is [Draftify] never sends through a tool
    of the send category: the call returns the same result and leaves the same
    state when the provider's sending operations are made to panic. *)
Theorem draftify_never_sends tool args c id :
  db_wf (sys_db (cx_sys c)) →
  parse_account_id args = Ok id → tool_category tool = Send →
  stored_policy (sys_db (cx_sys c)) id Send = Draftify →
  (dispatch tool args (disarm_account id c)).1 = (dispatch tool args c).1 ∧
  cx_desk (dispatch tool args (disarm_account id c)).2 =
    cx_desk (dispatch tool args c).2.
Proof.
  intros Hwf Hid Hcat Hpol. unfold dispatch.
  unfold mbind, st_bind, gets, lift_res, registry_get. simpl.
  destruct (cx_paused c); [done|]. rewrite Hid. simpl. unfold gets.
  rewrite lookup_alter_eq. destruct (cx_providers c !! id) as [p|]; [|done]. simpl.
  rewrite !at_sys_run.
  change (cx_sys (disarm_account id c)) with (cx_sys c).
  destruct (for_account_run id (cx_sys c) Hwf)
    as [(text & ->)|(m & s' & -> & _ & _ & _ & _ & Hm)]; [done|]. simpl.
  rewrite !at_desk_run. simpl. unfold enforce. rewrite Hcat, Hm, Hpol. simpl.
  destruct (String.eqb (tool_name tool) "send_draft"); [done|].
  rewrite !at_sys_run. done.
Qed.

(** For every tool of the catalog other than [list_accounts] the executor
    runs a provider operation: no catalog tool is unknown to it or reaches its
    unreachable branch. *)
Theorem catalog_tools_execute p args t :
  t ∈ tools → tool_name t ≠ "list_accounts" → handled (tool_name t) p args.
Proof. apply execute_handles. Qed.

(** An account that was never registered, or was removed from the registry,
    gets a not-found error from every tool, without any effect. *)
Theorem unregistered_account_not_found tool args c id :
  cx_paused c = false → parse_account_id args = Ok id → cx_providers c !! id = None →
  dispatch tool args c = (Err (NotFound ("account " +:+ account_to_string id)), c).
Proof.
  intros Hp Hid Hno. unfold dispatch, mbind, st_bind, gets, lift_res, registry_get.
  rewrite Hp, Hid. unfold gets. by rewrite Hno.
Qed.
End properties.
