(* ===== verification/ToolTypes.v ===== *)
(** * The types of tool calls

    The catalog advertises a JSON schema for the arguments of each tool; the
    dispatcher reads the arguments by hand, with defaults for what it does not
    find. Here the part of JSON Schema the catalog uses is given its meaning, a
    call of a tool its typed form, and the two are shown to agree: on arguments
    that satisfy the advertised schema no default is taken and nothing is
    dropped. *)
From S2P Require Export Dispatch.

(** ** JSON Schema *)

(** The keyword [type]; an integer is a number written without a fraction. *)
Definition has_type (name : string) (v : Value) : bool :=
  match v with
  | VObject _ => String.eqb name "object"
  | VArray _ => String.eqb name "array"
  | VString _ => String.eqb name "string"
  | VBool _ => String.eqb name "boolean"
  | VNumber (PosInt _) => String.eqb name "integer" || String.eqb name "number"
  | VNumber (NegInt n) =>
      (n <? 0)%Z && (String.eqb name "integer" || String.eqb name "number")
  | VNumber (Float _) => String.eqb name "number"
  | VNull => String.eqb name "null"
  end.

Definition is_object (v : Value) : bool := match v with VObject _ => true | _ => false end.

Definition keys_of (v : Value) : list string :=
  match v with VObject kvs => kvs.*1 | _ => [] end.

(** An integer bound; a number that is none satisfies it. *)
Definition bounded (test : Z → Z → bool) (bound v : Value) : bool :=
  match bound, v with
  | VNumber (PosInt b | NegInt b), VNumber (PosInt n | NegInt n) => test b n
  | _, _ => true
  end.

(** [valid schema v]: every keyword of the schema holds of the value; unknown
    keywords, such as [default], say nothing. *)
Fixpoint valid (schema v : Value) : bool :=
  match schema with
  | VObject kvs =>
      (fix keywords (l : list (string * Value)) : bool :=
         match l with
         | [] => true
         | (key, arg) :: l =>
             (if String.eqb key "type" then
                match arg with VString name => has_type name v | _ => false end
              else if String.eqb key "properties" then
                match arg with
                | VObject props =>
                    (fix each (ps : list (string * Value)) : bool :=
                       match ps with
                       | [] => true
                       | (k, sub) :: ps =>
                           match get k v with Some x => valid sub x | None => true end
                           && each ps
                       end) props
                | _ => false
                end
              else if String.eqb key "required" then
                match arg with
                | VArray names =>
                    negb (is_object v) ||
                    forallb (λ n, match n with
                                  | VString k => bool_decide (is_Some (get k v))
                                  | _ => false
                                  end) names
                | _ => false
                end
              else if String.eqb key "additionalProperties" then
                match arg with
                | VBool false =>
                    forallb (λ k, any_eq k (default [] (keys_of <$> Json.assoc "properties" kvs)))
                      (keys_of v)
                | _ => true
                end
              else if String.eqb key "items" then
                match v with VArray vs => forallb (valid arg) vs | _ => true end
              else if String.eqb key "minimum" then bounded Z.leb arg v
              else if String.eqb key "maximum" then bounded Z.geb arg v
              else true) && keywords l
         end) kvs
  | _ => false
  end.

(** ** Typed calls *)

(** A call of each tool with arguments of the types the provider takes. *)
Inductive Call : Type :=
| CSearch (q : SearchQuery)
| CGetThread (id : ThreadId)
| CGetMessage (id : MessageId)
| CListFolders
| CListLabels
| CListDrafts
| CMarkRead (ids : list MessageId) (read : bool)
| CStar (ids : list MessageId) (starred : bool)
| CLabel (ids : list MessageId) (label : LabelId) (on : bool)
| CMoveTo (ids : list MessageId) (folder : FolderId)
| CArchive (ids : list MessageId)
| CTrash (ids : list MessageId)
| CUntrash (ids : list MessageId)
| CCreateDraft (d : DraftInput)
| CUpdateDraft (id : DraftId) (d : DraftInput)
| CSendMessage (m : OutgoingMessage)
| CSendDraft (id : DraftId).

(** A member that may be absent, but must have its type. *)
Definition optional {A} (k : string) (d : De A) : De (option A) := λ v,
  match get k v with Some x => Some <$> d x | None => Some None end.

(** An integer of a range. *)
Definition de_range (lo hi : Z) (v : Value) : option Z :=
  n ← as_u64 v;
  if ((lo <=? n) && (n <=? hi))%Z then Some n else None.

Definition de_ids (args : Value) : option (list MessageId) :=
  ids ← field "message_ids" (de_vec de_string) args;
  Some (fmap (M := list) MessageId_from ids).

(** The strict reading of the arguments: no defaults, nothing skipped. *)
Definition typed_call (tool : string) (args : Value) : option Call :=
  if String.eqb tool "search" then
    text ← optional "query" de_string args;
    folder ← optional "folder_id" de_string args;
    label ← optional "label_id" de_string args;
    limit ← optional "limit" (de_range 1 100) args;
    cursor ← optional "cursor" de_string args;
    Some (CSearch (mkSearchQuery text (fmap (M := option) FolderId_from folder)
                     (fmap (M := option) LabelId_from label)
                     limit cursor))
  else if String.eqb tool "get_thread" then
    id ← field "thread_id" de_string args; Some (CGetThread (ThreadId_from id))
  else if String.eqb tool "get_message" then
    id ← field "message_id" de_string args; Some (CGetMessage (MessageId_from id))
  else if String.eqb tool "list_folders" then Some CListFolders
  else if String.eqb tool "list_labels" then Some CListLabels
  else if String.eqb tool "list_drafts" then Some CListDrafts
  else if String.eqb tool "mark_read" then
    ids ← de_ids args; read ← field "read" de_bool args; Some (CMarkRead ids read)
  else if String.eqb tool "star" then
    ids ← de_ids args; starred ← field "starred" de_bool args; Some (CStar ids starred)
  else if String.eqb tool "label" then
    ids ← de_ids args; label ← field "label_id" de_string args;
    on ← field "on" de_bool args; Some (CLabel ids (LabelId_from label) on)
  else if String.eqb tool "move_to" then
    ids ← de_ids args; folder ← field "folder_id" de_string args;
    Some (CMoveTo ids (FolderId_from folder))
  else if String.eqb tool "archive" then CArchive <$> de_ids args
  else if String.eqb tool "trash" then CTrash <$> de_ids args
  else if String.eqb tool "untrash" then CUntrash <$> de_ids args
  else if String.eqb tool "create_draft" then
    s ← de_send_args args; Some (CCreateDraft (draft_input s))
  else if String.eqb tool "update_draft" then
    s ← de_update_args args;
    Some (CUpdateDraft (DraftId_from (ua_draft_id s)) (update_input s))
  else if String.eqb tool "send_message" then
    s ← de_send_args args; Some (CSendMessage (outgoing_message s))
  else if String.eqb tool "send_draft" then
    id ← field "draft_id" de_string args; Some (CSendDraft (DraftId_from id))
  else None.

Section run.
Context `{PF : Platform}.

(** What a typed call does: one operation of the provider, and its result. *)
Definition run_call (p : MailProvider) (call : Call) : M Value :=
  match call with
  | CSearch q => r ← p_search p q; mret (search_results_value r)
  | CGetThread id => t ← p_get_thread p id; mret (thread_value t)
  | CGetMessage id => m ← p_get_message p id; mret (message_value m)
  | CListFolders => l ← p_list_folders p; mret (VArray (folder_value <$> l))
  | CListLabels => l ← p_list_labels p; mret (VArray (label_value <$> l))
  | CListDrafts => l ← p_list_drafts p; mret (VArray (draft_summary_value <$> l))
  | CMarkRead ids read => _ ← p_mark_read p ids read; mret ok_true
  | CStar ids starred => _ ← p_star p ids starred; mret ok_true
  | CLabel ids label on => _ ← p_label p ids label on; mret ok_true
  | CMoveTo ids folder => _ ← p_move_to p ids folder; mret ok_true
  | CArchive ids => _ ← p_archive p ids; mret ok_true
  | CTrash ids => _ ← p_trash p ids; mret ok_true
  | CUntrash ids => _ ← p_untrash p ids; mret ok_true
  | CCreateDraft d => id ← p_create_draft p d; mret (VObject [("draft_id", draft_id_value id)])
  | CUpdateDraft id d => _ ← p_update_draft p id d; mret ok_true
  | CSendMessage m =>
      id ← p_send_message p m; mret (VObject [("message_id", message_id_value id)])
  | CSendDraft id =>
      id ← p_send_draft p id; mret (VObject [("message_id", message_id_value id)])
  end.
End run.

(** ** What a valid value is *)

(** A member the schema names: of its type, or absent and not required. *)
Definition member (required : list string) (args : Value) (p : string * Value) : Prop :=
  (∃ x, get p.1 args = Some x ∧ valid p.2 x = true) ∨
  (any_eq p.1 required = false ∧ get p.1 args = None).

Lemma valid_object props required args :
  valid (object_schema props required) args = true →
  (∃ kvs, args = VObject kvs) ∧ Forall (member required args) props.
Proof.
  unfold object_schema. cbn -[has_type get any_eq].
  intros [Ht [Hp [Hr _]%andb_prop]%andb_prop]%andb_prop. split.
  { destruct args as [| |[]| | |]; try discriminate; eauto.
    simpl in Ht. by rewrite andb_false_r in Ht. }
  assert (is_object args = true) as Ho.
  { destruct args as [| |[]| | |]; try done. simpl in Ht. by rewrite andb_false_r in Ht. }
  rewrite Ho in Hr. simpl in Hr.
  induction props as [|[k sub] props IH]; [constructor|].
  apply andb_prop in Hp as [Hk Hp]. constructor; [|by apply IH].
  unfold member. cbn [fst snd]. destruct (get k args) as [x|] eqn:E; [by left; eauto|].
  right. split; [|done]. clear -Hr E. induction required as [|r l IH]; [done|].
  simpl in Hr. apply andb_prop in Hr as [Hr Hl]. apply bool_decide_eq_true in Hr.
  simpl. destruct (String.eqb_spec k r) as [->|]; [|by apply IH].
  rewrite E in Hr. by destruct Hr.
Qed.

Lemma valid_string v : valid (type_value "string") v = true → ∃ s, v = VString s.
Proof.
  simpl. rewrite andb_true_r. destruct v as [| |[]| | |]; try discriminate; eauto.
  simpl. by rewrite andb_false_r.
Qed.

Lemma valid_boolean v : valid (type_value "boolean") v = true → ∃ b, v = VBool b.
Proof.
  simpl. rewrite andb_true_r. destruct v as [| |[]| | |]; try discriminate; eauto.
  simpl. by rewrite andb_false_r.
Qed.

Lemma valid_strings v :
  valid string_array v = true → ∃ l, v = VArray (VString <$> l).
Proof.
  unfold string_array. cbn -[has_type type_value]. rewrite andb_true_r.
  intros [Ht Hl]%andb_prop.
  destruct v as [| |[]| |vs|]; try discriminate; [simpl in Ht; by rewrite andb_false_r in Ht|].
  clear Ht. revert Hl. induction vs as [|v vs IH]; intros H; [by exists []|].
  cbn -[type_value] in H. apply andb_prop in H as [[s ->]%valid_string H].
  destruct (IH H) as [l [= ->]]. by exists (s :: l).
Qed.

Definition limit_schema : Value :=
  VObject [("type", VString "integer"); ("minimum", VInt 1);
           ("maximum", VInt 100); ("default", VInt 20)].

Lemma valid_limit v :
  valid limit_schema v = true → ∃ n, v = VNumber (PosInt n) ∧ (1 <= n <= 100)%Z.
Proof.
  unfold limit_schema. cbn -[has_type bounded VInt].
  intros [Ht [Hlo [Hhi _]%andb_prop]%andb_prop]%andb_prop.
  destruct v as [| |[n|n|]| | |]; try discriminate.
  - cbn in Hlo, Hhi. exists n. split; [done|]. apply Z.leb_le in Hlo. lia.
  - cbn in Ht, Hlo. rewrite andb_true_r in Ht. lia.
Qed.

(** ** What the readers find in a valid object *)

Section readers.
Context (required : list string) (args : Value) (k : string).

Lemma string_member :
  member required args (k, type_value "string") →
  ∃ o, get k args = VString <$> o ∧ (any_eq k required = true → is_Some o).
Proof.
  intros [(x & E & [s ->]%valid_string)|[Hr E]]; [by exists (Some s); eauto|].
  exists None. cbn [fst] in Hr. rewrite Hr. done.
Qed.

Lemma boolean_member :
  member required args (k, type_value "boolean") →
  ∃ o, get k args = VBool <$> o ∧ (any_eq k required = true → is_Some o).
Proof.
  intros [(x & E & [b ->]%valid_boolean)|[Hr E]]; [by exists (Some b); eauto|].
  exists None. cbn [fst] in Hr. rewrite Hr. done.
Qed.

Lemma strings_member :
  member required args (k, string_array) →
  ∃ o : option (list string), get k args = (VArray ∘ fmap VString) <$> o ∧
    (any_eq k required = true → is_Some o).
Proof.
  intros [(x & E & [l ->]%valid_strings)|[Hr E]]; [by exists (Some l); eauto|].
  exists None. cbn [fst] in Hr. rewrite Hr. done.
Qed.

Lemma limit_member :
  member required args (k, limit_schema) →
  ∃ o, get k args = (VNumber ∘ PosInt) <$> o ∧ ∀ n, o = Some n → (1 <= n <= 100)%Z.
Proof.
  intros [(x & E & (n & -> & Hn)%valid_limit)|[Hr E]].
  - exists (Some n). split; [done|]. by intros ? [= <-].
  - by exists None.
Qed.

Lemma read_strings l : de_vec de_string (VArray (VString <$> l)) = Some l.
Proof.
  unfold de_vec. simpl. apply mapM_Some_2, Forall2_fmap_l.
  apply Forall_Forall2_diag. by apply Forall_forall.
Qed.

Lemma get_str_string o : get k args = VString <$> o → get_str k args = o.
Proof. unfold get_str. intros ->. by destruct o. Qed.

Lemma field_string s : get k args = VString <$> Some s → field k de_string args = Some s.
Proof. unfold field. by intros ->. Qed.

Lemma optional_string o :
  get k args = VString <$> o → optional k de_string args = Some o.
Proof. unfold optional. intros ->. by destruct o. Qed.

Lemma field_option_string o :
  get k args = VString <$> o → field_option k de_string args = Some o.
Proof. unfold field_option. intros ->. by destruct o. Qed.

Lemma get_bool_boolean o : get k args = VBool <$> o → get_bool k args = o.
Proof. unfold get_bool. intros ->. by destruct o. Qed.

Lemma field_boolean b : get k args = VBool <$> Some b → field k de_bool args = Some b.
Proof. unfold field. by intros ->. Qed.

Lemma field_strings l :
  get k args = (VArray ∘ fmap VString) <$> Some l →
  field k (de_vec de_string) args = Some l.
Proof. unfold field. intros ->. apply read_strings. Qed.

Lemma field_default_strings o :
  get k args = (VArray ∘ fmap VString) <$> o →
  field_default k (de_vec de_string) [] args = Some (default [] o).
Proof. unfold field_default. intros ->. destruct o; [apply read_strings|done]. Qed.
End readers.

Lemma ids_read args l :
  get "message_ids" args = (VArray ∘ fmap VString) <$> Some l →
  message_ids args = MessageId_from <$> l ∧ de_ids args = Some (MessageId_from <$> l).
Proof.
  intros E. unfold de_ids. rewrite (field_strings _ _ _ E). split; [|done].
  unfold message_ids. rewrite E. simpl. f_equal. clear E.
  induction l as [|s l IH]; [done|]. cbn. by f_equal.
Qed.

Lemma limit_read args o :
  get "limit" args = (VNumber ∘ PosInt) <$> o →
  (∀ n, o = Some n → (1 <= n <= 100)%Z) →
  optional "limit" (de_range 1 100) args = Some o ∧
  as_u32 <$> (get "limit" args ≫= as_u64) = o.
Proof.
  intros E Hn. unfold optional, de_range. rewrite E. destruct o as [n|]; [|done].
  specialize (Hn n eq_refl). simpl. split.
  - by destruct (Z.leb_spec 1 n), (Z.leb_spec n 100); try lia.
  - f_equal. unfold as_u32. rewrite Z.mod_small; [done|]. lia.
Qed.

Lemma read_object {A} (d : De A) args kvs : args = VObject kvs → de_struct d args = d args.
Proof. by intros ->. Qed.

Lemma typed_some {A} (typed : option A) (P : A → Prop) a :
  typed = Some a → P a → ∃ call, typed = Some call ∧ P call.
Proof. eauto. Qed.

(** The facts a schema gives of each member it names, ready for rewriting. *)
Ltac members :=
  repeat match goal with
  | H : Forall _ (_ :: _) |- _ => apply Forall_cons in H as [? H]
  | H : Forall _ [] |- _ => clear H
  | H : member _ _ (_, type_value "string") |- _ =>
      apply string_member in H as (? & ? & H); cbn in H
  | H : member _ _ (_, type_value "boolean") |- _ =>
      apply boolean_member in H as (? & ? & H); cbn in H
  | H : member _ _ (_, string_array) |- _ =>
      apply strings_member in H as (? & ? & H); cbn in H
  | H : member _ _ (_, VObject _) |- _ => apply limit_member in H as (? & ? & H)
  | H : true = true → is_Some _ |- _ => destruct (H eq_refl) as [? ->]; clear H
  | H : false = true → _ |- _ => clear H
  end.

(** One tool: find its branch, read the arguments both ways. *)
Ltac read_call :=
  unfold typed_call, execute, exec_read, exec_triage, exec_compose,
    de_send_args, de_update_args, search_query, str_or_empty;
  cbn [String.eqb Ascii.eqb Bool.eqb];
  repeat match goal with
  | H : get "message_ids" _ = _ |- _ => apply ids_read in H as [-> ->]
  | H : get "limit" _ = _, H' : _ |- _ => destruct (limit_read _ _ H H') as [-> ->]; clear H
  | H : _ = VObject _ |- _ => rewrite ?(read_object _ _ _ H); clear H
  | H : get _ _ = VString <$> Some _ |- _ =>
      rewrite ?(field_string _ _ _ H), ?(get_str_string _ _ _ H); clear H
  | H : get _ _ = VString <$> _ |- _ =>
      rewrite ?(optional_string _ _ _ H), ?(field_option_string _ _ _ H),
        ?(get_str_string _ _ _ H); clear H
  | H : get _ _ = VBool <$> Some _ |- _ =>
      rewrite (field_boolean _ _ _ H), (get_bool_boolean _ _ _ H); clear H
  | H : get _ _ = VArray ∘ fmap VString <$> Some _ |- _ =>
      rewrite (field_strings _ _ _ H); clear H
  | H : get _ _ = VArray ∘ fmap VString <$> _ |- _ =>
      rewrite (field_default_strings _ _ _ H); clear H
  end;
  eapply typed_some; [reflexivity|]; reflexivity.

(** What the schema of a tool promises of its arguments. *)
Definition well_typed `{PF : Platform} (t : ToolSpec) : Prop :=
  ∀ args, tool_name t ≠ "list_accounts" → valid (tool_input_schema t) args = true →
  (∃ s, get_str "account_id" args = Some s) ∧
  ∃ call, typed_call (tool_name t) args = Some call ∧
    ∀ p, execute p (tool_name t) args = run_call p call.

Lemma tools_well_typed `{PF : Platform} : Forall well_typed tools.
Proof.
  repeat (apply Forall_cons; split); [.. | by apply Forall_nil]; intros args.
  1: by intros [].
  all: intros _; cbn [tool_input_schema tool_name].
  all: intros [(kvs & Hobj) Hm]%valid_object; members.
  all: split; [eexists; by eapply get_str_string|].
  all: read_call.
Qed.

