(* ===== verification/McpServer.v ===== *)
(** * The MCP server

    [crates/mail-mcp-daemon/src/mcp/server.rs]: JSON-RPC over HTTP behind a
    bearer token. [handle_post] receives a request whose body the framework
    already decoded, and answers a status and a JSON body. *)
From S2P Require Export Dispatch.

Record ServerInfo : Type := mkServerInfo { si_name : string; si_version : string }.

Record JsonRpcReq : Type := mkJsonRpcReq {
  rpc_id : Value;
  rpc_method : string;
  rpc_params : Value;
}.

Definition de_jsonrpc_req : De JsonRpcReq := de_struct (λ v,
  id ← field_default "id" de_value VNull v;
  method ← field "method" de_string v;
  params ← field_default "params" de_value VNull v;
  Some (mkJsonRpcReq id method params)).

Definition server_info_value (s : ServerInfo) : Value :=
  VObject [("name", VString (si_name s)); ("version", VString (si_version s))].

(** [ok(id, result)] *)
Definition rpc_ok (id result : Value) : Value :=
  VObject [("jsonrpc", VString "2.0"); ("id", id); ("result", result)].

(** [err(id, code, message)] *)
Definition rpc_err (id : Value) (code : Z) (message : string) : Value :=
  VObject [("jsonrpc", VString "2.0"); ("id", id);
           ("error", VObject [("code", VInt code); ("message", VString message)])].

Section server.
Context `{PF : Platform}.

(** [McpState], the context apart. *)
Record McpState : Type := mkMcpState {
  bearer_token : string;
  server_info : ServerInfo;
}.

(** [check_auth]; the header is the raw bytes of [Authorization]. *)
Definition check_auth (header : option string) (expected : string) : bool :=
  match header with
  | None => false
  | Some h =>
      match header_to_str h with
      | None => false
      | Some s =>
          match str_strip_prefix "Bearer " s with
          | Some t => String.eqb t expected
          | None => false
          end
      end
  end.

Definition initialize_result (state : McpState) : Value :=
  VObject [
    ("protocolVersion", VString "2025-06-18");
    ("capabilities", VObject [("tools", VObject [("listChanged", VBool false)])]);
    ("serverInfo", server_info_value (server_info state))].

Definition tool_value (t : ToolSpec) : Value :=
  VObject [
    ("name", VString (tool_name t));
    ("description", VString (tool_description t));
    ("inputSchema", tool_input_schema t)].

(** The result of a tool call: the value as text and as structured content. *)
Definition call_result (v : Value) : Value :=
  VObject [
    ("content", VArray [VObject [("type", VString "text");
                                 ("text", VString (json_to_string v))]]);
    ("structuredContent", v);
    ("isError", VBool false)].

(** The arm ["tools/call"]. *)
Definition tools_call (id params : Value) : CM Value :=
  let name := default "" (get_str "name" params) in
  let args := default VNull (get "arguments" params) in
  if String.eqb name "list_accounts" then
    items ← catch (at_sys list_accounts);
    let v := match items with
             | inr accs => VArray (account_value <$> accs)
             | inl _ => VNull
             end in
    mret (rpc_ok id (call_result v))
  else
    match find_tool name with
    | Some tool =>
        r ← catch (dispatch tool args);
        mret match r with
             | inr v => rpc_ok id (call_result v)
             | inl e => rpc_err id (-32000) (error_to_string e)
             end
    | None => mret (rpc_err id (-32601) ("unknown tool: " +:+ name))
    end.

Definition UNAUTHORIZED : Z := 401.
Definition STATUS_OK : Z := 200.

(** [handle_post] *)
Definition handle_post (state : McpState) (header : option string) (req : JsonRpcReq) :
    CM (Z * Value) :=
  if check_auth header (bearer_token state) then
    let id := rpc_id req in
    resp ←
      if String.eqb (rpc_method req) "initialize" then
        mret (rpc_ok id (initialize_result state))
      else if String.eqb (rpc_method req) "ping" then mret (rpc_ok id (VObject []))
      else if String.eqb (rpc_method req) "tools/list" then
        mret (rpc_ok id (VObject [("tools", VArray (tool_value <$> tools))]))
      else if String.eqb (rpc_method req) "tools/call" then
        tools_call id (rpc_params req)
      else mret (rpc_err id (-32601) ("method not found: " +:+ rpc_method req));
    mret (STATUS_OK, resp)
  else
    mret (UNAUTHORIZED, rpc_err (rpc_id req) (-32001) "missing or invalid bearer token").

(** [handle_sse]: the stream of server events is empty; only the status is
    observable. *)
Definition handle_sse (state : McpState) (header : option string) : Z :=
  if check_auth header (bearer_token state) then STATUS_OK else UNAUTHORIZED.
End server.

(** ** Lemmas *)

(** Anything but [Bearer] and the token is no authorization. *)
Lemma check_auth_false `{PF : Platform} header expected :
  (∀ h, header = Some h → header_to_str h ≠ Some ("Bearer " +:+ expected)) →
  check_auth header expected = false.
Proof.
  intros Hbad. unfold check_auth. destruct header as [h|]; [|done].
  specialize (Hbad h eq_refl). destruct (header_to_str h) as [s|]; [|done].
  destruct (str_strip_prefix "Bearer " s) as [t|] eqn:Hp; [|done].
  destruct (String.eqb_spec t expected) as [->|]; [|done].
  apply str_strip_prefix_Some in Hp. congruence.
Qed.

(** ** Properties *)

Section properties.
Context `{PF : Platform}.

(** A request is accepted only with an [Authorization] header that is
    exactly [Bearer] and the endpoint's token; any other request gets a 401 with
    the request's id and leaves the whole daemon as it was. *)
Theorem handle_post_unauthorized state header req c :
  (∀ h, header = Some h → header_to_str h ≠ Some ("Bearer " +:+ bearer_token state)) →
  handle_post state header req c =
    (Ok (UNAUTHORIZED, rpc_err (rpc_id req) (-32001) "missing or invalid bearer token"), c).
Proof. intros Hbad. unfold handle_post. by rewrite (check_auth_false _ _ Hbad). Qed.

(** [tools/list] answers the whole catalog, in order, and every name it
    lists is one that [tools/call] accepts: [list_accounts] or a tool found in
    the catalog. *)
Theorem listed_tools_callable state header req c :
  check_auth header (bearer_token state) = true → rpc_method req = "tools/list" →
  handle_post state header req c =
    (Ok (STATUS_OK, rpc_ok (rpc_id req) (VObject [("tools", VArray (tool_value <$> tools))])), c) ∧
  ∀ t, t ∈ tools → ∃ t', find_tool (tool_name t) = Some t'.
Proof.
  intros Ha Hm. unfold handle_post. rewrite Ha, Hm. split; [done|].
  intros t. apply find_tool_name.
Qed.

(** [list_accounts] is answered while the server is paused: the pause that
    every other tool honours does not reach it. *)
Theorem list_accounts_ignores_pause c id params :
  get_str "name" params = Some "list_accounts" →
  (tools_call id params (set_paused true c)).1 =
    (tools_call id params (set_paused false c)).1.
Proof.
  intros Hn. unfold tools_call. rewrite Hn. simpl.
  unfold mbind, st_bind, catch. rewrite !at_sys_run. simpl.
  change (cx_sys (set_paused true c)) with (cx_sys c).
  change (cx_sys (set_paused false c)) with (cx_sys c).
  by destruct (list_accounts (cx_sys c)) as [[] s'].
Qed.

(** A tool call that [dispatch] refuses or fails is answered as a JSON-RPC
    error with the request's id and the error's text, under status 200; one that
    succeeds as a result; so no error of the core escapes the server. *)
Theorem tools_call_wraps_dispatch id params c name t :
  get_str "name" params = Some name → name ≠ "list_accounts" → find_tool name = Some t →
  (tools_call id params c).1 =
    match (dispatch t (default VNull (get "arguments" params)) c).1 with
    | Ok v => Ok (rpc_ok id (call_result v))
    | Err e => Ok (rpc_err id (-32000) (error_to_string e))
    | Panic => Panic
    | Hang => Hang
    end.
Proof.
  intros Hn Hne Ht. unfold tools_call. rewrite Hn. simpl.
  rewrite (proj2 (String.eqb_neq _ _) Hne), Ht. unfold mbind, st_bind, catch.
  by destruct (dispatch _ _ c) as [[] c'].
Qed.
End properties.
