(* ===== verification/HttpDoor.v ===== *)
(** * The HTTP door

    The router of [crates/mail-mcp-daemon/src/mcp/server.rs] over the handlers of
    [McpServer]: a request with its path, header and body, as axum hands it out.
    The rejections axum itself answers are parameters. *)
From S2P Require Export McpServer.

(** axum: the answer to a body that is no request, and to a path or method
    without a route; none of them is a success. *)
Class AxumLib := {
  json_rejection : string → Z * string;
  not_found : Z * string;
  method_not_allowed : Z * string;
}.

Class AxumLaws `{AxumLib} : Prop := {
  rejection_fails body : (400 ≤ (json_rejection body).1 < 600)%Z;
}.

(** http: a value of visible ASCII characters is a header's text. *)
Class HeaderLaws `{HttpLib} : Prop := {
  header_visible h : Forall (λ a, between 32 126 a = true) (chars h) → header_to_str h = Some h;
}.

Section door.
Context `{PF : Platform, AX : AxumLib}.

(** [handle_health] *)
Definition handle_health : Z * string := (STATUS_OK, "ok").

(** [Json<JsonRpcReq>]: the body is decoded before the handler runs. *)
Definition parse_rpc (body : string) : option JsonRpcReq :=
  match json_from_str body with
  | inr v => de_jsonrpc_req v
  | inl _ => None
  end.

(** A [POST /mcp]: the extraction of the body, then the handler. *)
Definition post_mcp (state : McpState) (header : option string) (body : string) :
    CM (Z * string) :=
  match parse_rpc body with
  | None => mret (json_rejection body)
  | Some req =>
      '(status, v) ← handle_post state header req;
      mret (status, json_to_string v)
  end.

(** The router of [McpServer::router]. *)
Definition route (state : McpState) (method : Method) (path : string)
    (header : option string) (body : string) : CM (Z * string) :=
  if String.eqb path "/mcp" then
    match method with
    | POST => post_mcp state header body
    | GET =>
        let status := handle_sse state header in
        mret (status, if (status =? STATUS_OK)%Z then "" else "unauthorized")
    | _ => mret method_not_allowed
    end
  else if String.eqb path "/health" then
    match method with
    | GET => mret handle_health
    | _ => mret method_not_allowed
    end
  else mret not_found.

(** The header [bearer_auth] sends. *)
Definition bearer_header (token : string) : string := "Bearer " +:+ token.
End door.

(** ** Lemmas *)

Section facts.
Context `{PF : Platform, AX : AxumLib}.

Lemma strip_prefix_app p s : str_strip_prefix p (p +:+ s) = Some s.
Proof. by apply str_strip_prefix_Some. Qed.

(** The token of the endpoint file is accepted. *)
Lemma bearer_accepted `{!HeaderLaws} token :
  Forall (λ a, between 32 126 a = true) (chars token) →
  check_auth (Some (bearer_header token)) token = true.
Proof.
  intros Ht. unfold check_auth, bearer_header. rewrite header_visible.
  - rewrite strip_prefix_app. apply String.eqb_refl.
  - rewrite las_app. apply Forall_app. split; [by repeat constructor|done].
Qed.

(** What an authorised request is answered never depends on the token again, and
    has status 200. *)
Lemma post_status state header req c r c' :
  check_auth header (bearer_token state) = true →
  handle_post state header req c = (Ok r, c') → r.1 = STATUS_OK.
Proof.
  unfold handle_post. intros ->. intros H. apply bind_Ok in H as (v & c1 & _ & H).
  by apply ret_Ok in H as [<- _].
Qed.
End facts.

(** ** Properties *)

Section properties.
Context `{PF : Platform, AX : AxumLib}.

(** C24: without the bearer token nothing gets through the door: whatever the
    method, the path and the body, the daemon is left as it was, and the answer is
    a refusal of axum's, the health text, or a 401. *)
Theorem door_closed state method path header body c :
  (∀ h, header = Some h → header_to_str h ≠ Some ("Bearer " +:+ bearer_token state)) →
  (route state method path header body c).2 = c ∧
  ∃ a, (route state method path header body c).1 = Ok a ∧
    (a = json_rejection body ∨ a = not_found ∨ a = method_not_allowed ∨ a = handle_health ∨
     a.1 = UNAUTHORIZED).
Proof.
  intros Hauth%check_auth_false. unfold route. destruct (String.eqb path "/mcp").
  - destruct method; try (split; [done|]; eexists; split; [reflexivity|]; by auto).
    + unfold handle_sse. rewrite Hauth. split; [done|]. eexists. split; [reflexivity|]. by auto 6.
    + unfold post_mcp. destruct (parse_rpc body) as [req|].
      * unfold handle_post. rewrite Hauth. split; [done|]. eexists. split; [reflexivity|]. by auto 6.
      * split; [done|]. eexists. split; [reflexivity|]. by auto.
  - destruct (String.eqb path "/health"); [destruct method|];
      (split; [done|]; eexists; split; [reflexivity|]; by auto 6).
Qed.

(** A message without an id, such as the notification a client sends after
    [initialize], is answered all the same: with an error that has no id. *)
Theorem notification_answered state header req c :
  check_auth header (bearer_token state) = true →
  rpc_method req = "notifications/initialized" → rpc_id req = VNull →
  handle_post state header req c =
    (Ok (STATUS_OK, rpc_err VNull (-32601) "method not found: notifications/initialized"), c).
Proof.
  intros Hauth Hm Hid. unfold handle_post. by rewrite Hauth, Hm, Hid.
Qed.
End properties.
