(* ===== verification/Loopback.v ===== *)
(** * The OAuth loopback listener

    [crates/mail-mcp-core/src/oauth/loopback.rs]: a listener on a local port
    that waits, under a deadline, for the browser's redirect carrying the
    expected [state]. *)
From S2P Require Export Dispatch RustStr.

Record LoopbackListener : Type := mkListener {
  ll_port : Z;
  ll_expected_state : string;
}.

Record CapturedCallback : Type := mkCaptured { cb_code : string }.

Section loopback.
Context `{PF : Platform}.

(** [LoopbackListener::bind] *)
Definition loopback_bind (expected_state : string) : M LoopbackListener := λ s,
  match bind_loopback (sys_hist s) with
  | inl e => (Err (Io e), record_ev EvSocket s)
  | inr port => (Ok (mkListener port expected_state), record_ev EvSocket s)
  end.

(** [redirect_uri] *)
Definition redirect_uri (l : LoopbackListener) : string :=
  "http://127.0.0.1:" +:+ pretty (ll_port l) +:+ "/callback".

(** The three parameters the loop over [qs.split('&')] keeps: the last of each. *)
Record QueryParams : Type := mkQueryParams {
  qp_code : option string;
  qp_state : option string;
  qp_error : option string;
}.

Definition query_pair (pair : string) (acc : QueryParams) : QueryParams :=
  let '(k, v) := default (pair, "") (split_once "="%char pair) in
  let v := pct_decode_lossy v in
  if String.eqb k "code" then mkQueryParams (Some v) (qp_state acc) (qp_error acc)
  else if String.eqb k "state" then mkQueryParams (qp_code acc) (Some v) (qp_error acc)
  else if String.eqb k "error" then mkQueryParams (qp_code acc) (qp_state acc) (Some v)
  else acc.

(** The query of the request line of what was read. *)
Definition parse_callback (buf : string) : QueryParams :=
  let req := if utf8_valid buf then buf else "" in
  let request_line := first_line req in
  let target :=
    match next_word request_line with
    | None => ""
    | Some (_, rest) =>
        match next_word rest with Some (t, _) => t | None => "" end
    end in
  let qs := match split_once "?"%char target with Some (_, q) => q | None => "" end in
  foldl (λ acc pair, query_pair pair acc) (mkQueryParams None None None)
    (split "&"%char qs).

Definition state_matches (q : QueryParams) (expected_state : string) : bool :=
  match qp_state q with Some s => String.eqb s expected_state | None => false end.

Definition crlf : string := String "013"%char (String "010"%char "").
Definition newline : string := String "010"%char "".

(** The response written to the socket; failures of the write are ignored. *)
Definition callback_response (q : QueryParams) (expected_state : string) : string :=
  let '(status, body) :=
    match qp_error q with
    | Some e =>
        ("400 Bad Request",
         "OAuth error: " +:+ e +:+ newline +:+ "You can close this window.")
    | None =>
        if negb (state_matches q expected_state) then
          ("400 Bad Request", "OAuth state mismatch. You can close this window.")
        else match qp_code q with
             | Some _ => ("200 OK", "Sign-in complete. You can close this window.")
             | None =>
                 ("400 Bad Request", "Missing code parameter. You can close this window.")
             end
    end in
  "HTTP/1.1 " +:+ status +:+ crlf +:+ "Content-Type: text/plain; charset=utf-8" +:+ crlf
  +:+ "Content-Length: " +:+ pretty (N.of_nat (String.length body)) +:+ crlf
  +:+ "Connection: close" +:+ crlf +:+ crlf +:+ body.

(** [handle_one]; one [read] of at most 4096 bytes, without a timeout. *)
Definition handle_one (r : ReadResult) (expected_state : string) :
    Result (option CapturedCallback) :=
  match r with
  | Silent => Hang
  | ReadError e => Err (Io e)
  | ReadBytes data =>
      let q := parse_callback (String.substring 0 4096 data) in
      match qp_error q with
      | Some e => Err (OAuth ("provider returned error: " +:+ e))
      | None =>
          if negb (state_matches q expected_state) then Ok None
          else match qp_code q with
               | Some c => Ok (Some (mkCaptured c))
               | None => Ok None
               end
      end
  end.

Definition timed_out : Error := OAuth "timed out waiting for browser callback".

(** [await_callback] over the traffic of the port; [remaining] is the time left
    at the top of the loop. *)
Fixpoint await_callback (expected_state : string) (remaining : Z)
    (traffic : list Accept) : Result CapturedCallback :=
  if (remaining <=? 0)%Z then Err timed_out
  else
    match traffic with
    | [] => Err timed_out
    | AcceptError wait e :: _ =>
        if (wait <=? remaining)%Z then Err (OAuth ("accept failed: " +:+ e))
        else Err timed_out
    | Accepted wait r took :: rest =>
        if (wait <=? remaining)%Z then
          match handle_one r expected_state with
          | Ok (Some captured) => Ok captured
          | Ok None => await_callback expected_state (remaining - wait - took) rest
          | Err e => Err e
          | Panic => Panic
          | Hang => Hang
          end
        else Err timed_out
    end.
End loopback.

(** ** Properties *)

Section properties.
Context `{PF : Platform}.

(** A connection that carries the callback with the expected state. *)
Definition genuine (expected_state : string) (code : string) (a : Accept) : Prop :=
  ∃ wait data took, a = Accepted wait (ReadBytes data) took ∧
    let q := parse_callback (String.substring 0 4096 data) in
    qp_error q = None ∧ qp_state q = Some expected_state ∧ qp_code q = Some code.

Lemma handle_one_captured r st cb :
  handle_one r st = Ok (Some cb) →
  ∀ wait took, genuine st (cb_code cb) (Accepted wait r took).
Proof.
  intros H wait took. destruct r as [data| |]; simpl in H; [|done..].
  exists wait, data, took. split; [done|]. revert H. simpl.
  set (q := parse_callback _). unfold state_matches.
  destruct (qp_error q); [done|].
  destruct (qp_state q) as [s|]; [|done]. simpl.
  destruct (String.eqb_spec s st) as [->|]; [|done]. simpl.
  destruct (qp_code q); [|done]. by intros [= <-].
Qed.

Lemma await_callback_genuine st remaining traffic cb :
  await_callback st remaining traffic = Ok cb →
  ∃ a, a ∈ traffic ∧ genuine st (cb_code cb) a.
Proof.
  revert remaining. induction traffic as [|a rest IH]; intros remaining; simpl;
    destruct (remaining <=? 0)%Z; [done|done|done|].
  destruct a as [wait r took|wait e].
  - destruct (wait <=? remaining)%Z; [|done].
    destruct (handle_one r st) as [[cb'|]| | |] eqn:H; [| |done..].
    + intros [= <-]. eexists. split; [by left|]. by apply handle_one_captured.
    + intros (a & ? & ?)%IH. exists a. split; [by right|done].
  - by destruct (wait <=? remaining)%Z.
Qed.

(** A connection in time that carries another state (or none) and no error
    is skipped: the flow goes on with the rest of the traffic and the rest of
    the time. *)
Theorem spurious_connection_skipped st remaining wait data took rest :
  let q := parse_callback (String.substring 0 4096 data) in
  (0 < remaining)%Z → (wait <= remaining)%Z →
  qp_error q = None → qp_state q ≠ Some st →
  await_callback st remaining (Accepted wait (ReadBytes data) took :: rest) =
    await_callback st (remaining - wait - took) rest.
Proof.
  simpl. intros Hr Hw He Hs.
  rewrite (proj2 (Z.leb_gt _ _) Hr), (proj2 (Z.leb_le _ _) Hw), He.
  unfold state_matches. destruct (qp_state _) as [s|]; [|done].
  destruct (String.eqb_spec s st) as [->|]; [done|]. done.
Qed.

(** A connection with an [error] parameter ends the flow whatever its
    state, so a local process that does not know the nonce can end it. *)
Theorem error_parameter_aborts st remaining wait data took rest e :
  (0 < remaining)%Z → (wait <= remaining)%Z →
  qp_error (parse_callback (String.substring 0 4096 data)) = Some e →
  await_callback st remaining (Accepted wait (ReadBytes data) took :: rest) =
    Err (OAuth ("provider returned error: " +:+ e)).
Proof.
  intros Hr Hw He. simpl.
  by rewrite (proj2 (Z.leb_gt _ _) Hr), (proj2 (Z.leb_le _ _) Hw), He.
Qed.

(** When every accepted connection sends something or fails, the flow ends:
    with a code, an error, or the timeout; it neither hangs nor panics. *)
Theorem await_callback_ends st remaining traffic :
  (∀ wait took, Accepted wait Silent took ∉ traffic) →
  await_callback st remaining traffic ≠ Hang ∧ await_callback st remaining traffic ≠ Panic.
Proof.
  revert remaining. induction traffic as [|a rest IH]; intros remaining Hno; simpl;
    destruct (remaining <=? 0)%Z; try done.
  destruct a as [wait r took|wait e]; [|by destruct (wait <=? remaining)%Z].
  destruct (wait <=? remaining)%Z; [|done].
  destruct r as [data|e|]; simpl; [|done|].
  - destruct (qp_error _); [done|].
    destruct (negb _); [apply IH|destruct (qp_code _); [done|apply IH]];
      intros w t Hin; apply (Hno w t); by right.
  - exfalso. apply (Hno wait took). by left.
Qed.
End properties.
