(* ===== verification/OAuth.v ===== *)
(** * OAuth

    [crates/mail-mcp-core/src/oauth/mod.rs]: PKCE, the authorization URL, and
    the two requests to the token endpoint. *)
From S2P Require Export Loopback.

Section oauth.
Context `{PF : Platform}.

Record PkcePair : Type := mkPkce { pk_verifier : string; pk_challenge : string }.

(** [PkcePair::compute_challenge] *)
Definition compute_challenge (verifier : string) : string :=
  b64url_encode (sha256 verifier).

(** [PkcePair::generate] *)
Definition pkce_generate : M PkcePair :=
  verifier ← alphanumeric 64;
  mret (mkPkce verifier (compute_challenge verifier)).

(** [state_nonce] *)
Definition state_nonce : M string := alphanumeric 40.

Record TokenResp : Type := mkTokenResp {
  tr_access_token : string;
  tr_refresh_token : option string;
  tr_expires_in : Z;
  tr_scope : option string;
}.

Definition de_token_resp : De TokenResp := de_struct (λ v,
  access_token ← field "access_token" de_string v;
  refresh_token ← field_option "refresh_token" de_string v;
  expires_in ← field "expires_in" de_i64 v;
  scope ← field_option "scope" de_string v;
  Some (mkTokenResp access_token refresh_token expires_in scope)).

(** [now + Duration::seconds(n)]: panics when the duration has more
    milliseconds than an [i64], or the sum is out of chrono's range. *)
Definition add_seconds (now : DateTime) (n : Z) : Result DateTime :=
  if (Z.abs n * 1000 <=? i64_max)%Z && date_in_range (now + n * 10 ^ 9)%Z
  then Ok (now + n * 10 ^ 9)%Z else Panic.

(** Post a form to the token endpoint and read the tokens; a token counts as
    expired thirty seconds early. *)
Definition token_request (cfg : ProviderConfig) (params : list (string * string)) :
    M OAuthTokens :=
  rs ← http_send (mkRequest POST (token_url cfg) None (FormBody params));
  rs ← lift_res (error_for_status rs);
  resp ← lift_res (json_body de_token_resp rs);
  now ← utc_now;
  expires ← lift_res (add_seconds now (tr_expires_in resp - 30));
  mret {| access_token := tr_access_token resp;
          refresh_token := tr_refresh_token resp;
          expires_at := expires;
          scope := tr_scope resp |}.

(** [refresh] *)
Definition refresh (cfg : ProviderConfig) (rt : string) : M OAuthTokens :=
  token_request cfg [
    ("client_id", client_id cfg);
    ("grant_type", "refresh_token");
    ("refresh_token", rt)].

(** [exchange_code] *)
Definition exchange_code (cfg : ProviderConfig) (verifier code redirect : string) :
    M OAuthTokens :=
  token_request cfg [
    ("client_id", client_id cfg);
    ("grant_type", "authorization_code");
    ("code", code);
    ("redirect_uri", redirect);
    ("code_verifier", verifier)].

Record AuthChallenge : Type := mkChallenge {
  ch_auth_url : string;
  ch_redirect_uri : string;
  ch_state : string;
  ch_verifier : string;
  ch_listener : LoopbackListener;
}.

Definition authorization_url (cfg : ProviderConfig) (redirect : string)
    (scopes : list string) (state challenge : string) : string :=
  auth_url cfg +:+ "?response_type=code&client_id=" +:+ pct_encode (client_id cfg)
  +:+ "&redirect_uri=" +:+ pct_encode redirect
  +:+ "&scope=" +:+ pct_encode (join " " scopes)
  +:+ "&state=" +:+ pct_encode state
  +:+ "&code_challenge=" +:+ pct_encode challenge
  +:+ "&code_challenge_method=S256&access_type=offline&prompt=consent".

(** [begin_authorization] *)
Definition begin_authorization (cfg : ProviderConfig)
    (extra_scopes : option (list string)) : M AuthChallenge :=
  pair ← pkce_generate;
  state ← state_nonce;
  listener ← loopback_bind state;
  let redirect := redirect_uri listener in
  let scopes := default (default_scopes cfg) extra_scopes in
  mret {| ch_auth_url := authorization_url cfg redirect scopes state (pk_challenge pair);
          ch_redirect_uri := redirect;
          ch_state := state;
          ch_verifier := pk_verifier pair;
          ch_listener := listener |}.

(** [complete_authorization]: wait for the redirect, then exchange the code. *)
Definition complete_authorization (cfg : ProviderConfig) (challenge : AuthChallenge)
    (timeout : Z) : M OAuthTokens :=
  traffic ← gets (λ s, loopback_traffic (sys_hist s) (ll_port (ch_listener challenge)));
  captured ← lift_res (await_callback (ll_expected_state (ch_listener challenge))
                         timeout traffic);
  exchange_code cfg (ch_verifier challenge) (cb_code captured)
    (ch_redirect_uri challenge).

(** ** Frames *)

Definition storage_of (s : Sys) : Db * kr_store * list OAuthTokens :=
  (sys_db s, sys_keychain s, sys_cells s).

Lemma token_request_storage cfg params : within (same storage_of) (token_request cfg params).
Proof. unfold token_request. frame. Qed.

(** One request to the token endpoint, without a bearer token, is all a token
    request sends. *)
Lemma token_request_log cfg params s :
  http_log (token_request cfg params s).2 =
    mkRequest POST (token_url cfg) None (FormBody params) :: http_log s.
Proof.
  unfold token_request, mbind, st_bind, http_send.
  destruct (http_reply _ _) as [e|rs]; [done|]. unfold lift_res.
  destruct (error_for_status rs) as [rs'| | |]; [|done..].
  destruct (json_body _ rs') as [resp| | |]; [|done..].
  unfold utc_now. by destruct (add_seconds _ _).
Qed.
End oauth.

(** ** Properties *)

Section properties.
Context `{PF : Platform}.

(** A started authorization is consistent: the listener waits for exactly
    the nonce the URL carries, the redirect names the listener's port, and the
    challenge in the URL is the hash of the verifier the exchange will send. *)
Theorem begin_authorization_consistent cfg extra s ch s' :
  begin_authorization cfg extra s = (Ok ch, s') →
  ll_expected_state (ch_listener ch) = ch_state ch ∧
  ch_redirect_uri ch = redirect_uri (ch_listener ch) ∧
  ch_auth_url ch =
    authorization_url cfg (ch_redirect_uri ch) (default (default_scopes cfg) extra)
      (ch_state ch) (compute_challenge (ch_verifier ch)).
Proof.
  unfold begin_authorization. intros H. run_ok. simpl.
  unfold pkce_generate, state_nonce, loopback_bind in *. run_ok. simplify_eq/=.
  destruct (bind_loopback _); simplify_eq/=. done.
Qed.

(** The code of the redirect is exchanged with the verifier of the same
    challenge: if the flow completes, a connection with the challenge's nonce
    carried a code, and the last request sent is the exchange of that code. *)
Theorem complete_authorization_exchanges cfg ch timeout s t s' :
  complete_authorization cfg ch timeout s = (Ok t, s') →
  ∃ a code, a ∈ loopback_traffic (sys_hist s) (ll_port (ch_listener ch)) ∧
    genuine (ll_expected_state (ch_listener ch)) code a ∧
    http_log s' =
      mkRequest POST (token_url cfg) None (FormBody [
        ("client_id", client_id cfg);
        ("grant_type", "authorization_code");
        ("code", code);
        ("redirect_uri", ch_redirect_uri ch);
        ("code_verifier", ch_verifier ch)]) :: http_log s.
Proof.
  unfold complete_authorization. intros H. run_ok.
  match goal with H : await_callback _ _ _ = Ok ?cb |- _ =>
    apply await_callback_genuine in H as (a & Hin & Hg); exists a, (cb_code cb) end.
  split; [done|]. split; [done|].
  unfold exchange_code in *.
  match goal with H : token_request ?c ?p ?s = _ |- _ =>
    pose proof (token_request_log c p s) as Hlog; rewrite H in Hlog end.
  exact Hlog.
Qed.
End properties.
