(* ===== verification/AuthClient.v ===== *)
(** * The authenticated client

    [crates/mail-mcp-core/src/providers/gmail/client.rs]: an HTTP client that
    holds a shared token cell, refreshes the access token before it expires and
    after a 401, retries once, and reports a rotated refresh token. *)
From S2P Require Export OAuth.

Section client.
Context `{PF : Platform}.

Record AuthClient : Type := mkAuthClient {
  ac_cfg : ProviderConfig;
  ac_tokens : nat;
  ac_on_rotation : option (string → M unit);
}.

(** [with_rotation_callback]; [AuthClient::new] passes [None]. *)
Definition with_rotation_callback (cfg : ProviderConfig) (tokens : OAuthTokens)
    (on_rotation : option (string → M unit)) : M AuthClient :=
  cell ← cell_new tokens;
  mret (mkAuthClient cfg cell on_rotation).

(** [access_token] *)
Definition current_token (c : AuthClient) : M string :=
  g ← cell_read (ac_tokens c); mret (access_token g).

(** What a refresh writes into the cell. *)
Definition merge_tokens (g new : OAuthTokens) : OAuthTokens := {|
  access_token := access_token new;
  refresh_token :=
    match refresh_token new with
    | Some rt => Some rt
    | None => refresh_token g
    end;
  expires_at := expires_at new;
  scope := scope g;
|}.

(** [ensure_fresh] *)
Definition ensure_fresh (c : AuthClient) : M unit :=
  g ← cell_read (ac_tokens c);
  now ← utc_now;
  let needs_refresh := (expires_at g <=? now)%Z in
  if negb needs_refresh then mret tt
  else
    g ← cell_read (ac_tokens c);
    old_refresh_token ← lift_res (ok_or (refresh_token g)
                                   (OAuth "no refresh token available"));
    new ← refresh (ac_cfg c) old_refresh_token;
    let rotated := refresh_token new in
    g ← cell_read (ac_tokens c);
    _ ← cell_write (ac_tokens c) (merge_tokens g new);
    match rotated with
    | Some new_rt =>
        if negb (String.eqb new_rt old_refresh_token) then
          match ac_on_rotation c with
          | Some cb => cb new_rt
          | None => mret tt
          end
        else mret tt
    | None => mret tt
    end.

(** [g.expires_at = Utc::now() - 1 second] *)
Definition expire_token (c : AuthClient) : M unit :=
  g ← cell_read (ac_tokens c);
  now ← utc_now;
  cell_write (ac_tokens c) {|
    access_token := access_token g;
    refresh_token := refresh_token g;
    expires_at := (now - 10 ^ 9)%Z;
    scope := scope g |}.

Definition with_bearer (rq : Request) (token : string) : Request :=
  mkRequest (rq_method rq) (rq_url rq) (Some token) (rq_body rq).

Definition HTTP_UNAUTHORIZED : Z := 401.

(** [send] *)
Definition client_send (c : AuthClient) (rq : Request) : M Response :=
  _ ← ensure_fresh c;
  token ← current_token c;
  resp ← http_send (with_bearer rq token);
  if (rs_status resp =? HTTP_UNAUTHORIZED)%Z then
    _ ← expire_token c;
    _ ← ensure_fresh c;
    token ← current_token c;
    http_send (with_bearer rq token)
  else mret resp.

(** [get], [post_json], [put_json], [patch_json], [delete] *)
Definition client_get (c : AuthClient) (url : string) : M Response :=
  client_send c (mkRequest GET url None NoBody).
Definition client_post (c : AuthClient) (url : string) (body : Value) : M Response :=
  client_send c (mkRequest POST url None (JsonBody body)).
Definition client_put (c : AuthClient) (url : string) (body : Value) : M Response :=
  client_send c (mkRequest PUT url None (JsonBody body)).
Definition client_patch (c : AuthClient) (url : string) (body : Value) : M Response :=
  client_send c (mkRequest PATCH url None (JsonBody body)).
Definition client_delete (c : AuthClient) (url : string) : M Response :=
  client_send c (mkRequest DELETE url None NoBody).
End client.

(** ** Frames *)

Section frames.
Context `{PF : Platform}.

(** A callback is harmless when it neither sends requests nor touches the
    database: it may write the keychain. *)
Definition rotation_ok (c : AuthClient) : Prop :=
  ∀ cb rt, ac_on_rotation c = Some cb →
    within (same (λ s, (sys_db s, http_log s))) (cb rt).

(** The database. *)
Lemma ensure_fresh_db c : rotation_ok c → within (same sys_db) (ensure_fresh c).
Proof.
  intros Hcb. unfold ensure_fresh. apply within_bind; [apply _|frame|intros g].
  apply within_bind; [apply _|frame|intros now].
  destruct (negb _); [frame|]. apply within_bind; [apply _|frame|intros g1].
  apply within_bind; [apply _|frame|intros old].
  apply within_bind; [apply _| |intros new].
  { eapply within_weaken; [|apply token_request_storage].
    unfold same, storage_of. intros s s' ?. congruence. }
  apply within_bind; [apply _|frame|intros g2].
  apply within_bind; [apply _|frame|intros _].
  destruct (refresh_token new) as [rt|]; [|frame]. destruct (negb _); [|frame].
  destruct (ac_on_rotation c) as [cb|] eqn:E; [|frame].
  eapply within_weaken; [|by apply Hcb]. unfold same. intros s s' ?. congruence.
Qed.

Lemma client_send_db c rq : rotation_ok c → within (same sys_db) (client_send c rq).
Proof.
  intros Hcb. pose proof (ensure_fresh_db c Hcb) as Hef.
  unfold client_send, current_token, expire_token.
  repeat first [exact Hef | apply within_bind; [apply _| |intros ?] | progress frame].
Qed.

(** The requests that go to the resource server carry a bearer token; those to
    the token endpoint do not. *)
Definition bearing (l : list Request) : list Request :=
  filter (λ rq, is_Some (rq_bearer rq)) l.

Lemma ensure_fresh_log c :
  rotation_ok c → ∀ s, ∃ l, http_log (ensure_fresh c s).2 = l ++ http_log s ∧
    bearing l = [] ∧ length l ≤ 1.
Proof.
  intros Hcb s.
  assert (Hnil : ∃ l, http_log s = l ++ http_log s ∧ bearing l = [] ∧ length l ≤ 1).
  { exists []. split_and!; [done|done|simpl; lia]. }
  unfold ensure_fresh, mbind, st_bind, cell_read, utc_now, lift_res.
  destruct (sys_cells s !! ac_tokens c) as [g|] eqn:Hg; [|exact Hnil].
  destruct (negb _); [exact Hnil|]. simpl. rewrite Hg.
  destruct (refresh_token g) as [old|]; [|exact Hnil]. simpl.
  set (s1 := record_ev EvClock s).
  pose proof (token_request_log (ac_cfg c) [
    ("client_id", client_id (ac_cfg c)); ("grant_type", "refresh_token");
    ("refresh_token", old)] s1) as Hlog.
  unfold refresh. destruct (token_request _ _ s1) as [r s2]. simpl in Hlog.
  assert (Hone : ∃ l, http_log s2 = l ++ http_log s ∧ bearing l = [] ∧ length l ≤ 1).
  { eexists [_]. split_and!; [exact Hlog|done|simpl; lia]. }
  destruct r as [new|e| |]; try exact Hone.
  destruct (sys_cells s2 !! ac_tokens c) as [g2|] eqn:E2; [|exact Hone].
  unfold cell_write. rewrite E2.
  destruct (refresh_token new) as [rt|]; [|exact Hone].
  destruct (negb _); [|exact Hone].
  destruct (ac_on_rotation c) as [cb|] eqn:Ecb; [|exact Hone].
  pose proof (Hcb cb rt Ecb (set_cells (<[ac_tokens c:=merge_tokens g2 new]>
    (sys_cells s2)) s2)) as Hs.
  unfold same in Hs. injection Hs as _ Hs. simpl. rewrite Hs. exact Hone.
Qed.

Lemma current_token_same c {V} (view : Sys → V) : within (same view) (current_token c).
Proof. unfold current_token. frame. Qed.

Lemma expire_token_log c s : http_log (expire_token c s).2 = http_log s.
Proof.
  unfold expire_token, mbind, st_bind, cell_read, cell_write, utc_now.
  destruct (sys_cells s !! ac_tokens c) eqn:E; [|done]. simpl. by rewrite E.
Qed.

Lemma current_token_run c s :
  current_token c s =
    match sys_cells s !! ac_tokens c with
    | Some g => (Ok (access_token g), s)
    | None => (Panic, s)
    end.
Proof.
  unfold current_token, mbind, st_bind, cell_read. by destruct (sys_cells s !! _).
Qed.

Lemma bearing_app l1 l2 : bearing (l1 ++ l2) = bearing l1 ++ bearing l2.
Proof. apply filter_app. Qed.

(** One attempt: a fresh token, then the request. *)
Definition attempt (c : AuthClient) (rq : Request) : M Response :=
  _ ← ensure_fresh c;
  token ← current_token c;
  http_send (with_bearer rq token).

Lemma client_send_attempts c rq :
  client_send c rq ≡
    (resp ← attempt c rq;
     if (rs_status resp =? HTTP_UNAUTHORIZED)%Z then _ ← expire_token c; attempt c rq
     else mret resp).
Proof.
  intros s. unfold client_send, attempt, mbind, st_bind.
  destruct (ensure_fresh c s) as [[[]|e| |] s1]; [|done..].
  by destruct (current_token c s1) as [[token|e| |] s2].
Qed.

(** The requests of [l] are [rq] with a bearer token, at most [n] of them. *)
Definition copies (n : nat) (rq : Request) (l : list Request) : Prop :=
  length l ≤ n ∧ ∀ r, r ∈ l → ∃ token, r = with_bearer rq token.

Lemma copies_nil n rq : copies n rq [].
Proof. split; [simpl; lia|set_solver]. Qed.

Lemma copies_app n1 n2 rq l1 l2 :
  copies n1 rq l1 → copies n2 rq l2 → copies (n1 + n2) rq (l1 ++ l2).
Proof.
  intros [??] [??]. split; [rewrite length_app; lia|].
  intros r [?|?]%elem_of_app; auto.
Qed.

Lemma attempt_log c rq s :
  rotation_ok c →
  ∃ l, http_log (attempt c rq s).2 = l ++ http_log s ∧ length l ≤ 2 ∧
    copies 1 rq (bearing l) ∧ (is_ok (attempt c rq s).1 = true → bearing l ≠ []).
Proof.
  intros Hcb. unfold attempt.
  destruct (ensure_fresh_log c Hcb s) as (l1 & Hl1 & Hb1 & Hn1).
  unfold mbind, st_bind.
  destruct (ensure_fresh c s) as [[[]|e| |] s1]; simpl in *;
    try (exists l1; rewrite Hb1; split_and!; [done|lia|apply copies_nil|done]).
  rewrite current_token_run.
  destruct (sys_cells s1 !! ac_tokens c) as [g|];
    [|exists l1; rewrite Hb1; split_and!; [done|lia|apply copies_nil|done]].
  set (rq1 := with_bearer rq (access_token g)).
  assert (Hlog : http_log (http_send rq1 s1).2 = rq1 :: http_log s1).
  { unfold http_send. by destruct (http_reply _ _). }
  exists (rq1 :: l1). rewrite Hlog, Hl1. unfold bearing in *.
  rewrite filter_cons_True, Hb1 by (simpl; eauto). simpl.
  split_and!; [done|lia| |done].
  split; [done|]. intros r ->%list_elem_of_singleton. by eexists.
Qed.

(** What one [send] adds to the log. *)
Lemma client_send_log c rq s :
  rotation_ok c →
  ∃ l, http_log (client_send c rq s).2 = l ++ http_log s ∧ length l ≤ 4 ∧
    copies 2 rq (bearing l) ∧ (is_ok (client_send c rq s).1 = true → bearing l ≠ []).
Proof.
  intros Hcb. rewrite (client_send_attempts c rq s).
  destruct (attempt_log c rq s Hcb) as (l1 & Hl1 & Hn1 & Hb1 & Hok1).
  unfold mbind, st_bind.
  assert (Hone : copies 2 rq (bearing l1)) by (destruct Hb1; split; [lia|done]).
  destruct (attempt c rq s) as [[resp|e| |] s1]; simpl in *;
    try (exists l1; split_and!; [done|lia|done|done]).
  destruct (_ =? _)%Z; [|exists l1; split_and!; [done|lia|done|auto]].
  pose proof (expire_token_log c s1) as Hs2.
  destruct (expire_token c s1) as [[[]|e| |] s2]; simpl in *;
    try (exists l1; rewrite Hs2; split_and!; [done|lia|done|done]).
  destruct (attempt_log c rq s2 Hcb) as (l2 & Hl2 & Hn2 & Hb2 & Hok2).
  exists (l2 ++ l1). rewrite bearing_app. split_and!.
  - rewrite Hl2, Hs2, Hl1. by rewrite app_assoc.
  - rewrite length_app. lia.
  - by apply (copies_app 1 1).
  - intros H. apply Hok2 in H. by destruct (bearing l2).
Qed.
End frames.

(** ** Properties *)

Section properties.
Context `{PF : Platform}.

(** C25: one [send] makes at most two requests that carry a token, both the
    caller's request with some bearer token, and at most two token refreshes;
    so a 401 can never start a retry loop. *)
Theorem client_send_bounded c rq s :
  rotation_ok c →
  ∃ l, http_log (client_send c rq s).2 = l ++ http_log s ∧
    length (bearing l) ≤ 2 ∧ length l ≤ 4 ∧
    ∀ r, r ∈ bearing l → ∃ token, r = with_bearer rq token.
Proof.
  intros Hcb. destruct (client_send_log c rq s Hcb) as (l & Hl & Hn & [Hb Hr] & _).
  by exists l.
Qed.

(** A token that has not expired is used as it is: no refresh, nothing on
    the network, and the cell, the keychain and the database are unchanged. *)
Theorem ensure_fresh_idle c s g :
  sys_cells s !! ac_tokens c = Some g → (clock_at (sys_hist s) < expires_at g)%Z →
  ensure_fresh c s = (Ok tt, record_ev EvClock s).
Proof.
  intros Hg Hlt. unfold ensure_fresh, mbind, st_bind, cell_read. rewrite Hg.
  unfold utc_now. by rewrite (proj2 (Z.leb_gt _ _) Hlt).
Qed.

(** An expired token without a refresh token is an OAuth error before any
    request is sent. *)
Theorem ensure_fresh_no_refresh_token c s g :
  sys_cells s !! ac_tokens c = Some g → (expires_at g <= clock_at (sys_hist s))%Z →
  refresh_token g = None →
  ensure_fresh c s =
    (Err (OAuth "no refresh token available"), record_ev EvClock s).
Proof.
  intros Hg Hle Hrt. unfold ensure_fresh, mbind, st_bind, cell_read. rewrite Hg.
  unfold utc_now. rewrite (proj2 (Z.leb_le _ _) Hle). simpl. rewrite Hg.
  unfold lift_res. by rewrite Hrt.
Qed.

(** A refresh of an expired token stores the new access token and expiry,
    keeps the old refresh token unless the provider sent one, and runs the
    rotation callback exactly when the token the provider sent differs from the
    one just used. *)
Theorem ensure_fresh_refreshes c s g old new s1 :
  sys_cells s !! ac_tokens c = Some g → (expires_at g <= clock_at (sys_hist s))%Z →
  refresh_token g = Some old →
  refresh (ac_cfg c) old (record_ev EvClock s) = (Ok new, s1) →
  ensure_fresh c s =
    (let s2 := set_cells (<[ac_tokens c := merge_tokens g new]> (sys_cells s1)) s1 in
     match refresh_token new, ac_on_rotation c with
     | Some rt, Some cb => if decide (rt = old) then (Ok tt, s2) else cb rt s2
     | _, _ => (Ok tt, s2)
     end).
Proof.
  intros Hg Hle Hrt Hr. unfold ensure_fresh. unfold mbind, st_bind, cell_read at 1.
  rewrite Hg. unfold utc_now. rewrite (proj2 (Z.leb_le _ _) Hle). simpl.
  unfold cell_read at 1. simpl. rewrite Hg. unfold lift_res. rewrite Hrt. simpl.
  rewrite Hr.
  assert (Hcells : sys_cells s1 = sys_cells s).
  { pose proof (token_request_storage (ac_cfg c) [
      ("client_id", client_id (ac_cfg c)); ("grant_type", "refresh_token");
      ("refresh_token", old)] (record_ev EvClock s)) as Hst.
    unfold refresh in Hr. rewrite Hr in Hst. unfold same, storage_of in Hst.
    simpl in Hst. congruence. }
  unfold cell_read, cell_write. rewrite !Hcells, Hg, Hcells, Hg.
  destruct (refresh_token new) as [rt|]; [|done].
  destruct (String.eqb_spec rt old) as [->|Hne]; simpl.
  - destruct (ac_on_rotation c); [|done]. by rewrite decide_True by done.
  - destruct (ac_on_rotation c); [|done]. by rewrite decide_False by done.
Qed.
End properties.
