(* ===== verification/TokenRace.v ===== *)
(** * Overlapping refreshes

    [AuthClient::ensure_fresh] of
    [crates/mail-mcp-core/src/providers/gmail/client.rs], when several calls on one
    account run it at once. Each lock of the token cell is released before the next
    await, and before the callback that stores a rotated refresh token: the steps
    of different tasks interleave between them. *)
From S2P Require Export AuthClient.

(** Where a task is: before the check of the expiry, before the read of the
    refresh token, waiting for the provider, before the write of the cell, and
    before the callback. A task that returned is gone. *)
Inductive Turn : Type :=
| Checking
| Reading
| Asking (old : string)
| Answered (old : string) (new : OAuthTokens)
| Reporting (rt : string).

(** The cell, the refresh token in the keychain, the tasks. *)
Record Race : Type := mkRace {
  rc_cell : OAuthTokens;
  rc_stored : option string;
  rc_tasks : gmap nat Turn;
}.

Definition set_turn (p : nat) (t : Turn) (s : Race) : Race :=
  mkRace (rc_cell s) (rc_stored s) (<[p := t]> (rc_tasks s)).
Definition leave (p : nat) (s : Race) : Race :=
  mkRace (rc_cell s) (rc_stored s) (delete p (rc_tasks s)).

Definition write_cell (g : OAuthTokens) (s : Race) : Race :=
  mkRace g (rc_stored s) (rc_tasks s).
Definition store (rt : string) (s : Race) : Race :=
  mkRace (rc_cell s) (Some rt) (rc_tasks s).

(** The rest of [ensure_fresh] after the write: the callback, if the provider
    sent a refresh token other than the one used. *)
Definition after_write (p : nat) (old : string) (new : OAuthTokens) (s : Race) : Race :=
  match refresh_token new with
  | Some rt => if String.eqb rt old then leave p s else set_turn p (Reporting rt) s
  | None => leave p s
  end.

(** One step of task [p]; the flag tells the steps without a failure. *)
Inductive race_step (p : nat) : bool → Race → Race → Prop :=
| race_enter s :
    rc_tasks s !! p = None → race_step p true s (set_turn p Checking s)
| race_fresh s now :
    rc_tasks s !! p = Some Checking → (expires_at (rc_cell s) <=? now)%Z = false →
    race_step p true s (leave p s)
| race_stale s now :
    rc_tasks s !! p = Some Checking → (expires_at (rc_cell s) <=? now)%Z = true →
    race_step p true s (set_turn p Reading s)
| race_no_token s :
    rc_tasks s !! p = Some Reading → refresh_token (rc_cell s) = None →
    race_step p false s (leave p s)
| race_ask s old :
    rc_tasks s !! p = Some Reading → refresh_token (rc_cell s) = Some old →
    race_step p true s (set_turn p (Asking old) s)
| race_refused s old :
    rc_tasks s !! p = Some (Asking old) → race_step p false s (leave p s)
| race_reply s old new :
    rc_tasks s !! p = Some (Asking old) → race_step p true s (set_turn p (Answered old new) s)
| race_write s old new :
    rc_tasks s !! p = Some (Answered old new) →
    race_step p true s (after_write p old new (write_cell (merge_tokens (rc_cell s) new) s))
| race_store s rt :
    rc_tasks s !! p = Some (Reporting rt) → race_step p true s (leave p (store rt s))
| race_unstored s rt :
    rc_tasks s !! p = Some (Reporting rt) → race_step p false s (leave p s).

(** Any interleaving without a failure. *)
Definition fine_step (s s' : Race) : Prop := ∃ p, race_step p true s s'.

(** One task at a time, with any failure but that of the keychain. *)
Definition serial_step (s s' : Race) : Prop := ∃ p ok,
  race_step p ok s s' ∧ (∀ q t, rc_tasks s !! q = Some t → q = p) ∧
  (ok = false → ∀ rt, rc_tasks s !! p ≠ Some (Reporting rt)).

(** ** The invariant of serial runs *)

(** The keychain agrees with the cell, but for the token a task is about to store;
    and a task that waits for the provider uses the token of the cell. *)
Definition agrees (s : Race) : Prop :=
  match map_to_list (rc_tasks s) with
  | [(_, Reporting rt)] => refresh_token (rc_cell s) = Some rt
  | [(_, Asking old)] | [(_, Answered old _)] =>
      refresh_token (rc_cell s) = rc_stored s ∧ refresh_token (rc_cell s) = Some old
  | _ => refresh_token (rc_cell s) = rc_stored s
  end.

(** At most one task runs, so the tasks are none or this one. *)
Lemma alone_tasks (m : gmap nat Turn) p :
  (∀ q t, m !! q = Some t → q = p) →
  m = match m !! p with Some t => {[p := t]} | None => ∅ end.
Proof.
  intros H. apply map_eq. intros q. destruct (decide (p = q)) as [<-|Hne].
  - destruct (m !! p) eqn:E; [by rewrite lookup_singleton_eq|done].
  - destruct (m !! q) as [t|] eqn:E; [by apply H in E|].
    destruct (m !! p); [by rewrite lookup_singleton_ne|by rewrite lookup_empty].
Qed.

Lemma agrees_one cell stored p t :
  agrees (mkRace cell stored {[p := t]}) ↔
  match t with
  | Reporting rt => refresh_token cell = Some rt
  | Asking old | Answered old _ =>
      refresh_token cell = stored ∧ refresh_token cell = Some old
  | _ => refresh_token cell = stored
  end.
Proof. unfold agrees. cbn [rc_tasks]. rewrite map_to_list_singleton. by destruct t. Qed.

Lemma agrees_none cell stored :
  agrees (mkRace cell stored ∅) ↔ refresh_token cell = stored.
Proof. unfold agrees. cbn [rc_tasks]. by rewrite map_to_list_empty. Qed.

Lemma serial_agrees s s' : agrees s → serial_step s s' → agrees s'.
Proof.
  intros Hs (p & ok & Hstep & Halone & Hstored).
  apply alone_tasks in Halone.
  destruct Hstep; destruct s as [cell stored m]; unfold set_turn, leave, after_write, write_cell, store; cbn [rc_tasks rc_cell rc_stored] in *;
    match goal with H : m !! p = _ |- _ => rewrite H in Halone; subst m end;
    rewrite ?insert_empty, ?insert_singleton_eq, ?delete_singleton_eq;
    rewrite ?agrees_one, ?agrees_none in *; try done; try tauto.
  - (* the write *)
    destruct Hs as [Hs Hold]. unfold merge_tokens.
    destruct (refresh_token new) as [rt|] eqn:Hnew; [destruct (String.eqb_spec rt old) as [->|]|];
      unfold leave, set_turn; cbn [rc_tasks rc_cell rc_stored];
      rewrite ?insert_singleton_eq, ?delete_singleton_eq, ?agrees_one, ?agrees_none;
      cbn [refresh_token]; congruence.
  - (* a failed store is no serial step *)
    exfalso. eapply Hstored; [done|]. apply lookup_singleton_eq.
Qed.

(** ** Properties *)

Definition race_start (g : OAuthTokens) : Race := mkRace g (refresh_token g) ∅.


Section alone.
Context (p : nat).

(** A turn of the only task, and then the rest of the run. *)
Lemma turn cell k t s r :
  race_step p true (mkRace cell k {[p := t]}) s → rtc serial_step s r →
  rtc serial_step (mkRace cell k {[p := t]}) r.
Proof.
  intros H. apply rtc_l. exists p, true. split; [done|]. split; [|done].
  intros q t' Hq. simpl in Hq. by apply lookup_singleton_Some in Hq as [<- _].
Qed.

Lemma turn_to cell k t t' r :
  race_step p true (mkRace cell k {[p := t]}) (set_turn p t' (mkRace cell k {[p := t]})) →
  rtc serial_step (mkRace cell k {[p := t']}) r →
  rtc serial_step (mkRace cell k {[p := t]}) r.
Proof.
  intros H Hr. eapply turn; [exact H|]. unfold set_turn. cbn [rc_cell rc_stored rc_tasks].
  by rewrite insert_singleton_eq.
Qed.

(** The turns of one task alone do to the cell and the keychain what
    [AuthClient.ensure_fresh] does on an expired token: the merged tokens, and the
    callback exactly when the provider sent another refresh token. *)
Theorem turns_of_one_task g stored now old new :
  (expires_at g <=? now)%Z = true → refresh_token g = Some old →
  rtc serial_step (mkRace g stored ∅)
    (mkRace (merge_tokens g new)
       (match refresh_token new with
        | Some rt => if String.eqb rt old then stored else Some rt
        | None => stored
        end) ∅).
Proof.
  intros Hnow Hold. eapply rtc_l with (mkRace g stored {[p := Checking]}).
  { exists p, true. split; [by apply (race_enter p (mkRace g stored ∅))|].
    split; [|done]. intros q t Hq. simpl in Hq. by rewrite lookup_empty in Hq. }
  eapply turn_to; [apply (race_stale p _ now); [apply lookup_singleton_eq|done]|].
  eapply turn_to; [apply (race_ask p _ old); [apply lookup_singleton_eq|done]|].
  eapply turn_to; [apply (race_reply p _ old new), lookup_singleton_eq|].
  eapply turn; [apply (race_write p _ old new), lookup_singleton_eq|].
  unfold after_write, leave, set_turn, write_cell. cbn [rc_cell rc_stored rc_tasks].
  destruct (refresh_token new) as [rt|]; [destruct (String.eqb rt old)|];
    rewrite ?delete_singleton_eq, ?insert_singleton_eq; try apply rtc_refl.
  eapply turn; [apply (race_store p _ rt), lookup_singleton_eq|].
  unfold leave, store. cbn [rc_cell rc_stored rc_tasks]. rewrite delete_singleton_eq. apply rtc_refl.
Qed.
End alone.

(** C32: overlapping refreshes can lose one: the callback runs after the lock of the
    cell is released, so the two tokens of two rotations may reach the cell in one
    order and the keychain in the other. Nothing failed, no task is left, and the
    keychain keeps the older token for the next start. *)
Theorem rotation_lost : ∃ g s,
  rtc fine_step (race_start g) s ∧ rc_tasks s = ∅ ∧
  refresh_token (rc_cell s) = Some "rt-2" ∧ rc_stored s = Some "rt-1".
Proof.
  pose (g := mkOAuthTokens "at-0" (Some "rt-0") 0%Z None).
  pose (new1 := mkOAuthTokens "at-1" (Some "rt-1") 10%Z None).
  pose (new2 := mkOAuthTokens "at-2" (Some "rt-2") 10%Z None).
  exists g. eexists. split.
  - eapply rtc_l; [by exists 1; apply race_enter|].
    eapply rtc_l; [by exists 2; apply race_enter|].
    eapply rtc_l; [by exists 1; apply (race_stale 1 _ 5%Z)|].
    eapply rtc_l; [by exists 2; apply (race_stale 2 _ 5%Z)|].
    eapply rtc_l; [by exists 1; apply (race_ask 1 _ "rt-0")|].
    eapply rtc_l; [by exists 2; apply (race_ask 2 _ "rt-0")|].
    eapply rtc_l; [by exists 1; apply (race_reply 1 _ "rt-0" new1)|].
    eapply rtc_l; [by exists 2; apply (race_reply 2 _ "rt-0" new2)|].
    eapply rtc_l; [by exists 1; apply (race_write 1 _ "rt-0" new1)|].
    eapply rtc_l; [by exists 2; apply (race_write 2 _ "rt-0" new2)|].
    eapply rtc_l; [by exists 2; apply (race_store 2 _ "rt-2")|].
    eapply rtc_l; [by exists 1; apply (race_store 1 _ "rt-1")|].
    apply rtc_refl.
  - by split.
Qed.
