(* ===== verification/GmailParse.v ===== *)
(** * Reading Gmail messages

    [crates/mail-mcp-core/src/providers/gmail/parse.rs]: from the JSON of the
    Gmail API to a [Message]. *)
From S2P Require Export AuthClient.

Record RawHeader : Type := mkRawHeader { rh_name : string; rh_value : string }.

Record RawBody : Type := mkRawBody {
  rb_size : Z;
  rb_data : option string;
  rb_attachment_id : option string;
}.

(** A part of a MIME message and its sub-parts. *)
Inductive RawPart : Type :=
| mkRawPart (mime_type filename : string) (headers : list RawHeader)
    (body : option RawBody) (parts : list RawPart).

Definition rp_mime_type (p : RawPart) : string := let '(mkRawPart m _ _ _ _) := p in m.
Definition rp_filename (p : RawPart) : string := let '(mkRawPart _ f _ _ _) := p in f.
Definition rp_headers (p : RawPart) : list RawHeader :=
  let '(mkRawPart _ _ h _ _) := p in h.
Definition rp_body (p : RawPart) : option RawBody := let '(mkRawPart _ _ _ b _) := p in b.
Definition rp_parts (p : RawPart) : list RawPart := let '(mkRawPart _ _ _ _ l) := p in l.

Record RawMessage : Type := mkRawMessage {
  rm_id : string;
  rm_thread_id : string;
  rm_label_ids : list string;
  rm_snippet : string;
  rm_internal_date : string;
  rm_payload : option RawPart;
}.

(** ** Decoding the JSON *)

Definition de_raw_header : De RawHeader := de_struct (λ v,
  name ← field "name" de_string v;
  value ← field "value" de_string v;
  Some (mkRawHeader name value)).

(** The field [attachment_id] has no [rename]: the key is [attachment_id]. *)
Definition de_raw_body : De RawBody := de_struct (λ v,
  size ← field_default "size" de_u64 0%Z v;
  data ← field_option "data" de_string v;
  attachment_id ← field_option "attachment_id" de_string v;
  Some (mkRawBody size data attachment_id)).

(** serde_json refuses a document nested deeper than 128, so that depth is
    enough for every body that decodes. *)
Definition json_depth_limit : nat := 128.

Fixpoint de_raw_part (depth : nat) : De RawPart :=
  match depth with
  | 0 => λ _, None
  | S depth => de_struct (λ v,
      mime_type ← field_default "mimeType" de_string "" v;
      filename ← field_default "filename" de_string "" v;
      headers ← field_default "headers" (de_vec de_raw_header) [] v;
      body ← field_option "body" de_raw_body v;
      parts ← field_default "parts" (de_vec (de_raw_part depth)) [] v;
      Some (mkRawPart mime_type filename headers body parts))
  end.

(** The depth is fuel: any depth from the nesting of the value on decodes it
    alike. *)
Lemma de_raw_part_enough n m v :
  value_depth v ≤ n → value_depth v ≤ m → de_raw_part n v = de_raw_part m v.
Proof.
  revert m v. induction n as [|n IH]; intros [|m] v Hn Hm; try done.
  - destruct v; simpl in *; try done; lia.
  - destruct v; simpl in *; try done; lia.
  - simpl. unfold de_struct. destruct v as [| | | | |kvs] eqn:Ev; try done. rewrite <- Ev in *.
    assert (Hparts : field_default "parts" (de_vec (de_raw_part n)) [] v =
      field_default "parts" (de_vec (de_raw_part m)) [] v).
    { unfold field_default. destruct (get "parts" v) as [x|] eqn:Ex; [|done].
      apply get_depth in Ex. apply de_vec_ext. intros y Hy. apply IH; lia. }
    by rewrite Hparts.
Qed.

Definition de_raw_message : De RawMessage := de_struct (λ v,
  id ← field "id" de_string v;
  thread_id ← field "threadId" de_string v;
  label_ids ← field_default "labelIds" (de_vec de_string) [] v;
  snippet ← field_default "snippet" de_string "" v;
  internal_date ← field_default "internalDate" de_string "" v;
  payload ← field_option "payload" (de_raw_part json_depth_limit) v;
  Some (mkRawMessage id thread_id label_ids snippet internal_date payload)).

(** ** Addresses *)

Definition quote : ascii := "034"%char.

(** [parse_address] *)
Definition parse_address (raw : string) : EmailAddress :=
  match rsplit_once "<"%char raw with
  | Some (before, after) =>
      match split_once ">"%char after with
      | Some (inside, _) =>
          let email := trim inside in
          let name := trim (trim_matches quote (trim before)) in
          mkEmailAddress email (if String.eqb name "" then None else Some name)
      | None => mkEmailAddress (trim raw) None
      end
  | None => mkEmailAddress (trim raw) None
  end.

(** [parse_address_list] *)
Definition parse_address_list (raw : string) : list EmailAddress :=
  parse_address <$> split ","%char raw.

(** ** Labels *)

(** [is_system_label] *)
Definition is_system_label (id : string) : bool :=
  any_eq id ["INBOX"; "SENT"; "TRASH"; "DRAFT"; "SPAM"; "STARRED"; "UNREAD";
             "IMPORTANT"; "CHAT"; "CATEGORY_PERSONAL"; "CATEGORY_SOCIAL";
             "CATEGORY_PROMOTIONS"; "CATEGORY_UPDATES"; "CATEGORY_FORUMS"].

(** [primary_folder] *)
Definition primary_folder (label_ids : list string) : option FolderId :=
  FolderId_from <$>
    find_first (λ sys, any_eq sys label_ids) ["INBOX"; "SENT"; "TRASH"; "DRAFT"; "SPAM"].

Section parse.
Context `{PF : Platform}.

(** ** Bodies and attachments *)

(** [decode_body] *)
Definition decode_body (b : RawBody) : option string :=
  data ← rb_data b;
  bytes ← b64url_decode data;
  if utf8_valid bytes then Some bytes else None.

(** The three accumulators of [walk_parts]. *)
Record Walk : Type := mkWalk {
  w_text : option string;
  w_html : option string;
  w_attachments : list AttachmentMeta;
}.

(** What [walk_parts] does with a part, its sub-parts apart. *)
Definition visit_part (part : RawPart) (w : Walk) : Walk :=
  let mime := to_ascii_lowercase (rp_mime_type part) in
  if String.eqb mime "text/plain" && negb (bool_decide (is_Some (w_text w))) then
    mkWalk (rp_body part ≫= decode_body) (w_html w) (w_attachments w)
  else if String.eqb mime "text/html" && negb (bool_decide (is_Some (w_html w))) then
    mkWalk (w_text w) (rp_body part ≫= decode_body) (w_attachments w)
  else if negb (String.eqb (rp_filename part) "") then
    match rp_body part with
    | Some body =>
        mkWalk (w_text w) (w_html w) (w_attachments w ++ [{|
          at_id := default "" (rb_attachment_id body);
          at_filename := rp_filename part;
          at_mime_type := rp_mime_type part;
          at_size_bytes := rb_size body |}])
    | None => w
    end
  else w.

(** [walk_parts] *)
Fixpoint walk_parts (part : RawPart) (w : Walk) : Walk :=
  let w := visit_part part w in
  let '(mkRawPart _ _ _ _ parts) := part in
  foldl (λ w sub, walk_parts sub w) w parts.

(** [parse_date] *)
Definition parse_date (date_header : option string) (internal_ms : string) :
    M DateTime :=
  match date_header ≫= parse_from_rfc2822 with
  | Some d => mret d
  | None =>
      match parse_i64 internal_ms ≫= from_timestamp_millis with
      | Some d => mret d
      | None => utc_now
      end
  end.

(** The header map: names in lower case, the last of equal names wins. *)
Definition header_map (hs : list RawHeader) : gmap string string :=
  foldl (λ m h, <[to_ascii_lowercase (rh_name h) := rh_value h]> m) ∅ hs.

Definition addresses_of (h : option string) : list EmailAddress :=
  match h with Some s => parse_address_list s | None => [] end.

(** [decode] *)
Definition decode (raw : RawMessage) : M Message :=
  payload ← lift_res (ok_or (rm_payload raw) (Provider "message missing payload"));
  let headers := header_map (rp_headers payload) in
  date ← parse_date (headers !! "date") (rm_internal_date raw);
  let w := walk_parts payload (mkWalk None None []) in
  mret {|
    msg_id := MessageId_from (rm_id raw);
    msg_thread_id := ThreadId_from (rm_thread_id raw);
    msg_from := parse_address <$> headers !! "from";
    msg_to := addresses_of (headers !! "to");
    msg_cc := addresses_of (headers !! "cc");
    msg_bcc := addresses_of (headers !! "bcc");
    msg_subject := default "" (headers !! "subject");
    msg_date := date;
    msg_body_text := w_text w;
    msg_body_html := w_html w;
    msg_labels := LabelId_from <$> List.filter (λ id, negb (is_system_label id))
                                     (rm_label_ids raw);
    msg_folder := primary_folder (rm_label_ids raw);
    msg_flags := {|
      fl_read := negb (any_eq "UNREAD" (rm_label_ids raw));
      fl_starred := any_eq "STARRED" (rm_label_ids raw);
      fl_draft := any_eq "DRAFT" (rm_label_ids raw) |};
    msg_attachments := w_attachments w;
    msg_snippet := rm_snippet raw |}.
End parse.

(** ** The parts in the order they are visited *)

Fixpoint preorder (part : RawPart) : list RawPart :=
  part :: (let '(mkRawPart _ _ _ _ parts) := part in mjoin (preorder <$> parts)).

Section RawPart_ind.
Variable P : RawPart → Prop.
Hypothesis HP : ∀ m f h b parts, Forall P parts → P (mkRawPart m f h b parts).

Fixpoint RawPart_nested_ind (p : RawPart) : P p :=
  match p with
  | mkRawPart m f h b parts =>
      HP m f h b parts
        ((fix go (l : list RawPart) : Forall P l :=
            match l with
            | [] => Forall_nil_2 P
            | q :: l => Forall_cons_2 P q l (RawPart_nested_ind q) (go l)
            end) parts)
  end.
End RawPart_ind.

Section facts.
Context `{PF : Platform}.

(** Walking a tree is visiting its parts in preorder. *)
Lemma walk_parts_preorder p w :
  walk_parts p w = foldl (λ w q, visit_part q w) w (preorder p).
Proof.
  revert w. induction p as [m f h b parts IH] using RawPart_nested_ind. intros w.
  simpl. generalize (visit_part (mkRawPart m f h b parts) w). clear w.
  induction IH as [|q l Hq Hl IHl]; intros w; simpl; [done|].
  rewrite foldl_app, <- Hq. apply IHl.
Qed.

(** The text a part offers as the message body of the MIME type [mime]. *)
Definition body_of (mime : string) (p : RawPart) : option string :=
  if String.eqb (to_ascii_lowercase (rp_mime_type p)) mime
  then rp_body p ≫= decode_body else None.

Lemma visit_text p w :
  w_text (visit_part p w) =
    match w_text w with Some t => Some t | None => body_of "text/plain" p end.
Proof.
  unfold visit_part, body_of.
  destruct (String.eqb (to_ascii_lowercase (rp_mime_type p)) "text/plain") eqn:E1; simpl;
    destruct (w_text w) as [t|] eqn:E2; simpl; try done;
    destruct (String.eqb _ "text/html" && _); simpl; try done;
    destruct (negb _); simpl; try done; by destruct (rp_body p).
Qed.

Lemma visit_html p w :
  w_html (visit_part p w) =
    match w_html w with Some t => Some t | None => body_of "text/html" p end.
Proof.
  unfold visit_part, body_of.
  destruct (String.eqb_spec (to_ascii_lowercase (rp_mime_type p)) "text/plain") as [E1|E1];
    simpl.
  - rewrite E1. simpl. destruct (w_text w) as [t|] eqn:E2; simpl; [|by destruct (w_html w)].
    destruct (negb _); simpl; [|by destruct (w_html w)].
    destruct (rp_body p); simpl; by destruct (w_html w).
  - destruct (String.eqb _ "text/html") eqn:E3; simpl.
    + destruct (w_html w) as [t|] eqn:E4; simpl; [|done].
      destruct (negb _); simpl; [|done]. by destruct (rp_body p).
    + destruct (negb _); simpl; [|by destruct (w_html w)].
      destruct (rp_body p); simpl; by destruct (w_html w).
Qed.

Lemma walk_text l w :
  w_text (foldl (λ w q, visit_part q w) w l) =
    match w_text w with Some t => Some t | None => head (omap (body_of "text/plain") l) end.
Proof.
  revert w. induction l as [|p l IH]; intros w; simpl; [by destruct (w_text w)|].
  rewrite IH, visit_text. destruct (w_text w); [done|].
  by destruct (body_of "text/plain" p).
Qed.

Lemma walk_html l w :
  w_html (foldl (λ w q, visit_part q w) w l) =
    match w_html w with Some t => Some t | None => head (omap (body_of "text/html") l) end.
Proof.
  revert w. induction l as [|p l IH]; intros w; simpl; [by destruct (w_html w)|].
  rewrite IH, visit_html. destruct (w_html w); [done|].
  by destruct (body_of "text/html" p).
Qed.

(** The attachment a part with a file name and a body stands for. *)
Definition attachment_of (p : RawPart) : option AttachmentMeta :=
  if String.eqb (rp_filename p) "" then None
  else (λ body, mkAttachmentMeta (default "" (rb_attachment_id body)) (rp_filename p)
                  (rp_mime_type p) (rb_size body)) <$> rp_body p.

Definition is_text (p : RawPart) : bool :=
  any_eq (to_ascii_lowercase (rp_mime_type p)) ["text/plain"; "text/html"].

Lemma visit_attachments p w :
  is_text p = false →
  w_attachments (visit_part p w) = w_attachments w ++ option_list (attachment_of p).
Proof.
  unfold is_text, any_eq, visit_part, attachment_of. simpl.
  intros [E1 [E2 _]%orb_false_iff]%orb_false_iff. rewrite E1, E2. simpl.
  destruct (String.eqb (rp_filename p) ""); simpl; [by rewrite app_nil_r|].
  destruct (rp_body p); simpl; [done|by rewrite app_nil_r].
Qed.

Lemma visit_attachments_incl p w a :
  a ∈ w_attachments (visit_part p w) →
  a ∈ w_attachments w ∨ attachment_of p = Some a.
Proof.
  unfold visit_part, attachment_of.
  destruct (_ && _); [by left|]. destruct (_ && _); [by left|].
  destruct (String.eqb (rp_filename p) ""); simpl; [by left|].
  destruct (rp_body p) as [b|]; simpl; [|by left].
  rewrite elem_of_app, list_elem_of_singleton. intros [?| ->]; [by left|by right].
Qed.

Lemma visit_attachments_mono p w a :
  a ∈ w_attachments w → a ∈ w_attachments (visit_part p w).
Proof.
  unfold visit_part. intros Ha.
  destruct (_ && _); [done|]. destruct (_ && _); [done|].
  destruct (negb _); [|done]. destruct (rp_body p); [|done]. simpl.
  apply elem_of_app. by left.
Qed.

Lemma walk_attachments_incl l w a :
  a ∈ w_attachments (foldl (λ w q, visit_part q w) w l) →
  a ∈ w_attachments w ∨ ∃ p, p ∈ l ∧ attachment_of p = Some a.
Proof.
  revert w. induction l as [|p l IH]; intros w; simpl; [by left|].
  intros [Ha|(q & Hq & Ha)]%IH.
  - apply visit_attachments_incl in Ha as [?|?]; [by left|right].
    exists p. split; [by left|done].
  - right. exists q. split; [by right|done].
Qed.

Lemma walk_attachments_mono l w a :
  a ∈ w_attachments w → a ∈ w_attachments (foldl (λ w q, visit_part q w) w l).
Proof.
  revert w. induction l as [|p l IH]; intros w Ha; simpl; [done|].
  by apply IH, visit_attachments_mono.
Qed.

Lemma walk_attachments_all l w p a :
  p ∈ l → is_text p = false → attachment_of p = Some a →
  a ∈ w_attachments (foldl (λ w q, visit_part q w) w l).
Proof.
  revert w. induction l as [|q l IH]; intros w Hin Ht Ha; simpl.
  { by apply not_elem_of_nil in Hin. }
  apply elem_of_cons in Hin as [<-|Hin]; [|by apply IH].
  apply walk_attachments_mono. rewrite visit_attachments by done.
  rewrite Ha. apply elem_of_app. right. by left.
Qed.

Lemma decode_Ok raw s m s' :
  decode raw s = (Ok m, s') →
  ∃ payload date, rm_payload raw = Some payload ∧
    let headers := header_map (rp_headers payload) in
    let w := walk_parts payload (mkWalk None None []) in
    msg_labels m = LabelId_from <$> List.filter (λ id, negb (is_system_label id))
                                      (rm_label_ids raw) ∧
    msg_folder m = primary_folder (rm_label_ids raw) ∧
    msg_flags m = {|
      fl_read := negb (any_eq "UNREAD" (rm_label_ids raw));
      fl_starred := any_eq "STARRED" (rm_label_ids raw);
      fl_draft := any_eq "DRAFT" (rm_label_ids raw) |} ∧
    msg_body_text m = w_text w ∧ msg_body_html m = w_html w ∧
    msg_attachments m = w_attachments w ∧ msg_date m = date.
Proof.
  unfold decode. intros H. run_ok. destruct (rm_payload raw) as [p|]; [|done].
  simplify_eq/=. by eexists _, _.
Qed.

(** The attachments a walk adds: in the order of the parts, all those of the
    parts that are not text, and no others than those of named parts. *)
Lemma visit_attachments_step p w :
  ∃ l, w_attachments (visit_part p w) = w_attachments w ++ l ∧
    l `sublist_of` option_list (attachment_of p) ∧
    (is_text p = false → l = option_list (attachment_of p)).
Proof.
  destruct (is_text p) eqn:Ht.
  - assert (w_attachments (visit_part p w) = w_attachments w ∨
      w_attachments (visit_part p w) = w_attachments w ++ option_list (attachment_of p))
      as [H|H].
    { unfold visit_part, attachment_of.
      destruct (_ && _); [by left|]. destruct (_ && _); [by left|].
      destruct (String.eqb (rp_filename p) ""); simpl; [by left|].
      destruct (rp_body p); simpl; [by right|by left]. }
    + exists []. rewrite app_nil_r. split_and!; [done|apply sublist_nil_l|done].
    + eexists. split_and!; [exact H|done|done].
  - eexists. by rewrite visit_attachments by done.
Qed.

Lemma walk_attachments_between l w :
  ∃ added, w_attachments (foldl (λ w q, visit_part q w) w l) = w_attachments w ++ added ∧
    omap attachment_of (List.filter (λ p, negb (is_text p)) l) `sublist_of` added ∧
    added `sublist_of` omap attachment_of l.
Proof.
  revert w. induction l as [|p l IH]; intros w; cbn [foldl List.filter].
  { exists []. rewrite app_nil_r. split_and!; [done|constructor..]. }
  destruct (visit_attachments_step p w) as (here & Hhere & Hsub & Hall).
  destruct (IH (visit_part p w)) as (rest & Hrest & Hlo & Hhi).
  exists (here ++ rest). rewrite Hrest, Hhere, app_assoc.
  assert (Homap : ∀ l', omap attachment_of (p :: l') =
    option_list (attachment_of p) ++ omap attachment_of l').
  { intros l'. simpl. by destruct (attachment_of p). }
  split_and!; [done| |].
  - destruct (is_text p); cbn [negb].
    + by apply sublist_inserts_l.
    + rewrite Homap, Hall by done. by apply sublist_app.
  - rewrite Homap. by apply sublist_app.
Qed.

Lemma is_system_folder f ids :
  primary_folder ids = Some f →
  folder_str f ∈ ids ∧ is_system_label (folder_str f) = true.
Proof.
  unfold primary_folder. intros (x & Hf & ->)%fmap_Some.
  apply find_first_Some in Hf as [Hx Hin%any_eq_spec]. split; [done|]. simpl.
  apply any_eq_spec. rewrite !elem_of_cons in *. naive_solver.
Qed.
End facts.

(** ** Properties *)

Section properties.
Context `{PF : Platform}.

(** C38: the text of a decoded message is the first [text/plain] part, in the
    order of the MIME tree, whose data decodes, and its HTML the first such
    [text/html] part; parts that do not decode are passed over. *)
Theorem decode_bodies raw s m s' payload :
  decode raw s = (Ok m, s') → rm_payload raw = Some payload →
  msg_body_text m = head (omap (body_of "text/plain") (preorder payload)) ∧
  msg_body_html m = head (omap (body_of "text/html") (preorder payload)).
Proof.
  intros (p & d & Hp & _ & _ & _ & -> & -> & _)%decode_Ok Hpay.
  rewrite Hpay in Hp. injection Hp as <-.
  by rewrite !walk_parts_preorder, walk_text, walk_html.
Qed.

(** The attachments of a decoded message are attachments of parts of its
    tree, in the order of the tree and without repetition, and every named part
    with a body that is not text is among them. *)
Theorem decode_attachments raw s m s' payload :
  decode raw s = (Ok m, s') → rm_payload raw = Some payload →
  msg_attachments m `sublist_of` omap attachment_of (preorder payload) ∧
  omap attachment_of (List.filter (λ p, negb (is_text p)) (preorder payload))
    `sublist_of` msg_attachments m.
Proof.
  intros (p & d & Hp & _ & _ & _ & _ & _ & -> & _)%decode_Ok Hpay.
  rewrite Hpay in Hp. injection Hp as <-. rewrite walk_parts_preorder.
  destruct (walk_attachments_between (preorder payload) (mkWalk None None []))
    as (added & -> & ? & ?). done.
Qed.

(** The folder of a decoded message is one of the message's label ids and
    is never repeated among its labels, which are the ids that are not Gmail's
    own; a message with the draft label is flagged as a draft. *)
Theorem decode_labels raw s m s' :
  decode raw s = (Ok m, s') →
  (∀ f, msg_folder m = Some f →
     folder_str f ∈ rm_label_ids raw ∧ LabelId_from (folder_str f) ∉ msg_labels m) ∧
  (∀ l, l ∈ msg_labels m ↔
     label_str l ∈ rm_label_ids raw ∧ is_system_label (label_str l) = false) ∧
  (msg_folder m = Some (FolderId_from "DRAFT") → fl_draft (msg_flags m) = true).
Proof.
  intros (p & d & _ & -> & -> & -> & _)%decode_Ok.
  assert (Hl : ∀ l, l ∈ LabelId_from <$> List.filter (λ id, negb (is_system_label id))
                      (rm_label_ids raw) ↔
     label_str l ∈ rm_label_ids raw ∧ is_system_label (label_str l) = false).
  { intros [x]. rewrite list_elem_of_fmap. setoid_rewrite list_elem_of_In.
    setoid_rewrite filter_In. setoid_rewrite negb_true_iff. simpl.
    split; [by intros (y & [= <-] & ?)|]. intros ?. by exists x. }
  split_and!.
  - intros f [Hin Hsys]%is_system_folder. split; [done|].
    rewrite Hl. simpl. intros [_ H]. congruence.
  - done.
  - intros [Hin _]%is_system_folder. by apply any_eq_spec.
Qed.

(** A message that has HTML and an attached text file, but no plain text of
    its own, loses the attachment: the file is taken for the missing body, and
    since Gmail sends no inline data for it, it ends up nowhere. *)
Theorem text_attachment_lost raw s m s' headers html name size aid :
  decode raw s = (Ok m, s') → name ≠ "" →
  rm_payload raw = Some (mkRawPart "multipart/mixed" "" headers None [
    mkRawPart "text/html" "" [] (Some html) [];
    mkRawPart "text/plain" name [] (Some (mkRawBody size None aid)) []]) →
  msg_attachments m = [] ∧ msg_body_text m = None.
Proof.
  intros (p & d & Hp & _ & _ & _ & -> & _ & -> & _)%decode_Ok Hname Hpay.
  rewrite Hpay in Hp. injection Hp as <-. by cbn.
Qed.

(** Gmail's [attachmentId] is never read: the field has no [rename], so the
    id of an attachment whose body holds only an id and a size is empty. *)
Theorem attachment_id_not_read mime name headers size aid a :
  (0 <= size)%Z → name ≠ "" →
  attachment_of (mkRawPart mime name headers
    (de_raw_body (VObject [("attachmentId", VString aid); ("size", VInt size)])) []) =
    Some a →
  at_id a = "".
Proof.
  intros Hs Hn. unfold VInt. destruct (Z.ltb_spec size 0); [lia|].
  unfold attachment_of. simpl. destruct (String.eqb name ""); [done|].
  simpl. by intros [= <-].
Qed.

(** A comma inside a quoted display name cuts the address in two: the first
    is not an address at all. *)
Theorem quoted_comma_splits :
  parse_address_list
    (String quote ("Doe, Jane" +:+ String quote " <jane@example.com>")) =
  [mkEmailAddress (String quote "Doe") None;
   mkEmailAddress "jane@example.com" (Some "Jane")].
Proof. reflexivity. Qed.
End properties.
