(* ===== verification/Gmail.v ===== *)
(** * The Gmail provider

    [crates/mail-mcp-core/src/providers/gmail]: [messages.rs], [labels.rs],
    [triage.rs], [trash.rs], [compose.rs] and [provider.rs], as requests of the
    authenticated client to the Gmail REST API. *)
From S2P Require Export GmailParse.

Section gmail.
Context `{PF : Platform}.

(** [client.get(url).await?.error_for_status()?.json::<A>().await?] *)
Definition get_json {A} (c : AuthClient) (url : string) (d : De A) : M A :=
  rs ← client_get c url;
  rs ← lift_res (error_for_status rs);
  lift_res (json_body d rs).

(** [client.post_json(url, body).await?.error_for_status()?] *)
Definition post_checked (c : AuthClient) (url : string) (body : Value) : M Response :=
  rs ← client_post c url body;
  lift_res (error_for_status rs).

(** ** [messages.rs] *)

Record ThreadsList : Type := mkThreadsList {
  tl_threads : list string;
  tl_next_page_token : option string;
}.

Definition de_stub : De string := de_struct (field "id" de_string).

Definition de_threads_list : De ThreadsList := de_struct (λ v,
  threads ← field_default "threads" (de_vec de_stub) [] v;
  next ← field_option "nextPageToken" de_string v;
  Some (mkThreadsList threads next)).

Definition de_thread_full : De (list RawMessage) := de_struct (λ v,
  _ ← field "id" de_string v;
  field "messages" (de_vec de_raw_message) v).

(** The URL of a search: each optional parameter is pushed after the current
    separator, which is ['?'] for the first and ['&'] afterwards. *)
Definition push_param (acc : string * string) (p : option string) : string * string :=
  match p with
  | Some text => (acc.1 +:+ acc.2 +:+ text, "&")
  | None => acc
  end.

Definition search_url (base : string) (q : SearchQuery) : string :=
  (foldl push_param (base +:+ "/users/me/threads", "?") [
    (λ t, "q=" +:+ pct_encode t) <$> sq_text q;
    (λ l, "labelIds=" +:+ label_str l) <$> sq_label q;
    (λ f, "labelIds=" +:+ folder_str f) <$> sq_folder q;
    (λ n, "maxResults=" +:+ pretty n) <$> sq_limit q;
    (λ c, "pageToken=" +:+ c) <$> sq_cursor q]).1.

(** [get_thread_full] *)
Definition get_thread_full (c : AuthClient) (base : string) (id : ThreadId) : M Thread :=
  raw ← get_json c (base +:+ "/users/me/threads/" +:+ thread_str id) de_thread_full;
  messages ← collect raw decode;
  let subject := match messages with m :: _ => msg_subject m | [] => "" end in
  mret (mkThread id subject messages).

Definition thread_summary (thread : Thread) (last : Message) : ThreadSummary := {|
  ts_id := th_id thread;
  ts_last_message_id := msg_id last;
  ts_subject := th_subject thread;
  ts_snippet := msg_snippet last;
  ts_from := msg_from last;
  ts_date := msg_date last;
  ts_message_count := as_u32 (Z.of_nat (length (th_messages thread)));
  ts_unread := negb (fl_read (msg_flags last));
  ts_starred := fl_starred (msg_flags last);
  ts_labels := msg_labels last;
  ts_folder := msg_folder last;
|}.

(** [search_impl] *)
Definition search_impl (c : AuthClient) (base : string) (q : SearchQuery) :
    M SearchResults :=
  threads ← get_json c (search_url base q) de_threads_list;
  summaries ← collect (tl_threads threads) (λ stub,
    thread ← get_thread_full c base (ThreadId_from stub);
    last ← lift_res (ok_or (last (th_messages thread))
                       (Provider "thread has no messages"));
    mret (thread_summary thread last));
  mret (mkSearchResults summaries (tl_next_page_token threads)).

(** [get_message_impl] *)
Definition get_message_impl (c : AuthClient) (base : string) (id : MessageId) :
    M Message :=
  raw ← get_json c (base +:+ "/users/me/messages/" +:+ message_str id +:+ "?format=full")
          de_raw_message;
  decode raw.

(** ** [labels.rs] *)

Record RawLabel : Type := mkRawLabel { rl_id : string; rl_name : string; rl_kind : string }.

Definition de_raw_label : De RawLabel := de_struct (λ v,
  id ← field "id" de_string v;
  name ← field "name" de_string v;
  kind ← field "type" de_string v;
  Some (mkRawLabel id name kind)).

Definition de_labels_response : De (list RawLabel) :=
  de_struct (field "labels" (de_vec de_raw_label)).

(** [list_labels_impl] *)
Definition list_labels_impl (c : AuthClient) (base : string) : M (list Label) :=
  labels ← get_json c (base +:+ "/users/me/labels") de_labels_response;
  mret ((λ l, mkLabel (LabelId_from (rl_id l)) (rl_name l) false) <$>
        List.filter (λ l, String.eqb (rl_kind l) "user") labels).

(** [list_folders_impl] *)
Definition list_folders_impl (c : AuthClient) (base : string) : M (list Folder) :=
  labels ← get_json c (base +:+ "/users/me/labels") de_labels_response;
  mret ((λ l, mkFolder (FolderId_from (rl_id l)) (rl_name l) true) <$>
        List.filter (λ l, String.eqb (rl_kind l) "system") labels).

(** ** [triage.rs] *)

Record ModifyRequest : Type := mkModifyRequest {
  mr_add : list string;
  mr_remove : list string;
}.

(** [skip_serializing_if = "Vec::is_empty"] *)
Definition vec_field (k : string) (l : list string) : list (string * Value) :=
  match l with [] => [] | _ => [(k, VArray (VString <$> l))] end.

Definition modify_value (r : ModifyRequest) : Value :=
  VObject (vec_field "addLabelIds" (mr_add r) ++ vec_field "removeLabelIds" (mr_remove r)).

(** [modify_one] *)
Definition modify_one (c : AuthClient) (base : string) (req : ModifyRequest)
    (id : MessageId) : M unit :=
  _ ← post_checked c (base +:+ "/users/me/messages/" +:+ message_str id +:+ "/modify")
        (modify_value req);
  mret tt.

(** [modify_all] *)
Definition modify_all (c : AuthClient) (base : string) (ids : list MessageId)
    (req : ModifyRequest) : M unit :=
  for_each ids (modify_one c base req).

(** [mark_read_impl] *)
Definition mark_read_impl c base ids (read : bool) : M unit :=
  modify_all c base ids
    (if read then mkModifyRequest [] ["UNREAD"] else mkModifyRequest ["UNREAD"] []).

(** [star_impl] *)
Definition star_impl c base ids (starred : bool) : M unit :=
  modify_all c base ids
    (if starred then mkModifyRequest ["STARRED"] [] else mkModifyRequest [] ["STARRED"]).

(** [label_impl] *)
Definition label_impl c base ids (label : LabelId) (on : bool) : M unit :=
  modify_all c base ids
    (if on then mkModifyRequest [label_str label] []
     else mkModifyRequest [] [label_str label]).

(** The request of [move_to_impl]: every system folder but the target is
    removed. *)
Definition move_request (folder : FolderId) : ModifyRequest :=
  mkModifyRequest [folder_str folder]
    (List.filter (λ sys, negb (String.eqb (folder_str folder) sys))
       ["INBOX"; "SPAM"; "TRASH"]).

(** [move_to_impl] *)
Definition move_to_impl c base ids (folder : FolderId) : M unit :=
  modify_all c base ids (move_request folder).

(** [archive_impl] *)
Definition archive_impl c base ids : M unit :=
  modify_all c base ids (mkModifyRequest [] ["INBOX"]).

(** ** [trash.rs] *)

(** [trash_impl] *)
Definition trash_impl (c : AuthClient) (base : string) (ids : list MessageId) : M unit :=
  for_each ids (λ id,
    _ ← post_checked c (base +:+ "/users/me/messages/" +:+ message_str id +:+ "/trash")
          (VObject []);
    mret tt).

(** [untrash_impl] *)
Definition untrash_impl (c : AuthClient) (base : string) (ids : list MessageId) : M unit :=
  for_each ids (λ id,
    _ ← post_checked c (base +:+ "/users/me/messages/" +:+ message_str id +:+ "/untrash")
          (VObject []);
    mret tt).

(** ** [compose.rs] *)

(** What [build_mime] gives the builder. *)
Definition mime_of (input : DraftInput) (from : option string) : Mime := {|
  mm_from := from;
  mm_to := ea_email <$> di_to input;
  mm_cc := match di_cc input with [] => None | l => Some (ea_email <$> l) end;
  mm_bcc := match di_bcc input with [] => None | l => Some (ea_email <$> l) end;
  mm_subject := di_subject input;
  mm_text := di_body_text input;
  mm_html := di_body_html input;
  mm_in_reply_to := message_str <$> di_in_reply_to input;
|}.

(** [build_mime] *)
Definition build_mime (input : DraftInput) (from : option string) : M string := λ s,
  match mime_write (sys_hist s) (mime_of input from) with
  | inl e => (Err (Provider ("mime build failed: " +:+ e)), record_ev EvRandom s)
  | inr bytes => (Ok bytes, record_ev EvRandom s)
  end.

(** [DraftPayload] *)
Definition draft_payload (raw : string) (thread_id : option ThreadId) : Value :=
  VObject [("message", VObject ([("raw", VString raw)] ++
    opt_field "threadId" VString (thread_str <$> thread_id)))].

Definition de_id : De string := de_struct (field "id" de_string).

(** [create_draft_impl] *)
Definition create_draft_impl (c : AuthClient) (base : string) (input : DraftInput)
    (from : option string) : M DraftId :=
  mime ← build_mime input from;
  let raw := b64url_encode mime in
  rs ← post_checked c (base +:+ "/users/me/drafts")
         (draft_payload raw (di_thread_id input));
  id ← lift_res (json_body de_id rs);
  mret (DraftId_from id).

(** [update_draft_impl] *)
Definition update_draft_impl (c : AuthClient) (base : string) (id : DraftId)
    (input : DraftInput) (from : option string) : M unit :=
  mime ← build_mime input from;
  let raw := b64url_encode mime in
  rs ← client_put c (base +:+ "/users/me/drafts/" +:+ draft_str id)
         (draft_payload raw (di_thread_id input));
  _ ← lift_res (error_for_status rs);
  mret tt.

Record DraftDetail : Type := mkDraftDetail {
  dd_id : string;
  dd_message_id : string;
  dd_snippet : string;
  dd_internal_date : string;
  dd_headers : list RawHeader;
}.

Definition de_draft_payload : De (list RawHeader) :=
  de_struct (field_default "headers" (de_vec de_raw_header) []).

Definition de_draft_detail : De DraftDetail := de_struct (λ v,
  id ← field "id" de_string v;
  m ← field "message" (de_struct (λ m,
    mid ← field "id" de_string m;
    snippet ← field_default "snippet" de_string "" m;
    internal_date ← field_default "internalDate" de_string "" m;
    payload ← field_option "payload" de_draft_payload m;
    Some (mkDraftDetail "" mid snippet internal_date (default [] payload)))) v;
  Some (mkDraftDetail id (dd_message_id m) (dd_snippet m) (dd_internal_date m)
          (dd_headers m))).

Definition de_draft_list : De (list string) :=
  de_struct (field_default "drafts" (de_vec de_stub) []).

Definition draft_subject (hs : list RawHeader) : string :=
  match find_first (λ h, eq_ignore_ascii_case (rh_name h) "Subject") hs with
  | Some h => rh_value h
  | None => ""
  end.

(** [list_drafts_impl] *)
Definition list_drafts_impl (c : AuthClient) (base : string) : M (list DraftSummary) :=
  drafts ← get_json c (base +:+ "/users/me/drafts") de_draft_list;
  collect drafts (λ d,
    detail ← get_json c
      (base +:+ "/users/me/drafts/" +:+ d +:+ "?format=metadata&metadataHeaders=Subject")
      de_draft_detail;
    date ← match parse_i64 (dd_internal_date detail) ≫= from_timestamp_millis with
           | Some t => mret t
           | None => utc_now
           end;
    mret {| ds_id := DraftId_from (dd_id detail);
            ds_message_id := MessageId_from (dd_message_id detail);
            ds_subject := draft_subject (dd_headers detail);
            ds_snippet := dd_snippet detail;
            ds_date := date |}).

(** [send_draft_impl] *)
Definition send_draft_impl (c : AuthClient) (base : string) (id : DraftId) : M MessageId :=
  rs ← post_checked c (base +:+ "/users/me/drafts/send")
         (VObject [("id", VString (draft_str id))]);
  id ← lift_res (json_body de_id rs);
  mret (MessageId_from id).

(** [send_message_impl] *)
Definition send_message_impl (c : AuthClient) (base : string) (m : OutgoingMessage)
    (from : option string) : M MessageId :=
  let input := {|
    di_to := om_to m; di_cc := om_cc m; di_bcc := om_bcc m;
    di_subject := om_subject m; di_body_text := om_body_text m;
    di_body_html := om_body_html m; di_in_reply_to := om_in_reply_to m;
    di_thread_id := om_thread_id m |} in
  mime ← build_mime input from;
  let raw := b64url_encode mime in
  rs ← post_checked c (base +:+ "/users/me/messages/send")
         (VObject [("raw", VString raw);
                   ("threadId", VOption VString (thread_str <$> om_thread_id m))]);
  id ← lift_res (json_body de_id rs);
  mret (MessageId_from id).

(** ** [provider.rs] *)

Definition GMAIL_BASE : string := "https://gmail.googleapis.com/gmail/v1".

(** [GmailProvider::with_base], as the trait object it becomes. *)
Definition gmail_with_base (c : AuthClient) (base user_email : string) :
    MailProvider := {|
  p_search := search_impl c base;
  p_get_thread := get_thread_full c base;
  p_get_message := get_message_impl c base;
  p_list_folders := list_folders_impl c base;
  p_list_labels := list_labels_impl c base;
  p_list_drafts := list_drafts_impl c base;
  p_mark_read := mark_read_impl c base;
  p_star := star_impl c base;
  p_label := label_impl c base;
  p_move_to := move_to_impl c base;
  p_archive := archive_impl c base;
  p_trash := trash_impl c base;
  p_untrash := untrash_impl c base;
  p_create_draft := λ d, create_draft_impl c base d (Some user_email);
  p_update_draft := λ id d, update_draft_impl c base id d (Some user_email);
  p_send_message := λ m, send_message_impl c base m (Some user_email);
  p_send_draft := send_draft_impl c base;
|}.

(** [GmailProvider::new] *)
Definition gmail_new (c : AuthClient) (user_email : string) : MailProvider :=
  gmail_with_base c GMAIL_BASE user_email.
End gmail.

(** ** The provider never touches the database *)

Section frames.
Context `{PF : Platform} (c : AuthClient).
Hypothesis Hcb : rotation_ok c.

Lemma client_get_db url : within (same sys_db) (client_get c url).
Proof. by apply client_send_db. Qed.
Lemma client_post_db url b : within (same sys_db) (client_post c url b).
Proof. by apply client_send_db. Qed.
Lemma client_put_db url b : within (same sys_db) (client_put c url b).
Proof. by apply client_send_db. Qed.

Lemma get_json_db {A} url (d : De A) : within (same sys_db) (get_json c url d).
Proof.
  unfold get_json. apply within_bind; [apply _|apply client_get_db|intros rs]. frame.
Qed.

Lemma post_checked_db url b : within (same sys_db) (post_checked c url b).
Proof.
  unfold post_checked. apply within_bind; [apply _|apply client_post_db|intros rs]. frame.
Qed.

Lemma decode_db raw : within (same sys_db) (decode raw).
Proof.
  unfold decode, parse_date. apply within_bind; [apply _|frame|intros p].
  apply within_bind; [apply _| |intros d; apply within_ret, _].
  destruct (_ ≫= _); [frame|]. destruct (_ ≫= _); frame.
Qed.

Lemma build_mime_db input from : within (same sys_db) (build_mime input from).
Proof. intros s. unfold build_mime, same. by destruct (mime_write _ _). Qed.

Ltac provider_frame :=
  repeat first
    [ apply get_json_db | apply post_checked_db | apply client_put_db
    | apply decode_db | apply build_mime_db
    | apply within_ret, _ | apply within_lift_res, _
    | apply within_for_each; [apply _|intros ?]
    | apply within_collect; [apply _|intros ?]
    | apply within_bind; [apply _| |intros ?] ].

Lemma get_thread_full_db base id : within (same sys_db) (get_thread_full c base id).
Proof. unfold get_thread_full. provider_frame. Qed.

Lemma modify_all_db base ids r : within (same sys_db) (modify_all c base ids r).
Proof. unfold modify_all, modify_one. provider_frame. Qed.

Lemma gmail_db base user : ProviderWithin (same sys_db) (gmail_with_base c base user).
Proof.
  split; intros; unfold gmail_with_base; cbn [p_search p_get_thread p_get_message
    p_list_folders p_list_labels p_list_drafts p_mark_read p_star p_label p_move_to
    p_archive p_trash p_untrash p_create_draft p_update_draft p_send_message
    p_send_draft].
  - unfold search_impl. provider_frame.
  - apply get_thread_full_db.
  - unfold get_message_impl. provider_frame.
  - unfold list_folders_impl. provider_frame.
  - unfold list_labels_impl. provider_frame.
  - unfold list_drafts_impl. provider_frame. destruct (_ ≫= _); frame.
  - apply modify_all_db.
  - apply modify_all_db.
  - apply modify_all_db.
  - apply modify_all_db.
  - apply modify_all_db.
  - unfold trash_impl. provider_frame.
  - unfold untrash_impl. provider_frame.
  - unfold create_draft_impl. provider_frame.
  - unfold update_draft_impl. provider_frame.
  - unfold send_message_impl. provider_frame.
  - unfold send_draft_impl. provider_frame.
Qed.
End frames.

(** ** The requests a batch sends *)

Section batches.
Context `{PF : Platform}.

(** [m] sends the request [rq], once or, after a 401, twice; when it fails it
    may not have come to send it. *)
Definition sends (rq : Request) (m : M unit) : Prop :=
  ∀ s, ∃ l, http_log (m s).2 = l ++ http_log s ∧ copies 2 rq (bearing l) ∧
    (is_ok (m s).1 = true → bearing l ≠ []).

Lemma post_sends c url body :
  rotation_ok c →
  sends (mkRequest POST url None (JsonBody body)) (_ ← post_checked c url body; mret tt).
Proof.
  intros Hcb s. unfold post_checked, client_post.
  destruct (client_send_log c (mkRequest POST url None (JsonBody body)) s Hcb)
    as (l & Hl & _ & Hc & Hok).
  exists l. unfold mbind, st_bind, lift_res.
  destruct (client_send _ _ _) as [[rs|e| |] s1]; simpl in *; try done.
  split_and!; [by destruct (error_for_status rs)|done|by intros _; apply Hok].
Qed.

Lemma patch_sends c url body :
  rotation_ok c →
  sends (mkRequest PATCH url None (JsonBody body))
    (rs ← client_patch c url body; _ ← lift_res (error_for_status rs); mret tt).
Proof.
  intros Hcb s. unfold client_patch.
  destruct (client_send_log c (mkRequest PATCH url None (JsonBody body)) s Hcb)
    as (l & Hl & _ & Hc & Hok).
  exists l. unfold mbind, st_bind, lift_res.
  destruct (client_send _ _ _) as [[rs|e| |] s1]; simpl in *; try done.
  split_and!; [by destruct (error_for_status rs)|done|by intros _; apply Hok].
Qed.

(** What a loop over [xs] sends, oldest first: the requests of a prefix of
    [xs], element by element; all of [xs] when it succeeds. *)
Definition sends_each {X} (rq : X → Request) (xs : list X) (m : M unit) (s : Sys) : Prop :=
  ∃ l touched chunks, http_log (m s).2 = l ++ http_log s ∧
    reverse (bearing l) = concat chunks ∧ touched `prefix_of` xs ∧
    Forall2 (λ x chunk, copies 2 (rq x) chunk) touched chunks ∧
    (is_ok (m s).1 = true → touched = xs ∧ [] ∉ chunks).

Lemma copies_reverse n rq l : copies n rq l → copies n rq (reverse l).
Proof.
  intros [? Hl]. split; [by rewrite length_reverse|].
  intros r. rewrite elem_of_reverse. apply Hl.
Qed.

Lemma for_each_sends {X} (rq : X → Request) (f : X → M unit) xs s :
  (∀ x, sends (rq x) (f x)) → sends_each rq xs (for_each xs f) s.
Proof.
  intros Hf. revert s. induction xs as [|x xs IH]; intros s; simpl.
  { exists [], [], []. split_and!; [done..|constructor|]. intros _. split; [done|set_solver]. }
  destruct (Hf x s) as (l1 & Hl1 & Hc1 & Hok1). unfold sends_each, mbind, st_bind.
  assert (Hstop : ∃ touched chunks, reverse (bearing l1) = concat chunks ∧
    touched `prefix_of` (x :: xs) ∧
    Forall2 (λ x chunk, copies 2 (rq x) chunk) touched chunks).
  { exists [x], [reverse (bearing l1)]. simpl. rewrite app_nil_r. split_and!; [done| |].
    - by exists xs.
    - constructor; [by apply copies_reverse|constructor]. }
  destruct (f x s) as [[[]|e| |] s1]; simpl in *;
    try (destruct Hstop as (t & ch & ? & ? & ?); exists l1, t, ch; by split_and!).
  destruct (IH s1) as (l2 & touched & chunks & Hl2 & Hrev & Hpre & Hall & Hok).
  exists (l2 ++ l1), (x :: touched), (reverse (bearing l1) :: chunks). simpl.
  rewrite Hl2, Hl1, bearing_app, reverse_app, Hrev. split_and!.
  - by rewrite app_assoc.
  - done.
  - by apply prefix_cons.
  - constructor; [by apply copies_reverse|done].
  - intros [-> Hne]%Hok. split; [done|]. rewrite not_elem_of_cons. split; [|done].
    intros H. symmetry in H. apply (f_equal reverse) in H.
    rewrite reverse_involutive in H. by apply Hok1 in H.
Qed.
End batches.

(** ** Properties *)

Section properties.
Context `{PF : Platform}.

Definition modify_http (base : string) (req : ModifyRequest) (id : MessageId) : Request :=
  mkRequest POST (base +:+ "/users/me/messages/" +:+ message_str id +:+ "/modify") None
    (JsonBody (modify_value req)).

(** A triage operation sends the same modification for each message, in the
    order given, each at most twice; when it succeeds no message was skipped,
    and when one fails those after it are left alone. *)
Theorem modify_all_requests c base ids req s :
  rotation_ok c →
  sends_each (modify_http base req) ids (modify_all c base ids req) s.
Proof. intros Hcb. apply for_each_sends. intros id. by apply post_sends. Qed.

(** Moving to a folder adds that folder and takes the message out of the
    inbox, spam and trash except the one it moves to, so it never adds and
    removes the same label. *)
Theorem move_request_exact folder l :
  (l ∈ mr_add (move_request folder) ↔ l = folder_str folder) ∧
  (l ∈ mr_remove (move_request folder) ↔
     l ∈ ["INBOX"; "SPAM"; "TRASH"] ∧ l ≠ folder_str folder).
Proof.
  split; [apply list_elem_of_singleton|]. unfold move_request. cbn [mr_remove].
  rewrite list_elem_of_In, filter_In, <- list_elem_of_In, negb_true_iff, String.eqb_neq.
  naive_solver.
Qed.
End properties.
