(* ===== verification/M365.v ===== *)
(** * The Microsoft 365 provider

    [crates/mail-mcp-core/src/providers/m365]: [parse.rs], [folders.rs],
    [messages.rs], [triage.rs], [compose.rs] and [provider.rs], over Microsoft
    Graph. The definitions are in a module of their own, since they carry the
    same names as Gmail's. *)
From S2P Require Export Gmail.

Module Graph.

(** ** [parse.rs] *)

Record RawAddress : Type := mkRawAddress {
  ra_name : option string;
  ra_address : option string;
}.

(** [RawRecipient]: the optional [emailAddress]. *)
Definition RawRecipient : Type := option RawAddress.

Record RawBody : Type := mkRawBody {
  rb_content_type : option string;
  rb_content : option string;
}.

Record RawMessage : Type := mkRawMessage {
  rm_id : string;
  rm_conversation_id : string;
  rm_subject : option string;
  rm_body_preview : option string;
  rm_from : option RawRecipient;
  rm_to : list RawRecipient;
  rm_cc : list RawRecipient;
  rm_bcc : list RawRecipient;
  rm_categories : list string;
  rm_is_read : bool;
  rm_flag : option (option string);
  rm_is_draft : bool;
  rm_parent_folder_id : option string;
  rm_received : option string;
  rm_body : option RawBody;
}.

Definition de_raw_address : De RawAddress := de_struct (λ v,
  name ← field_option "name" de_string v;
  address ← field_option "address" de_string v;
  Some (mkRawAddress name address)).

Definition de_raw_recipient : De RawRecipient :=
  de_struct (field_option "emailAddress" de_raw_address).

Definition de_raw_flag : De (option string) :=
  de_struct (field_option "flagStatus" de_string).

Definition de_raw_body : De RawBody := de_struct (λ v,
  content_type ← field_option "contentType" de_string v;
  content ← field_option "content" de_string v;
  Some (mkRawBody content_type content)).

Definition de_raw_message : De RawMessage := de_struct (λ v,
  id ← field "id" de_string v;
  conversation_id ← field "conversationId" de_string v;
  subject ← field_option "subject" de_string v;
  body_preview ← field_option "bodyPreview" de_string v;
  from ← field_option "from" de_raw_recipient v;
  to ← field_default "toRecipients" (de_vec de_raw_recipient) [] v;
  cc ← field_default "ccRecipients" (de_vec de_raw_recipient) [] v;
  bcc ← field_default "bccRecipients" (de_vec de_raw_recipient) [] v;
  categories ← field_default "categories" (de_vec de_string) [] v;
  is_read ← field_default "isRead" de_bool false v;
  flag ← field_option "flag" de_raw_flag v;
  is_draft ← field_default "isDraft" de_bool false v;
  parent ← field_option "parentFolderId" de_string v;
  received ← field_option "receivedDateTime" de_string v;
  body ← field_option "body" de_raw_body v;
  Some (mkRawMessage id conversation_id subject body_preview from to cc bcc categories
          is_read flag is_draft parent received body)).

(** [to_email_address]; an empty name counts as none. *)
Definition to_email_address (r : RawRecipient) : option EmailAddress :=
  addr ← r;
  email ← ra_address addr;
  let name := match ra_name addr with
              | Some s => if String.eqb s "" then None else Some s
              | None => None
              end in
  Some (mkEmailAddress email name).

(** The bodies of a message: [(body_text, body_html)]. *)
Definition bodies (b : option RawBody) : option string * option string :=
  match b with
  | Some (mkRawBody content_type (Some c)) =>
      match content_type with
      | Some t =>
          if String.eqb t "html" || String.eqb t "Html" || String.eqb t "HTML"
          then (None, Some c) else (Some c, None)
      | None => (Some c, None)
      end
  | _ => (None, None)
  end.

(** [matches!(flag_status, Some("flagged") | Some("complete"))] *)
Definition is_starred (flag : option (option string)) : bool :=
  match flag with
  | Some (Some s) => String.eqb s "flagged" || String.eqb s "complete"
  | _ => false
  end.

Section graph.
Context `{PF : Platform}.

(** [decode] *)
Definition decode (raw : RawMessage) : Result Message :=
  match rm_received raw ≫= parse_from_rfc3339 with
  | None => Err (Provider "message missing receivedDateTime")
  | Some date =>
      Ok {|
        msg_id := MessageId_from (rm_id raw);
        msg_thread_id := ThreadId_from (rm_conversation_id raw);
        msg_from := rm_from raw ≫= to_email_address;
        msg_to := omap to_email_address (rm_to raw);
        msg_cc := omap to_email_address (rm_cc raw);
        msg_bcc := omap to_email_address (rm_bcc raw);
        msg_subject := default "" (rm_subject raw);
        msg_date := date;
        msg_body_text := (bodies (rm_body raw)).1;
        msg_body_html := (bodies (rm_body raw)).2;
        msg_labels := LabelId_from <$> rm_categories raw;
        msg_folder := FolderId_from <$> rm_parent_folder_id raw;
        msg_flags := {| fl_read := rm_is_read raw;
                        fl_starred := is_starred (rm_flag raw);
                        fl_draft := rm_is_draft raw |};
        msg_attachments := [];
        msg_snippet := default "" (rm_body_preview raw) |}
  end.

(** ** [folders.rs] *)

Definition WELL_KNOWN_FOLDERS : list string :=
  ["inbox"; "sentitems"; "deleteditems"; "drafts"; "junkemail"; "archive"].

Definition de_list_response {A} (d : De A) : De (list A) :=
  de_struct (field "value" (de_vec d)).

(** [RawFolder]: display name and well-known name. *)
Definition de_raw_folder : De (string * option string) := de_struct (λ v,
  display_name ← field_default "displayName" de_string "" v;
  wkn ← field_option "wellKnownName" de_string v;
  Some (display_name, wkn)).

Definition de_raw_category : De (string * string) := de_struct (λ v,
  id ← field_default "id" de_string "" v;
  display_name ← field_default "displayName" de_string "" v;
  Some (id, display_name)).

Definition well_known_folder (f : string * option string) : option Folder :=
  wkn ← f.2;
  if any_eq wkn WELL_KNOWN_FOLDERS
  then Some (mkFolder (FolderId_from wkn) f.1 true) else None.

(** [list_folders_impl] *)
Definition list_folders_impl (c : AuthClient) (base : string) : M (list Folder) :=
  value ← get_json c (base +:+ "/me/mailFolders?$top=100")
            (de_list_response de_raw_folder);
  mret (omap well_known_folder value).

(** [list_labels_impl] *)
Definition list_labels_impl (c : AuthClient) (base : string) : M (list Label) :=
  value ← get_json c (base +:+ "/me/outlook/masterCategories")
            (de_list_response de_raw_category);
  mret ((λ '(id, name), mkLabel (LabelId_from id) name false) <$> value).

(** ** [messages.rs] *)

Definition quoted (text : string) : string :=
  String "034"%char (text +:+ String "034"%char "").

(** [build_search_url] *)
Definition build_search_url (base : string) (q : SearchQuery) : string :=
  let fresh :=
    base +:+ "/me/messages?$top=" +:+ pretty (default 25%Z (sq_limit q))
    +:+ "&$orderby=receivedDateTime desc"
    +:+ match sq_text q with
        | Some text => "&$search=" +:+ pct_encode (quoted text)
        | None => ""
        end
    +:+ match sq_folder q with
        | Some folder =>
            "&$filter=parentFolderId eq '" +:+ pct_encode (folder_str folder) +:+ "'"
        | None => ""
        end in
  match sq_cursor q with
  | Some cursor =>
      if starts_with "http://" cursor || starts_with "https://" cursor then cursor
      else fresh
  | None => fresh
  end.

Definition de_message_page : De (list RawMessage * option string) := de_struct (λ v,
  value ← field "value" (de_vec de_raw_message) v;
  next ← field_option "@odata.nextLink" de_string v;
  Some (value, next)).

Definition summary_of (m : Message) : ThreadSummary := {|
  ts_id := msg_thread_id m;
  ts_last_message_id := msg_id m;
  ts_subject := msg_subject m;
  ts_snippet := msg_snippet m;
  ts_from := msg_from m;
  ts_date := msg_date m;
  ts_message_count := 1;
  ts_unread := negb (fl_read (msg_flags m));
  ts_starred := fl_starred (msg_flags m);
  ts_labels := msg_labels m;
  ts_folder := msg_folder m;
|}.

(** The loop of [search_impl]: the first message of each conversation. *)
Fixpoint group_threads (seen : gset string) (raws : list RawMessage) :
    Result (list ThreadSummary) :=
  match raws with
  | [] => Ok []
  | raw :: raws =>
      if bool_decide (rm_conversation_id raw ∈ seen) then group_threads seen raws
      else
        res_cast (decode raw) (λ m,
        res_cast (group_threads ({[rm_conversation_id raw]} ∪ seen) raws) (λ rest,
        Ok (summary_of m :: rest)))
  end.

(** [search_impl] *)
Definition search_impl (c : AuthClient) (base : string) (q : SearchQuery) :
    M SearchResults :=
  page ← get_json c (build_search_url base q) de_message_page;
  threads ← lift_res (group_threads ∅ page.1);
  mret (mkSearchResults threads page.2).

(** [get_thread_impl] *)
Definition get_thread_impl (c : AuthClient) (base : string) (id : ThreadId) : M Thread :=
  page ← get_json c
    (base +:+ "/me/messages?$filter=conversationId eq '" +:+ pct_encode (thread_str id)
       +:+ "'&$orderby=receivedDateTime asc&$top=200") de_message_page;
  messages ← collect page.1 (λ raw, lift_res (decode raw));
  let subject := match messages with m :: _ => msg_subject m | [] => "" end in
  mret (mkThread id subject messages).

(** [get_message_impl] *)
Definition get_message_impl (c : AuthClient) (base : string) (id : MessageId) :
    M Message :=
  raw ← get_json c (base +:+ "/me/messages/" +:+ message_str id) de_raw_message;
  lift_res (decode raw).

(** ** [triage.rs] *)

Definition ARCHIVE_FOLDER : string := "archive".
Definition TRASH_FOLDER : string := "deleteditems".
Definition INBOX_FOLDER : string := "inbox".

(** [patch_one] *)
Definition patch_one (c : AuthClient) (base id : string) (body : Value) : M unit :=
  rs ← client_patch c (base +:+ "/me/messages/" +:+ id) body;
  _ ← lift_res (error_for_status rs);
  mret tt.

(** [move_one] *)
Definition move_one (c : AuthClient) (base id dest : string) : M unit :=
  _ ← post_checked c (base +:+ "/me/messages/" +:+ id +:+ "/move")
        (VObject [("destinationId", VString dest)]);
  mret tt.

(** [mark_read_impl] *)
Definition mark_read_impl c base (ids : list MessageId) (read : bool) : M unit :=
  for_each ids (λ id, patch_one c base (message_str id)
    (VObject [("isRead", VBool read)])).

(** [star_impl] *)
Definition star_impl c base (ids : list MessageId) (starred : bool) : M unit :=
  let status := if starred then "flagged" else "notFlagged" in
  for_each ids (λ id, patch_one c base (message_str id)
    (VObject [("flag", VObject [("flagStatus", VString status)])])).

(** The categories a message keeps, and the toggled one. *)
Definition toggle_category (existing : list string) (target : string) (on : bool) :
    list string :=
  List.filter (λ c, negb (String.eqb c target)) existing ++
  (if on then [target] else []).

Definition categories_of (resp : Value) : list string :=
  match get "categories" resp ≫= as_array with
  | Some arr => omap as_str arr
  | None => []
  end.

(** [label_impl] *)
Definition label_impl c base (ids : list MessageId) (label : LabelId) (on : bool) :
    M unit :=
  for_each ids (λ id,
    resp ← get_json c
      (base +:+ "/me/messages/" +:+ message_str id +:+ "?$select=categories") de_value;
    let next := toggle_category (categories_of resp) (label_str label) on in
    patch_one c base (message_str id)
      (VObject [("categories", VArray (VString <$> next))])).

(** [move_to_impl] *)
Definition move_to_impl c base (ids : list MessageId) (folder : FolderId) : M unit :=
  for_each ids (λ id, move_one c base (message_str id) (folder_str folder)).

(** [archive_impl] *)
Definition archive_impl c base (ids : list MessageId) : M unit :=
  for_each ids (λ id, move_one c base (message_str id) ARCHIVE_FOLDER).

(** [trash_impl] *)
Definition trash_impl c base (ids : list MessageId) : M unit :=
  for_each ids (λ id, move_one c base (message_str id) TRASH_FOLDER).

(** [untrash_impl] *)
Definition untrash_impl c base (ids : list MessageId) : M unit :=
  for_each ids (λ id, move_one c base (message_str id) INBOX_FOLDER).

(** ** [compose.rs] *)

(** [recipients] *)
Definition recipients (addrs : list EmailAddress) : Value :=
  VArray ((λ a, VObject [("emailAddress",
    VObject ([("address", VString (ea_email a))] ++
             opt_field "name" VString (ea_name a)))]) <$> addrs).

(** [message_body] *)
Definition message_body (input : DraftInput) : Value :=
  let '(content_type, content) :=
    match di_body_html input, di_body_text input with
    | Some html, _ => ("html", html)
    | None, Some text => ("text", text)
    | None, None => ("text", "")
    end in
  VObject [
    ("subject", VString (di_subject input));
    ("body", VObject [("contentType", VString content_type);
                      ("content", VString content)]);
    ("toRecipients", recipients (di_to input));
    ("ccRecipients", recipients (di_cc input));
    ("bccRecipients", recipients (di_bcc input))].

(** [create_draft_impl] *)
Definition create_draft_impl (c : AuthClient) (base : string) (input : DraftInput) :
    M DraftId :=
  rs ← post_checked c (base +:+ "/me/messages") (message_body input);
  id ← lift_res (json_body de_id rs);
  mret (DraftId_from id).

(** [update_draft_impl] *)
Definition update_draft_impl (c : AuthClient) (base : string) (id : DraftId)
    (input : DraftInput) : M unit :=
  rs ← client_patch c (base +:+ "/me/messages/" +:+ draft_str id) (message_body input);
  _ ← lift_res (error_for_status rs);
  mret tt.

Record DraftListItem : Type := mkDraftListItem {
  dl_id : string;
  dl_subject : option string;
  dl_body_preview : option string;
  dl_created : option string;
  dl_is_draft : bool;
}.

Definition de_draft_item : De DraftListItem := de_struct (λ v,
  id ← field "id" de_string v;
  subject ← field_option "subject" de_string v;
  preview ← field_option "bodyPreview" de_string v;
  created ← field_option "createdDateTime" de_string v;
  is_draft ← field_default "isDraft" de_bool false v;
  Some (mkDraftListItem id subject preview created is_draft)).

(** [list_drafts_impl]: the items that are not drafts are skipped. *)
Definition list_drafts_impl (c : AuthClient) (base : string) : M (list DraftSummary) :=
  value ← get_json c
    (base +:+ "/me/mailFolders/Drafts/messages?$top=50&$orderby=createdDateTime desc")
    (de_list_response de_draft_item);
  collect (List.filter dl_is_draft value) (λ d,
    date ← match dl_created d ≫= parse_from_rfc3339 with
           | Some t => mret t
           | None => utc_now
           end;
    mret {| ds_id := DraftId_from (dl_id d);
            ds_message_id := MessageId_from (dl_id d);
            ds_subject := default "" (dl_subject d);
            ds_snippet := default "" (dl_body_preview d);
            ds_date := date |}).

(** [send_draft_impl] *)
Definition send_draft_impl (c : AuthClient) (base : string) (id : DraftId) : M MessageId :=
  _ ← post_checked c (base +:+ "/me/messages/" +:+ draft_str id +:+ "/send")
        (VObject []);
  mret (MessageId_from (draft_str id)).

(** [send_message_impl] *)
Definition send_message_impl (c : AuthClient) (base : string) (m : OutgoingMessage) :
    M MessageId :=
  let input := {|
    di_to := om_to m; di_cc := om_cc m; di_bcc := om_bcc m;
    di_subject := om_subject m; di_body_text := om_body_text m;
    di_body_html := om_body_html m; di_in_reply_to := om_in_reply_to m;
    di_thread_id := om_thread_id m |} in
  draft_id ← create_draft_impl c base input;
  send_draft_impl c base draft_id.

(** ** [provider.rs] *)

(** [M365Provider::with_base], as the trait object it becomes. *)
Definition m365_with_base (c : AuthClient) (base : string) : MailProvider := {|
  p_search := search_impl c base;
  p_get_thread := get_thread_impl c base;
  p_get_message := get_message_impl c base;
  p_list_folders := list_folders_impl c base;
  p_list_labels := list_labels_impl c base;
  p_list_drafts := list_drafts_impl c base;
  p_mark_read := mark_read_impl c base;
  p_star := star_impl c base;
  p_label := label_impl c base;
  p_move_to := move_to_impl c base;
  p_archive := archive_impl c base;
  p_trash := trash_impl c base;
  p_untrash := untrash_impl c base;
  p_create_draft := create_draft_impl c base;
  p_update_draft := update_draft_impl c base;
  p_send_message := send_message_impl c base;
  p_send_draft := send_draft_impl c base;
|}.

Definition GRAPH_BASE : string := "https://graph.microsoft.com/v1.0".

(** [M365Provider::new] *)
Definition m365_new (c : AuthClient) : MailProvider := m365_with_base c GRAPH_BASE.
End graph.

(** ** Lemmas *)

Section facts.
Context `{PF : Platform}.

(** The conversation a thread summary stands for. *)
Definition conversation (t : ThreadSummary) : string := thread_str (ts_id t).

(** The grouped threads are the conversations not yet seen, once each. *)
Lemma group_threads_spec seen raws threads :
  group_threads seen raws = Ok threads →
  NoDup (conversation <$> threads) ∧
  ∀ conv, conv ∈ (conversation <$> threads) ↔
    conv ∉ seen ∧ conv ∈ (rm_conversation_id <$> raws).
Proof.
  revert seen threads. induction raws as [|raw raws IH]; intros seen threads; simpl.
  { intros [= <-]. split; [constructor|]. set_solver. }
  case_bool_decide as Hs.
  - intros (Hnd & Hin)%IH. split; [done|]. set_solver.
  - unfold decode at 1. destruct (_ ≫= _) as [date|]; [|done]. simpl.
    destruct (group_threads _ raws) as [rest| | |] eqn:Hrest; [|done..].
    intros [= <-]. apply IH in Hrest as (Hnd & Hin). simpl.
    change (conversation (summary_of _)) with (rm_conversation_id raw).
    split; [apply NoDup_cons; set_solver|].
    intros conv. rewrite !elem_of_cons, Hin.
    destruct (decide (conv = rm_conversation_id raw)) as [->|]; set_solver.
Qed.
End facts.

(** ** The provider never touches the database *)

Section frames.
Context `{PF : Platform} (c : AuthClient).
Hypothesis Hcb : rotation_ok c.

Lemma patch_one_db base id body : within (same sys_db) (patch_one c base id body).
Proof.
  unfold patch_one. apply within_bind; [apply _|by apply client_send_db|intros rs]. frame.
Qed.

Lemma move_one_db base id dest : within (same sys_db) (move_one c base id dest).
Proof.
  unfold move_one. apply within_bind; [apply _|by apply post_checked_db|intros rs]. frame.
Qed.

Ltac graph_frame :=
  repeat first
    [ match goal with
      | |- within _ (get_json _ _ _) => apply (get_json_db c Hcb)
      | |- within _ (post_checked _ _ _) => apply (post_checked_db c Hcb)
      | |- within _ (client_send _ _) => apply (client_send_db c _ Hcb)
      | |- within _ (patch_one _ _ _ _) => apply patch_one_db
      | |- within _ (move_one _ _ _ _) => apply move_one_db
      end
    | apply within_ret, _ | apply within_lift_res, _
    | apply within_for_each; [apply _|intros ?]
    | apply within_collect; [apply _|intros ?]
    | apply within_bind; [apply _| |intros ?] ].

Lemma graph_db base : ProviderWithin (same sys_db) (m365_with_base c base).
Proof.
  split; intros; cbn [m365_with_base p_search p_get_thread p_get_message p_list_folders
    p_list_labels p_list_drafts p_mark_read p_star p_label p_move_to p_archive p_trash
    p_untrash p_create_draft p_update_draft p_send_message p_send_draft];
    unfold search_impl, get_thread_impl, get_message_impl, list_folders_impl,
      list_labels_impl, list_drafts_impl, mark_read_impl, star_impl, label_impl,
      move_to_impl, archive_impl, trash_impl, untrash_impl, send_message_impl,
      send_draft_impl, create_draft_impl, update_draft_impl, client_patch;
    graph_frame.
  destruct (_ ≫= _); frame.
Qed.
End frames.

Section properties.
Context `{PF : Platform}.

(** A Graph search lists every conversation of the page exactly once, and
    nothing else. *)
Theorem search_groups_conversations raws threads :
  group_threads ∅ raws = Ok threads →
  NoDup (conversation <$> threads) ∧
  ∀ conv, conv ∈ (conversation <$> threads) ↔ conv ∈ (rm_conversation_id <$> raws).
Proof.
  intros (Hnd & Hin)%group_threads_spec. split; [done|]. set_solver.
Qed.

(** Toggling a category on a message keeps every other category, in order,
    and leaves the toggled one present exactly when it was switched on, once. *)
Theorem toggle_category_exact existing target on :
  (∀ c, c ≠ target → (c ∈ toggle_category existing target on ↔ c ∈ existing)) ∧
  (target ∈ toggle_category existing target on ↔ on = true) ∧
  (NoDup existing → NoDup (toggle_category existing target on)).
Proof.
  assert (Hf : ∀ c, c ∈ List.filter (λ c, negb (String.eqb c target)) existing ↔
    c ∈ existing ∧ c ≠ target).
  { intros c. rewrite !list_elem_of_In, List.filter_In, negb_true_iff, String.eqb_neq.
    done. }
  unfold toggle_category. split_and!.
  - intros c Hne. rewrite elem_of_app, Hf. destruct on; set_solver.
  - rewrite elem_of_app, Hf. destruct on; set_solver.
  - intros Hnd. apply NoDup_app. split_and!.
    + apply NoDup_ListNoDup, List.NoDup_filter. by apply NoDup_ListNoDup.
    + intros c [_ Hne]%Hf. destruct on; set_solver.
    + destruct on; [apply NoDup_singleton|constructor].
Qed.
End properties.

End Graph.
