(* ===== verification/EndToEnd.v ===== *)
(** * A tool call from the HTTP door to the provider

    The composition of [McpServer], [Dispatch], [Permissions], [Enforce],
    [ToolTypes] and a provider, [Gmail] or [M365]: what one authorised request to
    the MCP server makes the daemon do. *)
From S2P Require Export ToolTypes McpServer Gmail M365.

(** ** The requests of a triage call *)

Section requests.
Context `{PF : Platform}.

Definition message_http (base : string) (verb : string) (id : MessageId) : Request :=
  mkRequest POST (base +:+ "/users/me/messages/" +:+ message_str id +:+ verb) None
    (JsonBody (VObject [])).

(** The messages of a call on a Gmail account, and the request of each. *)
Definition gmail_requests (base : string) (call : Call) :
    option (list MessageId * (MessageId → Request)) :=
  match call with
  | CMarkRead ids read =>
      Some (ids, modify_http base
        (if read then mkModifyRequest [] ["UNREAD"] else mkModifyRequest ["UNREAD"] []))
  | CStar ids starred =>
      Some (ids, modify_http base
        (if starred then mkModifyRequest ["STARRED"] [] else mkModifyRequest [] ["STARRED"]))
  | CLabel ids label on =>
      Some (ids, modify_http base
        (if on then mkModifyRequest [label_str label] []
         else mkModifyRequest [] [label_str label]))
  | CMoveTo ids folder => Some (ids, modify_http base (move_request folder))
  | CArchive ids => Some (ids, modify_http base (mkModifyRequest [] ["INBOX"]))
  | CTrash ids => Some (ids, message_http base "/trash")
  | CUntrash ids => Some (ids, message_http base "/untrash")
  | _ => None
  end.

(** The same of an account on Microsoft Graph. A label is not among them: its
    request depends on the categories read before it. *)
Definition graph_patch (base : string) (body : Value) (id : MessageId) : Request :=
  mkRequest PATCH (base +:+ "/me/messages/" +:+ message_str id) None (JsonBody body).

Definition graph_move (base dest : string) (id : MessageId) : Request :=
  mkRequest POST (base +:+ "/me/messages/" +:+ message_str id +:+ "/move") None
    (JsonBody (VObject [("destinationId", VString dest)])).

Definition graph_requests (base : string) (call : Call) :
    option (list MessageId * (MessageId → Request)) :=
  match call with
  | CMarkRead ids read => Some (ids, graph_patch base (VObject [("isRead", VBool read)]))
  | CStar ids starred =>
      Some (ids, graph_patch base (VObject [("flag",
        VObject [("flagStatus", VString (if starred then "flagged" else "notFlagged"))])]))
  | CMoveTo ids folder => Some (ids, graph_move base (folder_str folder))
  | CArchive ids => Some (ids, graph_move base "archive")
  | CTrash ids => Some (ids, graph_move base "deleteditems")
  | CUntrash ids => Some (ids, graph_move base "inbox")
  | _ => None
  end.

(** What a provider promises of triage: a call it knows the requests of is a loop
    that sends the request of each message, and reports success when the loop
    went through. *)
Class TriageHttp (p : MailProvider) : Type := {
  triage_requests : Call → option (list MessageId * (MessageId → Request));
  triage_sends call ids rq s :
    triage_requests call = Some (ids, rq) →
    ∃ m : M unit, sends_each rq ids m s ∧
      (run_call p call s).2 = (m s).2 ∧
      (∀ v, (run_call p call s).1 = Ok v ↔ v = ok_true ∧ is_ok (m s).1 = true);
}.

Lemma loop_sends (rq : MessageId → Request) (f : MessageId → M unit) ids s :
  (∀ id, sends (rq id) (f id)) →
  ∃ m : M unit, sends_each rq ids m s ∧
    ((_ ← for_each ids f; mret ok_true) s).2 = (m s).2 ∧
    (∀ v, ((_ ← for_each ids f; mret ok_true) s).1 = Ok v ↔
       v = ok_true ∧ is_ok (m s).1 = true).
Proof.
  intros Hf. exists (for_each ids f). split; [by apply for_each_sends|]. unfold mbind, st_bind.
  destruct (for_each ids f s) as [[[]|e| |] s1]; simpl; split; try done; intros v; naive_solver.
Qed.

Lemma gmail_triage_sends c base email (Hcb : rotation_ok c) call ids rq s :
  gmail_requests base call = Some (ids, rq) →
  ∃ m : M unit, sends_each rq ids m s ∧
    (run_call (gmail_with_base c base email) call s).2 = (m s).2 ∧
    (∀ v, (run_call (gmail_with_base c base email) call s).1 = Ok v ↔
       v = ok_true ∧ is_ok (m s).1 = true).
Proof.
  intros Hrq. destruct call; try done; injection Hrq as <- <-;
    by (apply loop_sends; intros id; apply post_sends).
Qed.

Lemma graph_triage_sends c base (Hcb : rotation_ok c) call ids rq s :
  graph_requests base call = Some (ids, rq) →
  ∃ m : M unit, sends_each rq ids m s ∧
    (run_call (Graph.m365_with_base c base) call s).2 = (m s).2 ∧
    (∀ v, (run_call (Graph.m365_with_base c base) call s).1 = Ok v ↔
       v = ok_true ∧ is_ok (m s).1 = true).
Proof.
  intros Hrq. destruct call; try done; injection Hrq as <- <-;
    by (apply loop_sends; intros id; first [apply patch_sends|apply post_sends]).
Qed.

(** Both providers keep the promise over a client whose rotation callback stays
    with the keychain. *)
Definition gmail_triage c base email (Hcb : rotation_ok c) :
    TriageHttp (gmail_with_base c base email) :=
  Build_TriageHttp _ (gmail_requests base) (gmail_triage_sends c base email Hcb).

Definition graph_triage c base (Hcb : rotation_ok c) :
    TriageHttp (Graph.m365_with_base c base) :=
  Build_TriageHttp _ (graph_requests base) (graph_triage_sends c base Hcb).
End requests.

(** ** The call *)

Section call.
Context `{PF : Platform}.

Lemma for_account_answers id s :
  db_wf (sys_db s) → sql_fault (sys_hist s) = None →
  ∃ m, for_account id s = (Ok m, record_ev EvSql s) ∧
    ∀ c, policy_for m c = stored_policy (sys_db s) id c.
Proof.
  intros Hwf Hsql. destruct (for_account_run id s Hwf) as [(text & H)|(m & s' & H & Hdb & Hk & Hc & Hh & Hp)].
  - exfalso. unfold for_account, select in H. revert H. unfold mbind, st_bind.
    rewrite sql_run by done. unfold lift_res.
    destruct (permission_rows_load id (sys_db s) Hwf) as (m & Hm & _). by rewrite Hm.
  - exists m. split; [|done]. rewrite H. f_equal. destruct s, s'; simpl in *. unfold record_ev.
    simpl. congruence.
Qed.

(** A request that gets through: authorised, for a tool of the catalog, with
    arguments of its schema, an account with a provider, no pause, and a policy
    that allows it; the database answers the one query it is asked. *)
Record accepted (state : McpState) (header : option string) (req : JsonRpcReq) (c : Context)
    (t : ToolSpec) (args : Value) (id : AccountId) (p : MailProvider) : Prop := {
  ac_auth : check_auth header (bearer_token state) = true;
  ac_method : rpc_method req = "tools/call";
  ac_name : get_str "name" (rpc_params req) = Some (tool_name t);
  ac_other : tool_name t ≠ "list_accounts";
  ac_tool : find_tool (tool_name t) = Some t;
  ac_args : get "arguments" (rpc_params req) = Some args;
  ac_valid : valid (tool_input_schema t) args = true;
  ac_account s : get_str "account_id" args = Some s → account_from_str s = inr id;
  ac_provider : cx_providers c !! id = Some p;
  ac_running : cx_paused c = false;
  ac_policy : stored_policy (sys_db (cx_sys c)) id (tool_category t) = Allow;
  ac_db : db_wf (sys_db (cx_sys c));
  ac_sql : sql_fault (sys_hist (cx_sys c)) = None;
}.

(** What the client is told of the outcome of a call. *)
Definition call_response (req : JsonRpcReq) (r : Result Value) : Result (Z * Value) :=
  match r with
  | Ok v => Ok (STATUS_OK, rpc_ok (rpc_id req) (call_result v))
  | Err e => Ok (STATUS_OK, rpc_err (rpc_id req) (-32000) (error_to_string e))
  | Panic => Panic
  | Hang => Hang
  end.

Definition with_sys (s : Sys) (c : Context) : Context :=
  set_desk (set_dk_sys s (cx_desk c)) c.

Lemma accepted_runs state header req c t args id p call :
  accepted state header req c t args id p →
  typed_call (tool_name t) args = Some call →
  (∀ p, execute p (tool_name t) args = run_call p call) →
  (∃ s, get_str "account_id" args = Some s) →
  let s1 := record_ev EvSql (cx_sys c) in
  handle_post state header req c =
    (call_response req (run_call p call s1).1, with_sys (run_call p call s1).2 c).
Proof.
  intros [] _ Hexec [s Hs] s1.
  assert (Hd : dispatch t args c = ((run_call p call s1).1, with_sys (run_call p call s1).2 c)).
  { assert (Hid : parse_account_id args = Ok id).
    { unfold parse_account_id. by rewrite Hs, (ac_account0 s Hs). }
    rewrite (dispatch_enforced _ _ _ _ _ ac_running0 Hid ac_provider0).
    destruct (for_account_answers id (cx_sys c) ac_db0 ac_sql0) as (m & Hm & Hpol).
    etrans; [eapply bind_step; rewrite at_sys_run, Hm; reflexivity|].
    etrans; [eapply (bind_step _ _ _ Proceed (with_sys s1 c));
      rewrite at_desk_run; unfold enforce; by rewrite Hpol, ac_policy0|].
    unfold act. rewrite at_sys_run, Hexec. done. }
  unfold handle_post. rewrite ac_auth0, ac_method0. simpl. unfold tools_call.
  rewrite ac_name0, ac_args0. simpl. rewrite (proj2 (String.eqb_neq _ _) ac_other0), ac_tool0.
  unfold mbind, st_bind, catch. rewrite Hd. unfold call_response.
  by destruct (run_call p call s1) as [[] s2].
Qed.
Lemma accepted_typed state header req c t args id p :
  accepted state header req c t args id p →
  (∃ s, get_str "account_id" args = Some s) ∧
  ∃ call, typed_call (tool_name t) args = Some call ∧
    ∀ p, execute p (tool_name t) args = run_call p call.
Proof.
  intros []. apply (proj1 (Forall_forall _ _) tools_well_typed t); [|done|done].
  by apply find_tool_Some in ac_tool0 as [? _].
Qed.

(** An accepted triage call of a provider that keeps the promise. *)
Lemma accepted_triage state header req c t args id p `{TH : !TriageHttp p} call ids rq :
  accepted state header req c t args id p →
  typed_call (tool_name t) args = Some call → triage_requests call = Some (ids, rq) →
  let s1 := record_ev EvSql (cx_sys c) in
  ∃ m : M unit, sends_each rq ids m s1 ∧
    cx_sys (handle_post state header req c).2 = (m s1).2 ∧
    ((handle_post state header req c).1 =
       Ok (STATUS_OK, rpc_ok (rpc_id req) (call_result ok_true)) ↔ is_ok (m s1).1 = true).
Proof.
  intros Ha Hcall Hrq s1.
  destruct (accepted_typed _ _ _ _ _ _ _ _ Ha) as (Hs & call' & Hcall' & Hexec).
  rewrite Hcall in Hcall'. injection Hcall' as <-.
  rewrite (accepted_runs _ _ _ _ _ _ _ _ _ Ha Hcall Hexec Hs). fold s1.
  destruct (triage_sends call ids rq s1 Hrq) as (m & Hm & Hst & Hres).
  exists m. split; [done|]. split; [exact Hst|].
  destruct (run_call _ call s1) as [[v|e| |] s2]; simpl in *;
    [destruct (proj1 (Hres v) eq_refl) as [-> ?]; naive_solver|..];
    (split; [done|]); intros Hok; discriminate (proj2 (Hres ok_true) (conj eq_refl Hok)).
Qed.
End call.

(** ** Properties *)

Section properties.
Context `{PF : Platform}.

(** C2: an accepted request is one provider operation. It is answered with the
    result, or the error, of the typed call its arguments stand for, run on the
    account's provider after one query of the database; nothing else of the daemon
    changes. *)
Theorem allowed_call_end_to_end state header req c t args id p :
  accepted state header req c t args id p →
  ∃ call, typed_call (tool_name t) args = Some call ∧
    let s1 := record_ev EvSql (cx_sys c) in
    handle_post state header req c =
      (call_response req (run_call p call s1).1, with_sys (run_call p call s1).2 c).
Proof.
  intros Ha. destruct (accepted_typed _ _ _ _ _ _ _ _ Ha) as (Hs & call & Hcall & Hexec).
  exists call. split; [done|]. by eapply accepted_runs.
Qed.


End properties.
