(* ===== verification/IpcMessages.v ===== *)
(** * IPC messages

    [crates/mail-mcp-core/src/ipc/messages.rs]: the payloads of the daemon's
    local control channel and their serde forms; and the forwarding of approval
    events of [crates/mail-mcp-daemon/src/main.rs]. *)
From S2P Require Export M365.

Inductive AccountStatus : Type := StatusOk | NeedsReauth | NetworkError.

Definition account_status_str (s : AccountStatus) : string :=
  match s with
  | StatusOk => "ok"
  | NeedsReauth => "needs_reauth"
  | NetworkError => "network_error"
  end.

Record AccountListItem : Type := mkAccountListItem {
  ali_id : AccountId;
  ali_label : string;
  ali_provider : string;
  ali_email : string;
  ali_status : AccountStatus;
}.

Record PermissionMap : Type := mkPermissionMap {
  pm_read : Policy;
  pm_modify : Policy;
  pm_trash : Policy;
  pm_draft : Policy;
  pm_send : Policy;
}.

Record McpEndpointInfo : Type := mkMcpEndpointInfo {
  ep_url : string;
  ep_bearer_token : string;
  ep_stdio_shim_path : option string;
}.

Record Status : Type := mkStatus {
  st_version : string;
  st_uptime_secs : Z;
  st_account_count : Z;
  st_mcp_paused : bool;
  st_onboarding_complete : bool;
}.

Inductive Notification : Type :=
| ApprovalRequested (p : PendingApproval)
| ApprovalResolved (id decision : string)
| AccountAdded (a : Account)
| AccountRemoved (id : AccountId)
| AccountNeedsReauth (id : AccountId)
| McpPausedChanged (paused : bool).

(** The name of a notification: its [serde(rename)]. *)
Definition notification_method (n : Notification) : string :=
  match n with
  | ApprovalRequested _ => "approval.requested"
  | ApprovalResolved _ _ => "approval.resolved"
  | AccountAdded _ => "account.added"
  | AccountRemoved _ => "account.removed"
  | AccountNeedsReauth _ => "account.needs_reauth"
  | McpPausedChanged _ => "mcp.paused_changed"
  end.

Definition policy_value (p : Policy) : Value := VString (policy_str p).

Definition permission_map_value (m : PermissionMap) : Value :=
  VObject [("read", policy_value (pm_read m)); ("modify", policy_value (pm_modify m));
           ("trash", policy_value (pm_trash m)); ("draft", policy_value (pm_draft m));
           ("send", policy_value (pm_send m))].

Definition endpoint_value (e : McpEndpointInfo) : Value :=
  VObject [("url", VString (ep_url e)); ("bearer_token", VString (ep_bearer_token e));
           ("stdio_shim_path", VOption VString (ep_stdio_shim_path e))].

Definition status_value (s : Status) : Value :=
  VObject [("version", VString (st_version s));
           ("uptime_secs", VInt (st_uptime_secs s));
           ("account_count", VInt (st_account_count s));
           ("mcp_paused", VBool (st_mcp_paused s));
           ("onboarding_complete", VBool (st_onboarding_complete s))].

Definition decision_str (d : ApprovalDecision) : string :=
  match d with Approve => "approve" | Reject => "reject" end.

Section messages.
Context `{PF : Platform}.

Definition account_list_item_value (i : AccountListItem) : Value :=
  VObject [("id", VString (account_to_string (ali_id i)));
           ("label", VString (ali_label i));
           ("provider", VString (ali_provider i));
           ("email", VString (ali_email i));
           ("status", VString (account_status_str (ali_status i)))].

Definition request_value (r : ApprovalRequest) : Value :=
  VObject [("account", VString (account_to_string (ar_account r)));
           ("category", VString (category_str (ar_category r)));
           ("summary", VString (ar_summary r));
           ("details", ar_details r)].

Definition pending_value (p : PendingApproval) : Value :=
  VObject [("id", VString (approval_to_string (pa_id p)));
           ("request", request_value (pa_request p));
           ("created_at", date_to_json (pa_created_at p))].

(** The content of a notification: what serde puts under [params]. *)
Definition notification_content (n : Notification) : Value :=
  match n with
  | ApprovalRequested p => pending_value p
  | ApprovalResolved id decision =>
      VObject [("id", VString id); ("decision", VString decision)]
  | AccountAdded a => account_value a
  | AccountRemoved id => VObject [("account_id", VString (account_to_string id))]
  | AccountNeedsReauth id => VObject [("account_id", VString (account_to_string id))]
  | McpPausedChanged paused => VObject [("paused", VBool paused)]
  end.

(** [serde_json::to_value(&n)], with [tag = "method", content = "params"]. *)
Definition notification_value (n : Notification) : Value :=
  VObject [("method", VString (notification_method n));
           ("params", notification_content n)].

(** The body of the forwarding task of [main]. *)
Definition forward_event (evt : ApprovalEvent) : Notification :=
  match evt with
  | Requested p => ApprovalRequested p
  | Resolved id decision =>
      ApprovalResolved (approval_to_string id) (decision_str decision)
  end.
End messages.
