(* ===== verification/IpcHandler.v ===== *)
(** * The IPC handler

    [crates/mail-mcp-daemon/src/ipc_handler.rs]: the methods the tray and the
    admin CLI call: status, accounts, permissions, approvals, settings. *)
From S2P Require Export IpcMessages McpServer.

Section handler.
Context `{PF : Platform}.

(** The part of [DaemonHandler] that does not change; the start is taken on the
    same clock as [Utc::now]. *)
Record HandlerConfig : Type := mkHandlerConfig {
  hc_version : string;
  hc_started_at : DateTime;
  hc_mcp_endpoint : McpEndpointInfo;
  hc_oauth_cfg : ProviderConfig;
}.

(** The spawned task of a pending authorization; its effects are those of the
    moment it is joined. *)
Definition OAuthTask : Type := M (OAuthTokens * string).

(** [DaemonHandler]: the context it shares with the dispatcher, the pending
    authorizations, the notifications broadcast (newest first). *)
Record Daemon : Type := mkDaemon {
  h_ctx : Context;
  h_pending : gmap string OAuthTask;
  h_notifs : list Notification;
}.

Definition set_ctx (c : Context) (d : Daemon) : Daemon :=
  mkDaemon c (h_pending d) (h_notifs d).
Definition set_pending (p : gmap string OAuthTask) (d : Daemon) : Daemon :=
  mkDaemon (h_ctx d) p (h_notifs d).
Definition push_notif (n : Notification) (d : Daemon) : Daemon :=
  mkDaemon (h_ctx d) (h_pending d) (n :: h_notifs d).

Definition HM (A : Type) : Type := ST Daemon Error A.

Definition in_ctx {A} (m : CM A) : HM A := zoom h_ctx set_ctx m.
Definition in_desk {A} (m : DM A) : HM A := in_ctx (at_desk m).
Definition in_sys {A} (m : M A) : HM A := in_ctx (at_sys m).

(** [notif_tx.send(n)]; a send without receivers is ignored. *)
Definition notify (n : Notification) : HM unit := modify (push_notif n).

Definition empty_object : Value := VObject [].

(** [params.get(k).and_then(as_str).ok_or_else(..)] *)
Definition param_str (k : string) (params : Value) : Result string :=
  ok_or (get_str k params) (Provider ("missing " +:+ k)).

(** [AccountId::from_str(id_str).map_err(..)] *)
Definition param_account (params : Value) : Result AccountId :=
  res_cast (param_str "account_id" params) (λ s,
    map_err (account_from_str s) (λ e, Provider ("bad id: " +:+ e))).

(** [make_rotation_callback]: a failure to store the token is only logged. *)
Definition make_rotation_callback (id : AccountId) (new_rt : string) : M unit :=
  ignore (secret_set id RefreshToken new_rt).

(** ** Accounts *)

Definition USERINFO_URL : string := "https://openidconnect.googleapis.com/v1/userinfo".

Definition OAUTH_TIMEOUT : Z := (300 * 10 ^ 9)%Z.

(** The task [add_oauth] spawns. *)
Definition oauth_task (cfg : ProviderConfig) (challenge : AuthChallenge) : OAuthTask :=
  tokens ← complete_authorization cfg challenge OAUTH_TIMEOUT;
  rs ← http_send (mkRequest GET USERINFO_URL (Some (access_token tokens)) NoBody);
  rs ← lift_res (error_for_status rs);
  resp ← lift_res (json_body de_value rs);
  mret (tokens, default "unknown" (get_str "email" resp)).

(** [add_oauth] *)
Definition add_oauth (hc : HandlerConfig) (params : Value) : HM Value :=
  provider ← lift_res (param_str "provider" params);
  if negb (String.eqb provider "gmail") then
    throw (Provider ("provider not supported in v0.1a: " +:+ provider))
  else
    challenge ← in_sys (begin_authorization (hc_oauth_cfg hc) None);
    u ← in_sys ulid_new;
    let challenge_id := ulid_to_string u in
    _ ← modify (λ d,
          set_pending (<[challenge_id := oauth_task (hc_oauth_cfg hc) challenge]>
                         (h_pending d)) d);
    mret (VObject [("challenge_id", VString challenge_id);
                   ("auth_url", VString (ch_auth_url challenge))]).

(** [pending.join.await]: a panic of the task is an error of the join. *)
Definition join_task (t : OAuthTask) : M (OAuthTokens * string) := λ s,
  match t s with
  | (Panic, s') => (Err (Internal ("oauth task panicked: " +:+ join_error_text)), s')
  | other => other
  end.

Definition new_gmail_account (label email : string) (tokens : OAuthTokens) :
    NewAccount := {|
  new_label := if String.eqb label "" then email else label;
  new_provider := Gmail;
  new_email := email;
  new_config := empty_object;
  new_scopes := match scope tokens with Some s => split " "%char s | None => [] end;
|}.

Definition missing_refresh_token : Error :=
  OAuth "Google did not return a refresh_token; ensure prompt=consent + access_type=offline".

(** The persistence half of [complete_oauth], once the task was joined. *)
Definition persist_account (hc : HandlerConfig) (label : string)
    (tokens : OAuthTokens) (email : string) : HM Value :=
  id ← in_sys (create (new_gmail_account label email tokens));
  _ ← in_sys (install_defaults id);
  _ ← match refresh_token tokens with
      | Some rt => in_sys (secret_set id RefreshToken rt)
      | None => throw missing_refresh_token
      end;
  client ← in_sys (with_rotation_callback (hc_oauth_cfg hc) tokens
                     (Some (make_rotation_callback id)));
  _ ← in_ctx (registry_insert id (gmail_new client email));
  found ← in_sys (get_account id);
  account ← lift_res (ok_or found (Internal "account vanished"));
  _ ← notify (AccountAdded account);
  mret (account_value account).

(** [complete_oauth] *)
Definition complete_oauth (hc : HandlerConfig) (params : Value) : HM Value :=
  cid ← lift_res (param_str "challenge_id" params);
  let label := default "" (get_str "label" params) in
  found ← gets (λ d, h_pending d !! cid);
  _ ← modify (λ d, set_pending (delete cid (h_pending d)) d);
  task ← lift_res (ok_or found (NotFound ("challenge " +:+ cid)));
  '(tokens, email) ← in_sys (join_task task);
  persist_account hc label tokens email.

(** [cancel_oauth] *)
Definition cancel_oauth (params : Value) : HM Value :=
  cid ← lift_res (param_str "challenge_id" params);
  _ ← modify (λ d, set_pending (delete cid (h_pending d)) d);
  mret empty_object.

(** [remove_account] *)
Definition remove_account (params : Value) : HM Value :=
  id ← lift_res (param_account params);
  _ ← in_sys (delete_account id);
  _ ← ignore (in_sys (secret_purge id));
  _ ← in_ctx (registry_remove id);
  _ ← notify (AccountRemoved id);
  mret empty_object.

(** The arm ["accounts.list"]. *)
Definition accounts_list : HM Value :=
  accs ← in_sys list_accounts;
  let items := (λ a, mkAccountListItem (acc_id a) (acc_label a)
                       (provider_as_str (acc_provider a)) (acc_email a) StatusOk) <$> accs in
  mret (VArray (account_list_item_value <$> items)).

(** ** Permissions *)

(** [permissions_get] *)
Definition permissions_get (params : Value) : HM Value :=
  id ← lift_res (param_account params);
  perms ← in_sys (for_account id);
  mret (permission_map_value {|
    pm_read := policy_for perms Read;
    pm_modify := policy_for perms Modify;
    pm_trash := policy_for perms Trash;
    pm_draft := policy_for perms Draft;
    pm_send := policy_for perms Send |}).

(** [permissions_set] *)
Definition permissions_set (params : Value) : HM Value :=
  id ← lift_res (param_account params);
  cat_str ← lift_res (param_str "category" params);
  pol_str ← lift_res (param_str "policy" params);
  cat ← lift_res (map_err (category_from_str cat_str) Provider);
  pol ← lift_res (map_err (policy_from_str pol_str) Provider);
  _ ← in_sys (set_permission id cat pol);
  mret empty_object.

(** ** Approvals *)

(** The decision named by a string. *)
Definition parse_decision (s : string) : Result ApprovalDecision :=
  if String.eqb s "approve" then Ok Approve
  else if String.eqb s "reject" then Ok Reject
  else Err (Provider ("bad decision: " +:+ s)).

(** [approvals_decide] *)
Definition approvals_decide (params : Value) : HM Value :=
  id_str ← lift_res (param_str "id" params);
  u ← lift_res (map_err (ulid_from_str id_str) (λ e, Provider ("bad id: " +:+ e)));
  decision ← lift_res (parse_decision (default "" (get_str "decision" params)));
  _ ← in_desk (decide_approval (mkApprovalId u) decision);
  mret empty_object.

(** ** Status, settings and pause *)

(** The arm ["status"]. *)
Definition status (hc : HandlerConfig) : HM Value :=
  now ← in_sys utc_now;
  accs ← in_sys list_accounts;
  paused ← gets (λ d, cx_paused (h_ctx d));
  complete ← in_sys (get_app_state "onboarding_complete");
  mret (status_value {|
    st_version := hc_version hc;
    st_uptime_secs := Z.max 0 ((now - hc_started_at hc) / 10 ^ 9)%Z;
    st_account_count := as_u32 (Z.of_nat (length accs));
    st_mcp_paused := paused;
    st_onboarding_complete :=
      match complete with Some s => String.eqb s "true" | None => false end |}).

(** The arm ["settings.set_onboarding_complete"]. *)
Definition set_onboarding_complete (params : Value) : HM Value :=
  let complete := default false (get_bool "complete" params) in
  _ ← in_sys (set_app_state "onboarding_complete" (if complete then "true" else "false"));
  mret empty_object.

(** The arm ["mcp.pause"]. *)
Definition mcp_pause (params : Value) : HM Value :=
  let paused := default false (get_bool "paused" params) in
  _ ← modify (λ d, set_ctx (set_paused paused (h_ctx d)) d);
  _ ← notify (McpPausedChanged paused);
  mret empty_object.

(** [DaemonHandler::handle] *)
Definition handle (hc : HandlerConfig) (method : string) (params : Value) : HM Value :=
  if String.eqb method "status" then status hc
  else if String.eqb method "accounts.list" then accounts_list
  else if String.eqb method "accounts.add_oauth" then add_oauth hc params
  else if String.eqb method "accounts.complete_oauth" then complete_oauth hc params
  else if String.eqb method "accounts.cancel_oauth" then cancel_oauth params
  else if String.eqb method "accounts.remove" then remove_account params
  else if String.eqb method "permissions.get" then permissions_get params
  else if String.eqb method "permissions.set" then permissions_set params
  else if String.eqb method "approvals.list" then
    l ← in_desk list_approvals; mret (VArray (pending_value <$> l))
  else if String.eqb method "approvals.decide" then approvals_decide params
  else if String.eqb method "settings.set_autostart" then mret empty_object
  else if String.eqb method "settings.set_onboarding_complete" then
    set_onboarding_complete params
  else if String.eqb method "mcp.endpoint" then
    mret (endpoint_value (hc_mcp_endpoint hc))
  else if String.eqb method "mcp.pause" then mcp_pause params
  else throw (NotFound method).

(** ** Startup *)

(** The tokens an account starts with: expired, so the first call refreshes. *)
Definition hydrated_tokens (refresh : string) (now : DateTime) : OAuthTokens := {|
  access_token := "";
  refresh_token := Some refresh;
  expires_at := (now - 10 ^ 9)%Z;
  scope := None;
|}.

(** [hydrate_providers]: an account without a stored refresh token is skipped. *)
Definition hydrate_providers (cfg : ProviderConfig) : CM unit :=
  accs ← at_sys list_accounts;
  for_each accs (λ acc,
    stored ← at_sys (secret_get (acc_id acc) RefreshToken);
    match stored with
    | None => mret tt
    | Some rt =>
        now ← at_sys utc_now;
        client ← at_sys (with_rotation_callback cfg (hydrated_tokens rt now)
                           (Some (make_rotation_callback (acc_id acc))));
        registry_insert (acc_id acc) (gmail_new client (acc_email acc))
    end).
End handler.
