(* ===== verification/Daemon.v ===== *)
(** * The daemon as a transition system

    The two doors of the daemon, the MCP server and the IPC handler, act on
    one state. Its invariant: the database is intact, the approval queue is
    well-formed, and no registered provider or pending authorization can touch
    the database. Every request, on either door, preserves it. *)
From S2P Require Export IpcHandler.

Section daemon.
Context `{PF : Platform}.

Record ctx_wf (c : Context) : Prop := {
  cw_db : db_wf (sys_db (cx_sys c));
  cw_queue : queue_inv (dk_queue (cx_desk c));
  cw_providers id p :
    cx_providers c !! id = Some p → ProviderWithin (same sys_db) p;
}.

Record daemon_wf (d : Daemon) : Prop := {
  dw_ctx : ctx_wf (h_ctx d);
  dw_pending cid t : h_pending d !! cid = Some t → within (same sys_db) t;
}.

(** ** Lifting frames to the context and the daemon *)

Lemma at_sys_wf {A} (m : M A) :
  within (keeps (db_wf ∘ sys_db)) m → within (keeps ctx_wf) (at_sys m).
Proof.
  intros Hm c [Hdb Hq Hp]. rewrite at_sys_run. specialize (Hm (cx_sys c) Hdb).
  by split.
Qed.

Lemma at_sys_wf_same {A} (m : M A) :
  within (same sys_db) m → within (keeps ctx_wf) (at_sys m).
Proof. intros Hm. by apply at_sys_wf, same_db_keeps. Qed.

Lemma at_desk_wf {A} (m : DM A) :
  within (same (sys_db ∘ dk_sys)) m → within (keeps (queue_inv ∘ dk_queue)) m →
  within (keeps ctx_wf) (at_desk m).
Proof.
  intros Hm Hq c [Hdb Hqi Hp]. rewrite at_desk_run.
  specialize (Hm (cx_desk c)). specialize (Hq (cx_desk c) Hqi).
  split; simpl; [|done|done]. unfold cx_sys; simpl.
  unfold same, compose in Hm. by rewrite Hm.
Qed.

Lemma in_ctx_wf {A} (m : CM A) :
  within (keeps ctx_wf) m → within (keeps daemon_wf) (in_ctx m).
Proof.
  intros Hm d [Hc Hp]. unfold in_ctx, zoom. specialize (Hm (h_ctx d) Hc).
  destruct (m (h_ctx d)) as [r c]. by split.
Qed.

Lemma in_sys_wf {A} (m : M A) :
  within (keeps (db_wf ∘ sys_db)) m → within (keeps daemon_wf) (in_sys m).
Proof. intros Hm. by apply in_ctx_wf, at_sys_wf. Qed.

Lemma in_sys_wf_same {A} (m : M A) :
  within (same sys_db) m → within (keeps daemon_wf) (in_sys m).
Proof. intros Hm. by apply in_ctx_wf, at_sys_wf_same. Qed.

(** ** The MCP door *)

Lemma execute_db p tool args :
  ProviderWithin (same sys_db) p → within (same sys_db) (execute p tool args).
Proof.
  intros [].
  assert (H : (∀ m, exec_read p tool args = Some m → within (same sys_db) m) ∧
    (∀ m, exec_triage p tool args = Some m → within (same sys_db) m) ∧
    (∀ m, exec_compose p tool args = Some m → within (same sys_db) m)).
  { unfold exec_read, exec_triage, exec_compose.
    split; [|split]; intros m;
      repeat match goal with
      | |- (if ?b then _ else _) = Some _ → _ => destruct b
      end; try done; intros [= <-];
      repeat first [ apply within_ret, _ | apply within_lift_res, _
        | solve [auto] | apply within_bind; [apply _| |intros ?] ]. }
  destruct H as (Hr & Ht & Hc). unfold execute.
  destruct (exec_read p tool args); [by apply Hr|].
  destruct (exec_triage p tool args); [by apply Ht|].
  destruct (exec_compose p tool args); [by apply Hc|].
  destruct (String.eqb _ _); [apply within_panic|apply within_throw]; apply _.
Qed.

Lemma for_account_db id : within (same sys_db) (for_account id).
Proof. unfold for_account. frame. Qed.

Lemma list_accounts_db : within (same sys_db) list_accounts.
Proof. unfold list_accounts, list_rows. frame. Qed.

Lemma enforce_db perms cat r : within (same (sys_db ∘ dk_sys)) (enforce perms cat r).
Proof.
  eapply within_weaken; [|apply enforce_quiet]. unfold same, quiet, compose.
  intros s s' ?. congruence.
Qed.

(** What a tool call can use of the context but not set: the database (accounts,
    permissions, settings), the registered providers, the pause switch. *)
Definition governing (c : Context) : Db * gmap AccountId MailProvider * bool :=
  (sys_db (cx_sys c), cx_providers c, cx_paused c).

(** From a well-formed context, the governing part stays as it was. *)
Definition governed (c c' : Context) : Prop :=
  ctx_wf c → ctx_wf c' ∧ governing c' = governing c.

#[local] Instance governed_preorder : PreOrder governed.
Proof.
  split; [by intros c|]. intros c1 c2 c3 H1 H2 Hwf.
  destruct (H1 Hwf) as [Hwf2 E1]. destruct (H2 Hwf2) as [Hwf3 E2].
  split; [done|congruence].
Qed.

Lemma at_sys_governed {A} (m : M A) :
  within (same sys_db) m → within governed (at_sys m).
Proof.
  intros Hm c Hwf. split; [by apply (at_sys_wf_same m)|].
  rewrite at_sys_run. specialize (Hm (cx_sys c)). unfold governing. simpl.
  unfold cx_sys in *. simpl. by rewrite Hm.
Qed.

Lemma at_desk_governed {A} (m : DM A) :
  within (same (sys_db ∘ dk_sys)) m → within (keeps (queue_inv ∘ dk_queue)) m →
  within governed (at_desk m).
Proof.
  intros Hm Hq c Hwf. split; [by apply (at_desk_wf m)|].
  rewrite at_desk_run. specialize (Hm (cx_desk c)). unfold governing. simpl.
  unfold cx_sys. simpl. unfold same, compose in Hm. by rewrite Hm.
Qed.

Lemma convert_db p tool args :
  ProviderWithin (same sys_db) p → within (same sys_db) (convert_send_to_draft p tool args).
Proof.
  intros Hp. unfold convert_send_to_draft. destruct Hp.
  repeat first [ apply within_ret, _ | apply within_lift_res, _
    | solve [auto] | apply within_bind; [apply _| |intros ?] ].
Qed.

(** What one tool call is allowed to do after its provider was looked up. *)
Lemma act_governed tool args p o :
  ProviderWithin (same sys_db) p → within governed (act tool args p o).
Proof.
  intros Hp. destruct o; simpl.
  - by apply at_sys_governed, execute_db.
  - apply within_throw, _.
  - destruct (String.eqb _ _); [apply within_ret, _|]. by apply at_sys_governed, convert_db.
Qed.

Lemma dispatch_governed tool args : within governed (dispatch tool args).
Proof.
  intros c Hwf. destruct (cx_paused c) eqn:Hpaused.
  { unfold dispatch, mbind, st_bind, gets. by rewrite Hpaused. }
  destruct (parse_account_id args) as [id|e| |] eqn:Hid.
  2-4: unfold dispatch, mbind, st_bind, gets, lift_res; by rewrite Hpaused, Hid.
  destruct (cx_providers c !! id) as [p|] eqn:Hprov.
  2: { unfold dispatch, mbind, st_bind, gets, lift_res, registry_get.
    rewrite Hpaused, Hid. unfold gets. by rewrite Hprov. }
  rewrite (dispatch_enforced _ _ _ _ _ Hpaused Hid Hprov).
  assert (Hp : ProviderWithin (same sys_db) p) by (by eapply cw_providers).
  revert Hwf. revert c Hpaused Hprov. intros c _ _. revert c.
  change (within governed (at_sys (for_account id) ≫= λ perms,
    at_desk (enforce perms (tool_category tool) (request_of tool args id))
      ≫= act tool args p)).
  apply within_bind; [apply _|apply at_sys_governed, for_account_db|intros perms].
  apply within_bind; [apply _| |intros o; by apply act_governed].
  apply at_desk_governed; [apply enforce_db|apply enforce_inv].
Qed.

Lemma handle_post_governed state header req :
  within governed (handle_post state header req).
Proof.
  unfold handle_post. destruct (check_auth _ _); [|apply within_ret, _].
  apply within_bind; [apply _| |intros r; apply within_ret, _].
  repeat match goal with
  | |- within _ (if ?b then _ else _) => destruct b; [apply within_ret, _|]
  | |- within _ (if ?b then _ else _) => destruct b; [|apply within_ret, _]
  end.
  unfold tools_call. destruct (String.eqb _ _).
  - apply within_bind; [apply _| |intros items; apply within_ret, _].
    apply within_catch, at_sys_governed, list_accounts_db.
  - destruct (find_tool _); [|apply within_ret, _].
    apply within_bind; [apply _| |intros r; apply within_ret, _].
    apply within_catch, dispatch_governed.
Qed.

Lemma handle_post_wf state header req :
  within (keeps ctx_wf) (handle_post state header req).
Proof. intros c Hwf. by apply handle_post_governed. Qed.

(** ** The IPC door *)

Lemma rotation_callback_ok id cfg cell :
  rotation_ok (mkAuthClient cfg cell (Some (make_rotation_callback id))).
Proof.
  intros cb rt [= <-]. unfold make_rotation_callback. apply within_ignore, secret_set_same; done.
Qed.

Lemma registry_insert_wf id p :
  ProviderWithin (same sys_db) p → within (keeps ctx_wf) (registry_insert id p).
Proof.
  intros Hp. apply within_modify. intros c [Hdb Hq Hps]. split; [done|done|]. simpl.
  intros id' p' [[_ <-]|[_ ?]]%lookup_insert_Some; [done|by eapply Hps].
Qed.

Lemma registry_remove_wf id : within (keeps ctx_wf) (registry_remove id).
Proof.
  apply within_modify. intros c [Hdb Hq Hps]. split; [done|done|]. simpl.
  intros id' p' [_ ?]%lookup_delete_Some. by eapply Hps.
Qed.

(** A client built with the rotation callback makes a provider that stays away
    from the database. *)
Lemma new_client_provider cfg tokens id email s client s' :
  with_rotation_callback cfg tokens (Some (make_rotation_callback id)) s =
    (Ok client, s') →
  ProviderWithin (same sys_db) (gmail_new client email).
Proof.
  unfold with_rotation_callback. intros H. run_ok.
  unfold gmail_new. apply gmail_db, rotation_callback_ok.
Qed.

Lemma with_rotation_callback_db cfg tokens cb :
  within (same sys_db) (with_rotation_callback cfg tokens cb).
Proof. unfold with_rotation_callback. frame. Qed.

(** The shared state of a daemon, and the daemon with another one. *)
Definition sys_of (d : Daemon) : Sys := cx_sys (h_ctx d).
Definition put_sys (s : Sys) (d : Daemon) : Daemon :=
  set_ctx (set_desk (set_dk_sys s (cx_desk (h_ctx d))) (h_ctx d)) d.

Lemma in_sys_run {A} (m : M A) d :
  in_sys m d = ((m (sys_of d)).1, put_sys (m (sys_of d)).2 d).
Proof. unfold in_sys, in_ctx, zoom. rewrite at_sys_run. by destruct (m _). Qed.

Lemma in_sys_Ok {A} (m : M A) d a d' :
  in_sys m d = (Ok a, d') → ∃ s', m (sys_of d) = (Ok a, s') ∧ d' = put_sys s' d.
Proof.
  rewrite in_sys_run. destruct (m _) as [r s'] eqn:E. simpl. intros [= -> <-]. by exists s'.
Qed.

Lemma sys_of_put s d : sys_of (put_sys s d) = s.
Proof. done. Qed.

Lemma register_Ok id p d u d' :
  in_ctx (registry_insert id p) d = (Ok u, d') →
  d' = set_ctx (set_providers (<[id := p]> (cx_providers (h_ctx d))) (h_ctx d)) d.
Proof. by intros [= _ <-]. Qed.

Lemma ignore_in_sys {A} (m : M A) d u d' :
  ignore (in_sys m) d = (Ok u, d') → d' = put_sys (m (sys_of d)).2 d.
Proof.
  unfold ignore. rewrite in_sys_run. destruct (m _) as [r s']. simpl.
  by destruct r; intros [= <-].
Qed.

Lemma modify_pending_wf f :
  (∀ d cid t, f (h_pending d) !! cid = Some t → daemon_wf d → within (same sys_db) t) →
  within (E:=Error) (keeps daemon_wf) (modify (λ d, set_pending (f (h_pending d)) d)).
Proof.
  intros Hf. apply within_modify. intros d Hd. split; [apply Hd|].
  intros cid t Ht. exact (Hf d cid t Ht Hd).
Qed.

Lemma notify_wf n : within (keeps daemon_wf) (notify n).
Proof. apply within_modify. by intros d []. Qed.

Lemma get_account_db id : within (same sys_db) (get_account id).
Proof. unfold get_account. frame. Qed.

Lemma get_app_state_db key : within (same sys_db) (get_app_state key).
Proof. unfold get_app_state. frame. Qed.

Lemma complete_authorization_db cfg ch t :
  within (same sys_db) (complete_authorization cfg ch t).
Proof.
  unfold complete_authorization, exchange_code, token_request. frame.
Qed.

Lemma oauth_task_db cfg ch : within (same sys_db) (oauth_task cfg ch).
Proof.
  unfold oauth_task. apply within_bind; [apply _|apply complete_authorization_db|].
  intros tokens. frame.
Qed.

Lemma begin_authorization_db cfg extra :
  within (same sys_db) (begin_authorization cfg extra).
Proof.
  unfold begin_authorization, pkce_generate, state_nonce. frame.
  intros s. unfold loopback_bind, same. by destruct (bind_loopback _).
Qed.

Lemma join_task_db t : within (same sys_db) t → within (same sys_db) (join_task t).
Proof.
  intros Ht s. specialize (Ht s). unfold join_task. by destruct (t s) as [[] s'].
Qed.

(** Everything of the shared state but the history. *)
Definition rest_of (s : Sys) := (sys_db s, sys_keychain s, sys_cells s).

Lemma get_account_rest id : within (same rest_of) (get_account id).
Proof. unfold get_account. frame. Qed.

Ltac door :=
  repeat first
    [ apply within_ret, _ | apply within_throw, _ | apply within_lift_res, _
    | apply within_gets, _ | apply notify_wf
    | apply within_ignore, in_sys_wf_same; solve [frame]
    | apply in_sys_wf_same; solve [frame | apply list_accounts_db
        | apply for_account_db | apply get_account_db
        | apply get_app_state_db | apply begin_authorization_db]
    | apply in_sys_wf; solve [auto with within]
    | apply within_bind; [apply _| |intros ?] ].

Lemma add_oauth_wf hc params : within (keeps daemon_wf) (add_oauth hc params).
Proof.
  unfold add_oauth. door. destruct (negb _); door.
  match goal with |- context [oauth_task ?cfg ?ch] =>
    apply (modify_pending_wf (λ m, <[ulid_to_string _ := oauth_task cfg ch]> m)) end.
  intros d cid t [[_ <-]|[_ ?]]%lookup_insert_Some Hd; [apply oauth_task_db|].
  by eapply dw_pending.
Qed.

Lemma persist_account_wf hc label tokens email :
  within (keeps daemon_wf) (persist_account hc label tokens email).
Proof.
  unfold persist_account. apply within_bind; [apply _|door|intros id].
  apply within_bind; [apply _|door|intros _].
  apply within_bind; [apply _| |intros _].
  { destruct (refresh_token tokens); door. }
  eapply (within_bind_post _ (λ client,
    ProviderWithin (same sys_db) (gmail_new client email))).
  - apply in_sys_wf_same, with_rotation_callback_db.
  - intros s a s' (s1 & H1 & _)%in_sys_Ok. by eapply new_client_provider.
  - intros client Hclient. apply within_bind; [apply _| |intros _; door].
    by apply in_ctx_wf, registry_insert_wf.
Qed.

Lemma complete_oauth_wf hc params : within (keeps daemon_wf) (complete_oauth hc params).
Proof.
  intros d Hd. unfold complete_oauth.
  unfold mbind at 1, st_bind at 1, lift_res at 1.
  destruct (param_str "challenge_id" params) as [cid|e| |]; [|done..].
  unfold mbind at 1, st_bind at 1, gets at 1.
  unfold mbind at 1, st_bind at 1, modify at 1.
  set (d1 := set_pending (delete cid (h_pending d)) d).
  assert (Hd1 : daemon_wf d1).
  { split; [apply Hd|]. simpl. intros c t [_ ?]%lookup_delete_Some. by eapply dw_pending. }
  destruct (h_pending d !! cid) as [t|] eqn:Ht; [|exact Hd1].
  assert (Htask : within (same sys_db) t) by exact (dw_pending _ Hd _ _ Ht).
  clearbody d1. revert d1 Hd1.
  change (within (keeps daemon_wf) (task ← lift_res (ok_or (Some t)
    (NotFound ("challenge " +:+ cid)));
    '(tokens, email) ← in_sys (join_task task);
    persist_account hc (default "" (get_str "label" params)) tokens email)).
  apply (within_bind_post _ (λ task, within (same sys_db) task)).
  - apply within_lift_res, _.
  - intros s a s' [[= <-] _]%lift_res_Ok. done.
  - intros task Hk. apply within_bind; [apply _|by apply in_sys_wf_same, join_task_db|].
    intros [tokens email]. apply persist_account_wf.
Qed.

Lemma decide_wf id dec : within (keeps daemon_wf) (in_desk (decide_approval id dec)).
Proof.
  apply in_ctx_wf, at_desk_wf; [|apply qsteps_inv, decide_qsteps].
  intros d. unfold decide_approval, mbind, st_bind, gets, same.
  by destruct (q_pending _ !! id) as [[p c]|].
Qed.

Lemma handle_wf hc method params : within (keeps daemon_wf) (handle hc method params).
Proof.
  unfold handle.
  repeat match goal with
  | |- within _ (if ?b then _ else _) => destruct b
  end.
  - unfold status. door.
  - unfold accounts_list. door.
  - apply add_oauth_wf.
  - apply complete_oauth_wf.
  - unfold cancel_oauth. door. apply (modify_pending_wf (delete _)).
    intros d c t [_ ?]%lookup_delete_Some Hd. by eapply dw_pending.
  - unfold remove_account. door. apply in_ctx_wf, registry_remove_wf.
  - unfold permissions_get. door.
  - unfold permissions_set. door.
  - door. apply in_ctx_wf, at_desk_wf; [done|by intros d ?].
  - unfold approvals_decide. door. apply decide_wf.
  - door.
  - unfold set_onboarding_complete. door.
  - door.
  - unfold mcp_pause. door. apply within_modify. intros d [[] ]. by split.
  - door.
Qed.

(** ** Startup *)

Lemma secret_get_db id kind : within (same sys_db) (secret_get id kind).
Proof. by apply secret_get_same. Qed.

Lemma hydrate_wf cfg : within (keeps ctx_wf) (hydrate_providers cfg).
Proof.
  unfold hydrate_providers.
  apply within_bind; [apply _|apply at_sys_wf_same, list_accounts_db|intros accs].
  apply within_for_each; [apply _|intros acc].
  apply within_bind; [apply _|apply at_sys_wf_same, secret_get_db|intros [rt|]];
    [|apply within_ret, _].
  apply within_bind; [apply _|apply at_sys_wf_same; frame|intros now].
  eapply (within_bind_post _ (λ client,
    ProviderWithin (same sys_db) (gmail_new client (acc_email acc)))).
  - apply at_sys_wf_same, with_rotation_callback_db.
  - intros s a s' (s1 & H1 & _)%at_sys_Ok. by eapply new_client_provider.
  - intros client Hclient. by apply registry_insert_wf.
Qed.

(** ** Steps *)

(** A request on either door, the startup, or a change of what the other tasks
    are about to do to the approval queue. *)
Inductive dstep : Daemon → Daemon → Prop :=
| DMcp state header req d : dstep d (in_ctx (handle_post state header req) d).2
| DIpc hc method params d : dstep d (handle hc method params d).2
| DHydrate cfg d : dstep d (in_ctx (hydrate_providers cfg) d).2
| DOthers sc d :
    dstep d (set_ctx (set_desk (set_script sc (cx_desk (h_ctx d))) (h_ctx d)) d).

(** A daemon that just started on an intact database. *)
Definition daemon_start (d : Daemon) : Prop :=
  db_wf (sys_db (cx_sys (h_ctx d))) ∧ dk_queue (cx_desk (h_ctx d)) = queue_new ∧
  cx_providers (h_ctx d) = ∅ ∧ h_pending d = ∅.

Lemma daemon_start_wf d : daemon_start d → daemon_wf d.
Proof.
  intros (Hdb & Hq & Hp & Ho). split; [split|].
  - done.
  - rewrite Hq. apply queue_inv_new.
  - rewrite Hp. intros *. by rewrite lookup_empty.
  - rewrite Ho. intros *. by rewrite lookup_empty.
Qed.

Lemma dstep_wf d d' : dstep d d' → daemon_wf d → daemon_wf d'.
Proof.
  intros [].
  - apply in_ctx_wf, handle_post_wf.
  - apply handle_wf.
  - apply in_ctx_wf, hydrate_wf.
  - intros [[] ]. by split.
Qed.

Lemma reachable_wf d d' : daemon_start d → rtc dstep d d' → daemon_wf d'.
Proof.
  intros Hd%daemon_start_wf Hs. induction Hs; [done|].
  by apply IHHs, (dstep_wf x).
Qed.
End daemon.

(** ** Properties *)

Section properties.
Context `{PF : Platform}.

(** In every state the daemon can reach from an intact database, through
    any sequence of requests on either door and any behaviour of the other
    tasks, of the network, of the keychain and of the clock, the database is
    intact (keys, CHECKs and foreign keys hold), the approval queue is
    well-formed, and no registered provider or pending authorization can change
    the database. *)
Theorem reachable_daemon_wf d d' :
  daemon_start d → rtc dstep d d' → daemon_wf d'.
Proof. apply reachable_wf. Qed.


(** An authorization that gave a refresh token becomes an account: a new row
    with the given label and email, the default policy of every category, the
    refresh token in the keychain, a registered provider whose token cell holds
    the tokens, and an announcement of exactly that account. *)
Theorem persist_account_complete
    `{UL : !UlidLaws, SL : !SerdeLaws, CL : !ChronoLaws, KL : !KeyringLaws}
    hc label tokens email d v d' :
  persist_account hc label tokens email d = (Ok v, d') →
  ∃ id now client,
    let new := new_gmail_account label email tokens in
    let key := account_to_string id in
    v = account_value (account_of id new now) ∧
    h_notifs d' = AccountAdded (account_of id new now) :: h_notifs d ∧
    db_accounts (sys_db (sys_of d)) !! key = None ∧
    is_Some (db_accounts (sys_db (sys_of d')) !! key) ∧
    (∀ c, stored_policy (sys_db (sys_of d')) id c = default_policy c) ∧
    is_Some (refresh_token tokens) ∧
    secret_at id RefreshToken (sys_of d') = refresh_token tokens ∧
    cx_providers (h_ctx d') = <[id := gmail_new client email]> (cx_providers (h_ctx d)) ∧
    sys_cells (sys_of d') !! ac_tokens client = Some tokens.
Proof.
  unfold persist_account.
  intros (id & d1 & (s1 & Hnew & ->)%in_sys_Ok & H)%bind_Ok.
  apply bind_Ok in H as (u & d2 & (s2 & Hinst & ->)%in_sys_Ok & H).
  apply bind_Ok in H as (u' & d3 & Hset & H).
  destruct (refresh_token tokens) as [rt|]; [|done].
  apply in_sys_Ok in Hset as (s3 & Hset & ->). destruct u'.
  apply bind_Ok in H as (client & d4 & (s4 & Hcl & ->)%in_sys_Ok & H).
  injection Hcl as <- <-.
  rewrite !sys_of_put in *.
  apply bind_Ok in H as (u2 & d5 & ->%register_Ok & H).
  apply bind_Ok in H as (o & d6 & (s5 & Hget & ->)%in_sys_Ok & H).
  unfold notify in H. run_ok.
  set (s4 := set_cells (sys_cells s3 ++ [tokens]) s3) in *.
  change (sys_of (set_ctx _ _)) with s4 in Hget.
  destruct (create_Ok _ _ _ _ Hnew) as (row & Hfree & Hdb1 & Hrow).
  assert (Hrow2 : db_accounts (sys_db s2) !! account_to_string id = Some row).
  { pose proof (install_defaults_accounts id s1) as Hacc. rewrite Hinst in Hacc.
    unfold same, compose in Hacc. simpl in Hacc. rewrite Hacc, Hdb1. simpl.
    apply lookup_insert_eq. }
  assert (Hdb4 : sys_db s3 = sys_db s2).
  { pose proof (secret_set_same sys_db id RefreshToken rt (λ _, eq_refl)
      (λ _ _, eq_refl) s2) as Hs. by rewrite Hset in Hs. }
  assert (H5 : rest_of s5 = rest_of s4).
  { pose proof (get_account_rest id s4) as Hs. by rewrite Hget in Hs. }
  injection H5 as Hdb5 Hk5 Hc5.
  destruct (timestamp_opt_now (EvUlid :: sys_hist (sys_of d))) as [t Ht].
  assert (Ho : o = Some (account_of id (new_gmail_account label email tokens)
    (clock_at (EvUlid :: sys_hist (sys_of d)) / 10 ^ 9)%Z)).
  { eapply get_account_stored; [done|exact Ht| |exact Hrow|exact Hget].
    change (sys_db s4) with (sys_db s3). by rewrite Hdb4. }
  subst o. injection H as <-.
  eexists id, _, (mkAuthClient _ (length (sys_cells s3)) _).
  cbn [h_notifs push_notif]. change (sys_of (push_notif _ _)) with s5.
  unfold secret_at. rewrite Hdb5, Hdb4, Hk5, Hc5.
  split_and!; [done|done|done|by eexists| |by eexists| |done|].
  - intros c. by eapply install_defaults_stored.
  - by apply secret_set_Ok in Hset as [? _].
  - simpl. by apply list_lookup_middle.
Qed.

(** An account whose authorization yields no refresh token is left half
    created: the method fails, but whenever its row was stored, the row stays in
    the database without a registered provider. *)
Theorem half_created_account hc label tokens email d id s1 s2 :
  refresh_token tokens = None →
  create (new_gmail_account label email tokens) (cx_sys (h_ctx d)) = (Ok id, s1) →
  install_defaults id s1 = (Ok tt, s2) →
  ∃ d', persist_account hc label tokens email d = (Err missing_refresh_token, d') ∧
    is_Some (db_accounts (sys_db (cx_sys (h_ctx d'))) !! account_to_string id) ∧
    cx_providers (h_ctx d') = cx_providers (h_ctx d).
Proof.
  intros Hrt Hcreate Hinst. unfold persist_account.
  assert (H1 : in_sys (create (new_gmail_account label email tokens)) d =
    (Ok id, set_ctx (set_desk (set_dk_sys s1 (cx_desk (h_ctx d))) (h_ctx d)) d)).
  { unfold in_sys, in_ctx, zoom. by rewrite at_sys_run, Hcreate. }
  set (d1 := set_ctx _ d) in H1.
  assert (H2 : in_sys (install_defaults id) d1 =
    (Ok tt, set_ctx (set_desk (set_dk_sys s2 (cx_desk (h_ctx d1))) (h_ctx d1)) d1)).
  { unfold in_sys, in_ctx, zoom. rewrite at_sys_run.
    change (cx_sys (h_ctx d1)) with s1. by rewrite Hinst. }
  set (d2 := set_ctx _ d1) in H2.
  exists d2. split.
  { etrans; [eapply (bind_step _ _ _ _ _ H1)|].
    etrans; [eapply (bind_step _ _ _ _ _ H2)|]. by rewrite Hrt. }
  split; [|done]. change (cx_sys (h_ctx d2)) with s2.
  destruct (create_Ok _ _ _ _ Hcreate) as (row & _ & Hdb & _).
  assert (Hacc : db_accounts (sys_db s2) = db_accounts (sys_db s1)).
  { pose proof (install_defaults_accounts id s1) as Hs. rewrite Hinst in Hs. exact Hs. }
  rewrite Hacc, Hdb. simpl. rewrite lookup_insert_eq. by eexists.
Qed.

(** An approval the daemon lists can be decided by the id it printed: the
    decision reaches exactly the request it names. *)
Theorem listed_approval_decidable `{!UlidLaws} d p dec :
  daemon_wf d → p ∈ (map_to_list (q_pending (dk_queue (cx_desk (h_ctx d))))).*2.*1 →
  ∃ d' c,
    approvals_decide (VObject [("id", VString (approval_to_string (pa_id p)));
                               ("decision", VString (decision_str dec))]) d =
      (Ok empty_object, d') ∧
    q_pending (dk_queue (cx_desk (h_ctx d))) !! pa_id p = Some (p, c) ∧
    q_chans (dk_queue (cx_desk (h_ctx d'))) !! c = Some (CSent (outcome_of dec)) ∧
    q_pending (dk_queue (cx_desk (h_ctx d'))) =
      delete (pa_id p) (q_pending (dk_queue (cx_desk (h_ctx d)))).
Proof.
  intros Hwf ([p' c'] & -> & Hin)%list_elem_of_fmap.
  apply list_elem_of_fmap in Hin as ([id q] & Heq & Hin). simpl in *. subst q.
  apply elem_of_map_to_list in Hin. rename p' into p.
  pose proof (cw_queue _ (dw_ctx _ Hwf)) as Hinv.
  pose proof (qi_key _ Hinv _ _ _ Hin) as Hkey. subst id.
  eexists _, c'. split; [|split; [exact Hin|]].
  - unfold approvals_decide, mbind, st_bind, lift_res. simpl.
    unfold approval_to_string. rewrite ulid_round_trip. simpl.
    assert (Hd : parse_decision (decision_str dec) = Ok dec) by (by destruct dec).
    rewrite Hd. unfold in_desk, in_ctx, zoom. rewrite at_desk_run.
    unfold decide_approval, mbind, st_bind, gets.
    replace (mkApprovalId (approval_ulid (pa_id p))) with (pa_id p) by (by destruct (pa_id p)).
    rewrite Hin. reflexivity.
  - simpl. split; [|done]. apply list_lookup_insert_eq.
    eapply lookup_lt_Some, (qi_open _ Hinv). exact Hin.
Qed.
End properties.
