(* ===== verification/Onboarding.v ===== *)
(** * Adding an account

    [add_oauth], [complete_oauth] and [cancel_oauth] of
    [crates/mail-mcp-daemon/src/ipc_handler.rs] as one protocol: a pending
    authorization is issued, waits while both doors serve other requests, and is
    joined or cancelled once. No other request creates an account, and no tool
    call changes what governs tool calls. *)
From S2P Require Export Daemon.

Section onboarding.
Context `{PF : Platform}.

(** A challenge as [begin_authorization] makes it: the listener waits for the
    nonce of the URL, and the URL carries the hash of the verifier. *)
Record challenge_wf (cfg : ProviderConfig) (ch : AuthChallenge) : Prop := {
  chw_state : ll_expected_state (ch_listener ch) = ch_state ch;
  chw_redirect : ch_redirect_uri ch = redirect_uri (ch_listener ch);
  chw_url : ch_auth_url ch =
    authorization_url cfg (ch_redirect_uri ch) (default_scopes cfg) (ch_state ch)
      (compute_challenge (ch_verifier ch));
}.

(** Every pending authorization is the task of a challenge that was issued. *)
Definition pending_issued (d : Daemon) : Prop :=
  ∀ cid t, h_pending d !! cid = Some t →
    ∃ cfg ch, t = oauth_task cfg ch ∧ challenge_wf cfg ch.

(** The request that exchanges a code for the tokens of a challenge. *)
Definition exchange_request (cfg : ProviderConfig) (ch : AuthChallenge) (code : string) :
    Request :=
  mkRequest POST (token_url cfg) None (FormBody [
    ("client_id", client_id cfg);
    ("grant_type", "authorization_code");
    ("code", code);
    ("redirect_uri", ch_redirect_uri ch);
    ("code_verifier", ch_verifier ch)]).

Definition userinfo_request (tokens : OAuthTokens) : Request :=
  mkRequest GET USERINFO_URL (Some (access_token tokens)) NoBody.

(** The user's browser answered the challenge: a connection to its port
    carried its nonce and a code, and no error. *)
Definition answered (ch : AuthChallenge) (code : string) (h : History) : Prop :=
  ∃ a, a ∈ loopback_traffic h (ll_port (ch_listener ch)) ∧ genuine (ch_state ch) code a.

(** ** Issuing *)

Lemma add_oauth_Ok hc params d v d' :
  add_oauth hc params d = (Ok v, d') →
  ∃ cid ch, challenge_wf (hc_oauth_cfg hc) ch ∧
    v = VObject [("challenge_id", VString cid); ("auth_url", VString (ch_auth_url ch))] ∧
    h_pending d' = <[cid := oauth_task (hc_oauth_cfg hc) ch]> (h_pending d).
Proof.
  unfold add_oauth. intros (p & d0 & [_ <-]%lift_res_Ok & H)%bind_Ok.
  destruct (negb _); [done|].
  apply bind_Ok in H as (ch & d1 & (s1 & Hb & ->)%in_sys_Ok & H).
  apply bind_Ok in H as (u & d2 & (s2 & Hu & ->)%in_sys_Ok & H).
  run_ok. exists (ulid_to_string u), ch. split; [|done].
  apply begin_authorization_consistent in Hb as (? & ? & ?). by split.
Qed.

(** ** Joining *)

(** A task that gave tokens was answered, and asked for the tokens of the code
    it was answered with and for the address of their owner. *)
Lemma oauth_task_Ok cfg ch s tokens email s' :
  challenge_wf cfg ch → oauth_task cfg ch s = (Ok (tokens, email), s') →
  ∃ code, answered ch code (sys_hist s) ∧
    http_log s' = userinfo_request tokens :: exchange_request cfg ch code :: http_log s.
Proof.
  intros Hch. unfold oauth_task. intros (t & s1 & H1 & H)%bind_Ok.
  apply complete_authorization_exchanges in H1 as (a & code & Hin & Hg & Hlog).
  apply bind_Ok in H as (rs & s2 & Hs & H). run_ok. simplify_eq/=.
  exists code. split; [exists a; by rewrite <-(chw_state _ _ Hch)|].
  unfold http_send in Hs. destruct (http_reply _ _); [done|]. injection Hs as <- <-.
  exact (f_equal (cons (userinfo_request tokens)) Hlog).
Qed.

Lemma join_task_Ok t s r s' : join_task t s = (Ok r, s') → t s = (Ok r, s').
Proof. unfold join_task. by destruct (t s) as [[] ?]. Qed.

(** How a completion runs when its challenge is pending, and when it is not. *)
Lemma complete_oauth_pending hc params d cid t :
  param_str "challenge_id" params = Ok cid → h_pending d !! cid = Some t →
  complete_oauth hc params d =
    ('(tokens, email) ← in_sys (join_task t);
     persist_account hc (default "" (get_str "label" params)) tokens email)
    (set_pending (delete cid (h_pending d)) d).
Proof.
  intros Hp Ht. unfold complete_oauth. rewrite Hp.
  unfold mbind at 1, st_bind at 1, lift_res at 1.
  unfold mbind at 1, st_bind at 1, gets at 1. rewrite Ht. done.
Qed.

Lemma delete_absent (d : Daemon) cid :
  h_pending d !! cid = None → set_pending (delete cid (h_pending d)) d = d.
Proof. intros H. rewrite (delete_id _ _ H). by destruct d. Qed.

Lemma complete_oauth_absent hc params d cid :
  param_str "challenge_id" params = Ok cid → h_pending d !! cid = None →
  complete_oauth hc params d = (Err (NotFound ("challenge " +:+ cid)), d).
Proof.
  intros Hp Ht. unfold complete_oauth. rewrite Hp.
  unfold mbind at 1, st_bind at 1, lift_res at 1.
  unfold mbind at 1, st_bind at 1, gets at 1.
  unfold mbind at 1, st_bind at 1, modify at 1. rewrite Ht.
  unfold mbind, st_bind, lift_res. simpl. by rewrite delete_absent.
Qed.

Lemma complete_oauth_Ok hc params d v d' :
  complete_oauth hc params d = (Ok v, d') →
  ∃ cid (t : OAuthTask) tokens email s1, param_str "challenge_id" params = Ok cid ∧
    h_pending d !! cid = Some t ∧ t (sys_of d) = (Ok (tokens, email), s1) ∧
    persist_account hc (default "" (get_str "label" params)) tokens email
      (put_sys s1 (set_pending (delete cid (h_pending d)) d)) = (Ok v, d').
Proof.
  intros H. destruct (param_str "challenge_id" params) as [cid|e| |] eqn:Hp.
  2-4: by unfold complete_oauth, mbind, st_bind, lift_res in H; rewrite Hp in H.
  destruct (h_pending d !! cid) as [t|] eqn:Ht;
    [|by rewrite (complete_oauth_absent hc _ _ _ Hp Ht) in H].
  rewrite (complete_oauth_pending hc _ _ _ _ Hp Ht) in H.
  apply bind_Ok in H as ([tokens email] & d1 & (s1 & Hj%join_task_Ok & ->)%in_sys_Ok & H).
  by exists cid, t, tokens, email, s1.
Qed.

(** ** What the other requests leave alone *)

(** No row of the account [key]. *)
Definition absent (key : string) (db : Db) : Prop := db_accounts db !! key = None.
Definition unknown (key : string) (d : Daemon) : Prop := absent key (sys_db (sys_of d)).

Lemma in_sys_unknown {A} key (m : M A) :
  within (keeps (absent key ∘ sys_db)) m → within (keeps (unknown key)) (in_sys m).
Proof. intros Hm d Hd. rewrite in_sys_run. exact (Hm (sys_of d) Hd). Qed.

Lemma in_sys_unknown_same {A} key (m : M A) :
  within (same sys_db) m → within (keeps (unknown key)) (in_sys m).
Proof. intros Hm. by apply in_sys_unknown, same_db_keeps. Qed.

(** A request that leaves the database alone. *)
Lemma in_ctx_unknown {A} key (m : CM A) :
  within (same (sys_db ∘ cx_sys)) m → within (keeps (unknown key)) (in_ctx m).
Proof.
  intros Hm d Hd. specialize (Hm (h_ctx d)). unfold in_ctx, zoom, same, compose in *.
  destruct (m (h_ctx d)) as [r c]. unfold unknown, sys_of in *. simpl in *. by rewrite Hm.
Qed.

Lemma at_sys_db {A} (m : M A) :
  within (same sys_db) m → within (same (sys_db ∘ cx_sys)) (at_sys m).
Proof. intros Hm c. rewrite at_sys_run. exact (Hm (cx_sys c)). Qed.

Lemma delete_account_absent key id :
  within (keeps (absent key ∘ sys_db)) (delete_account id).
Proof.
  unfold delete_account. apply within_bind; [apply _| |intros []; frame].
  apply sql_keeps. intros db a db' H. unfold absent in *.
  destruct (db_accounts db !! account_to_string id); intros [= <- <-]; [|done].
  apply lookup_delete_None. by right.
Qed.

Lemma set_permission_absent key id c p :
  within (keeps (absent key ∘ sys_db)) (set_permission id c p).
Proof.
  apply sql_keeps. intros db a db' H. destruct (_ && _); [|done].
  by destruct (db_accounts db !! _); intros [= <- <-].
Qed.

Lemma set_app_state_absent key k v :
  within (keeps (absent key ∘ sys_db)) (set_app_state k v).
Proof. apply sql_keeps. by intros db a db' H [= <- <-]. Qed.

Lemma hydrate_db cfg : within (same (sys_db ∘ cx_sys)) (hydrate_providers cfg).
Proof.
  unfold hydrate_providers.
  apply within_bind; [apply _|apply at_sys_db, list_accounts_db|intros accs].
  apply within_for_each; [apply _|intros acc].
  apply within_bind; [apply _|apply at_sys_db, secret_get_db|intros [rt|]];
    [|apply within_ret, _].
  apply within_bind; [apply _|apply at_sys_db; frame|intros now].
  apply within_bind; [apply _|apply at_sys_db, with_rotation_callback_db|by intros client c].
Qed.

Lemma decide_db id dec : within (same (sys_db ∘ cx_sys)) (at_desk (decide_approval id dec)).
Proof.
  intros c. rewrite at_desk_run.
  unfold decide_approval, mbind, st_bind, gets, same, compose.
  by destruct (q_pending _ !! id) as [[p ch]|].
Qed.

Lemma notify_unknown key n : within (keeps (unknown key)) (notify n).
Proof. apply within_modify. by intros d ?. Qed.

Ltac unknown_door :=
  repeat first
    [ apply within_ret, _ | apply within_throw, _ | apply within_lift_res, _
    | apply within_gets, _ | apply notify_unknown
    | apply within_ignore, in_sys_unknown_same; solve [frame]
    | apply in_sys_unknown_same; solve [frame | apply list_accounts_db
        | apply for_account_db | apply get_app_state_db | apply begin_authorization_db]
    | apply in_sys_unknown; first [ apply delete_account_absent
        | apply set_permission_absent | apply set_app_state_absent ]
    | apply in_ctx_unknown, decide_db
    | apply in_ctx_unknown; solve [by intros ?]
    | solve [apply within_modify; by intros ? ?]
    | apply within_bind; [apply _| |intros ?] ].

(** No method but the completion of an authorization creates an account. *)
Lemma handle_unknown hc method params key :
  method ≠ "accounts.complete_oauth" →
  within (keeps (unknown key)) (handle hc method params).
Proof.
  intros Hne. unfold handle. rewrite (proj2 (String.eqb_neq _ _) Hne).
  repeat match goal with |- within _ (if ?b then _ else _) => destruct b end;
    unfold status, accounts_list, add_oauth, cancel_oauth, remove_account,
      permissions_get, permissions_set, approvals_decide, set_onboarding_complete, mcp_pause;
    unknown_door.
  destruct (negb _); unknown_door.
Qed.

(** ** Who changes the pending authorizations *)

Lemma in_ctx_pending {A} (m : CM A) : within (same h_pending) (in_ctx m).
Proof. intros d. unfold in_ctx, zoom. by destruct (m (h_ctx d)). Qed.

Lemma in_sys_pending {A} (m : M A) : within (same h_pending) (in_sys m).
Proof. apply in_ctx_pending. Qed.

Lemma in_desk_pending {A} (m : DM A) : within (same h_pending) (in_desk m).
Proof. apply in_ctx_pending. Qed.

Ltac pending_door :=
  repeat first
    [ apply in_sys_pending | apply in_ctx_pending | apply in_desk_pending
    | apply within_ret, _ | apply within_throw, _ | apply within_lift_res, _
    | apply within_gets, _ | apply within_ignore, in_sys_pending
    | apply within_modify; by intros ?
    | apply within_bind; [apply _| |intros ?] ].

Lemma persist_account_pending hc label tokens email :
  within (same h_pending) (persist_account hc label tokens email).
Proof.
  unfold persist_account. pending_door. destruct (refresh_token tokens); pending_door.
Qed.

(** The methods that speak of challenges. *)
Definition oauth_methods : list string :=
  ["accounts.add_oauth"; "accounts.complete_oauth"; "accounts.cancel_oauth"].

Lemma handle_pending hc method params :
  method ∉ oauth_methods → within (same h_pending) (handle hc method params).
Proof.
  unfold oauth_methods. rewrite !not_elem_of_cons. intros (H1 & H2 & H3 & _).
  unfold handle.
  rewrite (proj2 (String.eqb_neq _ _) H1), (proj2 (String.eqb_neq _ _) H2),
    (proj2 (String.eqb_neq _ _) H3).
  repeat match goal with |- within _ (if ?b then _ else _) => destruct b end;
    unfold status, accounts_list, remove_account, permissions_get, permissions_set,
      approvals_decide, set_onboarding_complete, mcp_pause;
    pending_door.
Qed.

(** A completion leaves its challenge joined, whatever came of it. *)
Lemma complete_oauth_pending_after hc params d :
  h_pending (complete_oauth hc params d).2 =
    match param_str "challenge_id" params with
    | Ok cid => delete cid (h_pending d)
    | _ => h_pending d
    end.
Proof.
  destruct (param_str "challenge_id" params) as [cid|e| |] eqn:Hp.
  2-4: by unfold complete_oauth, mbind, st_bind, lift_res; rewrite Hp.
  destruct (h_pending d !! cid) as [t|] eqn:Ht.
  - rewrite (complete_oauth_pending hc _ _ _ _ Hp Ht).
    set (d1 := set_pending (delete cid (h_pending d)) d).
    change (h_pending ?x = _) with (h_pending x = h_pending d1). revert d1. intros d1.
    assert (Hw : within (same h_pending) ('(tokens, email) ← in_sys (join_task t);
      persist_account hc (default "" (get_str "label" params)) tokens email)).
    { apply within_bind; [apply _|apply in_sys_pending|].
      intros [tokens email]. apply persist_account_pending. }
    exact (Hw d1).
  - rewrite (complete_oauth_absent hc _ _ _ Hp Ht). simpl. by rewrite delete_id.
Qed.

Lemma cancel_oauth_pending_after params d :
  h_pending (cancel_oauth params d).2 =
    match param_str "challenge_id" params with
    | Ok cid => delete cid (h_pending d)
    | _ => h_pending d
    end.
Proof.
  unfold cancel_oauth, mbind, st_bind, lift_res, modify.
  by destruct (param_str "challenge_id" params).
Qed.

(** An issue adds at most one challenge, and answers with its name when it does. *)
Lemma add_oauth_pending_after hc params d :
  h_pending (add_oauth hc params d).2 = h_pending d ∨
  ∃ v, (add_oauth hc params d).1 = Ok v.
Proof.
  unfold add_oauth, mbind, st_bind, lift_res.
  destruct (param_str "provider" params); [|by left..].
  destruct (negb _); [by left|]. rewrite in_sys_run.
  destruct (begin_authorization _ _ _) as [[ch|e| |] s1]; simpl; [|by left..].
  right. by eexists.
Qed.

(** A step of the daemon that issues no challenge. *)
Inductive waits : Daemon → Daemon → Prop :=
| WMcp state header req d : waits d (in_ctx (handle_post state header req) d).2
| WIpc hc method params d :
    method ≠ "accounts.add_oauth" → waits d (handle hc method params d).2
| WHydrate cfg d : waits d (in_ctx (hydrate_providers cfg) d).2
| WOthers sc d :
    waits d (set_ctx (set_desk (set_script sc (cx_desk (h_ctx d))) (h_ctx d)) d).

(** A step is an issue or a step that waits. *)
Lemma dstep_waits d d' :
  dstep d d' → waits d d' ∨ ∃ hc params, d' = (add_oauth hc params d).2.
Proof.
  intros [state header req s|hc method params s|cfg s|sc s]; [by left; constructor| | |].
  - destruct (decide (method = "accounts.add_oauth")) as [->|Hne].
    + right. by exists hc, params.
    + left. by constructor.
  - by left; constructor.
  - left. apply WOthers.
Qed.

Lemma handle_complete hc params : handle hc "accounts.complete_oauth" params = complete_oauth hc params.
Proof. done. Qed.
Lemma handle_cancel hc params : handle hc "accounts.cancel_oauth" params = cancel_oauth params.
Proof. done. Qed.

(** Without an issue, the pending challenges can only become fewer. *)
Lemma waits_pending d d' : waits d d' → h_pending d' ⊆ h_pending d.
Proof.
  intros [state header req s|hc method params s Hne|cfg s|sc s].
  - by rewrite (in_ctx_pending (handle_post state header req) s).
  - destruct (decide (method = "accounts.complete_oauth")) as [->|H2];
      [|destruct (decide (method = "accounts.cancel_oauth")) as [->|H3]].
    + rewrite handle_complete, complete_oauth_pending_after.
      destruct (param_str _ _); [apply delete_subseteq|done..].
    + rewrite handle_cancel, cancel_oauth_pending_after.
      destruct (param_str _ _); [apply delete_subseteq|done..].
    + rewrite (handle_pending hc method params); [done|].
      unfold oauth_methods. rewrite !not_elem_of_cons.
      split_and!; [done..|apply not_elem_of_nil].
  - by rewrite (in_ctx_pending (hydrate_providers cfg) s).
  - done.
Qed.

Lemma waits_pending_rtc d d' : rtc waits d d' → h_pending d' ⊆ h_pending d.
Proof. induction 1 as [|x y z H%waits_pending _ IH]; [done|by etrans]. Qed.

(** Every pending authorization of a daemon was issued by it. *)
Lemma dstep_issued d d' : dstep d d' → pending_issued d → pending_issued d'.
Proof.
  intros [Hw%waits_pending|(hc & params & ->)]%dstep_waits Hd cid t Ht.
  - eapply Hd, lookup_weaken; [exact Ht|exact Hw].
  - destruct (add_oauth_pending_after hc params d) as [E|[v Hv]].
    + rewrite E in Ht. by eapply Hd.
    + destruct (add_oauth hc params d) as [r d1] eqn:E. simpl in *. subst r.
      apply add_oauth_Ok in E as (cid' & ch & Hch & _ & E). rewrite E in Ht.
      apply lookup_insert_Some in Ht as [[_ <-]|[_ Ht]]; [by eexists _, ch|by eapply Hd].
Qed.

Lemma reachable_issued d d' : daemon_start d → rtc dstep d d' → pending_issued d'.
Proof.
  intros (_ & _ & _ & Hp) Hs.
  assert (Hd : pending_issued d) by (intros ? ?; by rewrite Hp, lookup_empty).
  clear Hp. induction Hs as [|x y z H _ IH]; [done|]. by eapply IH, dstep_issued.
Qed.

(** A step that makes an unknown account known is a completion that succeeded
    in joining its challenge. *)
Lemma dstep_unknown d d' key :
  daemon_wf d → dstep d d' → unknown key d → ¬ unknown key d' →
  ∃ hc params, d' = (complete_oauth hc params d).2.
Proof.
  intros Hwf Hs H H'.
  destruct Hs as [state header req s|hc method params s|cfg s|sc s].
  - exfalso. apply H'.
    destruct (handle_post_governed state header req (h_ctx s)) as [_ E]; [apply Hwf|].
    unfold in_ctx, zoom. destruct (handle_post _ _ _ _) as [r c]. simpl in *.
    injection E as E _ _. unfold unknown, sys_of in *. simpl. by rewrite E.
  - destruct (decide (method = "accounts.complete_oauth")) as [->|Hne];
      [by exists hc, params|].
    exfalso. apply H'. by apply handle_unknown.
  - exfalso. apply H'. by apply (in_ctx_unknown key _ (hydrate_db cfg)).
  - done.
Qed.

Lemma set_permission_log id c p : within (same http_log) (set_permission id c p).
Proof. apply sql_same; done. Qed.

Lemma install_defaults_log id : within (same http_log) (install_defaults id).
Proof. apply within_for_each; [apply _|intros c]. apply set_permission_log. Qed.

Lemma secret_set_log id k v : within (same http_log) (secret_set id k v).
Proof. by apply secret_set_same. Qed.

Lemma create_log a : within (same http_log) (create a).
Proof. unfold create, insert_account. frame. Qed.

Lemma get_account_log id : within (same http_log) (get_account id).
Proof. unfold get_account. frame. Qed.

Lemma with_rotation_callback_log cfg tokens cb :
  within (same http_log) (with_rotation_callback cfg tokens cb).
Proof. unfold with_rotation_callback. frame. Qed.

Definition daemon_log (d : Daemon) : list Request := http_log (sys_of d).

Lemma in_sys_log {A} (m : M A) :
  within (same http_log) m → within (same daemon_log) (in_sys m).
Proof. intros Hm d. rewrite in_sys_run. exact (Hm (sys_of d)). Qed.

(** Storing an account sends nothing. *)
Lemma persist_account_log hc label tokens email :
  within (same daemon_log) (persist_account hc label tokens email).
Proof.
  unfold persist_account.
  repeat first
    [ apply within_bind; [apply _| |intros ?]
    | apply in_sys_log; first [ apply create_log | apply install_defaults_log
        | apply secret_set_log | apply with_rotation_callback_log | apply get_account_log ]
    | apply within_ret, _ | apply within_throw, _ | apply within_lift_res, _
    | solve [by intros ?]
    | match goal with |- within _ (match ?x with _ => _ end) => destruct x end ].
Qed.

(** A completion leaves the database alone, or joined its challenge and goes on
    to store the account. *)
Lemma complete_oauth_cases hc params d :
  pending_issued d →
  sys_db (sys_of (complete_oauth hc params d).2) = sys_db (sys_of d) ∨
  ∃ cid (t : OAuthTask) tokens email s1, param_str "challenge_id" params = Ok cid ∧
    h_pending d !! cid = Some t ∧ t (sys_of d) = (Ok (tokens, email), s1) ∧
    complete_oauth hc params d =
      persist_account hc (default "" (get_str "label" params)) tokens email
        (put_sys s1 (set_pending (delete cid (h_pending d)) d)).
Proof.
  intros Hiss. destruct (param_str "challenge_id" params) as [cid|e| |] eqn:Hp.
  2-4: by left; unfold complete_oauth, mbind, st_bind, lift_res; rewrite Hp.
  destruct (h_pending d !! cid) as [t|] eqn:Ht;
    [|left; by rewrite (complete_oauth_absent hc _ _ _ Hp Ht)].
  rewrite (complete_oauth_pending hc _ _ _ _ Hp Ht).
  destruct (Hiss cid t Ht) as (cfg & ch & Et & _).
  assert (Hdb : within (same sys_db) (join_task t)).
  { rewrite Et. apply join_task_db, oauth_task_db. }
  specialize (Hdb (sys_of d)). unfold mbind, st_bind. rewrite in_sys_run.
  change (sys_of (set_pending _ d)) with (sys_of d).
  destruct (join_task t (sys_of d)) as [[[tokens email]|e| |] s1] eqn:Hj; [|by left..].
  right. by exists cid, t, tokens, email, s1; apply join_task_Ok in Hj.
Qed.
End onboarding.

(** ** Properties *)

Section properties.
Context `{PF : Platform}.


(** C15: an account comes into being only through the user's browser: whenever a
    step of a reachable daemon makes a new account known, that step completed a
    pending authorization the daemon had issued, whose listener got the nonce of
    its own URL together with a code, and it sent exactly the exchange of that
    code, with the verifier whose hash is in that URL, and the question for the
    address; the authorization is used up. *)
Theorem account_needs_callback d0 d d' key :
  daemon_start d0 → rtc dstep d0 d → dstep d d' →
  db_accounts (sys_db (sys_of d)) !! key = None →
  is_Some (db_accounts (sys_db (sys_of d')) !! key) →
  ∃ cid cfg ch code tokens,
    h_pending d !! cid = Some (oauth_task cfg ch) ∧ challenge_wf cfg ch ∧
    answered ch code (sys_hist (sys_of d)) ∧
    http_log (sys_of d') =
      userinfo_request tokens :: exchange_request cfg ch code :: http_log (sys_of d) ∧
    h_pending d' = delete cid (h_pending d).
Proof.
  intros Hd Hs Hstep Hnone [row Hrow].
  pose proof (reachable_wf _ _ Hd Hs) as Hwf. pose proof (reachable_issued _ _ Hd Hs) as Hiss.
  destruct (dstep_unknown d d' key Hwf Hstep Hnone) as (hc & params & ->).
  { unfold unknown, absent. by rewrite Hrow. }
  pose proof (complete_oauth_pending_after hc params d) as Hpend.
  destruct (complete_oauth_cases hc params d Hiss) as
    [E|(cid & t & tokens & email & s1 & Hp & Ht & Hrun & E)].
  { unfold unknown in *. rewrite E in Hrow. by rewrite Hrow in Hnone. }
  destruct (Hiss cid t Ht) as (cfg & ch & -> & Hch). rewrite Hp in Hpend.
  destruct (oauth_task_Ok cfg ch _ _ _ _ Hch Hrun) as (code & Hans & Hlog).
  exists cid, cfg, ch, code, tokens. split_and!; [done..| |done].
  rewrite <-Hlog. rewrite E. apply persist_account_log.
Qed.

(** C17: an authorization is used at most once: after it was completed, with
    whatever outcome, or cancelled, and through any further requests on either
    door but the start of a new authorization, completing it again is refused
    as not found and changes nothing. *)
Theorem challenge_single_use hc params hc' params' cid d d1 d2 :
  param_str "challenge_id" params = Ok cid → param_str "challenge_id" params' = Ok cid →
  d1 = (complete_oauth hc params d).2 ∨ d1 = (cancel_oauth params d).2 →
  rtc waits d1 d2 →
  complete_oauth hc' params' d2 = (Err (NotFound ("challenge " +:+ cid)), d2).
Proof.
  intros Hp Hp' Hd1 Hw%waits_pending_rtc. apply complete_oauth_absent; [done|].
  assert (H1 : h_pending d1 !! cid = None).
  { destruct Hd1 as [-> | ->];
      [rewrite complete_oauth_pending_after|rewrite cancel_oauth_pending_after];
      rewrite Hp; apply lookup_delete_eq. }
  by eapply lookup_weaken_None.
Qed.

(** C16: the whole way of adding an account: the URL a started authorization
    answers with carries the nonce and the hash of the verifier of one
    challenge; if later, whatever was served meanwhile, that authorization is
    still pending and its completion succeeds, then the browser came back with
    that nonce and a code, the code was exchanged with that verifier, and the
    account answered is stored with the default policies and its refresh token,
    is registered with a client that holds the tokens, and was announced. *)
Theorem onboarding_completes
    `{UL : !UlidLaws, SL : !SerdeLaws, CL : !ChronoLaws, KL : !KeyringLaws}
    hc hc' pa pc cid d1 v d2 d3 acc d4 :
  add_oauth hc pa d1 = (Ok v, d2) → get_str "challenge_id" v = Some cid →
  h_pending d3 !! cid = h_pending d2 !! cid →
  param_str "challenge_id" pc = Ok cid → complete_oauth hc' pc d3 = (Ok acc, d4) →
  ∃ ch code tokens email id now client,
    let label := default "" (get_str "label" pc) in
    let account := account_of id (new_gmail_account label email tokens) now in
    challenge_wf (hc_oauth_cfg hc) ch ∧ get_str "auth_url" v = Some (ch_auth_url ch) ∧
    answered ch code (sys_hist (sys_of d3)) ∧
    http_log (sys_of d4) = userinfo_request tokens ::
      exchange_request (hc_oauth_cfg hc) ch code :: http_log (sys_of d3) ∧
    acc = account_value account ∧ h_notifs d4 = AccountAdded account :: h_notifs d3 ∧
    is_Some (db_accounts (sys_db (sys_of d4)) !! account_to_string id) ∧
    (∀ c, stored_policy (sys_db (sys_of d4)) id c = default_policy c) ∧
    is_Some (refresh_token tokens) ∧
    secret_at id RefreshToken (sys_of d4) = refresh_token tokens ∧
    cx_providers (h_ctx d4) !! id = Some (gmail_new client email) ∧
    sys_cells (sys_of d4) !! ac_tokens client = Some tokens.
Proof.
  intros (cid' & ch & Hch & -> & E2)%add_oauth_Ok [= ->] H3 Hp Hc.
  apply complete_oauth_Ok in Hc as (cid2 & t & tokens & email & s1 & Hp2 & Ht & Hrun & Hc).
  rewrite Hp in Hp2. injection Hp2 as Ecid. subst cid2. rewrite H3, E2, lookup_insert_eq in Ht.
  injection Ht as <-.
  destruct (oauth_task_Ok _ ch _ _ _ _ Hch Hrun) as (code & Hans & Hlog).
  pose proof (persist_account_log hc' (default "" (get_str "label" pc)) tokens email
    (put_sys s1 (set_pending (delete cid (h_pending d3)) d3))) as Hl.
  rewrite Hc in Hl.
  apply persist_account_complete in Hc as
    (id & now & client & -> & Hn & _ & Hrow & Hpol & Hrt & Hsec & Hreg & Hcell).
  exists ch, code, tokens, email, id, now, client.
  split_and!; [done|done|done| |done|done|done|done|done|done| |done].
  - rewrite <-Hlog. exact Hl.
  - rewrite Hreg. apply lookup_insert_eq.
Qed.
End properties.
