(* ===== verification/Registry.v ===== *)
(** * The registry of providers

    [ProviderRegistry] of [crates/mail-mcp-daemon/src/mcp/dispatch.rs] against the table
    of accounts: while requests are handled one at a time, every registered provider
    belongs to a stored account, so a tool call is judged by policies that are stored. *)
From S2P Require Export Onboarding.

Section registry.
Context `{PF : Platform}.

(** ** Statements that take effect or do not *)

(** A statement takes effect as a whole or fails without one. *)
Lemma sql_answer {A} (stmt : Db → Constraint + (A * Db)) s r s' :
  sql stmt s = (r, s') →
  (∃ a, r = Ok a) ∨ (∃ e, r = Err e ∧ s' = record_ev EvSql s).
Proof.
  unfold sql. destruct (sql_fault _); [intros [= <- <-]; right; by eexists|].
  destruct (stmt _) as [c|[a db]]; intros [= <- <-]; [right|left]; by eexists.
Qed.

(** What [create] did, or that it did nothing. *)
Lemma create_answer new s r s' :
  create new s = (r, s') →
  (∃ id, r = Ok id) ∨ (is_ok r = false ∧ sys_db s' = sys_db s).
Proof.
  unfold create, insert_account, account_id_new, now_timestamp.
  unfold mbind, st_bind, ulid_new, utc_now, mret, st_ret.
  destruct (sql _ _) as [r1 s1] eqn:E. destruct (sql_answer _ _ _ _ E) as [[[] ->]|(e & -> & ->)].
  - intros [= <- <-]. left. by eexists.
  - intros [= <- <-]. by right.
Qed.

(** What [delete] did, or that it did nothing. *)
Lemma delete_account_answer id s r s' :
  delete_account id s = (r, s') →
  (r = Ok tt ∧ is_Some (db_accounts (sys_db s) !! account_to_string id) ∧
    sys_db s' = with_permissions (cascade (account_to_string id))
      (with_accounts (delete (account_to_string id)) (sys_db s))) ∨
  (is_ok r = false ∧ sys_db s' = sys_db s).
Proof.
  unfold delete_account, delete_row, sql, mbind, st_bind.
  destruct (sql_fault _); [intros [= <- <-]; by right|].
  destruct (db_accounts (sys_db s) !! account_to_string id) eqn:Hk;
    intros [= <- <-]; [left; split; [done|split; [by eexists|done]]|by right].
Qed.

(** ** Providers and accounts *)

(** Every account has an id for its key, and every provider an account. *)
Record listed (c : Context) : Prop := {
  li_key key row : db_accounts (sys_db (cx_sys c)) !! key = Some row →
    ∃ id, key = account_to_string id;
  li_account id : is_Some (cx_providers c !! id) →
    is_Some (db_accounts (sys_db (cx_sys c)) !! account_to_string id);
}.

(** What that depends on. *)
Definition roll (c : Context) : gmap string AccountRow * gmap AccountId MailProvider :=
  (db_accounts (sys_db (cx_sys c)), cx_providers c).
Definition roll_of (d : Daemon) := roll (h_ctx d).

Lemma listed_same c c' : roll c' = roll c → listed c → listed c'.
Proof. intros [= E1 E2] [H1 H2]. split; by rewrite E1, ?E2. Qed.

(** ** What leaves both alone *)

Lemma in_sys_roll {A} (m : M A) :
  within (same (db_accounts ∘ sys_db)) m → within (same roll_of) (in_sys m).
Proof.
  intros Hm d. rewrite in_sys_run. specialize (Hm (sys_of d)).
  unfold same, compose, roll_of, roll, sys_of, cx_sys in *. simpl in *. by rewrite Hm.
Qed.

Lemma same_accounts {A} (m : M A) :
  within (same sys_db) m → within (same (db_accounts ∘ sys_db)) m.
Proof. intros Hm s. specialize (Hm s). unfold same, compose in *. by rewrite Hm. Qed.

Lemma in_sys_roll_same {A} (m : M A) : within (same sys_db) m → within (same roll_of) (in_sys m).
Proof. intros Hm. by apply in_sys_roll, same_accounts. Qed.

Lemma set_permission_accounts id c p :
  within (same (db_accounts ∘ sys_db)) (set_permission id c p).
Proof.
  intros s. unfold set_permission, upsert_permission, sql, same, compose.
  destruct (sql_fault _); [done|]. simpl. destruct (_ && _); [|done].
  by destruct (db_accounts _ !! _).
Qed.

Lemma install_defaults_roll id :
  within (same (db_accounts ∘ sys_db)) (install_defaults id).
Proof.
  apply within_for_each; [apply _|intros c; apply set_permission_accounts].
Qed.

Lemma set_app_state_accounts k v : within (same (db_accounts ∘ sys_db)) (set_app_state k v).
Proof.
  intros s. unfold set_app_state, sql, same, compose. by destruct (sql_fault _).
Qed.

Lemma decide_roll id dec : within (same roll_of) (in_desk (decide_approval id dec)).
Proof.
  intros d. unfold in_desk, in_ctx, zoom. rewrite at_desk_run. unfold same, roll_of, roll, cx_sys.
  unfold decide_approval, mbind, st_bind, gets. simpl.
  by destruct (q_pending _ !! id) as [[p ch]|].
Qed.

Ltac roll_door :=
  repeat first
    [ apply within_ret, _ | apply within_throw, _ | apply within_lift_res, _
    | apply within_gets, _ | apply decide_roll
    | solve [apply within_modify; by intros ?]
    | apply within_ignore, in_sys_roll_same; solve [frame]
    | apply in_sys_roll_same; solve [frame | apply list_accounts_db
        | apply for_account_db | apply get_account_db | apply get_app_state_db
        | apply begin_authorization_db | apply with_rotation_callback_db]
    | apply in_sys_roll; first [ apply set_permission_accounts | apply set_app_state_accounts
        | apply install_defaults_roll ]
    | apply within_bind; [apply _| |intros ?]
    | match goal with |- within _ (if ?b then _ else _) => destruct b end ].

(** The methods that do not speak of accounts. *)
Lemma handle_roll hc method params :
  method ≠ "accounts.complete_oauth" → method ≠ "accounts.remove" →
  within (same roll_of) (handle hc method params).
Proof.
  intros H1 H2. unfold handle.
  rewrite (proj2 (String.eqb_neq _ _) H1), (proj2 (String.eqb_neq _ _) H2).
  repeat match goal with |- within _ (if ?b then _ else _) => destruct b end;
    unfold status, accounts_list, add_oauth, cancel_oauth, permissions_get,
      permissions_set, approvals_decide, set_onboarding_complete, mcp_pause;
    roll_door.
  by intros d.
Qed.

(** ** Removing and completing *)

(** The row and the provider go together; a removal that fails takes neither. *)
Lemma remove_listed `{!UlidLaws} params d :
  listed (h_ctx d) → listed (h_ctx (remove_account params d).2).
Proof.
  intros Hl. unfold remove_account, mbind, st_bind, lift_res.
  destruct (param_account params) as [id|e| |]; [|done..]. rewrite in_sys_run.
  destruct (delete_account id (sys_of d)) as [[u|e| |] s1] eqn:Hdel; simpl.
  2-4: eapply listed_same; [|exact Hl]; unfold roll, cx_sys; simpl;
    apply delete_account_answer in Hdel as [[? _]|[_ Hdb]]; [done|by rewrite Hdb].
  apply delete_account_Ok in Hdel as [Hdel _].
  unfold ignore. rewrite in_sys_run. destruct (secret_purge_total id s1) as [s2 Hp].
  rewrite sys_of_put, Hp. simpl.
  assert (Hdb : sys_db s2 = sys_db s1).
  { pose proof (secret_purge_same sys_db id ltac:(done) ltac:(done) s1) as Hsame.
    by rewrite Hp in Hsame. }
  destruct Hl as [H1 H2]. split; unfold cx_sys in *; simpl; rewrite Hdb, Hdel.
  - intros key row [_ ?]%lookup_delete_Some. by eapply H1.
  - intros id' [p Hp']. apply lookup_delete_Some in Hp' as [Hne Hp'].
    rewrite lookup_delete_ne; [by apply H2; exists p|].
    intros Heq%account_to_string_inj. by apply Hne.
Qed.

(** An account and its key, and no provider without an account. *)
Definition listed_with (id : AccountId) (d : Daemon) : Prop :=
  listed (h_ctx d) ∧ is_Some (db_accounts (sys_db (sys_of d)) !! account_to_string id).

Lemma roll_keeps {A} id (m : HM A) :
  within (same roll_of) m → within (keeps (listed_with id)) m.
Proof.
  intros Hm d [Hl Hid]. specialize (Hm d). unfold same, roll_of in Hm.
  split; [by eapply listed_same|]. unfold sys_of. by injection Hm as -> _.
Qed.

Lemma register_keeps id p : within (keeps (listed_with id)) (in_ctx (registry_insert id p)).
Proof.
  intros d [[H1 H2] Hid]. split; [split; [exact H1|]|exact Hid]. simpl.
  intros id'. destruct (decide (id = id')) as [<-|Hne]; [done|].
  rewrite lookup_insert_ne by done. apply H2.
Qed.

Lemma persist_listed hc label tokens email d :
  listed (h_ctx d) → listed (h_ctx (persist_account hc label tokens email d).2).
Proof.
  intros Hl. unfold persist_account. unfold mbind at 1, st_bind at 1. rewrite in_sys_run.
  destruct (create (new_gmail_account label email tokens) (sys_of d)) as [r s1] eqn:Hc.
  destruct r as [id|e| |]; simpl.
  2-4: eapply listed_same; [|exact Hl]; unfold roll, cx_sys; simpl;
    apply create_answer in Hc as [[? ?]|[_ Hdb]]; [done|by rewrite Hdb].
  apply create_Ok in Hc as (row & Hnone & Hdb & _).
  match goal with |- listed (h_ctx (?m ?d1).2) =>
    assert (Hw : within (keeps (listed_with id)) m); [|apply (Hw d1)] end.
  { apply within_bind; [apply _|apply roll_keeps; roll_door|intros _].
    apply within_bind; [apply _| |intros _].
    { apply roll_keeps. destruct (refresh_token tokens); roll_door. }
    apply within_bind; [apply _|apply roll_keeps; roll_door|intros client].
    apply within_bind; [apply _|apply register_keeps|intros _].
    apply roll_keeps. roll_door. }
  unfold sys_of, cx_sys in *. destruct Hl as [H1 H2].
  split; [split|]; unfold sys_of, cx_sys; simpl; rewrite Hdb; simpl.
  - intros key r [[<- _]|[_ ?]]%lookup_insert_Some; [by exists id|by eapply H1].
  - intros id' Hp. apply lookup_insert_is_Some. destruct (decide (account_to_string id = account_to_string id')); [by left|].
    right. split; [done|]. by apply H2.
  - rewrite lookup_insert_eq. by eexists.
Qed.

Lemma complete_listed hc params d :
  daemon_wf d → listed (h_ctx d) → listed (h_ctx (complete_oauth hc params d).2).
Proof.
  intros Hwf Hl. destruct (param_str "challenge_id" params) as [cid|e| |] eqn:Hp.
  2-4: by unfold complete_oauth, mbind, st_bind, lift_res; rewrite Hp.
  destruct (h_pending d !! cid) as [t|] eqn:Ht;
    [|by rewrite (complete_oauth_absent hc _ _ _ Hp Ht)].
  rewrite (complete_oauth_pending hc _ _ _ _ Hp Ht).
  set (d1 := set_pending _ d). assert (Hl1 : listed (h_ctx d1)) by exact Hl.
  pose proof (in_sys_roll_same _ (join_task_db t (dw_pending _ Hwf _ _ Ht)) d1) as Hj.
  clearbody d1. unfold mbind, st_bind.
  destruct (in_sys (join_task t) d1) as [[[tokens email]|e| |] d2];
    [apply persist_listed|..]; by eapply listed_same.
Qed.

(** ** The start *)

Lemma into_accounts_elem rows accs acc :
  into_accounts rows = Ok accs → acc ∈ accs → ∃ row, row ∈ rows ∧ into_account row = Ok acc.
Proof.
  revert accs. induction rows as [|row rows IH]; intros accs; simpl.
  { intros [= <-] H. by apply not_elem_of_nil in H. }
  destruct (into_account row) as [a|e| |] eqn:Ha; simpl; [|done..].
  destruct (into_accounts rows) as [rest|e| |]; simpl; [|done..].
  intros [= <-] [->|Hin]%elem_of_cons; [exists row; split; [by left|done]|].
  destruct (IH rest eq_refl Hin) as (row' & ? & ?). exists row'. split; [by right|done].
Qed.

Lemma into_account_id row acc : into_account row = Ok acc → account_from_str (row_id row) = inr (acc_id acc).
Proof.
  unfold into_account. destruct (account_from_str _) as [e|id]; [done|].
  destruct (provider_from_str _); [done|].
  destruct (parse_json _ de_value _); simpl; [|done..].
  destruct (parse_json _ (de_vec de_string) _); simpl; [|done..].
  by destruct (timestamp_opt _); intros [= <-].
Qed.

(** An account that is listed is stored under its id. *)
Lemma list_accounts_stored `{UL : !UlidLaws, SL : !SqliteLaws} s accs s' acc :
  db_wf (sys_db s) →
  (∀ key row, db_accounts (sys_db s) !! key = Some row → ∃ id, key = account_to_string id) →
  list_accounts s = (Ok accs, s') → acc ∈ accs →
  is_Some (db_accounts (sys_db s) !! account_to_string (acc_id acc)).
Proof.
  intros Hwf Hkey (rows & s1 & Hrows & Hi)%bind_Ok Hin.
  apply lift_res_Ok in Hi as [Hi _].
  destruct (into_accounts_elem _ _ _ Hi Hin) as (row & Hrow & Hid%into_account_id).
  unfold list_rows, select in Hrows. apply sql_Ok in Hrows as (db & [= <- <-] & _).
  rewrite order_by_perm in Hrow. apply list_elem_of_fmap in Hrow as ([key r] & -> & Hr).
  apply elem_of_map_to_list in Hr. simpl in Hid.
  rewrite (wf_key _ Hwf _ _ Hr) in Hid. destruct (Hkey _ _ Hr) as [id ->].
  rewrite account_from_to_string in Hid. injection Hid as <-. by exists r.
Qed.

Lemma within_for_each_elem {S E X} (R : relation S) `{!PreOrder R} (xs : list X)
    (f : X → ST S E unit) :
  (∀ x, x ∈ xs → within R (f x)) → within R (for_each xs f).
Proof.
  induction xs as [|x xs IH]; intros Hf; [apply within_ret, _|]. simpl.
  apply within_bind; [apply _|apply Hf; by left|intros _].
  apply IH. intros y Hy. apply Hf. by right.
Qed.

(** A context over the database [db], whose providers have accounts. *)
Definition listed_in (db : Db) (c : Context) : Prop := sys_db (cx_sys c) = db ∧ listed c.

Lemma at_sys_listed_in {A} db (m : M A) :
  within (same sys_db) m → within (keeps (listed_in db)) (at_sys m).
Proof.
  intros Hm c [Hdb Hl]. pose proof (at_sys_db m Hm c) as H. unfold same, compose in H.
  split; [by rewrite H|]. eapply listed_same; [|exact Hl]. unfold roll. rewrite H.
  by rewrite at_sys_run.
Qed.

Lemma hydrate_listed `{UL : !UlidLaws, SL : !SqliteLaws} cfg c :
  ctx_wf c → listed c → listed (hydrate_providers cfg c).2.
Proof.
  intros Hwf Hl. unfold hydrate_providers. unfold mbind at 1, st_bind at 1.
  pose proof (at_sys_listed_in (sys_db (cx_sys c)) list_accounts list_accounts_db c
    (conj eq_refl Hl)) as Hl1.
  rewrite at_sys_run in Hl1 |- *. destruct (list_accounts (cx_sys c)) as [r s1] eqn:E.
  simpl in Hl1 |- *. destruct r as [accs|e| |]; [|apply Hl1..].
  assert (Hacc : ∀ acc, acc ∈ accs →
    is_Some (db_accounts (sys_db (cx_sys c)) !! account_to_string (acc_id acc))).
  { intros acc. eapply list_accounts_stored; [apply Hwf|by apply li_key|exact E]. }
  match goal with |- listed (?m ?c1).2 =>
    assert (Hw : within (keeps (listed_in (sys_db (cx_sys c)))) m); [|apply (Hw c1 Hl1)] end.
  apply within_for_each_elem; [apply _|]. intros acc Hin.
  apply within_bind; [apply _|apply at_sys_listed_in, secret_get_db|intros [rt|]];
    [|apply within_ret, _].
  apply within_bind; [apply _|apply at_sys_listed_in; frame|intros now].
  apply within_bind; [apply _|apply at_sys_listed_in, with_rotation_callback_db|].
  intros client c2 [Hdb [H1 H2]]. split; [exact Hdb|]. split; [exact H1|]. simpl.
  intros id. destruct (decide (acc_id acc = id)) as [<-|Hne].
  - intros _. unfold cx_sys in *. simpl. rewrite Hdb. by apply Hacc.
  - rewrite lookup_insert_ne by done. apply H2.
Qed.

(** ** Every request *)

Lemma dstep_listed `{UL : !UlidLaws, SL : !SqliteLaws} d d' :
  dstep d d' → daemon_wf d → listed (h_ctx d) → listed (h_ctx d').
Proof.
  intros [state header req s|hc method params s|cfg s|sc s] Hwf Hl.
  - destruct (handle_post_governed state header req (h_ctx s) (dw_ctx _ Hwf)) as [_ [= E1 E2 _]].
    unfold in_ctx, zoom. destruct (handle_post _ _ _ _) as [r c]. simpl in *.
    eapply listed_same; [|exact Hl]. unfold roll. by rewrite E1, E2.
  - destruct (decide (method = "accounts.complete_oauth")) as [->|H1];
      [by apply complete_listed|].
    destruct (decide (method = "accounts.remove")) as [->|H2]; [by apply remove_listed|].
    eapply listed_same; [|exact Hl]. exact (handle_roll hc method params H1 H2 s).
  - unfold in_ctx, zoom. pose proof (hydrate_listed cfg (h_ctx s) (dw_ctx _ Hwf) Hl) as Hh.
    by destruct (hydrate_providers cfg (h_ctx s)).
  - eapply listed_same; [|exact Hl]. done.
Qed.
End registry.

(** ** Properties *)

Section properties.
Context `{PF : Platform}.

(** C14: while requests are handled one at a time, over both doors and from the start on,
    every registered provider belongs to a stored account: what serves a tool call is
    judged by policies of a row that exists. *)
Theorem providers_have_accounts `{UL : !UlidLaws, SL : !SqliteLaws} d0 d id p :
  daemon_start d0 →
  (∀ key row, db_accounts (sys_db (sys_of d0)) !! key = Some row →
    ∃ id, key = account_to_string id) →
  rtc dstep d0 d → cx_providers (h_ctx d) !! id = Some p →
  is_Some (db_accounts (sys_db (sys_of d)) !! account_to_string id).
Proof.
  intros H0 Hkey Hr Hp.
  assert (Hl : listed (h_ctx d0)).
  { destruct H0 as (_ & _ & Hnone & _). split; [exact Hkey|].
    intros id'. rewrite Hnone, lookup_empty. by intros []. }
  apply daemon_start_wf in H0. assert (listed (h_ctx d)) as [_ H2].
  { clear Hp Hkey. induction Hr as [|d1 d2 d3 Hs _ IH]; [done|].
    apply IH; [by eapply dstep_wf|by eapply dstep_listed]. }
  apply H2. by exists p.
Qed.
End properties.
