(* ===== verification/IpcSteps.v ===== *)
(** * The IPC handler, step by step

    The methods of [crates/mail-mcp-daemon/src/ipc_handler.rs] as programs: trees of
    the steps that no other task interrupts (one lock, one SQL statement, one call to
    the keychain, one store to an atomic). Between two steps of a request the other
    connections and the tool calls take theirs. Run alone, a program is the method of
    [IpcHandler]. *)
From S2P Require Export Registry.

Section programs.
Context `{PF : Platform}.

(** A program has ended, or takes a step that gives the rest of it; a step that fails
    ends it. *)
Inductive Prog (A : Type) : Type :=
| Done (r : Result A)
| Step (m : Daemon → Result (Prog A) * Daemon).
#[global] Arguments Done {A} r.
#[global] Arguments Step {A} m.

(** The results of a step that ends its program. *)
Definition ended_with {X A} (r : Result X) (next : X → Prog A) : Prog A :=
  match r with
  | Ok x => next x
  | Err e => Done (Err e)
  | Panic => Done Panic
  | Hang => Done Hang
  end.

(** One turn of a program. *)
Definition turn {A} (p : Prog A) (d : Daemon) : Prog A * Daemon :=
  match p with
  | Done r => (Done r, d)
  | Step m => (ended_with (m d).1 id, (m d).2)
  end.

(** All turns of a program, nobody else taking one. *)
Fixpoint run {A} (p : Prog A) : HM A := λ d,
  match p with
  | Done r => (r, d)
  | Step m =>
      match m d with
      | (Ok p, d') => run p d'
      | (Err e, d') => (Err e, d')
      | (Panic, d') => (Panic, d')
      | (Hang, d') => (Hang, d')
      end
  end.

#[global] Instance prog_ret : MRet Prog := λ A a, Done (Ok a).
#[global] Instance prog_bind : MBind Prog := λ A B f,
  fix go (p : Prog A) : Prog B :=
    match p with
    | Done r => ended_with r f
    | Step m => Step (λ d,
        match m d with
        | (Ok p, d') => (Ok (go p), d')
        | (Err e, d') => (Err e, d')
        | (Panic, d') => (Panic, d')
        | (Hang, d') => (Hang, d')
        end)
    end.

(** A step that gives a value. *)
Definition once {A} (m : HM A) : Prog A := Step (m ≫= λ a, mret (mret a)).
Definition pure {A} (r : Result A) : Prog A := Done r.

Fixpoint for_each_step {X} (xs : list X) (f : X → Prog unit) : Prog unit :=
  match xs with
  | [] => mret tt
  | x :: xs => _ ← f x; for_each_step xs f
  end.

(** ** The methods *)

(** [status] *)
Definition status_prog (hc : HandlerConfig) : Prog Value :=
  now ← once (in_sys utc_now);
  accs ← once (in_sys list_accounts);
  paused ← once (gets (λ d, cx_paused (h_ctx d)));
  complete ← once (in_sys (get_app_state "onboarding_complete"));
  mret (status_value {|
    st_version := hc_version hc;
    st_uptime_secs := Z.max 0 ((now - hc_started_at hc) / 10 ^ 9)%Z;
    st_account_count := as_u32 (Z.of_nat (length accs));
    st_mcp_paused := paused;
    st_onboarding_complete :=
      match complete with Some s => String.eqb s "true" | None => false end |}).

(** [add_oauth]: the listener is bound before the challenge is listed. *)
Definition add_oauth_prog (hc : HandlerConfig) (params : Value) : Prog Value :=
  provider ← pure (param_str "provider" params);
  if negb (String.eqb provider "gmail") then
    pure (Err (Provider ("provider not supported in v0.1a: " +:+ provider)))
  else
    challenge ← once (in_sys (begin_authorization (hc_oauth_cfg hc) None));
    u ← once (in_sys ulid_new);
    let challenge_id := ulid_to_string u in
    _ ← once (modify (λ d,
          set_pending (<[challenge_id := oauth_task (hc_oauth_cfg hc) challenge]>
                         (h_pending d)) d));
    mret (VObject [("challenge_id", VString challenge_id);
                   ("auth_url", VString (ch_auth_url challenge))]).

(** [complete_oauth], from the joined task on: the row, a statement per category, the
    secret, the client, the registry, the row read back. *)
Definition persist_account_prog (hc : HandlerConfig) (label : string)
    (tokens : OAuthTokens) (email : string) : Prog Value :=
  id ← once (in_sys (create (new_gmail_account label email tokens)));
  _ ← for_each_step Category_ALL (λ c, once (in_sys (set_permission id c (default_policy c))));
  _ ← match refresh_token tokens with
      | Some rt => once (in_sys (secret_set id RefreshToken rt))
      | None => pure (Err missing_refresh_token)
      end;
  client ← once (in_sys (with_rotation_callback (hc_oauth_cfg hc) tokens
                          (Some (make_rotation_callback id))));
  _ ← once (in_ctx (registry_insert id (gmail_new client email)));
  found ← once (in_sys (get_account id));
  account ← pure (ok_or found (Internal "account vanished"));
  _ ← once (notify (AccountAdded account));
  mret (account_value account).

(** [pending.remove(&cid)], under its lock. *)
Definition take_pending (cid : string) : HM (option OAuthTask) :=
  found ← gets (λ d, h_pending d !! cid);
  _ ← modify (λ d, set_pending (delete cid (h_pending d)) d);
  mret found.

Definition complete_oauth_prog (hc : HandlerConfig) (params : Value) : Prog Value :=
  cid ← pure (param_str "challenge_id" params);
  found ← once (take_pending cid);
  task ← pure (ok_or found (NotFound ("challenge " +:+ cid)));
  '(tokens, email) ← once (in_sys (join_task task));
  persist_account_prog hc (default "" (get_str "label" params)) tokens email.

(** [remove_account]: the row, each secret, the registry, the notification. *)
Definition remove_account_prog (params : Value) : Prog Value :=
  id ← pure (param_account params);
  _ ← once (in_sys (delete_account id));
  _ ← for_each_step [RefreshToken; ImapPassword; SmtpPassword]
        (λ kind, once (in_sys (ignore (secret_delete id kind))));
  _ ← once (in_ctx (registry_remove id));
  _ ← once (notify (AccountRemoved id));
  mret empty_object.

(** ["mcp.pause"]: the flag, then the notification. *)
Definition mcp_pause_prog (params : Value) : Prog Value :=
  let paused := default false (get_bool "paused" params) in
  _ ← once (modify (λ d, set_ctx (set_paused paused (h_ctx d)) d));
  _ ← once (notify (McpPausedChanged paused));
  mret empty_object.

(** [DaemonHandler::handle]; a method with a single step is that step. *)
Definition handle_prog (hc : HandlerConfig) (method : string) (params : Value) : Prog Value :=
  if String.eqb method "status" then status_prog hc
  else if String.eqb method "accounts.add_oauth" then add_oauth_prog hc params
  else if String.eqb method "accounts.complete_oauth" then complete_oauth_prog hc params
  else if String.eqb method "accounts.remove" then remove_account_prog params
  else if String.eqb method "mcp.pause" then mcp_pause_prog params
  else once (handle hc method params).

(** ** A program alone *)

Lemma prog_ind' {A} (P : Prog A → Prop) :
  (∀ r, P (Done r)) → (∀ m, (∀ d p d', m d = (Ok p, d') → P p) → P (Step m)) → ∀ p, P p.
Proof.
  intros HD HS. fix go 1. intros [r|m]; [apply HD|]. apply HS. intros d p d'.
  destruct (m d) as [[q|e| |] d2]; intros E; [|discriminate E..]. injection E as <- _. apply go.
Qed.

Lemma run_bind {A B} (p : Prog A) (f : A → Prog B) :
  run (p ≫= f) ≡ run p ≫= (λ a, run (f a)).
Proof.
  induction p as [r|m IH] using prog_ind'; intros d.
  - unfold mbind, prog_bind, st_bind. by destruct r.
  - unfold mbind, st_bind. simpl. destruct (m d) as [[p|e| |] d'] eqn:E; [|done..].
    by apply (IH _ _ _ E).
Qed.

Lemma run_for_each_step {X} (xs : list X) (f : X → Prog unit) :
  run (for_each_step xs f) ≡ for_each xs (λ x, run (f x)).
Proof.
  induction xs as [|x xs IH]; intros d; [done|]. cbn [for_each_step for_each].
  rewrite (run_bind (f x) _ d). unfold mbind, st_bind.
  destruct (run (f x) d) as [[u|e| |] d']; [apply IH|done..].
Qed.

Lemma once_alone {A} (m : HM A) : run (once m) ≡ m.
Proof. intros d. simpl. unfold mbind, st_bind. by destruct (m d) as [[a|e| |] d']. Qed.

Lemma pure_alone {A} (r : Result A) : run (pure r) ≡ lift_res r.
Proof. done. Qed.

Lemma ret_alone {A} (a : A) : run (mret a) ≡ mret a.
Proof. done. Qed.

Lemma throw_alone {A} (e : Error) : run (pure (Err e : Result A)) ≡ throw e.
Proof. done. Qed.

(** A program follows a method step by step. *)
Lemma bind_alone {A B} (p : Prog A) (f : A → Prog B) (m : HM A) (g : A → HM B) :
  run p ≡ m → (∀ a, run (f a) ≡ g a) → run (p ≫= f) ≡ m ≫= g.
Proof. intros Hp Hf. etrans; [apply run_bind|]. by apply st_bind_proper. Qed.

Ltac alone :=
  repeat first
    [ apply once_alone | apply pure_alone | apply ret_alone | apply throw_alone
    | apply bind_alone; [|intros ?]
    | match goal with |- run (match ?x with _ => _ end) ≡ _ => destruct x end ].

Lemma for_each_cong {X} (xs : list X) (f g : X → HM unit) :
  (∀ x, f x ≡ g x) → for_each xs f ≡ for_each xs g.
Proof.
  intros H. induction xs as [|x xs IH]; [done|]. apply st_bind_proper; [by intros u|apply H].
Qed.

Lemma in_sys_for_each {X} (xs : list X) (f : X → M unit) d :
  in_sys (for_each xs f) d = for_each xs (λ x, in_sys (f x)) d.
Proof.
  revert d. induction xs as [|x xs IH]; intros d; simpl; [by rewrite in_sys_run; destruct d as [[[]]]|].
  unfold mbind, st_bind. rewrite !in_sys_run.
  destruct (f x (sys_of d)) as [[u|e| |] s]; simpl; [|done..].
  by rewrite <-IH, in_sys_run.
Qed.

Lemma install_defaults_alone id :
  run (for_each_step Category_ALL (λ c, once (in_sys (set_permission id c (default_policy c)))))
    ≡ in_sys (install_defaults id).
Proof.
  etrans; [apply run_for_each_step|].
  intros d. unfold install_defaults. rewrite in_sys_for_each.
  apply for_each_cong. intros c. apply once_alone.
Qed.

Lemma status_alone hc : run (status_prog hc) ≡ status hc.
Proof. unfold status_prog, status. alone. Qed.

Lemma add_oauth_alone hc params : run (add_oauth_prog hc params) ≡ add_oauth hc params.
Proof. unfold add_oauth_prog, add_oauth. alone. Qed.

Lemma persist_account_alone hc label tokens email :
  run (persist_account_prog hc label tokens email) ≡ persist_account hc label tokens email.
Proof.
  unfold persist_account_prog, persist_account. apply bind_alone; [alone|intros id].
  apply bind_alone; [apply install_defaults_alone|intros u]. alone.
Qed.

Lemma complete_oauth_alone hc params :
  run (complete_oauth_prog hc params) ≡ complete_oauth hc params.
Proof.
  unfold complete_oauth_prog, complete_oauth. apply bind_alone; [alone|intros cid].
  transitivity (found ← take_pending cid;
    task ← lift_res (ok_or found (NotFound ("challenge " +:+ cid)));
    '(tokens, email) ← in_sys (join_task task);
    persist_account hc (default "" (get_str "label" params)) tokens email); [|by intros d].
  apply bind_alone; [alone|intros found]. apply bind_alone; [alone|intros task].
  apply bind_alone; [alone|intros [tokens email]]. apply persist_account_alone.
Qed.

Lemma in_sys_bind {A B} (m : M A) (f : A → M B) :
  in_sys (m ≫= f) ≡ in_sys m ≫= (λ a, in_sys (f a)).
Proof.
  intros d. unfold mbind, st_bind. rewrite !in_sys_run.
  destruct (m (sys_of d)) as [[a|e| |] s]; simpl; [by rewrite in_sys_run|done..].
Qed.

Lemma ignore_infallible (m : HM unit) :
  (∀ d e, (m d).1 ≠ Err e) → ignore m ≡ m.
Proof.
  intros H d. unfold ignore. specialize (H d).
  destruct (m d) as [[[]|e| |] d']; [done| |done..]. by destruct (H e).
Qed.

Lemma purge_infallible id d e : (in_sys (secret_purge id) d).1 ≠ Err e.
Proof.
  assert (H : ∀ (m1 : M unit) (f : unit → M unit), (∀ s, (f tt s).1 ≠ Err e) →
    ∀ s, ((ignore m1 ≫= f) s).1 ≠ Err e).
  { intros m1 f Hf s. unfold mbind, st_bind, ignore.
    destruct (m1 s) as [[u|e1| |] s']; [apply Hf|apply Hf|done..]. }
  rewrite in_sys_run. simpl. unfold secret_purge. generalize (sys_of d).
  do 3 apply H. done.
Qed.

(** The three deletions of a purge. *)
Lemma purge_alone id :
  run (for_each_step [RefreshToken; ImapPassword; SmtpPassword]
    (λ kind, once (in_sys (ignore (secret_delete id kind))))) ≡
  ignore (in_sys (secret_purge id)).
Proof.
  etrans; [|symmetry; apply ignore_infallible, purge_infallible].
  etrans; [apply run_for_each_step|]. unfold secret_purge. cbn [for_each].
  symmetry.
  do 3 (etrans; [apply in_sys_bind|]; apply st_bind_proper;
    [intros u; clear u|symmetry; apply once_alone]).
  intros d. rewrite in_sys_run. by destruct d as [[[]]].
Qed.

Lemma remove_account_alone params : run (remove_account_prog params) ≡ remove_account params.
Proof.
  unfold remove_account_prog, remove_account. apply bind_alone; [alone|intros id].
  apply bind_alone; [alone|intros u]. apply bind_alone; [apply purge_alone|intros u1].
  alone.
Qed.

Lemma mcp_pause_alone params : run (mcp_pause_prog params) ≡ mcp_pause params.
Proof. unfold mcp_pause_prog, mcp_pause. alone. Qed.

(** Run alone, the program of a request is its method. *)
Lemma handle_alone hc method params :
  run (handle_prog hc method params) ≡ handle hc method params.
Proof.
  unfold handle_prog.
  repeat (case_match; [
    match goal with H : String.eqb _ _ = true |- _ => apply String.eqb_eq in H as -> end;
    first [ apply status_alone | apply add_oauth_alone | apply complete_oauth_alone
          | apply remove_account_alone | apply mcp_pause_alone ] |]).
  apply once_alone.
Qed.

(** ** Invariants of programs *)

(** From states with [I], every step of the program keeps [I] and goes by [R], and
    the value the program ends with has [Q]. What a step leaves in the hands of the
    program is known to the rest of it, whatever the others do in between. *)
Section goes.
Context (I : Daemon → Prop) (R : relation Daemon).

Fixpoint goes {A} (p : Prog A) (Q : A → Prop) : Prop :=
  match p with
  | Done (Ok a) => Q a
  | Done _ => True
  | Step m => ∀ d, I d →
      match m d with
      | (Ok p, d') => I d' ∧ R d d' ∧ goes p Q
      | (_, d') => I d' ∧ R d d'
      end
  end.

Lemma goes_weaken {A} (p : Prog A) (Q Q' : A → Prop) :
  (∀ a, Q a → Q' a) → goes p Q → goes p Q'.
Proof.
  intros HQ. induction p as [r|m IH] using prog_ind'; simpl; [destruct r; auto|].
  intros Hs d Hd. specialize (Hs d Hd). specialize (IH d).
  destruct (m d) as [[p|e| |] d']; [|done..]. destruct Hs as (? & ? & ?). by eauto.
Qed.

Lemma goes_bind {A B} (p : Prog A) (f : A → Prog B) (Q : B → Prop) :
  goes p (λ a, goes (f a) Q) → goes (p ≫= f) Q.
Proof.
  induction p as [r|m IH] using prog_ind'; simpl; [by destruct r|].
  intros Hs d Hd. specialize (Hs d Hd). specialize (IH d).
  destruct (m d) as [[p|e| |] d']; [|done..]. destruct Hs as (? & ? & ?).
  split; [done|]. split; [done|]. by eapply IH.
Qed.

Lemma goes_once {A} (m : HM A) (Q : A → Prop) :
  within (keeps I) m → within R m → (∀ d a d', I d → m d = (Ok a, d') → Q a) →
  goes (once m) Q.
Proof.
  intros HI HR HQ d Hd. specialize (HI d Hd). specialize (HR d). specialize (HQ d).
  unfold mbind, st_bind. destruct (m d) as [[a|e| |] d'] eqn:E; [|done..].
  split; [done|]. split; [done|]. by eapply (HQ a d').
Qed.

Lemma goes_pure {A} (r : Result A) (Q : A → Prop) :
  (∀ a, r = Ok a → Q a) → goes (pure r) Q.
Proof. intros H. destruct r; simpl; auto. Qed.

Lemma goes_for_each {X} (xs : list X) (f : X → Prog unit) :
  (∀ x, goes (f x) (λ _, True)) → goes (for_each_step xs f) (λ _, True).
Proof.
  intros Hf. induction xs as [|x xs IH]; [done|]. apply goes_bind.
  eapply goes_weaken; [|apply Hf]. by intros [] _.
Qed.

(** A turn of a program. *)
Lemma goes_turn {A} (p : Prog A) (Q : A → Prop) d :
  PreOrder R → goes p Q → I d →
  goes (turn p d).1 Q ∧ I (turn p d).2 ∧ R d (turn p d).2.
Proof.
  intros HR Hp Hd. destruct p as [r|m]; [done|]. specialize (Hp d Hd). simpl.
  destruct (m d) as [[p|e| |] d']; simpl; naive_solver.
Qed.
End goes.

(** ** Steps left *)

(** Whatever the states it meets, the program takes at most [n] steps. *)
Fixpoint at_most {A} (n : nat) (p : Prog A) {struct p} : Prop :=
  match p with
  | Done _ => True
  | Step m =>
      match n with
      | 0 => False
      | S n => ∀ d, match m d with (Ok p, _) => at_most n p | _ => True end
      end
  end.

Lemma at_most_le {A} n n' (p : Prog A) : n ≤ n' → at_most n p → at_most n' p.
Proof.
  revert n n'. induction p as [r|m IH] using prog_ind'; intros n n' Hn; [done|].
  destruct n as [|n], n' as [|n']; simpl; try done; [lia|]. intros H d. specialize (H d).
  specialize (IH d). destruct (m d) as [[p|e| |] d']; [|done..]. eapply IH; [done| |done]. lia.
Qed.

Lemma at_most_bind {A B} n k (p : Prog A) (f : A → Prog B) :
  at_most n p → (∀ a, at_most k (f a)) → at_most (n + k) (p ≫= f).
Proof.
  intros Hp Hf. revert n Hp. induction p as [r|m IH] using prog_ind'; intros n Hp.
  - destruct r; simpl; [|done..]. eapply at_most_le; [|apply Hf]. lia.
  - destruct n as [|n]; [done|]. intros d. specialize (Hp d). specialize (IH d).
    destruct (m d) as [[p|e| |] d']; [|done..]. by eapply IH.
Qed.

Lemma at_most_once {A} (m : HM A) : at_most 1 (once m).
Proof. intros d. unfold mbind, st_bind. by destruct (m d) as [[a|e| |] d']. Qed.

Lemma at_most_once_bind {A B} n (m : HM A) (f : A → Prog B) :
  (∀ a, at_most n (f a)) → at_most (S n) (once m ≫= f).
Proof. apply (at_most_bind 1), at_most_once. Qed.

Lemma at_most_pure_bind {A B} n (r : Result A) (f : A → Prog B) :
  (∀ a, at_most n (f a)) → at_most n (pure r ≫= f).
Proof. by apply (at_most_bind 0). Qed.

(** The longest request, a completion, takes thirteen. *)
Lemma handle_steps hc method params : at_most 13 (handle_prog hc method params).
Proof.
  assert (Hsteps : ∀ p : Prog Value, (at_most 4 p ∨ at_most 13 p) → at_most 13 p).
  { intros p [H|H]; [|done]. eapply at_most_le; [|exact H]. lia. }
  unfold handle_prog.
  repeat match goal with |- at_most _ (if ?b then _ else _) => destruct b end.
  - apply Hsteps. left. unfold status_prog. by do 4 (apply at_most_once_bind; intros ?).
  - apply Hsteps. left. unfold add_oauth_prog. apply at_most_pure_bind. intros provider.
    destruct (negb _); [done|]. by do 3 (apply at_most_once_bind; intros ?).
  - unfold complete_oauth_prog. apply at_most_pure_bind. intros cid.
    apply at_most_once_bind. intros found. apply at_most_pure_bind. intros task.
    apply at_most_once_bind. intros [tokens email]. unfold persist_account_prog.
    apply at_most_once_bind. intros id.
    apply (at_most_bind 5).
    { unfold Category_ALL. cbn [for_each_step].
      by do 5 (apply at_most_once_bind; intros ?). }
    intros _. apply (at_most_bind 1).
    { destruct (refresh_token tokens); [apply at_most_once|done]. }
    intros _. do 3 (apply at_most_once_bind; intros ?). apply at_most_pure_bind.
    intros account. by apply at_most_once_bind.
  - unfold remove_account_prog. apply (at_most_le 6); [lia|]. apply at_most_pure_bind. intros id.
    apply at_most_once_bind. intros _. apply (at_most_bind 3).
    { cbn [for_each_step]. by do 3 (apply at_most_once_bind; intros ?). }
    intros _. by do 2 (apply at_most_once_bind; intros ?).
  - apply Hsteps. left. unfold mcp_pause_prog. by do 2 (apply at_most_once_bind; intros ?).
  - apply (at_most_le 1); [lia|]. apply at_most_once.
Qed.
End programs.
