(* ===== verification/InFlight.v ===== *)
(** * Tool calls in flight

    [dispatch] of [crates/mail-mcp-daemon/src/mcp/dispatch.rs], with [enforce] and
    [await_outcome] of [crates/mail-mcp-core/src/permissions], when several calls
    run at once: between any two awaits or locks of a call, other calls and the
    requests of the IPC door take their steps, and the client may go away. *)
From S2P Require Export IpcSteps.

Section inflight.
Context `{PF : Platform}.

(** What a call has read once its policies are loaded: its account, the provider
    it got from the registry, the policies. *)
Record Subject : Type := mkSubject {
  sj_account : AccountId;
  sj_provider : MailProvider;
  sj_perms : Permissions;
}.

(** Where a call stands: before the pause flag is read, before the registry is
    read, before the policies are queried, before they are applied, before the
    request is enqueued, waiting for the user, after the timer fired and before
    the queue's lock, before trust is granted, before it acts on the outcome, and
    answered. The flag tells whether an approval is to grant trust. *)
Inductive Phase : Type :=
| Entering
| Resolving
| Loading (id : AccountId) (p : MailProvider)
| Judging (k : Subject)
| Asking (k : Subject) (grants : bool)
| Waiting (k : Subject) (grants : bool) (fut : ApprovalFuture)
| Expiring (k : Subject) (fut : ApprovalFuture)
| Granting (k : Subject)
| Acting (k : Subject) (o : EnforceOutcome)
| Answered (r : Result Value).

(** The next phase after [m], which ends the call unless it succeeds. *)
Definition settle {A} (m : CM A) (next : A → Phase) : CM Phase := λ c,
  match m c with
  | (Ok a, c') => (Ok (next a), c')
  | (Err e, c') => (Ok (Answered (Err e)), c')
  | (Panic, c') => (Ok (Answered Panic), c')
  | (Hang, c') => (Ok (Answered Hang), c')
  end.

(** The head of [dispatch] up to the registry. *)
Definition resolve (args : Value) : CM (AccountId * MailProvider) :=
  id ← lift_res (parse_account_id args);
  found ← registry_get id;
  p ← lift_res (ok_or found (NotFound ("account " +:+ account_to_string id)));
  mret (id, p).

(** The match on the policy in [enforce]; the trust is under a lock of its own. *)
Definition judge (cat : Category) (k : Subject) : CM Phase :=
  match policy_for (sj_perms k) cat with
  | Allow => mret (Acting k Proceed)
  | Block => mret (Acting k Blocked)
  | Draftify =>
      match cat with
      | Send => mret (Acting k ConvertToDraft)
      | _ => mret (Asking k false)
      end
  | Confirm => mret (Asking k false)
  | Session =>
      trusted ← gets (λ c, is_trusted (dk_trust (cx_desk c)) (sj_account k) cat);
      mret (if trusted : bool then Acting k Proceed else Asking k true)
  end.

(** What [ask_confirm], and [enforce] after it, make of an outcome. *)
Definition decided (k : Subject) (grants : bool) (o : ApprovalOutcome) : Phase :=
  match o with
  | Approved => if grants then Granting k else Acting k Proceed
  | Rejected | Timeout => Acting k Blocked
  end.

(** One poll of the wait: the receiver first, then the timer. *)
Definition poll (fired : bool) (k : Subject) (grants : bool) (fut : ApprovalFuture) :
    CM Phase :=
  ch ← gets (λ c, q_chans (dk_queue (cx_desk c)) !! fut_rx fut);
  mret match ch with
       | Some (CSent o) => decided k grants o
       | Some CClosed => Answered (Err (Internal "approval channel dropped"))
       | Some COpen => if fired then Expiring k fut else Waiting k grants fut
       | None => Answered Panic
       end.

(** One step of a call; [fired] tells whether the timer of its wait has fired. *)
Definition advance (tool : ToolSpec) (args : Value) (fired : bool) (ph : Phase) :
    CM Phase :=
  match ph with
  | Entering =>
      settle (gets cx_paused) (λ paused,
        if paused : bool then Answered (Err (PermissionDenied paused_message))
        else Resolving)
  | Resolving => settle (resolve args) (λ '(id, p), Loading id p)
  | Loading id p =>
      settle (at_sys (for_account id)) (λ perms, Judging (mkSubject id p perms))
  | Judging k => judge (tool_category tool) k
  | Asking k grants =>
      settle (at_desk (enqueue (request_of tool args (sj_account k)))) (Waiting k grants)
  | Waiting k grants fut => poll fired k grants fut
  | Expiring k fut =>
      settle (at_desk (expire (fut_id fut))) (λ _, decided k false Timeout)
  | Granting k =>
      settle (at_desk (modify (λ d,
        set_trust (grant (sj_account k) (tool_category tool) (dk_trust d)) d)))
        (λ _, Acting k Proceed)
  | Acting k o => settle (act tool args (sj_provider k) o) (λ v, Answered (Ok v))
  | Answered r => mret (Answered r)
  end.

(** ** Many calls *)

Record Ticket : Type := mkCall {
  cl_tool : ToolSpec;
  cl_args : Value;
  cl_phase : Phase;
}.

(** The daemon, the calls its MCP server is handling, and the requests its IPC
    server is. *)
Record Flight : Type := mkFlight {
  fl_daemon : Daemon;
  fl_calls : gmap nat Ticket;
  fl_ipc : gmap nat (Prog Value);
}.

Definition fl_ctx (s : Flight) : Context := h_ctx (fl_daemon s).
Definition fl_queue (s : Flight) : Queue := dk_queue (cx_desk (fl_ctx s)).
Definition fl_db (s : Flight) : Db := sys_db (cx_sys (fl_ctx s)).

Definition with_daemon (d : Daemon) (s : Flight) : Flight :=
  mkFlight d (fl_calls s) (fl_ipc s).
Definition with_call (n : nat) (call : Ticket) (s : Flight) : Flight :=
  mkFlight (fl_daemon s) (<[n := call]> (fl_calls s)) (fl_ipc s).
Definition drop_call (n : nat) (s : Flight) : Flight :=
  mkFlight (fl_daemon s) (delete n (fl_calls s)) (fl_ipc s).
Definition with_prog (n : nat) (p : Prog Value) (s : Flight) : Flight :=
  mkFlight (fl_daemon s) (fl_calls s) (<[n := p]> (fl_ipc s)).
Definition drop_prog (n : nat) (s : Flight) : Flight :=
  mkFlight (fl_daemon s) (fl_calls s) (delete n (fl_ipc s)).

(** A turn of call [n]. *)
Definition take_turn (n : nat) (call : Ticket) (fired : bool) (s : Flight) : Flight :=
  match in_ctx (advance (cl_tool call) (cl_args call) fired (cl_phase call)) (fl_daemon s) with
  | (Ok ph, d) => with_call n (mkCall (cl_tool call) (cl_args call) ph) (with_daemon d s)
  | (_, d) => with_daemon d s
  end.

(** A turn of the IPC request [n]. *)
Definition take_step (n : nat) (p : Prog Value) (s : Flight) : Flight :=
  with_prog n (turn p (fl_daemon s)).1 (with_daemon (turn p (fl_daemon s)).2 s).

(** A call comes in, takes a turn, or is dropped with its connection; a request of the
    IPC door comes in, takes a turn, or is answered; another task of the queue takes
    its lock. *)
Inductive fstep : Flight → Flight → Prop :=
| FStart n tool args s :
    fl_calls s !! n = None → fstep s (with_call n (mkCall tool args Entering) s)
| FTurn n call fired s :
    fl_calls s !! n = Some call → fstep s (take_turn n call fired s)
| FDrop n s : fstep s (drop_call n s)
| FRequest n hc method params s :
    fl_ipc s !! n = None → fstep s (with_prog n (handle_prog hc method params) s)
| FStep n p s : fl_ipc s !! n = Some p → fstep s (take_step n p s)
| FReply n r s : fl_ipc s !! n = Some (Done r) → fstep s (drop_prog n s)
| FQueue a s :
    fstep s (with_daemon (in_desk (run_action a) (fl_daemon s)).2 s).

(** A daemon that serves no call yet. *)
Definition flight_start (s : Flight) : Prop :=
  daemon_start (fl_daemon s) ∧ dk_trust (cx_desk (fl_ctx s)) = ∅ ∧ fl_calls s = ∅ ∧
  fl_ipc s = ∅.

(** The user approved a request: it was announced, and then decided so. *)
Definition approved (q : Queue) (r : ApprovalRequest) : Prop :=
  ∃ pa, pa_request pa = r ∧ Requested pa ∈ q_events q ∧
    Resolved (pa_id pa) Approve ∈ q_events q.

(** ** One call alone *)

Section solo.
Context (tool : ToolSpec) (args : Value).

(** The turns of one call, and the actions of others on the queue. *)
Inductive solo : Phase * Context → Phase * Context → Prop :=
| STurn fired ph c ph' c' :
    advance tool args fired ph c = (Ok ph', c') → solo (ph, c) (ph', c')
| SQueue a ph c : solo (ph, c) (ph, (at_desk (run_action a) c).2).

(** A context with a desk whose script is spent: the turns of others are steps. *)
Definition place (d : Desk) (c : Context) : Context := set_desk (set_script [] d) c.

Lemma solo_turn fired ph c ph' c' x :
  advance tool args fired ph c = (Ok ph', c') → rtc solo (ph', c') x → rtc solo (ph, c) x.
Proof. intros H. by apply rtc_l, (STurn fired). Qed.

Lemma solo_last fired ph c ph' c' :
  advance tool args fired ph c = (Ok ph', c') → rtc solo (ph, c) (ph', c').
Proof. intros H. by apply rtc_once, (STurn fired). Qed.

Lemma run_action_script a d :
  run_action a (set_script [] d) = ((run_action a d).1, set_script [] (run_action a d).2).
Proof.
  destruct a as [r|id dec|id]; [done| |done]. simpl.
  unfold ignore, decide_approval, mbind, st_bind, gets. simpl.
  by destruct (q_pending _ !! id) as [[p c]|].
Qed.

Lemma solo_actions l d d' ph c :
  for_each l run_action d = (Ok tt, d') → rtc solo (ph, place d c) (ph, place d' c).
Proof.
  revert d. induction l as [|a l IH]; intros d; simpl; [by intros [= <-]|].
  intros ([] & d1 & H1 & H)%bind_Ok. eapply rtc_l; [apply (SQueue a)|].
  rewrite at_desk_run. simpl. rewrite run_action_script, H1. simpl. by apply IH.
Qed.

Definition ended {A} (r : Result A) (next : A → Phase) : Phase :=
  match r with
  | Ok a => next a
  | Err e => Answered (Err e)
  | Panic => Answered Panic
  | Hang => Answered Hang
  end.

Lemma settle_run {A} (m : CM A) (next : A → Phase) c :
  settle m next c = (Ok (ended (m c).1 next), (m c).2).
Proof. unfold settle. by destruct (m c) as [[] c']. Qed.

Lemma await_solo k g fut d r d' c :
  await_outcome fut d = (r, d') →
  rtc solo (Waiting k g fut, place d c) (ended r (decided k g), place d' c).
Proof.
  unfold await_outcome. unfold mbind at 1, st_bind at 1.
  assert (Hs : ∃ before between d0, next_script d = (Ok (before, between), d0) ∧
    place d0 c = place d c).
  { unfold next_script. by destruct (dk_script d) as [|[b1 b2] sc]; do 3 eexists. }
  destruct Hs as (before & between & d0 & -> & <-).
  destruct (run_actions_total before d0) as [d1 H1].
  rewrite (bind_step _ _ _ _ _ H1). intros H.
  etrans; [by apply (solo_actions before)|].
  unfold mbind, st_bind, gets in H.
  assert (Hpoll : ∀ fired, advance tool args fired (Waiting k g fut) (place d1 c) =
    (Ok match q_chans (dk_queue d1) !! fut_rx fut with
       | Some (CSent o) => decided k g o
       | Some CClosed => Answered (Err (Internal "approval channel dropped"))
       | Some COpen => if fired then Expiring k fut else Waiting k g fut
       | None => Answered Panic
       end, place d1 c)) by done.
  destruct (q_chans (dk_queue d1) !! fut_rx fut) as [[|o|]|].
  - eapply (solo_turn true); [apply Hpoll|].
    destruct (run_actions_total between d1) as [d2 H2]. rewrite H2 in H.
    etrans; [by apply (solo_actions between)|]. injection H as <- <-.
    by apply (solo_last true).
  - injection H as <- <-. apply (solo_last true), Hpoll.
  - injection H as <- <-. apply (solo_last true), Hpoll.
  - injection H as <- <-. apply (solo_last true), Hpoll.
Qed.

(** Asking the user is the turns from the request to the outcome. *)
Lemma ask_solo k g d r d' c :
  ask_confirm (request_of tool args (sj_account k)) d = (r, d') →
  rtc solo (Asking k g, place d c)
    (ended r (λ o, match o with Proceed => decided k g Approved | _ => Acting k o end),
     place d' c).
Proof.
  unfold ask_confirm. unfold mbind at 1, st_bind at 1.
  destruct (enqueue (request_of tool args (sj_account k)) d) as [rf d1] eqn:He.
  injection He as <- <-.
  set (fut := mkFuture _ _). set (d1 := set_queue _ _). intros H.
  eapply (solo_turn false (Asking k g) _ (Waiting k g fut) (place d1 c)); [done|].
  unfold mbind, st_bind in H. destruct (await_outcome fut d1) as [rw d2] eqn:Hw.
  assert (rtc solo (Waiting k g fut, place d1 c) (ended rw (decided k g), place d2 c))
    as Hwait by (by apply await_solo).
  destruct rw as [[]|e| |]; injection H as <- <-; try exact Hwait; by destruct g.
Qed.
(** Enforcement is the turns from the policy to the outcome. *)
Lemma enforce_solo k d r d' c :
  enforce (sj_perms k) (tool_category tool) (request_of tool args (sj_account k)) d = (r, d') →
  rtc solo (Judging k, place d c) (ended r (Acting k), place d' c).
Proof.
  assert (Hask : ∀ r d',
    ask_confirm (request_of tool args (sj_account k)) d = (r, d') →
    rtc solo (Asking k false, place d c) (ended r (Acting k), place d' c)).
  { intros r0 d0 H. apply (ask_solo k false _ _ _ c) in H. by destruct r0 as [[]| | |]. }
  assert (Hj : ∀ ph, judge (tool_category tool) k (place d c) = (Ok ph, place d c) →
    ∀ x, rtc solo (ph, place d c) x → rtc solo (Judging k, place d c) x).
  { intros ph Hph x. by apply (solo_turn false). }
  unfold enforce, judge in *. destruct (policy_for (sj_perms k) (tool_category tool)).
  - intros [= <- <-]. by eapply Hj.
  - intros H. eapply Hj; [done|]. by apply Hask.
  - unfold mbind, st_bind, gets in Hj |- *. cbn in Hj |- *.
    destruct (is_trusted _ _ _); [intros [= <- <-]; by eapply Hj|].
    destruct (ask_confirm _ d) as [ra da] eqn:Ha.
    apply (ask_solo k true _ _ _ c) in Ha. intros H.
    eapply Hj; [done|]. destruct ra as [[]|e| |]; injection H as <- <-; try exact Ha.
    etrans; [exact Ha|]. by apply (solo_last false).
  - destruct (tool_category tool);
      first [ intros [= <- <-]; by eapply Hj
            | intros H; eapply Hj; [done|]; by apply Hask ].
  - intros [= <- <-]. by eapply Hj.
Qed.

Lemma act_place k o d c :
  act tool args (sj_provider k) o (place d c) =
    ((act tool args (sj_provider k) o (set_desk d c)).1,
     place (cx_desk (act tool args (sj_provider k) o (set_desk d c)).2) c).
Proof.
  destruct o; simpl; [by rewrite !at_sys_run|done|].
  destruct (String.eqb _ _); [done|]. by rewrite !at_sys_run.
Qed.

(** From the query of the policies on. *)
Lemma enforced_solo id p c r c' :
  (at_sys (for_account id) ≫= λ perms,
     at_desk (enforce perms (tool_category tool) (request_of tool args id))
       ≫= act tool args p) c = (r, c') →
  rtc solo (Loading id p, place (cx_desk c) c) (Answered r, place (cx_desk c') c).
Proof.
  unfold mbind, st_bind. rewrite at_sys_run. intros H.
  eapply (solo_turn false). { cbn [advance]. rewrite settle_run. done. }
  rewrite at_sys_run. change (cx_sys (place (cx_desk c) c)) with (cx_sys c).
  destruct (for_account id (cx_sys c)) as [[perms|e| |] s1]; cbn in *;
    [|injection H as <- <-; apply rtc_refl..].
  rewrite at_desk_run in H. cbn in H.
  set (d1 := set_dk_sys s1 (cx_desk c)) in *. set (k := mkSubject id p perms).
  destruct (enforce perms (tool_category tool) (request_of tool args id) d1)
    as [ro d2] eqn:He.
  etrans; [exact (enforce_solo k d1 ro d2 c He)|].
  destruct ro as [o|e| |]; cbn in *; [|injection H as <- <-; apply rtc_refl..].
  change (set_desk d2 (set_desk d1 c)) with (set_desk d2 c) in H.
  apply (solo_last false). cbn [advance].
  rewrite settle_run, (act_place k o d2 c). cbn [sj_provider k]. rewrite H. by destruct r.
Qed.

(** [dispatch] is one call alone, from its first phase to its answer. *)
Lemma dispatch_solo c r c' :
  dispatch tool args c = (r, c') →
  rtc solo (Entering, place (cx_desk c) c) (Answered r, place (cx_desk c') c).
Proof.
  set (c0 := place (cx_desk c) c).
  assert (Henter : advance tool args false Entering c0 =
    (Ok (if cx_paused c then Answered (Err (PermissionDenied paused_message)) else Resolving),
     c0)) by done.
  destruct (cx_paused c) eqn:Hp.
  { unfold dispatch, mbind, st_bind, gets. rewrite Hp. intros [= <- <-].
    exact (solo_last _ _ _ _ _ Henter). }
  intros H. eapply solo_turn; [exact Henter|].
  assert (Hres : advance tool args false Resolving c0 =
    (Ok (ended (resolve args c0).1 (λ '(id, p), Loading id p)), (resolve args c0).2))
    by apply settle_run.
  eapply solo_turn; [exact Hres|]. clear Henter Hres.
  unfold resolve, mbind, st_bind, lift_res.
  destruct (parse_account_id args) as [id|e| |] eqn:Hid.
  2-4: unfold dispatch, mbind, st_bind, gets, lift_res in H; rewrite Hp, Hid in H;
    injection H as <- <-; apply rtc_refl.
  unfold registry_get, gets. change (cx_providers c0) with (cx_providers c).
  destruct (cx_providers c !! id) as [p|] eqn:Hprov.
  - rewrite (dispatch_enforced _ _ _ _ _ Hp Hid Hprov) in H. by apply enforced_solo in H.
  - unfold dispatch, mbind, st_bind, gets, lift_res, registry_get in H.
    rewrite Hp, Hid in H. unfold gets in H. rewrite Hprov in H.
    injection H as <- <-. apply rtc_refl.
Qed.
End solo.

(** ** What the steps of the others preserve *)

Section queue.

(** Every pending request was announced. *)
Definition announced (q : Queue) : Prop :=
  ∀ id p c, q_pending q !! id = Some (p, c) → Requested p ∈ q_events q.

(** The channel [c] speaks of the request [r] only. *)
Record channel_of (c : nat) (r : ApprovalRequest) (q : Queue) : Prop := {
  co_known : c < length (q_chans q);
  co_request id p : q_pending q !! id = Some (p, c) → pa_request p = r;
  co_approved : q_chans q !! c = Some (CSent Approved) → approved q r;
}.

Lemma qstep_events q q' e : qstep q q' → e ∈ q_events q → e ∈ q_events q'.
Proof. intros Hs He. destruct Hs; simpl; [by right..|done]. Qed.

Lemma approved_step q q' r : qstep q q' → approved q r → approved q' r.
Proof.
  intros Hs (pa & Hr & H1 & H2). exists pa. split; [done|].
  split; by eapply qstep_events.
Qed.

Lemma announced_step q q' : qstep q q' → announced q → announced q'.
Proof.
  intros [p q1|id d p c q1 Hp|id q1] H id' p' c'; simpl.
  - intros [[_ [= <- _]]|[_ ?]]%lookup_insert_Some; [by left|right; by eapply H].
  - intros [_ ?]%lookup_delete_Some. right. by eapply H.
  - intros [_ ?]%lookup_delete_Some. by eapply H.
Qed.

Lemma drop_sender_approved e chans c :
  drop_sender e chans !! c = Some (CSent Approved) → chans !! c = Some (CSent Approved).
Proof.
  destruct e as [[p c']|]; simpl; [|done].
  rewrite list_lookup_alter. destruct (decide (c' = c)) as [->|]; [|done].
  by destruct (chans !! c) as [[]|].
Qed.

Lemma channel_of_step q q' c r :
  queue_inv q → announced q → qstep q q' → channel_of c r q → channel_of c r q'.
Proof.
  intros Hinv Hann Hs [Hlt Hreq Happ].
  assert (Happ' : approved q r → approved q' r) by by apply approved_step.
  destruct Hs as [p q1|id d p c0 q1 Hp|id q1]; split; simpl.
  - rewrite drop_sender_length, length_app. simpl. lia.
  - intros id' p' [[_ [= _ Ec]]|[_ ?]]%lookup_insert_Some; [lia|by eapply Hreq].
  - intros Hc%drop_sender_approved. rewrite lookup_app_l in Hc by done. auto.
  - by rewrite length_insert.
  - intros id' p' [_ ?]%lookup_delete_Some. by eapply Hreq.
  - intros [[-> [[= Hd] _]]|[_ ?]]%list_lookup_insert_Some; [|auto].
    destruct d; [|done]. exists p. split; [by eapply Hreq|].
    split; simpl; [right; by eapply Hann|]. rewrite (qi_key _ Hinv _ _ _ Hp). by left.
  - by rewrite drop_sender_length.
  - intros id' p' [_ ?]%lookup_delete_Some. by eapply Hreq.
  - intros Hc%drop_sender_approved. auto.
Qed.

(** The steps of the queue keep what was announced and approved. *)
Lemma qsteps_keep q q' :
  rtc qstep q q' → queue_inv q → announced q →
  announced q' ∧ (∀ r, approved q r → approved q' r) ∧
  (∀ c r, channel_of c r q → channel_of c r q').
Proof.
  induction 1 as [|q1 q2 q3 Hs _ IH]; intros Hinv Hann; [by auto|].
  destruct IH as (H1 & H2 & H3); [by eapply queue_inv_step|by eapply announced_step|].
  split; [done|]. split; [eauto using approved_step|eauto using channel_of_step].
Qed.

(** A request just enqueued is announced, and its channel speaks of it. *)
Lemma enqueue_channel r d fut d' :
  queue_inv (dk_queue d) → enqueue r d = (Ok fut, d') →
  channel_of (fut_rx fut) r (dk_queue d').
Proof.
  intros Hinv [= <- <-]. simpl.
  split; simpl.
  - rewrite drop_sender_length, length_app. simpl. lia.
  - intros id p [[_ [= <-]]|[_ Hp]]%lookup_insert_Some; [done|].
    apply queue_inv_bound in Hp; [lia|done].
  - intros Hc%drop_sender_approved. by rewrite lookup_app_r, Nat.sub_diag in Hc by lia.
Qed.
End queue.

(** The desk's queue takes steps, and its trust stays. *)
Definition settles (d d' : Desk) : Prop :=
  rtc qstep (dk_queue d) (dk_queue d') ∧ dk_trust d' = dk_trust d.

#[local] Instance settles_preorder : PreOrder settles.
Proof.
  split; [by intros d|]. intros d1 d2 d3 [? ?] [? ?]. split; [by etrans|congruence].
Qed.

Lemma settles_of {A} (m : DM A) :
  within qsteps m → within (same dk_trust) m → within settles m.
Proof. intros H1 H2 d. by split; [apply H1|apply H2]. Qed.

(** The desk of a daemon. *)
Definition desk_of (d : Daemon) : Desk := cx_desk (h_ctx d).
Definition desk_settles (d d' : Daemon) : Prop := settles (desk_of d) (desk_of d').

#[local] Instance desk_settles_preorder : PreOrder desk_settles.
Proof. split; unfold desk_settles; [by intros d|intros d1 d2 d3 ??; by etrans]. Qed.

Lemma in_sys_settles {A} (m : M A) : within desk_settles (in_sys m).
Proof. intros d. by rewrite in_sys_run. Qed.

Lemma in_desk_settles {A} (m : DM A) : within settles m → within desk_settles (in_desk m).
Proof.
  intros Hm d. unfold in_desk, in_ctx, zoom. specialize (Hm (desk_of d)).
  rewrite at_desk_run. exact Hm.
Qed.

Lemma decide_settles id dec : within settles (decide_approval id dec).
Proof.
  apply settles_of; [apply decide_qsteps|]. intros d. unfold same, decide_approval, mbind, st_bind, gets.
  by destruct (q_pending _ !! id) as [[p c]|].
Qed.

Lemma run_action_settles a : within settles (run_action a).
Proof. apply settles_of; [apply run_action_qsteps|apply run_action_trust]. Qed.

Ltac desk_door :=
  repeat first
    [ apply in_sys_settles | apply in_desk_settles, decide_settles
    | apply in_desk_settles; by intros ?
    | apply within_ret, _ | apply within_throw, _ | apply within_lift_res, _
    | apply within_gets, _ | apply within_ignore, in_sys_settles
    | apply within_modify; by intros ?
    | match goal with |- within _ (in_ctx (registry_insert _ _)) => by intros ? end
    | match goal with |- within _ (in_ctx (registry_remove _)) => by intros ? end
    | apply within_bind; [apply _| |intros ?]
    | match goal with
      | |- within _ (match ?x with _ => _ end) => destruct x
      | |- within _ (if ?b then _ else _) => destruct b
      end ].

(** A method moves the queue by its steps only, and never grants trust. *)
Lemma handle_settles hc method params : within desk_settles (handle hc method params).
Proof.
  unfold handle, status, accounts_list, add_oauth, complete_oauth, persist_account,
    cancel_oauth, remove_account, permissions_get, permissions_set, approvals_decide,
    set_onboarding_complete, mcp_pause.
  desk_door.
Qed.

(** Every step of a request keeps the daemon well-formed and only moves the queue. *)
Notation sound := (goes daemon_wf desk_settles).

Lemma sound_sys {A} (m : M A) (Q : A → Prop) :
  within (keeps (db_wf ∘ sys_db)) m →
  (∀ d a d', daemon_wf d → in_sys m d = (Ok a, d') → Q a) → sound (once (in_sys m)) Q.
Proof. intros Hm HQ. apply goes_once; [by apply in_sys_wf|apply in_sys_settles|done]. Qed.

Lemma sound_sys_same {A} (m : M A) (Q : A → Prop) :
  within (same sys_db) m →
  (∀ d a d', daemon_wf d → in_sys m d = (Ok a, d') → Q a) → sound (once (in_sys m)) Q.
Proof. intros Hm. by apply sound_sys, same_db_keeps. Qed.

Lemma sound_notify n (Q : unit → Prop) : Q tt → sound (once (notify n)) Q.
Proof. intros HQ. apply goes_once; [apply notify_wf|by intros d|by intros d []]. Qed.

Ltac sound_door :=
  repeat first
    [ apply goes_bind | apply sound_notify | exact I | done
    | apply sound_sys_same; [solve [frame | apply list_accounts_db | apply get_account_db
        | apply get_app_state_db | apply begin_authorization_db]|intros ? ? ? _ _]
    | apply sound_sys; [solve [auto with within]|intros ? ? ? _ _]
    | apply goes_pure; intros ? _ ].

Lemma persist_account_sound hc label tokens email :
  sound (persist_account_prog hc label tokens email) (λ _, True).
Proof.
  unfold persist_account_prog. sound_door.
  destruct (refresh_token tokens) as [rt|]; [|done].
  apply sound_sys_same; [frame|intros ? ? ? _ _].
  apply goes_bind, sound_sys_same; [apply with_rotation_callback_db|].
  intros ? client ? _ (s1 & H1 & _)%in_sys_Ok. apply goes_bind, goes_once.
  - apply in_ctx_wf, registry_insert_wf. by eapply new_client_provider.
  - by intros ?.
  - intros ? ? ? _ _. sound_door.
Qed.

Lemma complete_oauth_sound hc params : sound (complete_oauth_prog hc params) (λ _, True).
Proof.
  unfold complete_oauth_prog. sound_door.
  apply (goes_weaken _ _ _ (λ found, ∀ t, found = Some t → within (same sys_db) t)).
  - intros found Hfound. apply goes_bind, goes_pure. intros t Ht.
    assert (Htask : within (same sys_db) t).
    { apply Hfound. by destruct found; simplify_eq/=. }
    apply goes_bind, sound_sys_same; [by apply join_task_db|].
    intros _ [tokens email] _ _ _. apply persist_account_sound.
  - apply goes_once.
    + intros d [Hc Hp]. split; [done|]. simpl. intros c t [_ ?]%lookup_delete_Some. by eapply Hp.
    + by intros ?.
    + intros d found d' Hd [= <- _] t Ht. by eapply dw_pending.
Qed.

Lemma handle_sound hc method params : sound (handle_prog hc method params) (λ _, True).
Proof.
  unfold handle_prog.
  repeat match goal with |- sound (if ?b then _ else _) _ => destruct b end.
  - unfold status_prog. sound_door. apply goes_once; [apply within_gets, _..|].
    intros ? ? ? _ _. sound_door.
  - unfold add_oauth_prog. apply goes_bind, goes_pure. intros provider _.
    destruct (negb _); [done|]. sound_door. apply goes_once.
    + match goal with |- context [oauth_task ?cfg ?ch] =>
        apply (modify_pending_wf (λ m, <[ulid_to_string _ := oauth_task cfg ch]> m)) end.
      intros x c t [[_ <-]|[_ ?]]%lookup_insert_Some Hx; [apply oauth_task_db|].
      by eapply dw_pending.
    + by intros ?.
    + done.
  - apply complete_oauth_sound.
  - unfold remove_account_prog. sound_door. apply goes_once.
    + apply in_ctx_wf, registry_remove_wf.
    + by intros ?.
    + intros ? ? ? _ _. sound_door.
  - unfold mcp_pause_prog. apply goes_bind, goes_once.
    + apply within_modify. intros d [[] ]. by split.
    + by intros ?.
    + intros ? ? ? _ _. sound_door.
  - apply goes_once; [apply handle_wf|apply handle_settles|done].
Qed.

(** ** The invariant of the calls *)

(** The policies that ask the user. *)
Definition asks (p : Policy) (c : Category) : bool :=
  match p, c with
  | Confirm, _ | Session, _ => true
  | Draftify, Send => false
  | Draftify, _ => true
  | _, _ => false
  end.

Section call.
Context (q : Queue) (tool : ToolSpec) (args : Value).

Definition policy_in (k : Subject) : Policy := policy_for (sj_perms k) (tool_category tool).
Definition asked_for (k : Subject) : ApprovalRequest := request_of tool args (sj_account k).

Record subject_ok (k : Subject) : Prop := {
  so_account : parse_account_id args = Ok (sj_account k);
  so_provider : ProviderWithin (same sys_db) (sj_provider k);
}.

(** What a call that is to act on an outcome has behind it. *)
Definition entitled (k : Subject) (o : EnforceOutcome) : Prop :=
  match o with
  | Blocked => True
  | ConvertToDraft => policy_in k = Draftify ∧ tool_category tool = Send
  | Proceed =>
      policy_in k = Allow ∨
      (asks (policy_in k) (tool_category tool) = true ∧ approved q (asked_for k)) ∨
      (policy_in k = Session ∧ ∃ r, ar_account r = sj_account k ∧
         ar_category r = tool_category tool ∧ approved q r)
  end.

Definition phase_ok (ph : Phase) : Prop :=
  match ph with
  | Entering | Resolving | Answered _ => True
  | Loading id p => parse_account_id args = Ok id ∧ ProviderWithin (same sys_db) p
  | Judging k | Expiring k _ => subject_ok k
  | Asking k _ => subject_ok k ∧ asks (policy_in k) (tool_category tool) = true
  | Waiting k _ fut =>
      subject_ok k ∧ asks (policy_in k) (tool_category tool) = true ∧
      channel_of (fut_rx fut) (asked_for k) q
  | Granting k =>
      subject_ok k ∧ asks (policy_in k) (tool_category tool) = true ∧
      approved q (asked_for k)
  | Acting k o => subject_ok k ∧ entitled k o
  end.
End call.

(** Every trusted pair owes it to an approved request. *)
Definition trust_earned (d : Desk) : Prop :=
  ∀ acc c, is_trusted (dk_trust d) acc c = true →
    ∃ r, ar_account r = acc ∧ ar_category r = c ∧ approved (dk_queue d) r.

Record flight_inv (s : Flight) : Prop := {
  fi_daemon : daemon_wf (fl_daemon s);
  fi_announced : announced (fl_queue s);
  fi_trust : trust_earned (desk_of (fl_daemon s));
  fi_calls n call : fl_calls s !! n = Some call →
    phase_ok (fl_queue s) (cl_tool call) (cl_args call) (cl_phase call);
  fi_ipc n p : fl_ipc s !! n = Some p → goes daemon_wf desk_settles p (λ _, True);
}.

(** What a call owes survives the steps of the queue. *)
Lemma phase_ok_later q q' tool args ph :
  rtc qstep q q' → queue_inv q → announced q →
  phase_ok q tool args ph → phase_ok q' tool args ph.
Proof.
  intros Hs Hinv Hann. destruct (qsteps_keep q q' Hs Hinv Hann) as (_ & Happ & Hchan).
  destruct ph as [| |id p|k|k g|k g fut|k fut|k|k o|r]; simpl; try done.
  - intros (? & ? & ?). auto.
  - intros (? & ? & ?). auto.
  - intros [? Ho]. split; [done|]. destruct o; simpl in *; [|done..].
    destruct Ho as [?|[[? ?]|[? (r & ? & ? & ?)]]]; [by left|right; left; auto|].
    right; right. split; [done|]. exists r. auto.
Qed.

Lemma trust_earned_later d d' :
  settles d d' → queue_inv (dk_queue d) → announced (dk_queue d) →
  trust_earned d → trust_earned d'.
Proof.
  intros [Hs Ht] Hinv Hann He acc c. rewrite Ht. intros Hc.
  destruct (He acc c Hc) as (r & ? & ? & ?). exists r. split; [done|]. split; [done|].
  by apply (qsteps_keep _ _ Hs Hinv Hann).
Qed.

Lemma flight_start_inv s : flight_start s → flight_inv s.
Proof.
  intros (Hd & Ht & Hc & Hp). pose proof (daemon_start_wf _ Hd) as Hwf.
  destruct Hd as (_ & Hq & _). split; [done| | | |].
  - intros id p c. unfold fl_queue, fl_ctx. rewrite Hq. simpl. by rewrite lookup_empty.
  - intros acc c. unfold desk_of. unfold fl_ctx in Ht. rewrite Ht.
    unfold is_trusted. by rewrite lookup_empty.
  - intros n call. by rewrite Hc, lookup_empty.
  - intros n p. by rewrite Hp, lookup_empty.
Qed.

(** A step of the daemon outside the calls. *)
Lemma daemon_inv d s :
  desk_settles (fl_daemon s) d → daemon_wf d → flight_inv s →
  flight_inv (with_daemon d s).
Proof.
  intros Hs Hd [Hwf Hann Htr Hcalls Hipc].
  assert (Hinv : queue_inv (dk_queue (desk_of (fl_daemon s)))) by apply Hwf.
  split; [done| | | |done].
  - by apply (qsteps_keep _ _ (proj1 Hs) Hinv Hann).
  - by apply (trust_earned_later _ _ Hs).
  - intros n call Hc. eapply phase_ok_later; [apply Hs|done..|by eapply Hcalls].
Qed.

(** ** A turn *)

Lemma within_settle {A} (R : relation Context) (m : CM A) next :
  within R m → within R (settle m next).
Proof. intros Hm c. specialize (Hm c). unfold settle. by destruct (m c) as [[] c']. Qed.

(** A turn ends with a phase. *)
Lemma advance_total tool args fired ph c :
  ∃ ph' c', advance tool args fired ph c = (Ok ph', c').
Proof.
  destruct ph; cbn [advance]; try (rewrite settle_run; by do 2 eexists); [|by do 2 eexists..].
  unfold judge. destruct (policy_for _ _), (tool_category tool); by do 2 eexists.
Qed.

(** A turn moves the queue by its steps. *)
Definition moves (c c' : Context) : Prop :=
  rtc qstep (dk_queue (cx_desk c)) (dk_queue (cx_desk c')).

#[local] Instance moves_preorder : PreOrder moves.
Proof. split; unfold moves; [by intros c|intros c1 c2 c3 ??; by etrans]. Qed.

Lemma at_sys_moves {A} (m : M A) : within moves (at_sys m).
Proof. intros c. rewrite at_sys_run. apply rtc_refl. Qed.

Lemma at_desk_moves {A} (m : DM A) : within qsteps m → within moves (at_desk m).
Proof. intros Hm c. rewrite at_desk_run. apply Hm. Qed.

Lemma act_moves tool args p o : within moves (act tool args p o).
Proof.
  destruct o; simpl; [apply at_sys_moves|apply within_throw, _|].
  destruct (String.eqb _ _); [apply within_ret, _|apply at_sys_moves].
Qed.

Lemma resolve_stays {R : relation Context} `{!PreOrder R} args : within R (resolve args).
Proof.
  unfold resolve, registry_get.
  repeat first [ apply within_bind; [apply _| |intros ?] | apply within_lift_res, _
    | apply within_gets, _ | apply within_ret, _ ].
Qed.

Lemma judge_stays {R : relation Context} `{!PreOrder R} cat k : within R (judge cat k).
Proof.
  unfold judge. destruct (policy_for _ _); try apply within_ret, _.
  - apply within_bind; [apply _|apply within_gets, _|intros b; apply within_ret, _].
  - destruct cat; apply within_ret, _.
Qed.

Lemma poll_stays {R : relation Context} `{!PreOrder R} fired k g fut :
  within R (poll fired k g fut).
Proof. apply within_bind; [apply _|apply within_gets, _|intros ch; apply within_ret, _]. Qed.

Lemma advance_moves tool args fired ph : within moves (advance tool args fired ph).
Proof.
  destruct ph; cbn [advance]; try apply within_settle;
    first [ apply within_gets, _ | apply within_ret, _ | apply resolve_stays
          | apply judge_stays | apply poll_stays | apply at_sys_moves | apply act_moves
          | apply at_desk_moves ].
  - apply enqueue_qsteps.
  - apply expire_qsteps.
  - intros d. apply rtc_refl.
Qed.

Lemma advance_trust tool args fired ph :
  (∀ k, ph ≠ Granting k) → within (same (dk_trust ∘ cx_desk)) (advance tool args fired ph).
Proof.
  intros Hne. destruct ph as [| |id p|k|k g|k g fut|k fut|k|k o|r]; cbn [advance];
    try apply within_settle;
    first [ apply within_gets, _ | apply within_ret, _ | apply resolve_stays
          | apply judge_stays | apply poll_stays
          | intros c; by rewrite at_sys_run | by intros c | idtac ].
  - by destruct (Hne k).
  - destruct o; simpl; [intros c; by rewrite at_sys_run|apply within_throw, _|].
    destruct (String.eqb _ _); [apply within_ret, _|intros c; by rewrite at_sys_run].
Qed.

Lemma advance_wf q tool args fired ph :
  phase_ok q tool args ph → within (keeps ctx_wf) (advance tool args fired ph).
Proof.
  intros Hok. destruct ph as [| |id p|k|k g|k g fut|k fut|k|k o|r]; cbn [advance];
    try apply within_settle;
    first [ apply within_gets, _ | apply within_ret, _ | apply resolve_stays
          | apply judge_stays | apply poll_stays | idtac ].
  - apply at_sys_wf_same, for_account_db.
  - apply at_desk_wf; [by intros d|apply qsteps_inv, enqueue_qsteps].
  - apply at_desk_wf; [by intros d|apply qsteps_inv, expire_qsteps].
  - intros c []. by split.
  - intros c Hc. apply act_governed; [apply Hok|done].
Qed.

(** The phase a turn ends with owes what it should. *)
Lemma advance_phase tool args fired ph c ph' c' :
  ctx_wf c → trust_earned (cx_desk c) → phase_ok (dk_queue (cx_desk c)) tool args ph →
  advance tool args fired ph c = (Ok ph', c') →
  phase_ok (dk_queue (cx_desk c')) tool args ph'.
Proof.
  intros Hwf Htr Hok. destruct ph as [| |id p|k|k g|k g fut|k fut|k|k o|r]; cbn [advance].
  - unfold settle, gets. destruct (cx_paused c); by intros [= <- <-].
  - rewrite settle_run. destruct (resolve args c) as [rr c1] eqn:Hr. intros [= <- <-].
    destruct rr as [[id p]|e| |]; [|done..]. simpl.
    unfold resolve, registry_get in Hr. run_ok.
    match goal with H : ok_or ?o _ = Ok _ |- _ => destruct o eqn:Hp; [|done] end.
    simplify_eq/=. split; [done|]. by eapply cw_providers.
  - rewrite settle_run. destruct (at_sys (for_account id) c) as [rr c1]. intros [= <- <-].
    destruct rr; [|done..]. by split; apply Hok.
  - unfold judge. destruct (policy_for _ _) eqn:Hpol; simpl.
    + intros [= <- <-]. split; [done|]. left. exact Hpol.
    + intros [= <- <-]. split; [done|]. unfold policy_in. by rewrite Hpol.
    + unfold mbind, st_bind, gets. intros [= <- <-].
      destruct (is_trusted _ _ _) eqn:Ht; (split; [done|]); unfold policy_in; rewrite ?Hpol; [|done].
      right; right. split; [exact Hpol|]. by apply Htr.
    + destruct (tool_category tool) eqn:Hcat; intros [= <- <-]; (split; [done|]);
        simpl; unfold policy_in; rewrite ?Hcat, ?Hpol; done.
    + by intros [= <- <-].
  - rewrite settle_run, at_desk_run.
    destruct (enqueue _ _) as [rr d1] eqn:He. intros [= <- <-]. pose proof He as Hrun.
    injection He as <- _. destruct Hok as [Hk Hask].
    split; [done|]. split; [done|]. by eapply enqueue_channel; [apply Hwf|].
  - unfold poll, mbind, st_bind, gets. intros [= <- <-].
    destruct Hok as (Hk & Hask & Hch).
    destruct (q_chans _ !! fut_rx fut) as [[|o|]|] eqn:Hc; [by destruct fired| |done..].
    destruct o; simpl; [|done..].
    apply (co_approved _ _ _ Hch) in Hc. destruct g; simpl; [done|].
    split; [done|]. by right; left.
  - rewrite settle_run. by intros [= <- <-].
  - rewrite settle_run. intros [= <- <-]. destruct Hok as (Hk & Hask & Happ).
    split; [done|]. by right; left.
  - rewrite settle_run. intros [= <- <-]. by destruct (act _ _ _ _ _).1.
  - by intros [= <- <-].
Qed.

(** Granting trust is earned by the approval it follows. *)
Lemma advance_earned tool args fired ph c ph' c' :
  ctx_wf c → announced (dk_queue (cx_desk c)) → trust_earned (cx_desk c) →
  phase_ok (dk_queue (cx_desk c)) tool args ph →
  advance tool args fired ph c = (Ok ph', c') → trust_earned (cx_desk c').
Proof.
  intros Hwf Hann Htr Hok Hrun.
  assert (Hcase : (∃ k, ph = Granting k) ∨ ∀ k, ph ≠ Granting k).
  { destruct ph; first [by left; eexists|by right; intros ?]. }
  destruct Hcase as [[k ->]|Hne].
  - cbn [advance] in Hrun. rewrite settle_run in Hrun. injection Hrun as <- <-.
    destruct Hok as (Hk & Hask & Happ). intros acc cat. simpl. unfold is_trusted, grant.
    destruct (decide ((sj_account k, tool_category tool) = (acc, cat))) as [[= <- <-]|Hd].
    + intros _. by exists (asked_for tool args k).
    + rewrite lookup_insert_ne by done. apply Htr.
  - pose proof (advance_moves tool args fired ph c) as Hm.
    pose proof (advance_trust tool args fired ph Hne c) as Ht. rewrite Hrun in Hm, Ht.
    apply (trust_earned_later (cx_desk c)); [by split|apply Hwf|done..].
Qed.

Lemma turn_inv n call fired s :
  fl_calls s !! n = Some call → flight_inv s → flight_inv (take_turn n call fired s).
Proof.
  intros Hc [Hwf Hann Htr Hcalls Hipc]. unfold take_turn, in_ctx, zoom.
  pose proof (Hcalls _ _ Hc) as Hok. pose proof (dw_ctx _ Hwf) as Hctx.
  destruct (advance_total (cl_tool call) (cl_args call) fired (cl_phase call)
    (h_ctx (fl_daemon s))) as (ph' & c' & Hrun).
  pose proof (advance_moves (cl_tool call) (cl_args call) fired (cl_phase call)
    (h_ctx (fl_daemon s))) as Hm.
  pose proof (advance_wf _ _ _ fired _ Hok (h_ctx (fl_daemon s)) Hctx) as Hctx'.
  rewrite Hrun in *. simpl in Hm, Hctx'.
  split; cbn.
  - split; [done|]. apply Hwf.
  - by apply (qsteps_keep _ _ Hm); [apply Hctx|].
  - eapply advance_earned; [exact Hctx|done..|exact Hrun].
  - intros m call'. intros [[<- <-]|[_ Hm']]%lookup_insert_Some.
    + by eapply advance_phase; [exact Hctx|..|exact Hrun].
    + eapply phase_ok_later; [exact Hm|apply Hctx|done|by eapply Hcalls].
  - exact Hipc.
Qed.

(** The requests of the IPC door that are under way, replaced. *)
Lemma pool_inv s l :
  (∀ n p, l !! n = Some p → sound p (λ _, True)) → flight_inv s →
  flight_inv (mkFlight (fl_daemon s) (fl_calls s) l).
Proof. intros Hl []. by split. Qed.

Lemma step_inv n p s :
  fl_ipc s !! n = Some p → flight_inv s → flight_inv (take_step n p s).
Proof.
  intros Hp Hs. pose proof (fi_ipc _ Hs) as Hipc.
  destruct (goes_turn daemon_wf desk_settles p _ (fl_daemon s) _ (Hipc _ _ Hp)
    (fi_daemon _ Hs)) as (Hgo & Hwf & Hset).
  apply (pool_inv (with_daemon (turn p (fl_daemon s)).2 s)); [|by apply daemon_inv].
  intros m q [[_ <-]|[_ Hq]]%lookup_insert_Some; [done|by eapply Hipc].
Qed.

Lemma fstep_inv s s' : fstep s s' → flight_inv s → flight_inv s'.
Proof.
  intros [n tool args s1 Hn|n call fired s1 Hc|n s1|n hc method params s1 Hn|n p s1 Hp
    |n r s1 Hp|a s1] Hs.
  - destruct Hs as [? ? ? Hcalls ?]. split; [done..| |done].
    intros m call. simpl. intros [[_ <-]|[_ ?]]%lookup_insert_Some; [done|by eapply Hcalls].
  - by apply turn_inv.
  - destruct Hs as [? ? ? Hcalls ?]. split; [done..| |done].
    intros m call. simpl. intros [_ ?]%lookup_delete_Some. by eapply Hcalls.
  - apply pool_inv; [|done]. intros m p [[_ <-]|[_ Hp]]%lookup_insert_Some;
      [apply handle_sound|by eapply fi_ipc].
  - by apply step_inv.
  - apply pool_inv; [|done]. intros m p [_ Hm]%lookup_delete_Some. by eapply fi_ipc.
  - apply daemon_inv; [apply in_desk_settles, run_action_settles| |done].
    apply (in_ctx_wf (at_desk (run_action a))); [|apply Hs].
    apply at_desk_wf; [|apply qsteps_inv, run_action_qsteps].
    eapply within_weaken; [|apply run_action_quiet]. unfold same, quiet, compose.
    intros d1 d2 ?. congruence.
Qed.

Lemma reachable_flight s0 s : flight_start s0 → rtc fstep s0 s → flight_inv s.
Proof. intros Hs%flight_start_inv Hr. induction Hr; eauto using fstep_inv. Qed.

(** ** What a call has seen *)

(** Some state on the way from [s0] to [s] had [Q]. *)
Definition past (s0 s : Flight) (Q : Flight → Prop) : Prop :=
  ∃ s1, rtc fstep s0 s1 ∧ rtc fstep s1 s ∧ Q s1.

Lemma past_here s0 s s' (Q : Flight → Prop) :
  rtc fstep s0 s → fstep s s' → Q s → past s0 s' Q.
Proof. intros Hr Hs HQ. exists s. split; [done|]. split; [by apply rtc_once|done]. Qed.

Lemma past_later s0 s s' Q : fstep s s' → past s0 s Q → past s0 s' Q.
Proof.
  intros Hs (s1 & H1 & H2 & HQ). exists s1. split; [done|]. split; [|done]. by eapply rtc_r.
Qed.

Definition unpaused (s : Flight) : Prop := cx_paused (fl_ctx s) = false.
Definition registered (id : AccountId) (p : MailProvider) (s : Flight) : Prop :=
  cx_providers (fl_ctx s) !! id = Some p.
Definition stored (id : AccountId) (perms : Permissions) (s : Flight) : Prop :=
  ∀ cat, policy_for perms cat = stored_policy (fl_db s) id cat.

(** The subject of a phase that has one. *)
Definition subject_of (ph : Phase) : option Subject :=
  match ph with
  | Judging k | Asking k _ | Waiting k _ _ | Expiring k _ | Granting k | Acting k _ => Some k
  | _ => None
  end.

Definition phase_seen (s0 s : Flight) (ph : Phase) : Prop :=
  match ph with
  | Entering | Answered _ => True
  | Resolving => past s0 s unpaused
  | Loading id p => past s0 s unpaused ∧ past s0 s (registered id p)
  | _ => ∀ k, subject_of ph = Some k →
      past s0 s unpaused ∧ past s0 s (registered (sj_account k) (sj_provider k)) ∧
      past s0 s (stored (sj_account k) (sj_perms k))
  end.

Lemma phase_seen_later s0 s s' ph : fstep s s' → phase_seen s0 s ph → phase_seen s0 s' ph.
Proof.
  intros Hs. pose proof (λ Q, past_later s0 s s' Q Hs) as Hl.
  destruct ph; simpl; try done; [by auto|by intros [? ?]; auto|..];
    intros H k' Hk; destruct (H k' Hk) as (? & ? & ?); split_and!; by auto.
Qed.

(** After the policies are loaded a call keeps its subject. *)
Lemma advance_subject tool args fired ph k c ph' c' :
  subject_of ph = Some k → advance tool args fired ph c = (Ok ph', c') →
  subject_of ph' = Some k ∨ ∃ r, ph' = Answered r.
Proof.
  intros Hk. destruct ph; simplify_eq/=.
  - unfold judge. destruct (policy_for _ _), (tool_category tool);
      try (intros [= <- <-]; by left);
      unfold mbind, st_bind, gets; intros [= <- <-]; destruct (is_trusted _ _ _); by left.
  - rewrite settle_run, at_desk_run. intros [= <- <-]. by left.
  - unfold poll, mbind, st_bind, gets. intros [= <- <-].
    destruct (q_chans _ !! _) as [[|o|]|]; [by destruct fired; left| |by right; eexists..].
    destruct o; simpl; try by left. destruct grants; by left.
  - rewrite settle_run. intros [= <- <-]. by left.
  - rewrite settle_run. intros [= <- <-]. by left.
  - rewrite settle_run. intros [= <- <-]. right. destruct (act _ _ _ _ _).1; by eexists.
Qed.

Lemma advance_seen s0 s s' tool args fired ph ph' c' :
  rtc fstep s0 s → fstep s s' → db_wf (fl_db s) → phase_seen s0 s ph →
  advance tool args fired ph (fl_ctx s) = (Ok ph', c') → phase_seen s0 s' ph'.
Proof.
  intros Hr Hs Hdb Hseen%(phase_seen_later _ _ _ _ Hs) Hrun.
  destruct (subject_of ph) as [k|] eqn:Hk.
  { destruct (advance_subject _ _ _ _ _ _ _ _ Hk Hrun) as [Hk'|[r ->]]; [|done].
    destruct ph; try done; destruct (Hseen _ eq_refl) as (? & ? & ?);
      destruct ph'; try done; intros k' Hk2; simplify_eq/=; done. }
  pose proof (λ Q, past_here s0 s s' Q Hr Hs) as Hhere.
  destruct ph as [| |id p| | | | | | |r]; simplify_eq/=.
  - unfold settle, gets in Hrun. destruct (cx_paused (fl_ctx s)) eqn:Hp;
      injection Hrun as <- <-; [done|]. by apply Hhere.
  - rewrite settle_run in Hrun. destruct (resolve args (fl_ctx s)) as [rr c1] eqn:Hres.
    injection Hrun as <- <-. destruct rr as [[id p]|e| |]; [|done..]. simpl.
    split; [done|]. unfold resolve, registry_get in Hres. run_ok.
    match goal with H : ok_or ?o _ = Ok _ |- _ => destruct o eqn:Hp; [|done] end.
    simplify_eq/=. by apply Hhere.
  - rewrite settle_run, at_sys_run in Hrun. injection Hrun as <- <-.
    destruct (for_account_run id (cx_sys (fl_ctx s)) Hdb)
      as [(text & ->)|(m & s1 & -> & _ & _ & _ & _ & Hm)]; [done|].
    intros k [= <-]. simpl. destruct Hseen. split; [done|]. split; [done|]. by apply Hhere.
  - injection Hrun as <- <-. done.
Qed.

Lemma reachable_seen s0 s n call :
  flight_start s0 → rtc fstep s0 s → fl_calls s !! n = Some call →
  phase_seen s0 s (cl_phase call).
Proof.
  intros H0 Hr. revert n call. revert s Hr.
  apply (rtc_ind_r (λ s, ∀ n call, fl_calls s !! n = Some call →
    phase_seen s0 s (cl_phase call))); [|intros s s' Hr Hs IH].
  { intros n call. destruct H0 as (_ & _ & -> & _). by rewrite lookup_empty. }
  pose proof (reachable_flight _ _ H0 Hr) as Hinv. intros m call Hm.
  assert (Hold : ∀ call, fl_calls s !! m = Some call → phase_seen s0 s' (cl_phase call)).
  { intros call' Hc'. eapply phase_seen_later; [exact Hs|by eapply IH]. }
  pose proof Hs as Hstep.
  destruct Hs as [n tool args s Hn|n call1 fired s Hc|n s|n hc method params s Hn|n p s Hp
    |n r s Hp|a s];
    simpl in Hm.
  - apply lookup_insert_Some in Hm as [[_ <-]|[_ ?]]; [done|by apply Hold].
  - revert Hm. unfold take_turn at 1, in_ctx, zoom.
    destruct (advance_total (cl_tool call1) (cl_args call1) fired (cl_phase call1)
      (fl_ctx s)) as (ph' & c' & Hrun). unfold fl_ctx in Hrun. rewrite Hrun. simpl.
    intros [[<- <-]|[_ ?]]%lookup_insert_Some; [|by apply Hold].
    eapply advance_seen; [exact Hr|exact Hstep|apply Hinv|by eapply IH|exact Hrun].
  - apply lookup_delete_Some in Hm as [_ ?]. by apply Hold.
  - by apply Hold.
  - by apply Hold.
  - by apply Hold.
  - by apply Hold.
Qed.

(** Only a call that acts touches the provider, the secrets or the database. *)
Lemma advance_quiet tool args fired ph :
  (∀ k o, ph ≠ Acting k o) → within (same (quiet ∘ cx_sys)) (advance tool args fired ph).
Proof.
  intros Hne. destruct ph as [| |id p|k|k g|k g fut|k fut|k|k o|r]; cbn [advance];
    try apply within_settle;
    first [ apply within_gets, _ | apply within_ret, _ | apply resolve_stays
          | apply judge_stays | apply poll_stays | by intros c | idtac ].
  - intros c. rewrite at_sys_run. unfold same, compose. simpl.
    assert (H : within (same quiet) (for_account id)) by (unfold for_account; frame).
    exact (H (cx_sys c)).
  - by destruct (Hne k o).
Qed.
(** A turn decides nothing. *)
Lemma advance_undecided tool args fired ph id dec :
  within (λ c c', Resolved id dec ∈ q_events (dk_queue (cx_desk c')) →
    Resolved id dec ∈ q_events (dk_queue (cx_desk c))) (advance tool args fired ph).
Proof.
  set (R := λ c c' : Context, _). assert (HR : PreOrder R).
  { split; unfold R; [by intros c|intros c1 c2 c3; auto]. }
  assert (Hsys : ∀ A (m : M A), within R (at_sys m)).
  { intros A m c. rewrite at_sys_run. by intros ?. }
  destruct ph as [| |i p|k|k g|k g fut|k fut|k|k o|r]; cbn [advance];
    try apply within_settle;
    first [ apply within_gets, _ | apply within_ret, _ | apply resolve_stays
          | apply judge_stays | apply poll_stays | apply Hsys | idtac ].
  - intros c. unfold R. rewrite at_desk_run. simpl.
    intros [[=]|?]%elem_of_cons. done.
  - by intros c ?.
  - by intros c ?.
  - destruct o; simpl; [apply Hsys|apply within_throw, _|].
    destruct (String.eqb _ _); [apply within_ret, _|apply Hsys].
Qed.

(** ** Turns left *)

(** How many turns a call whose timer has fired may still take. *)
Definition turns_left (ph : Phase) : nat :=
  match ph with
  | Entering => 8
  | Resolving => 7
  | Loading _ _ => 6
  | Judging _ => 5
  | Asking _ _ => 4
  | Waiting _ _ _ => 3
  | Expiring _ _ | Granting _ => 2
  | Acting _ _ => 1
  | Answered _ => 0
  end.

Lemma advance_nearer tool args ph c ph' c' :
  advance tool args true ph c = (Ok ph', c') → turns_left ph' ≤ turns_left ph - 1.
Proof.
  assert (Hset : ∀ {A} (m : CM A) next n, (∀ a, turns_left (next a) ≤ n) →
    settle m next c = (Ok ph', c') → turns_left ph' ≤ n).
  { intros A m next n Hn. rewrite settle_run. intros [= <- <-].
    destruct (m c).1; simpl; try lia. apply Hn. }
  destruct ph; cbn [advance]; try (apply Hset; intros; simpl; lia).
  - apply Hset. intros []; simpl; lia.
  - apply Hset. intros [id p]; simpl; lia.
  - unfold judge. destruct (policy_for _ _), (tool_category tool);
      try (intros [= <- <-]; simpl; lia);
      unfold mbind, st_bind, gets; intros [= <- <-]; destruct (is_trusted _ _ _); simpl; lia.
  - unfold poll, mbind, st_bind, gets. intros [= <- <-].
    destruct (q_chans _ !! _) as [[|[]|]|]; simpl; try lia. destruct grants; simpl; lia.
  - intros [= <- <-]. simpl. lia.
Qed.

(** Steps that leave call [n] alone, and then a turn of [n], its timer fired. *)
Definition spares (n : nat) (s s' : Flight) : Prop :=
  fstep s s' ∧ fl_calls s' !! n = fl_calls s !! n.
Definition attends (n : nat) (s s' : Flight) : Prop :=
  ∃ s1 call, rtc (spares n) s s1 ∧ fl_calls s1 !! n = Some call ∧ s' = take_turn n call true s1.

Lemma spares_rtc n s s' : rtc (spares n) s s' → fl_calls s' !! n = fl_calls s !! n.
Proof. induction 1 as [|s1 s2 s3 [_ H] _ IH]; [done|congruence]. Qed.

Lemma attends_nearer n s s' tool args ph :
  attends n s s' → fl_calls s !! n = Some (mkCall tool args ph) →
  ∃ ph', fl_calls s' !! n = Some (mkCall tool args ph') ∧
    turns_left ph' ≤ turns_left ph - 1.
Proof.
  intros (s1 & call & Hr%spares_rtc & Hc & ->) Hn. rewrite Hr, Hn in Hc. injection Hc as <-.
  unfold take_turn, in_ctx, zoom. cbn [cl_tool cl_args cl_phase].
  destruct (advance_total tool args true ph (h_ctx (fl_daemon s1))) as (ph' & c' & Hrun).
  rewrite Hrun. exists ph'. split; [apply lookup_insert_eq|]. by eapply advance_nearer.
Qed.

(** The steps of the calls, without the IPC door and the queue's other users. *)
Definition calls_only (s s' : Flight) : Prop :=
  (∃ n tool args, s' = with_call n (mkCall tool args Entering) s) ∨
  (∃ n call fired, fl_calls s !! n = Some call ∧ s' = take_turn n call fired s) ∨
  (∃ n, s' = drop_call n s).

(** A call, and a context with the calls of nobody else. *)
Definition alone (n : nat) (tool : ToolSpec) (args : Value) (d : Daemon)
    (x : Phase * Context) : Flight :=
  mkFlight (set_ctx x.2 d) {[n := mkCall tool args x.1]} ∅.

Lemma solo_fstep n tool args d x y :
  solo tool args x y → fstep (alone n tool args d x) (alone n tool args d y).
Proof.
  intros [fired ph c ph' c' Hrun|a ph c].
  - assert (alone n tool args d (ph', c') =
      take_turn n (mkCall tool args ph) fired (alone n tool args d (ph, c))) as ->.
    { unfold take_turn, in_ctx, zoom. cbn [cl_tool cl_args cl_phase].
      change (h_ctx (fl_daemon (alone n tool args d (ph, c)))) with c. rewrite Hrun.
      unfold alone, with_call, with_daemon. simpl. by rewrite insert_singleton_eq. }
    apply FTurn, lookup_singleton_eq.
  - assert (alone n tool args d (ph, (at_desk (run_action a) c).2) = with_daemon
      (in_desk (run_action a) (set_ctx c d)).2 (alone n tool args d (ph, c))) as ->.
    { unfold in_desk, in_ctx, zoom, with_daemon, alone. simpl.
      by destruct (at_desk (run_action a) c). }
    apply FQueue.
Qed.

(** ** One request alone *)

Lemma run_flight n (p : Prog Value) d s r d' :
  run p d = (r, d') →
  rtc fstep (with_prog n p (with_daemon d s)) (with_prog n (Done r) (with_daemon d' s)).
Proof.
  revert d. induction p as [r0|m IH] using prog_ind'; intros d; simpl.
  { intros [= -> ->]. apply rtc_refl. }
  intros Hrun. eapply rtc_l; [apply (FStep n (Step m)), lookup_insert_eq|].
  unfold take_step, with_prog, with_daemon. simpl. rewrite insert_insert_eq.
  destruct (m d) as [[q|e| |] d1] eqn:E; [by eapply IH|injection Hrun as <- <-; apply rtc_refl..].
Qed.

Lemma request_alone n hc method params s r d' :
  fl_ipc s !! n = None → handle hc method params (fl_daemon s) = (r, d') →
  rtc fstep s (with_prog n (Done r) (with_daemon d' s)).
Proof.
  intros Hn Hrun. rewrite <-(handle_alone hc method params (fl_daemon s)) in Hrun.
  apply (run_flight n _ _ s) in Hrun.
  eapply rtc_l; [by apply (FRequest n hc method params)|]. by destruct s.
Qed.

Lemma reply_alone n r d s :
  fl_ipc s !! n = None →
  fstep (with_prog n (Done r) (with_daemon d s)) (with_daemon d s).
Proof.
  intros Hn.
  assert (E : with_daemon d s = drop_prog n (with_prog n (Done r) (with_daemon d s))).
  { unfold drop_prog, with_prog, with_daemon. simpl. by rewrite delete_insert_id. }
  rewrite E at 2. apply (FReply n r), lookup_insert_eq.
Qed.

(** ** Requests end *)

(** Steps that leave request [n] alone, and then a step of [n]. *)
Definition serves (n : nat) (s s' : Flight) : Prop :=
  ∃ s1 p, rtc (λ x y, fstep x y ∧ fl_ipc y !! n = fl_ipc x !! n) s s1 ∧
    fl_ipc s1 !! n = Some p ∧ s' = take_step n p s1.

Lemma serves_nearer n s s' k p :
  serves n s s' → fl_ipc s !! n = Some p → at_most (S k) p →
  ∃ p', fl_ipc s' !! n = Some p' ∧ at_most k p'.
Proof.
  intros (s1 & q & Hr & Hq & ->) Hp Hk.
  assert (Hs : fl_ipc s1 !! n = fl_ipc s !! n).
  { clear -Hr. induction Hr as [|x y z [_ H] _ IH]; congruence. }
  rewrite Hs, Hp in Hq. injection Hq as <-. eexists. split; [apply lookup_insert_eq|].
  destruct p as [r|m]; [done|]. specialize (Hk (fl_daemon s1)). simpl.
  by destruct (m (fl_daemon s1)) as [[q|e| |] d'].
Qed.

Lemma serves_ends n s s' k p :
  nsteps (serves n) k s s' → fl_ipc s !! n = Some p → at_most k p →
  ∃ r, fl_ipc s' !! n = Some (Done r).
Proof.
  intros Hs. revert p. induction Hs as [s|k s1 s2 s3 H _ IH]; intros p Hp Hk.
  - destruct p as [r|m]; [by exists r|done].
  - destruct (serves_nearer n s1 s2 k p H Hp Hk) as (p' & Hp' & Hk'). by eapply IH.
Qed.
End inflight.

(** ** Properties *)

Section properties.
Context `{PF : Platform}.

(** C3: whatever runs at once, a call touches the mail provider, the tokens, the
    keychain or the database only in its last turn, after it saw the server not
    paused, its provider registered under the account of its arguments, and a
    stored policy that allows it: [Allow], or one that asks and the user approved
    this very request, or [Session] and the user approved an earlier request of
    the same account and category, or [Draftify] of a send, made a draft. *)
Theorem in_flight_authorized s0 s n call fired :
  flight_start s0 → rtc fstep s0 s → fl_calls s !! n = Some call →
  quiet (cx_sys (fl_ctx (take_turn n call fired s))) ≠ quiet (cx_sys (fl_ctx s)) →
  ∃ k o, cl_phase call = Acting k o ∧ o ≠ Blocked ∧
    parse_account_id (cl_args call) = Ok (sj_account k) ∧
    past s0 s unpaused ∧ past s0 s (registered (sj_account k) (sj_provider k)) ∧
    past s0 s (stored (sj_account k) (sj_perms k)) ∧
    entitled (fl_queue s) (cl_tool call) (cl_args call) k o.
Proof.
  intros H0 Hr Hc Hne. pose proof (reachable_flight _ _ H0 Hr) as Hinv.
  pose proof (reachable_seen _ _ _ _ H0 Hr Hc) as Hseen.
  pose proof (fi_calls _ Hinv _ _ Hc) as Hok. destruct call as [tool args ph].
  simpl in *. assert (Hact : ∃ k o, ph = Acting k o ∧ o ≠ Blocked).
  { unfold take_turn, in_ctx, zoom, fl_ctx in Hne. cbn [cl_tool cl_args cl_phase] in Hne.
    destruct (advance_total tool args fired ph (h_ctx (fl_daemon s))) as (ph' & c' & Hrun).
    rewrite Hrun in Hne. simpl in Hne.
    assert (Hcase : (∃ k o, ph = Acting k o) ∨ ∀ k o, ph ≠ Acting k o).
    { destruct ph; first [by left; do 2 eexists|by right; intros ? ?]. }
    destruct Hcase as [(k & o & ->)|Hno].
    - exists k, o. split; [done|]. intros ->. by injection Hrun as <- <-.
    - pose proof (advance_quiet tool args fired ph Hno (h_ctx (fl_daemon s))) as Hq.
      rewrite Hrun in Hq. done. }
  destruct Hact as (k & o & -> & Ho). exists k, o.
  destruct (Hseen k eq_refl) as (? & ? & ?). destruct Hok as [Hk ?].
  split_and!; try done. apply Hk.
Qed.

(** The calls cannot approve themselves: however many calls come in, take
    turns and go away, no request is decided by it. *)
Theorem calls_never_decide s s' :
  rtc calls_only s s' →
  ∀ id dec, Resolved id dec ∈ q_events (fl_queue s') → Resolved id dec ∈ q_events (fl_queue s).
Proof.
  induction 1 as [|s1 s2 s3 Hs _ IH]; [done|]. intros id dec Hin%IH.
  destruct Hs as [(n & tool & args & ->)|[(n & call & fired & _ & ->)|(n & ->)]]; [done| |done].
  revert Hin. unfold take_turn, in_ctx, zoom, fl_queue, fl_ctx.
  pose proof (advance_undecided (cl_tool call) (cl_args call) fired (cl_phase call) id dec
    (h_ctx (fl_daemon s1))) as Hu.
  destruct (advance _ _ _ _ _) as [[ph'|e| |] c']; exact Hu.
Qed.


(** C8: [dispatch] as one computation is one call of the interleaved system, run
    with nobody else but the queue's other users: its answer, and the context it
    leaves, are those of its turns. *)
Theorem dispatch_is_a_flight n tool args d r c' :
  dispatch tool args (h_ctx d) = (r, c') →
  rtc fstep (alone n tool args d (Entering, place (cx_desk (h_ctx d)) (h_ctx d)))
    (alone n tool args d (Answered r, place (cx_desk c') (h_ctx d))).
Proof.
  intros H%dispatch_solo. revert H.
  generalize (Entering, place (cx_desk (h_ctx d)) (h_ctx d)).
  generalize (Answered r, place (cx_desk c') (h_ctx d)).
  intros y x. induction 1 as [|x y z H _ IH]; [done|].
  eapply rtc_l; [by apply solo_fstep|exact IH].
Qed.

(** C11: the daemon stays intact under every interleaving of tool calls and requests of
    the IPC door, step by step: the database is well-formed, the queue has its
    invariant, every registered provider and every pending authorization leaves the
    database alone. *)
Theorem reachable_flight_intact s0 s :
  flight_start s0 → rtc fstep s0 s → daemon_wf (fl_daemon s).
Proof. intros H0 Hr. apply (reachable_flight _ _ H0 Hr). Qed.


End properties.
