(* ===== verification/Contract.v ===== *)
(** * What the daemon promises

    An abstract specification of the daemon, as the tray, the command line and the
    user see it: the accounts it knows, the policy of each of their categories, the
    trust of the session, the requests waiting for the user, the pause switch and
    the onboarding flag; and the refinement of it by the IPC handler and by the
    calls in flight. *)
From S2P Require Export InFlight.

(** ** The specification *)

Record Spec : Type := mkSpec {
  sp_known : gset string;
  sp_policy : AccountId → Category → Policy;
  sp_onboarded : bool;
  sp_paused : bool;
  sp_pending : gmap ApprovalId ApprovalRequest;
  sp_trusted : AccountId → Category → bool;
}.

(** Two specifications that no observation tells apart. *)
Record spec_equiv (x y : Spec) : Prop := {
  se_known : sp_known x = sp_known y;
  se_policy id c : sp_policy x id c = sp_policy y id c;
  se_onboarded : sp_onboarded x = sp_onboarded y;
  se_paused : sp_paused x = sp_paused y;
  se_pending : sp_pending x = sp_pending y;
  se_trusted id c : sp_trusted x id c = sp_trusted y id c;
}.

#[export] Instance Spec_equiv : Equiv Spec := spec_equiv.
#[export] Instance Spec_equivalence : Equivalence (≡@{Spec}).
Proof.
  split.
  - intros x. by split.
  - intros x y []. by split.
  - intros x y z [] []. split; intros; congruence.
Qed.

Section contract.
Context `{PF : Platform}.

(** What can happen to it. *)
Inductive Op : Type :=
| Stay
| SetPolicy (id : AccountId) (c : Category) (p : Policy)
| Admit (id : AccountId)
| Expel (id : AccountId)
| SetOnboarded (b : bool)
| SetPaused (b : bool)
| Settle (id : ApprovalId)
| Ask (id : ApprovalId) (r : ApprovalRequest)
| Forget (id : ApprovalId)
| Trust (id : AccountId) (c : Category).

Definition key_of (id : AccountId) : string := account_to_string id.

Definition run_op (o : Op) (x : Spec) : Spec :=
  let 'mkSpec known policy onboarded paused pending trusted := x in
  match o with
  | Stay => x
  | SetPolicy id c p =>
      mkSpec known (λ id' c', if decide (id' = id ∧ c' = c) then p else policy id' c')
        onboarded paused pending trusted
  | Admit id =>
      mkSpec ({[key_of id]} ∪ known)
        (λ id' c', if decide (id' = id) then default_policy c' else policy id' c')
        onboarded paused pending trusted
  | Expel id =>
      mkSpec (known ∖ {[key_of id]})
        (λ id' c', if decide (id' = id) then default_policy c' else policy id' c')
        onboarded paused pending trusted
  | SetOnboarded b => mkSpec known policy b paused pending trusted
  | SetPaused b => mkSpec known policy onboarded b pending trusted
  | Settle id | Forget id =>
      mkSpec known policy onboarded paused (delete id pending) trusted
  | Ask id r => mkSpec known policy onboarded paused (<[id := r]> pending) trusted
  | Trust id c =>
      mkSpec known policy onboarded paused pending
        (λ id' c', if decide (id' = id ∧ c' = c) then true else trusted id' c')
  end.

(** When it can. *)
Definition can (o : Op) (x : Spec) : Prop :=
  match o with
  | SetPolicy id _ _ | Expel id => key_of id ∈ sp_known x
  | Admit id => key_of id ∉ sp_known x
  | Settle id => is_Some (sp_pending x !! id)
  | _ => True
  end.

#[export] Instance run_op_proper o : Proper ((≡) ==> (≡)) (run_op o).
Proof.
  intros [k1 p1 o1 b1 q1 t1] [k2 p2 o2 b2 q2 t2] []. simpl in *. subst.
  destruct o; split; simpl; intros; repeat case_decide; auto.
Qed.

#[export] Instance can_proper o : Proper ((≡) ==> iff) (can o).
Proof. intros x y []. destruct o; simpl; by rewrite ?se_known0, ?se_pending0. Qed.

(** ** The abstraction *)

Definition ONBOARDED : string := "onboarding_complete".

Definition abs (d : Daemon) : Spec := {|
  sp_known := dom (db_accounts (sys_db (sys_of d)));
  sp_policy := stored_policy (sys_db (sys_of d));
  sp_onboarded := bool_decide (db_app_state (sys_db (sys_of d)) !! ONBOARDED = Some "true");
  sp_paused := cx_paused (h_ctx d);
  sp_pending := (λ e, pa_request e.1) <$> q_pending (dk_queue (desk_of d));
  sp_trusted := is_trusted (dk_trust (desk_of d));
|}.

(** What an acknowledged method has done. *)
Inductive names (params : Value) : string → Op → Prop :=
| names_set id c p :
    param_account params = Ok id →
    get_str "category" params = Some (category_str c) →
    get_str "policy" params = Some (policy_str p) →
    names params "permissions.set" (SetPolicy id c p)
| names_remove id : param_account params = Ok id → names params "accounts.remove" (Expel id)
| names_complete id : names params "accounts.complete_oauth" (Admit id)
| names_decide u :
    (∃ s, get_str "id" params = Some s ∧ ulid_from_str s = inr u) →
    names params "approvals.decide" (Settle (mkApprovalId u))
| names_pause :
    names params "mcp.pause" (SetPaused (default false (get_bool "paused" params)))
| names_onboarded :
    names params "settings.set_onboarding_complete"
      (SetOnboarded (default false (get_bool "complete" params)))
| names_other method :
    method ∈ ["status"; "accounts.list"; "accounts.add_oauth"; "accounts.cancel_oauth";
              "permissions.get"; "approvals.list"; "settings.set_autostart";
              "mcp.endpoint"] →
    names params method Stay.

(** An operation of [P] happened; or nothing did, and it is not acknowledged. *)
Definition does {A} (P : Op → Prop) (d : Daemon) (rd : Result A * Daemon) : Prop :=
  (∃ o, P o ∧ can o (abs d) ∧ abs rd.2 ≡ run_op o (abs d)) ∨
  (is_ok rd.1 = false ∧ abs rd.2 ≡ abs d).

(** ** What leaves the specification alone *)

Definition stays (d d' : Daemon) : Prop := abs d' ≡ abs d.

#[local] Instance stays_preorder : PreOrder stays.
Proof.
  split; unfold stays; [done|]. intros d1 d2 d3 H1 H2. by rewrite H2.
Qed.

Lemma in_sys_stays {A} (m : M A) : within (same sys_db) m → within stays (in_sys m).
Proof.
  intros Hm d. rewrite in_sys_run. specialize (Hm (sys_of d)). unfold same in Hm.
  split; unfold abs; simpl; try done; unfold sys_of, cx_sys in *; simpl in *;
    intros; by rewrite Hm.
Qed.

Lemma pending_stays f :
  within (E:=Error) stays (modify (λ d, set_pending (f (h_pending d)) d)).
Proof. apply within_modify. by intros d. Qed.

Lemma notify_stays n : within stays (notify n).
Proof. apply within_modify. by intros d. Qed.

Lemma registry_stays f : within stays (in_ctx (modify (λ c, set_providers (f (cx_providers c)) c))).
Proof. by intros d. Qed.

Ltac stays_door :=
  repeat first
    [ apply within_ret, _ | apply within_throw, _ | apply within_lift_res, _
    | apply within_gets, _ | apply notify_stays | apply pending_stays
    | apply (registry_stays (<[_ := _]>)) | apply (registry_stays (delete _))
    | apply within_ignore, in_sys_stays; solve [frame]
    | apply in_sys_stays; solve [frame | apply list_accounts_db | apply for_account_db
        | apply get_account_db | apply get_app_state_db | apply begin_authorization_db
        | apply with_rotation_callback_db]
    | apply within_bind; [apply _| |intros ?] ].

Lemma does_stay {A} (P : Op → Prop) (m : HM A) d :
  P Stay → within stays m → does P d (m d).
Proof. intros HP Hm. left. exists Stay. split; [done|]. split; [done|]. apply Hm. Qed.

(** Arguments that do not parse. *)
Lemma does_parse {A B} (P : Op → Prop) (r : Result A) (f : A → HM B) d :
  (∀ a, r = Ok a → does P d (f a d)) → does P d ((lift_res r ≫= f) d).
Proof.
  unfold mbind, st_bind, lift_res. destruct r as [a|e| |]; [by auto|by right..].
Qed.

(** A step that does it, followed by what leaves it alone. *)
Lemma does_then {A B} (P : Op → Prop) (m : HM A) (f : A → HM B) d :
  does P d (m d) → (∀ a, within stays (f a)) → does P d ((m ≫= f) d).
Proof.
  intros Hd Hf. unfold mbind, st_bind. destruct (m d) as [[a|e| |] d1]; simpl in *;
    try (destruct Hd as [?|[_ ?]]; [by left|by right]).
  destruct Hd as [(o & HP & Hc & Ho)|[? ?]]; [|done].
  left. exists o. split; [done|]. split; [done|]. etrans; [exact (Hf a d1)|exact Ho].
Qed.

(** ** The methods *)

Lemma known_spec d id :
  key_of id ∈ sp_known (abs d) ↔ is_Some (db_accounts (sys_db (sys_of d)) !! key_of id).
Proof. unfold abs. simpl. apply elem_of_dom. Qed.

Lemma expelled_policy `{!UlidLaws} id id' c f db :
  stored_policy (with_permissions (cascade (account_to_string id)) (with_accounts f db)) id' c =
    if decide (id' = id) then default_policy c else stored_policy db id' c.
Proof.
  unfold stored_policy. simpl. case_decide as Hid.
  - subst id'. destruct (cascade _ _ !! _) eqn:Hc; [|done].
    by apply lookup_cascade_Some in Hc as [_ ?].
  - assert (cascade (account_to_string id) (db_permissions db) !!
      (account_to_string id', category_str c) =
      db_permissions db !! (account_to_string id', category_str c)) as ->; [|done].
    apply option_eq. intros pol. rewrite lookup_cascade_Some.
    split; [by intros [? _]|]. intros Hl. split; [done|]. by intros ?%account_to_string_inj.
Qed.

Lemma set_permission_does `{!UlidLaws} (P : Op → Prop) id c p d :
  P (SetPolicy id c p) → does P d (in_sys (set_permission id c p) d).
Proof.
  intros HP. rewrite in_sys_run.
  destruct (set_permission id c p (sys_of d)) as [r s'] eqn:E. simpl.
  assert (Hsql : (∃ a, r = Ok a) ∨ (∃ e, r = Err e ∧ s' = record_ev EvSql (sys_of d))).
  { unfold set_permission, upsert_permission in E. by eapply sql_answer. }
  destruct Hsql as [[[] ->]|(e & -> & ->)]; [|by right].
  left. exists (SetPolicy id c p). split; [done|].
  pose proof (set_permission_Ok _ _ _ _ _ E) as [Hk Hdb].
  pose proof (set_permission_stored _ _ _ _ _ E) as Hst.
  split; [by apply known_spec|].
  unfold abs, sys_of, cx_sys in *. simpl in *. split; simpl; try done; by rewrite Hdb.
Qed.

Lemma delete_account_does `{!UlidLaws} (P : Op → Prop) id d :
  P (Expel id) → does P d (in_sys (delete_account id) d).
Proof.
  intros HP. rewrite in_sys_run.
  destruct (delete_account id (sys_of d)) as [r s'] eqn:E. simpl.
  destruct (delete_account_answer _ _ _ _ E) as [(_ & Hk & Hdb)|[Hr Hdb]].
  - left. exists (Expel id). split; [done|]. split; [by apply known_spec|].
    unfold abs, sys_of, cx_sys in *. simpl in *. rewrite Hdb. split; simpl; try done.
    + by rewrite dom_delete_L.
    + intros id' c. apply expelled_policy.
  - right. split; [done|]. unfold abs, sys_of, cx_sys in *. simpl in *. by rewrite Hdb.
Qed.

Lemma set_onboarded_does (P : Op → Prop) b d :
  P (SetOnboarded b) →
  does P d (in_sys (set_app_state ONBOARDED (if b then "true" else "false")) d).
Proof.
  intros HP. rewrite in_sys_run. unfold set_app_state.
  destruct (sql _ (sys_of d)) as [r s'] eqn:E. simpl.
  destruct (sql_answer _ _ _ _ E) as [[[] ->]|(e & -> & ->)]; [|by right].
  apply sql_Ok in E as (db & [= <-] & ->).
  left. exists (SetOnboarded b). split; [done|]. split; [done|].
  unfold abs, sys_of, cx_sys. split; simpl; try done.
  rewrite lookup_insert_eq. by destruct b.
Qed.

Lemma decide_does (P : Op → Prop) id dec d :
  P (Settle id) → does P d (in_desk (decide_approval id dec) d).
Proof.
  intros HP. unfold in_desk, in_ctx, zoom. rewrite at_desk_run.
  unfold decide_approval, mbind, st_bind, gets.
  destruct (q_pending (dk_queue (cx_desk (h_ctx d))) !! id) as [[p c]|] eqn:E; [|by right].
  left. exists (Settle id). split; [done|]. unfold abs, desk_of. simpl.
  split; [rewrite lookup_fmap, E; by eexists|]. split; simpl; try done.
  by rewrite fmap_delete.
Qed.

(** ** Admitting an account *)

(** While an account has the default policies, setting them changes nothing. *)
Definition admits (id : AccountId) (d d' : Daemon) : Prop :=
  (∀ c, sp_policy (abs d) id c = default_policy c) →
  abs d' ≡ abs d ∧ ∀ c, sp_policy (abs d') id c = default_policy c.

#[local] Instance admits_preorder id : PreOrder (admits id).
Proof.
  split; [by intros d|]. intros d1 d2 d3 H1 H2 Hd.
  destruct (H1 Hd) as [E1 Hd2]. destruct (H2 Hd2) as [E2 Hd3]. split; [by rewrite E2|done].
Qed.

Lemma stays_admits {A} id (m : HM A) : within stays m → within (admits id) m.
Proof.
  intros Hm d Hd. specialize (Hm d). split; [exact Hm|]. intros c.
  by rewrite (se_policy _ _ Hm).
Qed.

Lemma install_defaults_admits `{!UlidLaws} id :
  within (admits id) (in_sys (install_defaults id)).
Proof.
  assert (Hone : ∀ c, within (admits id) (in_sys (set_permission id c (default_policy c)))).
  { intros c d Hd.
    destruct (set_permission_does (λ o, o = SetPolicy id c (default_policy c)) id c
      (default_policy c) d eq_refl) as [(o & -> & _ & E)|[_ E]].
    - assert (E' : abs (in_sys (set_permission id c (default_policy c)) d).2 ≡ abs d).
      { rewrite E. split; simpl; try done. intros id' c'. case_decide as Hd'; [|done].
        destruct Hd' as [-> ->]. symmetry. apply Hd. }
      split; [exact E'|]. intros c'. by rewrite (se_policy _ _ E').
    - split; [exact E|]. intros c'. by rewrite (se_policy _ _ E). }
  intros d. unfold install_defaults. rewrite in_sys_for_each.
  apply within_for_each; [apply _|exact Hone].
Qed.

Lemma create_does `{!UlidLaws} new d id s' :
  db_wf (sys_db (sys_of d)) → create new (sys_of d) = (Ok id, s') →
  can (Admit id) (abs d) ∧ abs (put_sys s' d) ≡ run_op (Admit id) (abs d) ∧
  ∀ c, sp_policy (abs (put_sys s' d)) id c = default_policy c.
Proof.
  intros Hwf (row & Hfree & Hdb & _)%create_Ok.
  assert (Hnone : ∀ c, stored_policy (sys_db (sys_of d)) id c = default_policy c).
  { intros c. unfold stored_policy.
    destruct (db_permissions _ !! _) eqn:Hp; [|done].
    apply (wf_owner _ Hwf) in Hp as [? Hp]. congruence. }
  split; [intros [r Hk]%known_spec; unfold key_of in Hk; congruence|].
  unfold abs, sys_of, cx_sys, stored_policy in *. simpl in *. rewrite Hdb. simpl.
  split; [|done]. split; simpl; try done; [by rewrite dom_insert_L|].
  intros id' c. by case_decide as Hd; [subst id'|].
Qed.

(** Whatever comes of it, storing an account admits it or does nothing. *)
Lemma persist_account_does `{!UlidLaws} (P : Op → Prop) hc label tokens email d :
  (∀ id, P (Admit id)) → db_wf (sys_db (sys_of d)) →
  does P d (persist_account hc label tokens email d).
Proof.
  intros HP Hwf. unfold persist_account. set (new := new_gmail_account label email tokens).
  unfold mbind at 1, st_bind at 1. rewrite in_sys_run.
  destruct (create new (sys_of d)) as [r s'] eqn:Hc. simpl.
  destruct (create_answer _ _ _ _ Hc) as [[id ->]|[Hr Hdb]].
  - destruct (create_does new d id s' Hwf Hc) as (Hcan & Hadm & Hdef).
    left. exists (Admit id). split; [done|]. split; [done|]. etrans; [|exact Hadm].
    match goal with |- abs (?m ?d1).2 ≡ _ => assert (Hw : within (admits id) m) end.
    { apply within_bind; [apply _|apply install_defaults_admits|intros _].
      destruct (refresh_token tokens); apply stays_admits; stays_door. }
    by apply Hw.
  - right. destruct r; [done|split; [done|]..];
      unfold abs, sys_of, cx_sys in *; simpl in *; by rewrite Hdb.
Qed.

(** A completion: its challenge is not pending, or its task is joined. *)
Lemma complete_oauth_does `{!UlidLaws} (P : Op → Prop) hc params d :
  (∀ id, P (Admit id)) → daemon_wf d → does P d (complete_oauth hc params d).
Proof.
  intros HP Hwf. destruct (param_str "challenge_id" params) as [cid|e| |] eqn:Hp.
  2-4: by right; unfold complete_oauth, mbind, st_bind, lift_res; rewrite Hp.
  destruct (h_pending d !! cid) as [t|] eqn:Ht;
    [|by right; rewrite (complete_oauth_absent hc _ _ _ Hp Ht)].
  rewrite (complete_oauth_pending hc _ _ _ _ Hp Ht).
  set (d1 := set_pending _ d). assert (Hd1 : db_wf (sys_db (sys_of d1))) by apply Hwf.
  change (does P d1 (('(tokens, email) ← in_sys (join_task t);
    persist_account hc (default "" (get_str "label" params)) tokens email) d1)).
  pose proof (join_task_db t (dw_pending _ Hwf _ _ Ht)) as Hjoin.
  pose proof (in_sys_stays _ Hjoin d1) as Hst.
  clearbody d1. specialize (Hjoin (sys_of d1)). unfold same in Hjoin.
  unfold mbind at 1, st_bind at 1. rewrite in_sys_run in Hst |- *.
  unfold stays in Hst. simpl in Hst. destruct (join_task t (sys_of d1)) as [[[tokens email]|e| |] s1]; [|by right..].
  simpl in *. assert (Hdb : db_wf (sys_db (sys_of (put_sys s1 d1)))).
  { change (db_wf (sys_db s1)). by rewrite Hjoin. }
  destruct (persist_account_does P hc (default "" (get_str "label" params)) tokens email
    (put_sys s1 d1) HP Hdb) as [(o & Ho & Hcan & E)|[Hr E]].
  - left. exists o. split; [done|]. split; [by rewrite <-Hst|]. rewrite E. by rewrite Hst.
  - right. split; [done|]. by rewrite E, Hst.
Qed.

Lemma read_names params method :
  existsb (String.eqb method)
    ["status"; "accounts.list"; "accounts.add_oauth"; "accounts.cancel_oauth";
     "permissions.get"; "approvals.list"; "settings.set_autostart"; "mcp.endpoint"] = true →
  names params method Stay.
Proof.
  intros (s & Hs & ->%String.eqb_eq)%existsb_exists. by apply names_other, list_elem_of_In.
Qed.

Lemma add_oauth_stays hc params : within stays (add_oauth hc params).
Proof. unfold add_oauth. stays_door. destruct (negb _); stays_door. Qed.

(** The methods that only read. *)
Lemma reads_stay hc params :
  within stays (status hc) ∧ within stays accounts_list ∧
  within stays (cancel_oauth params) ∧ within stays (permissions_get params) ∧
  within stays (l ← in_desk list_approvals; mret (VArray (pending_value <$> l))).
Proof.
  assert (within stays (in_desk list_approvals)) by by intros d.
  unfold status, accounts_list, cancel_oauth, permissions_get.
  split_and!; stays_door; done.
Qed.

Lemma remove_account_does `{!UlidLaws} params d :
  does (names params "accounts.remove") d (remove_account params d).
Proof.
  apply does_parse. intros id Hid. apply does_then; [|intros []; stays_door].
  apply delete_account_does. by constructor.
Qed.

Lemma param_str_Ok k params s : param_str k params = Ok s → get_str k params = Some s.
Proof. unfold param_str. by destruct (get_str k params); intros [= ->]. Qed.

Lemma map_err_Ok {X A} (r : X + A) (f : X → Error) a : map_err r f = Ok a → r = inr a.
Proof. by destruct r; intros [= ->]. Qed.

Lemma policy_from_str_Ok s p : policy_from_str s = inr p → s = policy_str p.
Proof.
  unfold policy_from_str.
  repeat match goal with
  | |- context [String.eqb s ?w] =>
      destruct (String.eqb_spec s w) as [->|]; [by intros [= <-]|]
  end. done.
Qed.

Lemma permissions_set_does `{!UlidLaws} params d :
  does (names params "permissions.set") d (permissions_set params d).
Proof.
  unfold permissions_set. apply does_parse. intros id Hid.
  apply does_parse. intros cat_str Hcat%param_str_Ok.
  apply does_parse. intros pol_str Hpol%param_str_Ok.
  apply does_parse. intros c ->%map_err_Ok%category_from_str_Ok.
  apply does_parse. intros p ->%map_err_Ok%policy_from_str_Ok.
  apply does_then; [|intros []; stays_door]. apply set_permission_does.
  by constructor.
Qed.

Lemma approvals_decide_does params d :
  does (names params "approvals.decide") d (approvals_decide params d).
Proof.
  unfold approvals_decide. apply does_parse. intros s Hs%param_str_Ok.
  apply does_parse. intros u Hu%map_err_Ok. apply does_parse. intros dec _.
  apply does_then; [|intros []; stays_door]. apply decide_does.
  constructor. by exists s.
Qed.

Lemma set_onboarding_does params d :
  does (names params "settings.set_onboarding_complete") d
    (set_onboarding_complete params d).
Proof.
  unfold set_onboarding_complete. apply does_then; [|intros []; stays_door].
  apply set_onboarded_does. constructor.
Qed.

Lemma mcp_pause_does params d :
  does (names params "mcp.pause") d (mcp_pause params d).
Proof.
  left. eexists. split; [by constructor|]. by split.
Qed.

(** ** The turns of a call *)

(** What a turn of a call does: it asks, it forgets its request when its time is
    up, it records the trust it was given; any other turn does nothing to what the
    daemon promises. *)
Definition turn_op (tool : ToolSpec) (args : Value) (ph : Phase) (o : Op) : Prop :=
  match ph with
  | Asking k _ => ∃ id, o = Ask id (request_of tool args (sj_account k))
  | Expiring _ fut => o = Forget (fut_id fut)
  | Granting k => o = Trust (sj_account k) (tool_category tool)
  | _ => o = Stay
  end.

(** What the specification sees of a context. *)
Definition view (c : Context) : Db * bool * Queue * SessionTrust :=
  (sys_db (cx_sys c), cx_paused c, dk_queue (cx_desk c), dk_trust (cx_desk c)).

Lemma view_abs c d : view c = view (h_ctx d) → abs (set_ctx c d) ≡ abs d.
Proof.
  intros [= Hdb Hp Hq Ht]. unfold abs, sys_of, desk_of. simpl.
  by split; simpl; intros; rewrite ?Hdb, ?Hp, ?Hq, ?Ht.
Qed.

Lemma at_sys_view {A} (m : M A) : within (same sys_db) m → within (same view) (at_sys m).
Proof.
  intros Hm c. rewrite at_sys_run. specialize (Hm (cx_sys c)). unfold same, view in *.
  simpl. unfold cx_sys in *. simpl. by rewrite Hm.
Qed.

Lemma act_view tool args p o :
  ProviderWithin (same sys_db) p → within (same view) (act tool args p o).
Proof.
  intros Hp. destruct o; simpl.
  - by apply at_sys_view, execute_db.
  - apply within_throw, _.
  - destruct (String.eqb _ _); [apply within_ret, _|]. by apply at_sys_view, convert_db.
Qed.

Lemma advance_does q tool args fired ph d :
  phase_ok q tool args ph →
  ∃ o, turn_op tool args ph o ∧ can o (abs d) ∧
    abs (set_ctx (advance tool args fired ph (h_ctx d)).2 d) ≡ run_op o (abs d).
Proof.
  intros Hok.
  assert (Hstay : within (same view) (advance tool args fired ph) →
    abs (set_ctx (advance tool args fired ph (h_ctx d)).2 d) ≡ run_op Stay (abs d)).
  { intros Hw. by apply view_abs, Hw. }
  destruct ph as [| |id p|k|k g|k g fut|k fut|k|k o|r]; cbn [turn_op];
    try (exists Stay; split; [done|]; split; [done|]; apply Hstay; cbn [advance];
      try apply within_settle;
      first [ apply within_gets, _ | apply within_ret, _ | apply resolve_stays
            | apply judge_stays | apply poll_stays | apply at_sys_view, for_account_db
            | by apply act_view, Hok ]).
  - cbn [advance]. rewrite settle_run, at_desk_run.
    destruct (enqueue _ _) as [r d1] eqn:He. injection He as <- <-.
    eexists. split; [by eexists|]. split; [done|].
    unfold abs, sys_of, desk_of. simpl. split; simpl; try done. by rewrite fmap_insert.
  - exists (Forget (fut_id fut)). split; [done|]. split; [done|].
    unfold abs, sys_of, desk_of. simpl. split; simpl; try done. by rewrite fmap_delete.
  - exists (Trust (sj_account k) (tool_category tool)). split; [done|]. split; [done|].
    unfold abs, sys_of, desk_of. simpl. split; simpl; try done. intros id c.
    unfold is_trusted, grant. case_decide as Hd.
    + destruct Hd as [-> ->]. by rewrite lookup_insert_eq.
    + rewrite lookup_insert_ne; [done|]. intros [= E1 E2]. by apply Hd.
Qed.
End contract.

(** ** Properties *)

Section properties.
Context `{PF : Platform}.

(** C4: the IPC handler implements the specification of the daemon: whatever the
    method and its parameters, either the operation that the method names happens,
    and nothing else, or nothing does and the answer is an error. So an answer
    without an error acknowledges the operation, and no other one. *)
Theorem handler_refines_spec `{!UlidLaws} hc method params d :
  daemon_wf d → does (names params method) d (handle hc method params d).
Proof.
  intros Hwf. unfold handle. destruct (reads_stay hc params) as (? & ? & ? & ? & ?).
  repeat (case_match; [
    match goal with H : String.eqb _ _ = true |- _ => apply String.eqb_eq in H as -> end;
    match goal with
    | |- context [remove_account] => apply remove_account_does
    | |- context [permissions_set] => apply permissions_set_does
    | |- context [approvals_decide] => apply approvals_decide_does
    | |- context [set_onboarding_complete] => apply set_onboarding_does
    | |- context [mcp_pause] => apply mcp_pause_does
    | |- context [complete_oauth] => by apply complete_oauth_does; [constructor|]
    | |- context [add_oauth] => apply does_stay; [apply read_names; done|apply add_oauth_stays]
    | _ => apply does_stay; [apply read_names; done|by auto]
    end|]).
  by right.
Qed.

(** C5: a turn of a call in flight implements it too: in every reachable state,
    whatever else is in flight, the turn asks the user the one question of this
    call, or takes its own question back, or records the trust of its account and
    category, or changes nothing that the daemon promises. No turn answers a
    question, changes a policy, an account or the pause switch. *)
Theorem turns_refine_spec s0 s n call fired :
  flight_start s0 → rtc fstep s0 s → fl_calls s !! n = Some call →
  ∃ o, turn_op (cl_tool call) (cl_args call) (cl_phase call) o ∧
    can o (abs (fl_daemon s)) ∧
    abs (fl_daemon (take_turn n call fired s)) ≡ run_op o (abs (fl_daemon s)).
Proof.
  intros H0 Hr Hc. pose proof (reachable_flight _ _ H0 Hr) as Hinv.
  destruct (advance_does _ _ _ fired _ (fl_daemon s) (fi_calls _ Hinv _ _ Hc))
    as (o & Ho & Hcan & E).
  exists o. split; [done|]. split; [done|]. rewrite <-E. unfold take_turn, in_ctx, zoom.
  by destruct (advance _ _ _ _ _) as [[ph|e| |] c'].
Qed.
End properties.
