(* ===== verification/Logging.v ===== *)
(** * Redaction of log text

    [redact] of [crates/mail-mcp-core/src/logging.rs]: three patterns of the regex
    crate, replaced one after the other. The crate's replacement is a parameter with
    its documented law; the patterns are those of the source, as syntax trees. *)
From Stdlib Require Import Ascii.
From S2P Require Export Prelude.

(** A [&str], as its scalar values. *)
Abbreviation text := (list Z).

Definition code_of (c : ascii) : Z := Z.of_N (N_of_ascii c).

Fixpoint chars (s : string) : text :=
  match s with
  | EmptyString => []
  | String c s => code_of c :: chars s
  end.

(** ** Patterns *)

(** One character of a class, a greedy repetition of at least [n] of them, a word
    boundary, a sequence. *)
Inductive Regex : Type :=
| One (f : Z → bool)
| Many (n : nat) (f : Z → bool)
| Bnd
| Seq (r1 r2 : Regex).

(** The Unicode classes [\w] and [\s], and [Regex::replace_all]. *)
Class CharClasses : Type := {
  is_word : Z → bool;
  is_space : Z → bool;
}.

Class RegexLib : Type := {
  replace_all : Regex → text → text → text;
}.

Definition in_range (lo hi : ascii) (c : Z) : bool :=
  (code_of lo <=? c)%Z && (c <=? code_of hi)%Z.
Definition one_of (s : string) (c : Z) : bool := existsb (Z.eqb c) (chars s).
Definition is_letter (c : Z) : bool := in_range "A" "Z" c || in_range "a" "z" c.
Definition is_digit (c : Z) : bool := in_range "0" "9" c.

Section regex.
Context `{CC : CharClasses}.

Definition wordy (o : option Z) : bool :=
  match o with Some c => is_word c | None => false end.
Definition boundary (before after : option Z) : bool := xorb (wordy before) (wordy after).

Fixpoint run_of (f : Z → bool) (t : text) : text :=
  match t with
  | c :: t => if f c then c :: run_of f t else []
  | [] => []
  end.

(** The matches at a place of a text, the preferred one first: leftmost-first, as
    a backtracking search meets them. [l] is what precedes the place. *)
Fixpoint matched (r : Regex) (l t : text) : list text :=
  match r with
  | One f => match t with c :: _ => if f c then [[c]] else [] | [] => [] end
  | Many n f =>
      let run := run_of f t in
      (λ k, take k run) <$> rev (seq n (S (length run) - n))
  | Bnd => if boundary (last l) (head t) then [[]] else []
  | Seq r1 r2 =>
      flat_map (λ m1, app m1 <$> matched r2 (l ++ m1) (drop (length m1) t)) (matched r1 l t)
  end.

(** What replacing every match gives: successive, not overlapping, each the leftmost
    from where the last one ended; the rest is copied. *)
Inductive replaced (r : Regex) (rep : text) : text → text → text → Prop :=
| rp_none l t :
    (∀ t1 t2, t = t1 ++ t2 → matched r (l ++ t1) t2 = []) → replaced r rep l t t
| rp_match l g m ms t out :
    (∀ g1 g2, g = g1 ++ g2 → g2 ≠ [] → matched r (l ++ g1) (g2 ++ m ++ t) = []) →
    matched r (l ++ g) (m ++ t) = m :: ms →
    replaced r rep (l ++ g ++ m) t out →
    replaced r rep l (g ++ m ++ t) (g ++ rep ++ out).

(** The text has no match. *)
Definition unmatched (r : Regex) (s : text) : Prop :=
  ∀ l t, s = l ++ t → matched r l t = [].
End regex.

(** The documented behaviour of the crate: [replace_all] on a pattern without empty
    matches and a replacement without a [$]; the classes on ASCII; a space is no
    word character. *)
Class RegexLaws `{CC : CharClasses} `{RX : RegexLib} : Prop := {
  replace_all_spec r s rep :
    (∀ l t, [] ∉ matched r l t) → code_of "$" ∉ rep →
    replaced r rep [] s (replace_all r s rep);
  word_ascii c : (0 <= c < 128)%Z → is_word c = is_letter c || is_digit c || one_of "_" c;
  space_ascii c : (0 <= c < 128)%Z → is_space c = bool_decide (9 <= c <= 13 ∨ c = 32)%Z;
  space_word c : is_space c = true → is_word c = false;
}.

(** ** Redaction *)

Section redact.
Context `{CC : CharClasses} `{RX : RegexLib}.

(** [[\w._%+-]], [[\w.-]], [[A-Za-z0-9_\-]], [[A-Za-z0-9._\-]] *)
Definition local_char (c : Z) : bool := is_word c || one_of "._%+-" c.
Definition domain_char (c : Z) : bool := is_word c || one_of ".-" c.
Definition code_char (c : Z) : bool := is_letter c || is_digit c || one_of "_-" c.
Definition token_char (c : Z) : bool := is_letter c || is_digit c || one_of "._-" c.

Definition lit (c : ascii) : Regex := One (one_of (String c "")).

Fixpoint sequence (l : list Regex) (r : Regex) : Regex :=
  match l with [] => r | x :: l => Seq x (sequence l r) end.

(** [\b[\w._%+-]+@[\w.-]+\.[A-Za-z]{2,}\b] *)
Definition EMAIL : Regex :=
  sequence [Bnd; Many 1 local_char; lit "@"; Many 1 domain_char; lit "."; Many 2 is_letter] Bnd.

(** [\b4/[A-Za-z0-9_\-]{12,}\b] *)
Definition CODE : Regex := sequence [Bnd; lit "4"; lit "/"; Many 12 code_char] Bnd.

(** A is_letter in either case, as [(?i)] reads it; none of those of the pattern folds
    to another character. *)
Definition either (lower upper : ascii) : Regex :=
  One (one_of (String lower (String upper ""))).

(** [(?i)bearer\s+[A-Za-z0-9._\-]{20,}] *)
Definition BEARER : Regex :=
  sequence [either "b" "B"; either "e" "E"; either "a" "A"; either "r" "R";
            either "e" "E"; either "r" "R"; Many 1 is_space] (Many 20 token_char).

Definition MARK_EMAIL : text := chars "[redacted-email]".
Definition MARK_CODE : text := chars "[redacted-code]".
Definition MARK_BEARER : text := chars "[redacted-bearer]".

Definition redact (s : text) : text :=
  let s := replace_all EMAIL s MARK_EMAIL in
  let s := replace_all CODE s MARK_CODE in
  let s := replace_all BEARER s MARK_BEARER in
  s.
End redact.

(** ** What a match is *)

Section fits.
Context `{CC : CharClasses}.

(** [m] is a match of [r] between [l] and [t]. *)
Fixpoint fits (r : Regex) (l m t : text) : Prop :=
  match r with
  | One f => ∃ c, m = [c] ∧ f c = true
  | Many n f => n ≤ length m ∧ forallb f m = true
  | Bnd => m = [] ∧ boundary (last l) (head t) = true
  | Seq r1 r2 => ∃ m1 m2, m = m1 ++ m2 ∧ fits r1 l m1 (m2 ++ t) ∧ fits r2 (l ++ m1) m2 t
  end.

Lemma run_of_spec f t :
  ∃ t', t = run_of f t ++ t' ∧ forallb f (run_of f t) = true ∧
    (∀ c t'', t' = c :: t'' → f c = false).
Proof.
  induction t as [|c t (t' & E & Hf & Hc)]; simpl; [by exists []|].
  destruct (f c) eqn:Hfc; simpl.
  - exists t'. rewrite Hfc, Hf. split; [by rewrite <-E|done].
  - exists (c :: t). split; [done|]. split; [done|]. by intros ? ? [= <- <-].
Qed.

Lemma run_of_longest f m t : forallb f m = true → ∃ k, run_of f (m ++ t) = m ++ k.
Proof.
  induction m as [|c m IH]; simpl; [by eexists|]. intros [Hc Hm]%andb_true_iff.
  rewrite Hc. destruct (IH Hm) as [k ->]. by exists k.
Qed.

Lemma elem_of_rev_seq a b k : k ∈ rev (seq a b) ↔ a ≤ k < a + b.
Proof. by rewrite list_elem_of_In, <-in_rev, in_seq. Qed.

(** [matched] lists the matches. *)
Lemma matched_fits r l t m :
  m ∈ matched r l t ↔ ∃ t', t = m ++ t' ∧ fits r l m t'.
Proof.
  revert l t m. induction r as [f|n f| |r1 IH1 r2 IH2]; intros l t m; cbn [matched fits].
  - destruct t as [|c t]; [|destruct (f c) eqn:Hc].
    + split; [by intros ?%not_elem_of_nil|]. intros (t' & E & c & -> & _). done.
    + rewrite list_elem_of_singleton. split; [intros ->; by exists t; eauto|].
      by intros (t' & E & c' & -> & _); injection E as <- <-.
    + split; [by intros ?%not_elem_of_nil|].
      intros (t' & E & c' & -> & Hc'). injection E as <- <-. congruence.
  - rewrite list_elem_of_fmap. setoid_rewrite elem_of_rev_seq.
    destruct (run_of_spec f t) as (t1 & E & Hf & Hmax). split.
    + intros (k & -> & Hk). set (run := run_of f t) in *.
      exists (drop k run ++ t1). rewrite app_assoc, take_drop. split; [done|].
      rewrite length_take. split; [lia|].
      rewrite <-(take_drop k run), forallb_app in Hf. by apply andb_true_iff in Hf as [? _].
    + intros (t' & -> & Hn & Hm). destruct (run_of_longest f m t' Hm) as [k Hk].
      exists (length m). rewrite Hk. rewrite take_app_length, length_app. split; [done|lia].
  - destruct (boundary _ _) eqn:Hb.
    + rewrite list_elem_of_singleton. split; [intros ->; by exists t|]. by intros (? & _ & -> & _).
    + split; [by intros ?%not_elem_of_nil|]. intros (t' & -> & -> & Hb'). simpl in Hb. congruence.
  - rewrite list_elem_of_In, in_flat_map. split.
    + intros (m1 & H1%list_elem_of_In & H2%list_elem_of_In).
      apply list_elem_of_fmap in H2 as (m2 & -> & H2).
      apply IH1 in H1 as (t1 & -> & F1). rewrite drop_app_length in H2.
      apply IH2 in H2 as (t2 & -> & F2). exists t2. rewrite <-app_assoc.
      split; [done|]. by exists m1, m2.
    + intros (t' & -> & m1 & m2 & -> & F1 & F2). exists m1. rewrite <-!list_elem_of_In.
      rewrite <-app_assoc. split; [apply IH1; by exists (m2 ++ t')|].
      rewrite drop_app_length. apply list_elem_of_fmap. exists m2. split; [done|].
      apply IH2. by exists t'.
Qed.

(** A place without matches. *)
Lemma matched_nil r l m t : matched r l (m ++ t) = [] → ¬ fits r l m t.
Proof.
  intros E Hf. assert (Hin : m ∈ matched r l (m ++ t)) by (apply matched_fits; by exists t).
  rewrite E in Hin. by apply not_elem_of_nil in Hin.
Qed.

Lemma unmatched_fits r s :
  unmatched r s ↔ ∀ l m t, s = l ++ m ++ t → ¬ fits r l m t.
Proof.
  split.
  - intros H l m t E. by apply matched_nil, H.
  - intros H l t ->. destruct (matched r l t) as [|m ms] eqn:E; [done|].
    assert (Hin : m ∈ matched r l t) by (rewrite E; by left).
    apply matched_fits in Hin as (t' & -> & Hf). by destruct (H l m t').
Qed.

(** A match depends on its context at the borders only. *)
Lemma fits_context r l l' m t t' :
  last l = last l' → head t = head t' → fits r l m t → fits r l' m t'.
Proof.
  revert l l' m t t'. induction r as [f|n f| |r1 IH1 r2 IH2]; intros l l' m t t' Hl Ht;
    cbn [fits]; [done..| |].
  - by rewrite Hl, Ht.
  - intros (m1 & m2 & -> & F1 & F2). exists m1, m2. split; [done|]. split.
    + eapply IH1; [exact Hl| |exact F1]. rewrite !head_app. by destruct (head m2).
    + eapply IH2; [|exact Ht|exact F2]. rewrite !last_app. by destruct (last m1).
Qed.
End fits.

(** ** What a replacement leaves *)

Section gaps.
Context `{CC : CharClasses} (r : Regex) (body : text).

Definition OPEN : Z := code_of "[".
Definition CLOSE : Z := code_of "]".

(** A marker in brackets. *)
Definition mark : text := OPEN :: body ++ [CLOSE].

(** A piece that no marker can touch or hold. *)
Record foreign (m : text) : Prop := {
  fo_open : OPEN ∉ m;
  fo_close : CLOSE ∉ m;
  fo_more : ∃ c, c ∈ m ∧ c ∉ mark;
}.

Lemma foreign_nonempty m : foreign m → m ≠ [].
Proof. intros [_ _ (c & Hc & _)] ->. by apply not_elem_of_nil in Hc. Qed.

Lemma split_gap x m y g out :
  foreign m → x ++ m ++ y = g ++ mark ++ out →
  (∃ y', g = x ++ m ++ y' ∧ y = y' ++ mark ++ out) ∨
  (∃ x', x = g ++ mark ++ x' ∧ out = x' ++ m ++ y).
Proof.
  intros Hm [(k & -> & E)|(k & -> & E)]%app_eq_inv.
  - right. apply app_eq_inv in E as [(k' & E & E')|(k' & -> & ->)];
      [|by exists k'; rewrite ?app_assoc].
    destruct k' as [|z k' _] using rev_ind.
    { exists []. rewrite !app_nil_r in E |- *. by rewrite E. }
    exfalso. assert (Hz : z = CLOSE).
    { apply (f_equal last) in E. unfold mark in E.
      rewrite app_comm_cons, app_assoc, !last_snoc in E. by injection E. }
    subst z. apply app_eq_inv in E' as [(k2 & -> & _)|(k2 & E2 & _)].
    + apply (fo_close _ Hm). set_solver.
    + destruct (fo_more _ Hm) as (c & Hc & Hnot). apply Hnot. rewrite E, E2. set_solver.
  - left. apply app_eq_inv in E as [(k' & -> & E)|(k' & -> & ->)]; [|by exists k'].
    destruct k' as [|z k']; [exists []; by rewrite !app_nil_r|].
    injection E as <- _. exfalso. apply (fo_open _ Hm). set_solver.
Qed.

(** The place follows, or precedes, a match that was replaced. *)
Definition after_match (l t : text) : Prop :=
  ∃ l0 M ms, l = l0 ++ M ∧ matched r l0 (M ++ t) = M :: ms.
Definition before_match (l t : text) : Prop :=
  ∃ M t0 ms, t = M ++ t0 ∧ matched r l t = M :: ms.

(** What the output has on the left of a place is what the text has there, or a
    marker where a match ended; and on the right. *)
Definition same_left (lo l t : text) : Prop :=
  last lo = last l ∨ (last lo = Some CLOSE ∧ after_match l t).
Definition same_right (yo l t : text) : Prop :=
  head yo = head t ∨ (head yo = Some OPEN ∧ before_match l t).

(** A foreign piece of the output is a piece of the text, where nothing matched. *)
Lemma replaced_piece l t out :
  replaced r mark l t out → ∀ lo x m y,
  out = x ++ m ++ y → foreign m → same_left lo l t →
  ∃ l' t', l ++ t = l' ++ m ++ t' ∧ matched r l' (m ++ t') = [] ∧
    same_left (lo ++ x) l' (m ++ t') ∧ same_right y (l' ++ m) t'.
Proof.
  induction 1 as [l t Hnone|l g M ms t out Hgap Hm Hr IH]; intros lo x m y E Hfor Hleft.
  - exists (l ++ x), y. subst t. split; [by rewrite <-app_assoc|].
    split; [by apply Hnone|]. split; [|by left].
    destruct x as [|c x _] using rev_ind; [by rewrite !app_nil_r|].
    left. by rewrite !app_assoc, !last_snoc.
  - pose proof (foreign_nonempty _ Hfor) as Hne.
    symmetry in E. apply split_gap in E as [(y' & -> & ->)|(x' & -> & ->)]; [| |done].
    + exists (l ++ x), (y' ++ M ++ t). split; [by rewrite <-!app_assoc|]. split.
      { rewrite app_assoc. apply Hgap; [done|]. by destruct m. }
      split.
      * destruct x as [|c x _] using rev_ind.
        -- rewrite !app_nil_r. by rewrite <-!app_assoc in Hleft.
        -- left. by rewrite !app_assoc, !last_snoc.
      * destruct y' as [|c y']; [|by left]. right. split; [done|].
        rewrite app_nil_r in Hm. exists M, t, ms. split; [done|]. simpl.
        by rewrite <-app_assoc.
    + destruct (IH (lo ++ g ++ mark) x' m y eq_refl Hfor) as (l' & t' & E & Hnil & HL & HR).
      { right. split; [unfold mark; rewrite app_comm_cons, !app_assoc; apply last_snoc|].
        exists (l ++ g), M, ms. by rewrite <-app_assoc. }
      exists l', t'. split; [by rewrite <-E, <-!app_assoc|]. split; [done|].
      split; [|done]. by rewrite <-!app_assoc in HL.
Qed.
End gaps.

(** ** Greedy matches *)

Section greedy.
Context `{CC : CharClasses}.

Lemma many_greedy n f l t m ms c t' :
  matched (Many n f) l t = m :: ms → t = m ++ c :: t' → f c = false.
Proof.
  cbn [matched]. destruct (run_of_spec f t) as (t1 & E & _ & Hmax).
  set (run := run_of f t) in *. destruct (S (length run) - n) as [|k] eqn:Hk; [done|].
  rewrite seq_S, rev_app_distr. simpl. intros [= <- _]. replace (n + k) with (length run) by lia.
  rewrite firstn_all, E. intros ->%app_inv_head. by eapply Hmax.
Qed.

Lemma flat_map_head {A B} (f : A → list B) xs y ys :
  flat_map f xs = y :: ys → ∃ x ys', x ∈ xs ∧ f x = y :: ys'.
Proof.
  induction xs as [|x xs IH]; simpl; [done|]. destruct (f x) as [|z zs] eqn:Hf; simpl.
  - intros (x' & ys' & Hx & H)%IH. exists x', ys'. split; [by right|done].
  - intros [= -> _]. exists x, zs. split; [by left|done].
Qed.

(** A pattern that ends with a repetition does not stop before a character of it. *)
Lemma sequence_greedy rs n f l t m ms c t' :
  matched (sequence rs (Many n f)) l t = m :: ms → t = m ++ c :: t' → f c = false.
Proof.
  revert l t m ms. induction rs as [|r rs IH]; intros l t m ms; [apply many_greedy|].
  cbn [sequence matched].
  intros (m1 & ys & (t1 & -> & _)%matched_fits & H)%flat_map_head.
  rewrite drop_app_length in H. destruct (matched _ _ t1) as [|m2 ms2] eqn:E2; [done|].
  injection H as <- _. rewrite <-app_assoc. intros E%app_inv_head. by eapply IH.
Qed.

(** Patterns without a word boundary have no context. *)
Fixpoint no_bnd (r : Regex) : bool :=
  match r with
  | Bnd => false
  | Seq r1 r2 => no_bnd r1 && no_bnd r2
  | _ => true
  end.

Lemma no_bnd_fits r l l' m t t' : no_bnd r = true → fits r l m t → fits r l' m t'.
Proof.
  revert l l' m t t'. induction r as [f|n f| |r1 IH1 r2 IH2]; intros l l' m t t'; simpl;
    [done..|].
  intros [H1 H2]%andb_true_iff (m1 & m2 & -> & F1 & F2). exists m1, m2. eauto.
Qed.
End greedy.

(** ** The patterns of [redact] *)

Section patterns.
Context `{CC : CharClasses}.

Lemma one_of_lit c x : one_of (String c "") x = true ↔ x = code_of c.
Proof. unfold one_of. simpl. rewrite orb_false_r. apply Z.eqb_eq. Qed.

(** A pattern between two word boundaries, around [P]. *)
Definition fenced (r : Regex) (P : text → Prop) : Prop :=
  ∀ l m t, fits r l m t ↔
    P m ∧ boundary (last l) (head (m ++ t)) = true ∧ boundary (last (l ++ m)) (head t) = true.

Definition address (m : text) : Prop :=
  ∃ a d x, m = a ++ code_of "@" :: d ++ code_of "." :: x ∧
    1 ≤ length a ∧ forallb local_char a = true ∧
    1 ≤ length d ∧ forallb domain_char d = true ∧
    2 ≤ length x ∧ forallb is_letter x = true.

Definition oauth_code (m : text) : Prop :=
  ∃ b, m = code_of "4" :: code_of "/" :: b ∧ 12 ≤ length b ∧ forallb code_char b = true.

Definition bearer (m : text) : Prop :=
  ∃ w sp tok, m = w ++ sp ++ tok ∧ w ≠ [] ∧ forallb is_letter w = true ∧
    sp ≠ [] ∧ forallb is_space sp = true ∧
    20 ≤ length tok ∧ forallb token_char tok = true.

Lemma email_fenced : fenced EMAIL address.
Proof.
  intros l m t. cbn [EMAIL sequence fits lit]. split.
  - intros (m0 & m1 & -> & [-> B1] & a & m2 & -> & [Ha1 Ha2] & at_ & m3 & -> &
      (z1 & -> & ->%one_of_lit) & d & m4 & -> & [Hd1 Hd2] & dot & m5 & -> &
      (z2 & -> & ->%one_of_lit) & x & m6 & -> & [Hx1 Hx2] & -> & B2).
    rewrite app_nil_r in *. split; [by exists a, d, x|]. split; [exact B1|].
    by rewrite <-!app_assoc in B2.
  - intros ((a & d & x & -> & Ha1 & Ha2 & Hd1 & Hd2 & Hx1 & Hx2) & B1 & B2).
    exists [], (a ++ code_of "@" :: d ++ code_of "." :: x). split; [done|].
    split; [by split|].
    exists a, (code_of "@" :: d ++ code_of "." :: x). split; [done|]. split; [done|].
    exists [code_of "@"], (d ++ code_of "." :: x). split; [done|].
    split; [eexists; split; [done|by apply one_of_lit]|].
    exists d, (code_of "." :: x). split; [done|]. split; [done|].
    exists [code_of "."], x. split; [done|].
    split; [eexists; split; [done|by apply one_of_lit]|].
    exists x, []. rewrite app_nil_r. split; [done|]. split; [done|]. split; [done|].
    by rewrite <-!app_assoc.
Qed.

Lemma code_fenced : fenced CODE oauth_code.
Proof.
  intros l m t. cbn [CODE sequence fits lit]. split.
  - intros (m0 & m1 & -> & [-> B1] & four & m2 & -> & (z1 & -> & ->%one_of_lit) & sl & m3 &
      -> & (z2 & -> & ->%one_of_lit) & b & m4 & -> & [Hb1 Hb2] & -> & B2).
    rewrite app_nil_r in *. split; [by exists b|]. split; [exact B1|].
    by rewrite <-!app_assoc in B2.
  - intros ((b & -> & Hb1 & Hb2) & B1 & B2).
    exists [], (code_of "4" :: code_of "/" :: b). split; [done|]. split; [by split|].
    exists [code_of "4"], (code_of "/" :: b). split; [done|].
    split; [eexists; split; [done|by apply one_of_lit]|].
    exists [code_of "/"], b. split; [done|].
    split; [eexists; split; [done|by apply one_of_lit]|].
    exists b, []. rewrite app_nil_r. split; [done|]. split; [done|]. split; [done|].
    by rewrite <-!app_assoc.
Qed.

Lemma either_letter lo up c :
  is_letter (code_of lo) = true → is_letter (code_of up) = true →
  one_of (String lo (String up "")) c = true → is_letter c = true.
Proof.
  intros H1 H2. unfold one_of. simpl. rewrite orb_false_r.
  by intros [->%Z.eqb_eq| ->%Z.eqb_eq]%orb_true_iff.
Qed.

Lemma bearer_fits l m t : fits BEARER l m t → bearer m.
Proof.
  cbn [BEARER sequence fits either]. intros H.
  repeat match goal with
  | H : ∃ _, _ |- _ => destruct H
  | H : _ ∧ _ |- _ => destruct H
  end. subst.
  repeat match goal with
  | H : one_of _ _ = true |- _ => apply either_letter in H; [|done..]
  end.
  match goal with
  | Hs : forallb is_space ?sp = true, Ht : forallb token_char ?tok = true |-
      bearer ([?c1] ++ [?c2] ++ [?c3] ++ [?c4] ++ [?c5] ++ [?c6] ++ _) =>
      exists [c1; c2; c3; c4; c5; c6], sp, tok; split_and!; try done
  end.
  - cbn [forallb]. by repeat (apply andb_true_iff; split).
  - intros ->. simpl in *. lia.
Qed.
End patterns.

(** ** What the patterns are made of *)

Section letters.
Context `{RL : RegexLaws}.

Lemma in_range_ascii lo hi c : in_range lo hi c = true → (code_of hi < 128)%Z → (0 <= c < 128)%Z.
Proof.
  unfold in_range. intros [Hlo Hhi]%andb_true_iff H.
  assert (0 <= code_of lo)%Z by (unfold code_of; lia). lia.
Qed.

Lemma letter_ascii c : is_letter c = true → (0 <= c < 128)%Z.
Proof. unfold is_letter. intros [H|H]%orb_true_iff; by eapply in_range_ascii in H. Qed.

Lemma digit_ascii c : is_digit c = true → (0 <= c < 128)%Z.
Proof. unfold is_digit. intros H. by eapply in_range_ascii in H. Qed.

Lemma letter_word c : is_letter c = true → is_word c = true.
Proof. intros H. rewrite word_ascii by by apply letter_ascii. by rewrite H. Qed.

Lemma digit_word c : is_digit c = true → is_word c = true.
Proof.
  intros H. rewrite word_ascii by by apply digit_ascii. by rewrite H, orb_true_r.
Qed.

Lemma token_local c : token_char c = true → local_char c = true.
Proof.
  unfold token_char, local_char.
  intros [[H%letter_word|H%digit_word]%orb_true_iff|H]%orb_true_iff; [by rewrite H..|].
  apply orb_true_iff. right. revert H. unfold one_of.
  rewrite !existsb_exists. intros (x & Hx & E). exists x. split; [|done].
  simpl in *. naive_solver.
Qed.

Lemma domain_local c : domain_char c = true → local_char c = true.
Proof.
  unfold domain_char, local_char. intros [H|H]%orb_true_iff; [by rewrite H|].
  apply orb_true_iff. right. revert H. unfold one_of.
  rewrite !existsb_exists. intros (x & Hx & E). exists x. split; [|done].
  simpl in *. naive_solver.
Qed.

(** The brackets of the markers are in no pattern. *)
Lemma bracket_local b : b = OPEN ∨ b = CLOSE → local_char b = false.
Proof. intros [-> | ->]; unfold local_char; by rewrite word_ascii. Qed.

Lemma bracket_space b : b = OPEN ∨ b = CLOSE → is_space b = false.
Proof. intros [-> | ->]; by rewrite space_ascii. Qed.

Lemma elem_forallb f (l : text) c : forallb f l = true → c ∈ l → f c = true.
Proof. rewrite forallb_forall. intros H Hc%list_elem_of_In. auto. Qed.

Lemma not_elem_forallb f (l : text) c : forallb f l = true → f c = false → c ∉ l.
Proof. intros H Hc Hin. rewrite (elem_forallb _ _ _ H Hin) in Hc. done. Qed.

Lemma forallb_impl (f g : Z → bool) l :
  (∀ c, f c = true → g c = true) → forallb f l = true → forallb g l = true.
Proof. rewrite !forallb_forall. auto. Qed.

(** No marker meets a match. *)
Definition marker_body (body : text) : Prop :=
  ∀ c, c ∈ mark body → c ≠ code_of "@" ∧ c ≠ code_of "/" ∧ is_space c = false.

Lemma letter_local c : is_letter c = true → local_char c = true.
Proof. intros H%letter_word. unfold local_char. by rewrite H. Qed.

Lemma address_foreign body m : marker_body body → address m → foreign body m.
Proof.
  intros Hb (a & d & x & -> & _ & Ha & _ & Hd%(forallb_impl _ _ _ domain_local) &
    _ & Hx%(forallb_impl _ _ _ letter_local)).
  assert (Hbr : ∀ b, b = OPEN ∨ b = CLOSE →
    b ∉ a ++ code_of "@" :: d ++ code_of "." :: x).
  { intros b H. pose proof (bracket_local b H) as Hl.
    rewrite !elem_of_app, !elem_of_cons, elem_of_app, elem_of_cons.
    apply (not_elem_forallb _ _ _ Ha) in Hl as Ha'.
    apply (not_elem_forallb _ _ _ Hd) in Hl as Hd'.
    apply (not_elem_forallb _ _ _ Hx) in Hl as Hx'.
    destruct H as [-> | ->]; naive_solver. }
  split; [by apply Hbr; left|by apply Hbr; right|].
  exists (code_of "@"). split; [set_solver|]. by intros [? _]%Hb.
Qed.

Lemma code_foreign body m : marker_body body → oauth_code m → foreign body m.
Proof.
  intros Hb (b & -> & _ & Hc).
  assert (Hbr : ∀ z, z = OPEN ∨ z = CLOSE → z ∉ code_of "4" :: code_of "/" :: b).
  { intros z H. rewrite !elem_of_cons. assert (Hz : code_char z = false) by by destruct H as [-> | ->].
    apply (not_elem_forallb _ _ _ Hc) in Hz. destruct H as [-> | ->]; naive_solver. }
  split; [by apply Hbr; left|by apply Hbr; right|].
  exists (code_of "/"). split; [set_solver|]. by intros (_ & ? & _)%Hb.
Qed.

Lemma bearer_foreign body m : marker_body body → bearer m → foreign body m.
Proof.
  intros Hb (w & sp & tok & -> & _ & Hw & Hsp & Hs & _ & Ht).
  assert (Hbr : ∀ z, z = OPEN ∨ z = CLOSE → z ∉ w ++ sp ++ tok).
  { intros z H. rewrite !elem_of_app. pose proof (bracket_space z H) as Hz.
    apply (not_elem_forallb _ _ _ Hs) in Hz.
    assert (z ∉ w) by (eapply not_elem_forallb; [exact Hw|by destruct H as [-> | ->]]).
    assert (z ∉ tok) by (eapply not_elem_forallb; [exact Ht|by destruct H as [-> | ->]]).
    naive_solver. }
  split; [by apply Hbr; left|by apply Hbr; right|].
  destruct sp as [|c sp]; [done|]. exists c. split; [set_solver|].
  intros (_ & _ & E)%Hb. apply andb_true_iff in Hs as [Hs _]. congruence.
Qed.
End letters.

(** ** What is left *)

Section left.
Context `{RL : RegexLaws}.

Lemma head_app_l (m t t' : text) : m ≠ [] → head (m ++ t) = head (m ++ t').
Proof. by destruct m. Qed.
Lemma last_app_r (l l' m : text) : m ≠ [] → last (l ++ m) = last (l' ++ m).
Proof. destruct m as [|c m _] using rev_ind; [done|]. by rewrite !app_assoc, !last_snoc. Qed.

(** Replacing the matches of a fenced pattern makes no new boundaries: a fenced
    piece of the output is a fenced piece of the text. *)
Lemma fenced_piece r P body s out x m y :
  fenced r P → replaced r (mark body) [] s out → out = x ++ m ++ y → foreign body m →
  boundary (last x) (head (m ++ y)) = true → boundary (last (x ++ m)) (head y) = true →
  ∃ l t, s = l ++ m ++ t ∧ matched r l (m ++ t) = [] ∧
    boundary (last l) (head (m ++ t)) = true ∧ boundary (last (l ++ m)) (head t) = true.
Proof.
  intros Hr Hrep E Hfor B1 B2. pose proof (foreign_nonempty _ _ Hfor) as Hne.
  destruct (replaced_piece r body [] s out Hrep [] x m y E Hfor) as
    (l & t & Es & Hnil & [HL|[_ HL]] & HR); [by left|..]; exists l, t;
    (split; [done|]); (split; [done|]); split.
  1: by rewrite <-HL, (head_app_l m t y).
  2: { destruct HL as (l0 & M & ms & -> & HM).
       assert (Hin : M ∈ matched r l0 (M ++ m ++ t)) by (rewrite HM; by left).
       apply matched_fits in Hin as (t' & <-%app_inv_head & (_ & _ & ?)%Hr). done. }
  all: destruct HR as [HR|[_ (M & t0 & ms & -> & HM)]].
  1, 3: by rewrite <-HR, (last_app_r l x m).
  all: assert (Hin : M ∈ matched r (l ++ m) (M ++ t0)) by (rewrite HM; by left).
  all: apply matched_fits in Hin as (t' & <-%app_inv_head & (_ & ? & _)%Hr); done.
Qed.

(** The pattern just replaced is gone. *)
Lemma replaced_unmatched r P body s out :
  fenced r P → (∀ m, P m → foreign body m) → replaced r (mark body) [] s out →
  unmatched r out.
Proof.
  intros Hr HP Hrep. apply unmatched_fits. intros l m t -> (Hm & B1 & B2)%Hr.
  destruct (fenced_piece r P body s _ l m t Hr Hrep eq_refl (HP m Hm) B1 B2)
    as (l' & t' & _ & Hnil & B1' & B2').
  apply (matched_nil _ _ _ _ Hnil). by apply Hr.
Qed.

(** Another fenced pattern that was gone stays so. *)
Lemma replaced_still r P r' P' body s out :
  fenced r P → fenced r' P' → (∀ m, P' m → foreign body m) →
  replaced r (mark body) [] s out → unmatched r' s → unmatched r' out.
Proof.
  intros Hr Hr' HP Hrep Hs. apply unmatched_fits. intros l m t -> (Hm & B1 & B2)%Hr'.
  destruct (fenced_piece r P body s _ l m t Hr Hrep eq_refl (HP m Hm) B1 B2)
    as (l' & t' & E & _ & B1' & B2').
  apply (proj1 (unmatched_fits r' s) Hs l' m t' E). by apply Hr'.
Qed.

(** ** Bearer tokens, which are not fenced *)

Lemma no_word_space (sp : text) : forallb is_space sp = true → wordy (head sp) = false ∧ wordy (last sp) = false.
Proof.
  intros Hsp. split.
  - destruct sp as [|c sp]; [done|]. apply andb_true_iff in Hsp as [H _]. by apply space_word.
  - destruct sp as [|c sp _] using rev_ind; [done|]. rewrite last_snoc.
    apply space_word, (elem_forallb _ _ _ Hsp). set_solver.
Qed.

(** Between a space and a word there is a place where a word begins. *)
Lemma find_start (tok l h : text) :
  wordy (last l) = false → wordy (head h) = true →
  ∃ p q, tok = p ++ q ∧ boundary (last (l ++ p)) (head (q ++ h)) = true.
Proof.
  revert l. induction tok as [|c tok IH]; intros l Hl Hh.
  - exists [], []. rewrite (app_nil_r l). split; [done|]. simpl. unfold boundary. by rewrite Hl, Hh.
  - destruct (is_word c) eqn:Hc.
    + exists [], (c :: tok). rewrite (app_nil_r l). split; [done|]. unfold boundary. simpl. by rewrite Hl, Hc.
    + destruct (IH (l ++ [c])) as (p & q & -> & Hb); [by rewrite last_snoc|done|].
      exists (c :: p), q. split; [done|]. by rewrite <-app_assoc in Hb.
Qed.

(** A fenced pattern that takes a following [bearer] in, and a preceding token, or
    that begins with a character of a token. *)
Record absorbs (P : text → Prop) : Prop := {
  ab_right m w : P m → forallb is_letter w = true → P (m ++ w);
  ab_left m q : P m → forallb token_char q = true →
    (∀ c, head m = Some c → token_char c = false) → P (q ++ m);
}.

(** To the right of a piece of the output: a boundary of the text, after the word of
    the pattern if a token followed. *)
Lemma bearer_right P l m t y x :
  absorbs P → P m → m ≠ [] → same_right BEARER y (l ++ m) t →
  boundary (last (x ++ m)) (head y) = true →
  ∃ w t2, t = w ++ t2 ∧ P (m ++ w) ∧ boundary (last (l ++ m ++ w)) (head t2) = true.
Proof.
  intros Hab Hm Hne [HR|[_ (M & t0 & ms & -> & HM)]] B2.
  - exists [], t. rewrite app_nil_r. split; [done|]. split; [done|].
    by rewrite <-HR, (last_app_r l x m).
  - assert (Hin : M ∈ matched BEARER (l ++ m) (M ++ t0)) by (rewrite HM; by left).
    apply matched_fits in Hin as (t' & <-%app_inv_head & HF%bearer_fits).
    destruct HF as (w & sp & tok & -> & Hw & Hwl & Hsp & Hsps & _).
    exists w, (sp ++ tok ++ t0). split; [by rewrite <-!app_assoc|].
    split; [by apply (ab_right _ Hab)|].
    rewrite (head_app_l sp _ []) by done. rewrite app_nil_r. unfold boundary.
    rewrite (proj1 (no_word_space _ Hsps)). destruct w as [|c w _] using rev_ind; [done|].
    rewrite !app_assoc, last_snoc. simpl. rewrite letter_word; [done|].
    apply (elem_forallb _ _ _ Hwl). set_solver.
Qed.

(** To the left: a boundary of the text, in the token if one preceded. *)
Lemma bearer_left P x l h t :
  absorbs P → P h → h ≠ [] → same_left BEARER x l (h ++ t) →
  boundary (last x) (head (h ++ t)) = true →
  ∃ l2 q, l = l2 ++ q ∧ P (q ++ h) ∧ boundary (last l2) (head (q ++ h ++ t)) = true.
Proof.
  intros Hab Hh Hne [HL|[HL (l0 & M & ms & -> & HM)]] B1.
  - exists l, []. rewrite app_nil_r. split; [done|]. split; [done|].
    cbn [app]. by rewrite <-HL.
  - assert (Hin : M ∈ matched BEARER l0 (M ++ h ++ t)) by (rewrite HM; by left).
    apply matched_fits in Hin as (t' & _ & HF%bearer_fits).
    destruct HF as (v & sp & tok & -> & Hv & Hvl & Hsp & Hsps & _ & Htok). rewrite HL in B1.
    assert (Hword : wordy (head (h ++ t)) = true).
    { revert B1. unfold boundary. simpl. by rewrite word_ascii. }
    destruct (find_start tok (l0 ++ v ++ sp) (h ++ t)) as (p & q & -> & Hb); [|done|].
    { rewrite app_assoc, (last_app_r _ [] sp) by done. apply (no_word_space _ Hsps). }
    exists (l0 ++ v ++ sp ++ p), q. split; [by rewrite <-!app_assoc|].
    split; [|by rewrite <-!app_assoc in Hb]. apply (ab_left _ Hab); [done| |].
    + rewrite forallb_app in Htok. by apply andb_true_iff in Htok as [_ ?].
    + intros c Hc. destruct h as [|c' h]; [done|]. injection Hc as ->.
      exact (sequence_greedy _ _ _ _ _ _ _ _ (h ++ t) HM eq_refl).
Qed.

Lemma bearer_still r P body s out :
  fenced r P → absorbs P → (∀ m, P m → foreign body m) →
  replaced BEARER (mark body) [] s out → unmatched r s → unmatched r out.
Proof.
  intros Hr Hab HP Hrep Hs. apply unmatched_fits. intros x m y -> (Hm & B1 & B2)%Hr.
  pose proof (foreign_nonempty _ _ (HP m Hm)) as Hne.
  destruct (replaced_piece BEARER body [] s _ Hrep [] x m y eq_refl (HP m Hm)) as
    (l & t & Es & _ & HL & HR); [by left|]. cbn [app] in Es, HL. subst s.
  destruct (bearer_right P l m t y x) as (w & t2 & -> & Hmw & Hb2); [done..|].
  destruct (bearer_left P x l (m ++ w) t2) as (l2 & q & -> & Hq & Hb1); [done|done| | | |].
  - by destruct m.
  - by rewrite <-app_assoc.
  - rewrite <-app_assoc. by rewrite (head_app_l m _ y).
  - apply (proj1 (unmatched_fits r _) Hs l2 (q ++ m ++ w) t2); [by rewrite <-!app_assoc|].
    apply Hr. split; [done|]. split; [by rewrite <-app_assoc|].
    by rewrite <-app_assoc in Hb2.
Qed.

Lemma bearer_unmatched body s out :
  marker_body body → replaced BEARER (mark body) [] s out → unmatched BEARER out.
Proof.
  intros Hb Hrep. apply unmatched_fits. intros x m y -> Hf.
  pose proof (bearer_foreign body m Hb (bearer_fits _ _ _ Hf)) as Hfor.
  destruct (replaced_piece BEARER body [] s _ Hrep [] x m y eq_refl Hfor)
    as (l & t & _ & Hnil & _); [by left|].
  apply (matched_nil _ _ _ _ Hnil). by eapply no_bnd_fits.
Qed.

Lemma address_absorbs : absorbs address.
Proof.
  split.
  - intros m w (a & d & x & -> & ? & ? & ? & ? & ? & Hx) Hw.
    exists a, d, (x ++ w). split; [by rewrite <-app_assoc; simpl; rewrite <-app_assoc|].
    split_and!; try done; [rewrite length_app; lia|]. by rewrite forallb_app, Hx, Hw.
  - intros m q (a & d & x & -> & ? & Ha & Hrest) Hq%(forallb_impl _ _ _ token_local) _.
    exists (q ++ a), d, x. split; [by rewrite <-app_assoc|].
    split; [rewrite length_app; lia|]. split; [by rewrite forallb_app, Hq, Ha|done].
Qed.

Lemma code_absorbs : absorbs oauth_code.
Proof.
  split.
  - intros m w (b & -> & Hb & Hc) Hw. exists (b ++ w). split; [done|].
    split; [rewrite length_app; lia|]. rewrite forallb_app, Hc. simpl.
    eapply forallb_impl; [|exact Hw]. intros c H. unfold code_char. by rewrite H.
  - intros m q (b & -> & _) _ H. by specialize (H _ eq_refl).
Qed.

(** The markers are in brackets, and hold nothing that a pattern needs. *)
Lemma markers :
  (MARK_EMAIL = mark (chars "redacted-email") ∧ marker_body (chars "redacted-email")) ∧
  (MARK_CODE = mark (chars "redacted-code") ∧ marker_body (chars "redacted-code")) ∧
  (MARK_BEARER = mark (chars "redacted-bearer") ∧ marker_body (chars "redacted-bearer")).
Proof.
  assert (Hbody : ∀ body, forallb (λ c, (0 <=? c)%Z && (c <? 128)%Z &&
    negb (Z.eqb c (code_of "@")) && negb (Z.eqb c (code_of "/")) &&
    negb (bool_decide (9 <= c <= 13 ∨ c = 32)%Z)) (mark body) = true → marker_body body).
  { intros body H c Hc. pose proof (elem_forallb _ _ _ H Hc) as Hok. simpl in Hok.
    repeat rewrite andb_true_iff in Hok. destruct Hok as [[[[H0 H1] H2] H3] H4].
    rewrite space_ascii by lia. apply negb_true_iff in H2, H3, H4.
    split; [by apply Z.eqb_neq|]. split; [by apply Z.eqb_neq|done]. }
  split_and!; [done|by apply Hbody|done|by apply Hbody|done|by apply Hbody].
Qed.

Lemma dollar_free l : forallb (λ c, negb (Z.eqb c (code_of "$"))) l = true → code_of "$" ∉ l.
Proof. intros H. by eapply not_elem_forallb. Qed.

(** No pattern has an empty match. *)
Lemma no_empty_match l t : [] ∉ matched EMAIL l t ∧ [] ∉ matched CODE l t ∧ [] ∉ matched BEARER l t.
Proof.
  split_and!; intros (t' & _ & Hf)%matched_fits.
  - apply email_fenced in Hf as [(a & d & x & E & _) _]. by destruct a.
  - apply code_fenced in Hf as [(b & E & _) _]. done.
  - apply bearer_fits in Hf as (w & sp & tok & E & Hw & _). by destruct w.
Qed.
End left.

(** ** Properties *)

Section properties.
Context `{RL : RegexLaws}.

End properties.
