(* ===== verification/IpcServer.v ===== *)
(** * The IPC server

    [crates/mail-mcp-core/src/ipc/server.rs]: one connection of the control
    channel. Two tasks write to it: the loop that answers the lines of the
    client, and the fan-out that forwards broadcast notifications once the
    client subscribed. Their interleaving is a sequence of events. The server
    is stated against an interface, the handler, and the notifications a
    handler's run adds to the broadcast. *)
From S2P Require Export Daemon.

(** [trait Handler], with the notifications broadcast so far, newest first. *)
Class Handler (S : Type) := {
  h_handle : string → Value → ST S Error Value;
  h_sent : S → list Notification;
}.

(** ** Frames *)

Record IpcRequest : Type := mkIpcRequest {
  ipc_id : Value;
  ipc_method : string;
  ipc_params : option Value;
}.

Definition de_ipc_request : De IpcRequest := de_struct (λ v,
  _ ← field "jsonrpc" de_string v;
  id ← field_default "id" de_value VNull v;
  method ← field "method" de_string v;
  params ← field_option "params" de_value v;
  Some (mkIpcRequest id method params)).

(** [JsonRpcResponse] *)
Definition response_ok (id result : Value) : Value :=
  VObject [("jsonrpc", VString "2.0"); ("id", id); ("result", result)].
Definition response_err (id : Value) (code : Z) (message : string) : Value :=
  VObject [("jsonrpc", VString "2.0"); ("id", id);
           ("error", VObject [("code", VInt code); ("message", VString message)])].

(** [JsonRpcNotification] *)
Definition notification_frame (method : string) (params : Value) : Value :=
  VObject [("jsonrpc", VString "2.0"); ("method", VString method); ("params", params)].

(** [error_code] *)
Definition error_code (e : Error) : Z :=
  match e with
  | NotFound _ => -32601
  | PermissionDenied _ => -32002
  | ApprovalRejected => -32003
  | ApprovalTimeout => -32004
  | _ => -32000
  end.

Section server.
Context `{PF : Platform}.

(** [notification_to_method_and_params]: the [params] taken out of the tagged
    form. *)
Definition notification_to_method_and_params (n : Notification) : string * Value :=
  let method := notification_method n in
  let tagged := notification_value n in
  (method, default VNull (get "params" tagged)).

(** [serde_json::from_str::<JsonRpcRequest>(line.trim())] *)
Definition parse_request (line : string) : string + IpcRequest :=
  match json_from_str (trim line) with
  | inl e => inl e
  | inr v =>
      match de_ipc_request v with
      | Some r => inr r
      | None => inl (de_error "JsonRpcRequest" v)
      end
  end.

(** ** One connection *)

(** The fan-out task: not spawned, forwarding, or ended. *)
Inductive FanOut : Type := NotStarted | Running | Stopped.

Global Instance FanOut_eq_dec : EqDecision FanOut.
Proof. solve_decision. Defined.

(** What was written: a response or a notification. *)
Inductive Frame : Type :=
| FResponse (v : Value)
| FNotification (n : Notification).

Record Conn : Type := mkConn {
  cn_subscribed : list string;
  cn_fanout : FanOut;
  cn_queue : list Notification;   (* broadcast values the receiver has not read *)
  cn_out : list Frame;            (* written, oldest first *)
  cn_closed : bool;
}.

Definition conn_new : Conn := mkConn [] NotStarted [] [] false.

(** The capacity of the broadcast channel ([main.rs]). *)
Definition BROADCAST_CAPACITY : nat := 64.

Definition set_subscribed (l : list string) (c : Conn) : Conn :=
  mkConn l (cn_fanout c) (cn_queue c) (cn_out c) (cn_closed c).
Definition set_fanout (f : FanOut) (c : Conn) : Conn :=
  mkConn (cn_subscribed c) f (cn_queue c) (cn_out c) (cn_closed c).
Definition write (f : Frame) (c : Conn) : Conn :=
  mkConn (cn_subscribed c) (cn_fanout c) (cn_queue c) (cn_out c ++ [f]) (cn_closed c).
Definition close (c : Conn) : Conn :=
  mkConn (cn_subscribed c) (cn_fanout c) (cn_queue c) (cn_out c) true.

(** A value sent to the broadcast channel reaches an armed receiver. *)
Definition broadcast (n : Notification) (c : Conn) : Conn :=
  match cn_fanout c with
  | Running =>
      mkConn (cn_subscribed c) Running (cn_queue c ++ [n]) (cn_out c) (cn_closed c)
  | _ => c
  end.

(** The arm ["subscribe"]: the filter first, then the receiver, once. *)
Definition subscribe (params : option Value) (c : Conn) : list string * Conn :=
  let events := default [] ((params ≫= get "events") ≫= de_vec de_string) in
  let c := set_subscribed events c in
  (events,
   match cn_fanout c with
   | NotStarted => set_fanout Running c
   | _ => c
   end).

(** One turn of the fan-out task; a receiver with more unread values than the
    channel keeps has lagged, and the loop ends on the error. *)
Definition fan_step (write_ok : bool) (c : Conn) : Conn :=
  match cn_fanout c, cn_queue c with
  | Running, n :: rest =>
      if bool_decide (BROADCAST_CAPACITY < length (cn_queue c)) then set_fanout Stopped c
      else
        let c := mkConn (cn_subscribed c) Running rest (cn_out c) (cn_closed c) in
        let '(method, _) := notification_to_method_and_params n in
        if any_eq method (cn_subscribed c) then
          if write_ok then write (FNotification n) c else set_fanout Stopped c
        else c
  | _, _ => c
  end.

(** ** The loop *)

Section loop.
Context {S : Type} {HS : Handler S}.

(** What the channel, the client and the other tasks do next. *)
Inductive CEvent : Type :=
| CLine (line : string) (write_ok : bool)
| CEof
| CReadError
| CBroadcast (n : Notification)
| CFan (write_ok : bool).

(** The response to a request ([None] when the handler's task dies or never
    returns), and the connection and daemon it leaves. *)
Definition answer_request (req : IpcRequest) (cs : Conn * S) :
    option Value * (Conn * S) :=
  let '(c, s) := cs in
  if String.eqb (ipc_method req) "subscribe" then
    let '(events, c) := subscribe (ipc_params req) c in
    (Some (response_ok (ipc_id req)
             (VObject [("subscribed", VArray (VString <$> events))])), (c, s))
  else
    let '(r, s') := h_handle (ipc_method req) (default VNull (ipc_params req)) s in
    let news := rev (take (length (h_sent s') - length (h_sent s)) (h_sent s')) in
    let c := foldl (λ c n, broadcast n c) c news in
    (match r with
     | Ok v => Some (response_ok (ipc_id req) v)
     | Err e => Some (response_err (ipc_id req) (error_code e) (error_to_string e))
     | Panic | Hang => None
     end, (c, s')).

(** One turn of the loop of [serve_conn]. *)
Definition serve_line (line : string) (write_ok : bool) (cs : Conn * S) : Conn * S :=
  match parse_request line with
  | inl e =>
      if write_ok
      then (write (FResponse (response_err VNull (-32700) ("parse: " +:+ e))) cs.1, cs.2)
      else cs
  | inr req =>
      match answer_request req cs with
      | (Some resp, (c, s)) =>
          if write_ok then (write (FResponse resp) c, s) else (close c, s)
      | (None, (c, s)) => (close c, s)
      end
  end.

Definition conn_step (e : CEvent) (cs : Conn * S) : Conn * S :=
  match e with
  | CLine line write_ok =>
      if cn_closed cs.1 then cs else serve_line line write_ok cs
  | CEof => (close cs.1, cs.2)
  | CReadError => (close cs.1, cs.2)
  | CBroadcast n => (broadcast n cs.1, cs.2)
  | CFan write_ok => (fan_step write_ok cs.1, cs.2)
  end.

Definition conn_run (es : list CEvent) (cs : Conn * S) : Conn * S :=
  foldl (λ cs e, conn_step e cs) cs es.
End loop.
Arguments CEvent : clear implicits.

(** The notifications among the frames written. *)
Definition notifications_out (c : Conn) : list Notification :=
  omap (λ f, match f with FNotification n => Some n | _ => None end) (cn_out c).

Definition responses_out (c : Conn) : list Value :=
  omap (λ f, match f with FResponse v => Some v | _ => None end) (cn_out c).
End server.

(** The daemon is such a handler. *)
Global Instance daemon_handler `{Platform} (hc : HandlerConfig) : Handler Daemon := {
  h_handle := handle hc;
  h_sent := h_notifs;
}.

(** ** Lemmas *)

Section facts.
Context `{PF : Platform} {S : Type} {HS : Handler S}.

Lemma notification_params n :
  notification_to_method_and_params n = (notification_method n, notification_content n).
Proof. by destruct n. Qed.

Lemma broadcast_out n c : cn_out (broadcast n c) = cn_out c.
Proof. unfold broadcast. by destruct (cn_fanout c). Qed.

Lemma broadcasts_out l c : cn_out (foldl (λ c n, broadcast n c) c l) = cn_out c.
Proof.
  revert c. induction l as [|n l IH]; intros c; simpl; [done|].
  by rewrite IH, broadcast_out.
Qed.

Lemma broadcast_fanout n c : cn_fanout (broadcast n c) = cn_fanout c.
Proof. unfold broadcast. by destruct (cn_fanout c) eqn:E. Qed.

Lemma broadcasts_fanout l c : cn_fanout (foldl (λ c n, broadcast n c) c l) = cn_fanout c.
Proof.
  revert c. induction l as [|n l IH]; intros c; simpl; [done|].
  by rewrite IH, broadcast_fanout.
Qed.

Lemma answer_out req c s o c' s' :
  answer_request req (c, s) = (o, (c', s')) → cn_out c' = cn_out c.
Proof.
  unfold answer_request. destruct (String.eqb _ _).
  - unfold subscribe. simpl. destruct (cn_fanout c); by intros [= _ <- _].
  - destruct (h_handle _ _ s) as [r s1]. intros [= _ <- _]. apply broadcasts_out.
Qed.

(** The fan-out of a connection only moves forward. *)
Lemma answer_fanout req c s o c' s' :
  answer_request req (c, s) = (o, (c', s')) →
  cn_fanout c' = cn_fanout c ∨
  (cn_fanout c = NotStarted ∧ cn_fanout c' = Running ∧
   ipc_method req = "subscribe").
Proof.
  unfold answer_request. destruct (String.eqb_spec (ipc_method req) "subscribe") as [Hm|].
  - unfold subscribe. simpl. destruct (cn_fanout c) eqn:E; intros [= _ <- _]; simpl; auto.
  - destruct (h_handle _ _ s) as [r s1]. intros [= _ <- _]. left. apply broadcasts_fanout.
Qed.

Lemma stopped_step e (cs : Conn * S) :
  cn_fanout cs.1 = Stopped →
  cn_fanout (conn_step e cs).1 = Stopped ∧
  notifications_out (conn_step e cs).1 = notifications_out cs.1.
Proof.
  destruct cs as [c s]. simpl. intros Hf. destruct e as [line ok| | |n|ok]; simpl; try done.
  - destruct (cn_closed c); [done|]. unfold serve_line.
    destruct (parse_request line) as [e|req].
    + destruct ok; [|done]. split; [done|]. unfold notifications_out. simpl.
      rewrite omap_app. simpl. by rewrite app_nil_r.
    + destruct (answer_request req (c, s)) as [o [c' s']] eqn:Ha.
      pose proof (answer_out _ _ _ _ _ _ Ha) as Hout.
      destruct (answer_fanout _ _ _ _ _ _ Ha) as [Hsame|[? _]]; [|congruence].
      destruct o; [destruct ok|]; simpl; (split; [by rewrite Hsame|]); unfold notifications_out; simpl;
        rewrite Hout, ?omap_app; simpl; by rewrite ?app_nil_r.
  - unfold broadcast. by rewrite Hf.
  - unfold fan_step. by rewrite Hf.
Qed.

(** What the fan-out forwards under a fixed filter. *)
Definition forwarded (subs : list string) (l : list Notification) : list Notification :=
  List.filter (λ n, any_eq (notification_method n) subs) l.

(** The notifications broadcast by a sequence of events. *)
Definition broadcasts (es : list CEvent) : list Notification :=
  omap (λ e, match e with CBroadcast n => Some n | _ => None end) es.

(** Events of the channel alone: broadcasts and successful fan-out turns. *)
Definition channel_event (e : CEvent) : bool :=
  match e with CBroadcast _ => true | CFan ok => ok | _ => false end.
End facts.

(** ** Properties *)

Section properties.
Context `{PF : Platform} {S : Type} {HS : Handler S}.

(** On an open connection a line gets exactly one response, which carries
    the id of its request: a subscription is acknowledged, another method gets
    the handler's result or its error with the error's code. *)
Theorem one_response_per_line line req c s :
  cn_closed c = false → parse_request line = inr req →
  (∀ s', h_handle (ipc_method req) (default VNull (ipc_params req)) s ≠ (Panic, s') ∧
         h_handle (ipc_method req) (default VNull (ipc_params req)) s ≠ (Hang, s')) →
  ∃ body, cn_out (conn_step (CLine line true) (c, s)).1 =
      cn_out c ++ [FResponse (VObject (("jsonrpc", VString "2.0") :: ("id", ipc_id req) :: body))] ∧
    (if decide (ipc_method req = "subscribe") then ∃ v, body = [("result", v)]
     else match (h_handle (ipc_method req) (default VNull (ipc_params req)) s).1 with
          | Ok v => body = [("result", v)]
          | Err e => body = [("error", VObject [("code", VInt (error_code e));
                                                ("message", VString (error_to_string e))])]
          | _ => False
          end).
Proof.
  intros Hopen Hreq Hret. simpl. rewrite Hopen. unfold serve_line. rewrite Hreq.
  destruct (answer_request req (c, s)) as [o [c' s']] eqn:Ha.
  pose proof (answer_out _ _ _ _ _ _ Ha) as Hout.
  revert Ha. unfold answer_request.
  destruct (String.eqb_spec (ipc_method req) "subscribe") as [Hm|Hm].
  - destruct (subscribe _ _). intros [= <- <- <-]. simpl. rewrite Hout.
    eexists. split; [reflexivity|]. rewrite decide_True by done. by eexists.
  - destruct (h_handle _ _ s) as [[r|e| |] s1] eqn:E; intros [= <- <- <-]; simpl;
      [| |by destruct (Hret s1)..]; rewrite Hout;
      (eexists; split; [reflexivity|]; by rewrite decide_False by done).
Qed.

(** While the fan-out runs without lagging, the client receives, in order
    and once each, exactly the broadcast notifications whose name is in its
    filter: what was written plus what is still queued accounts for every
    notification broadcast. *)
Theorem fanout_in_order es c s :
  cn_fanout c = Running →
  Forall (λ e, channel_event e = true) es →
  length (cn_queue c) + length (broadcasts es) ≤ BROADCAST_CAPACITY →
  let c' := (conn_run es (c, s)).1 in
  ∃ k, notifications_out c' = notifications_out c ++
         forwarded (cn_subscribed c) (take k (cn_queue c ++ broadcasts es)) ∧
       cn_queue c' = drop k (cn_queue c ++ broadcasts es) ∧
       cn_fanout c' = Running ∧ responses_out c' = responses_out c.
Proof.
  intros Hrun Hes. revert c Hrun. induction Hes as [|e es He Hes IH]; intros c Hrun Hlen.
  { exists 0. simpl. by rewrite !app_nil_r. }
  simpl. destruct e as [| | |n|ok]; try done; simpl in He.
  - (* a broadcast *)
    simpl in Hlen.
    set (c1 := mkConn (cn_subscribed c) Running (cn_queue c ++ [n]) (cn_out c) (cn_closed c)).
    assert (Hstep : conn_step (CBroadcast n) (c, s) = (c1, s)).
    { simpl. unfold broadcast. by rewrite Hrun. }
    rewrite Hstep.
    destruct (IH c1 eq_refl) as (k & Hk).
    { simpl. rewrite length_app. simpl. lia. }
    exists k. simpl in Hk. rewrite <- app_assoc in Hk. exact Hk.
  - (* a turn of the fan-out *)
    subst ok. destruct (cn_queue c) as [|n rest] eqn:Hq.
    + assert (Hstep : conn_step (CFan true) (c, s) = (c, s)).
      { simpl. unfold fan_step. by rewrite Hrun, Hq. }
      rewrite Hstep. destruct (IH c Hrun) as (k & Hk); [by rewrite Hq|].
      exists k. by rewrite Hq in Hk.
    + simpl in Hlen.
      set (c1 := mkConn (cn_subscribed c) Running rest
        (cn_out c ++ (if any_eq (notification_method n) (cn_subscribed c)
                      then [FNotification n] else [])) (cn_closed c)).
      assert (Hstep : conn_step (CFan true) (c, s) = (c1, s)).
      { simpl. unfold fan_step. rewrite Hrun, Hq. rewrite bool_decide_eq_false_2 by (simpl; lia).
        rewrite notification_params. simpl. unfold c1.
        destruct (any_eq _ _); [done|]. by rewrite app_nil_r. }
      rewrite Hstep. destruct (IH c1 eq_refl) as (k & Hout & Hqueue & Hf & Hr).
      { simpl. lia. }
      exists (Datatypes.S k). simpl in *. split_and!; [|done|done|].
      * rewrite Hout. unfold notifications_out. simpl. rewrite omap_app, <- app_assoc.
        f_equal. unfold forwarded at 2. simpl. by destruct (any_eq _ _).
      * rewrite Hr. unfold responses_out. simpl. rewrite omap_app.
        destruct (any_eq _ _); simpl; by rewrite app_nil_r.
Qed.

(** Nothing is forwarded to a client that never subscribed: without a
    successful [subscribe] line, no run of events writes a notification. *)
Theorem no_notification_before_subscribe es c s :
  cn_fanout c = NotStarted →
  (∀ line ok req, CLine line ok ∈ es → parse_request line = inr req →
     ipc_method req ≠ "subscribe") →
  notifications_out (conn_run es (c, s)).1 = notifications_out c.
Proof.
  revert c s. induction es as [|e es IH]; intros c s Hf Hno; simpl; [done|].
  assert (Hstep : cn_fanout (conn_step e (c, s)).1 = NotStarted ∧
    notifications_out (conn_step e (c, s)).1 = notifications_out c).
  { destruct e as [line ok| | |n|ok]; simpl; try done.
    - destruct (cn_closed c); [done|]. unfold serve_line.
      destruct (parse_request line) as [e|req] eqn:Hp.
      + destruct ok; [|done]. split; [done|]. unfold notifications_out. simpl.
        rewrite omap_app. simpl. by rewrite app_nil_r.
      + destruct (answer_request req (c, s)) as [o [c' s']] eqn:Ha.
        pose proof (answer_out _ _ _ _ _ _ Ha) as Hout.
        destruct (answer_fanout _ _ _ _ _ _ Ha) as [Hsame|(_ & _ & Hm)].
        * destruct o; [destruct ok|]; simpl; (split; [by rewrite Hsame|]); unfold notifications_out;
            simpl; rewrite Hout, ?omap_app; simpl; by rewrite ?app_nil_r.
        * exfalso. eapply Hno; [by left|exact Hp|done].
    - unfold broadcast. by rewrite Hf.
    - unfold fan_step. by rewrite Hf. }
  destruct Hstep as [Hf' Hout]. destruct (conn_step e (c, s)) as [c' s'] eqn:E.
  simpl in *. rewrite IH; [done|done|]. intros line ok req Hin. eapply Hno. by right.
Qed.

(** C40: once the fan-out has ended, by a lag or a failed write, it never starts
    again: whatever the client sends, including a new [subscribe], no
    notification is forwarded any more. *)
Theorem stopped_fanout_stays_stopped es c s :
  cn_fanout c = Stopped →
  cn_fanout (conn_run es (c, s)).1 = Stopped ∧
  notifications_out (conn_run es (c, s)).1 = notifications_out c.
Proof.
  revert c s. induction es as [|e es IH]; intros c s Hf; simpl; [done|].
  destruct (stopped_step e (c, s) Hf) as [Hf' Hout].
  destruct (conn_step e (c, s)) as [c' s']. simpl in *.
  destruct (IH c' s' Hf') as [? ?]. split; [done|congruence].
Qed.

(** A receiver left with more unread notifications than the channel keeps
    ends the fan-out at its next turn. *)
Theorem lag_stops_fanout ok c s :
  cn_fanout c = Running → BROADCAST_CAPACITY < length (cn_queue c) →
  cn_fanout (conn_step (CFan ok) (c, s)).1 = Stopped.
Proof.
  intros Hf Hlen. simpl. unfold fan_step. rewrite Hf.
  destruct (cn_queue c) as [|n rest] eqn:Hq; [simpl in Hlen; lia|].
  by rewrite bool_decide_eq_true_2.
Qed.
End properties.
