(* ===== verification/IpcHub.v ===== *)
(** * The IPC server and all its connections

    [Server::bind_and_serve] of [crates/mail-mcp-core/src/ipc/server.rs]: the loop
    that accepts clients, the task of each, and the broadcast channel they share.
    A run is a sequence of events of the whole server; a connection's own turn is
    that of [IpcServer]. *)
From S2P Require Export IpcServer.

Section hub.
Context `{PF : Platform} {S : Type} {HS : Handler S}.

(** The accept loop runs or has ended, the connections in the order of their
    arrival, every value sent to the broadcast channel so far (oldest first), and
    what the handler acts on. *)
Record Hub : Type := mkHub {
  hb_serving : bool;
  hb_conns : list Conn;
  hb_sent : list Notification;
  hb_state : S;
}.

Definition hub_start (s : S) : Hub := mkHub true [] [] s.

Inductive HubEvent : Type :=
| HAccept
| HAcceptError
| HLine (i : nat) (line : string) (write_ok : bool)
| HEof (i : nat)
| HReadError (i : nat)
| HFan (i : nat) (write_ok : bool)
| HSend (n : Notification).

(** The notifications a run of the handler sent, oldest first. *)
Definition news (s s' : S) : list Notification :=
  rev (take (length (h_sent s') - length (h_sent s)) (h_sent s')).

Definition broadcast_all (ns : list Notification) (c : Conn) : Conn :=
  foldl (λ c n, broadcast n c) c ns.

(** A turn of connection [i]; what its handler sent reaches every connection. *)
Definition hub_turn (i : nat) (e : CEvent) (h : Hub) : Hub :=
  match hb_conns h !! i with
  | None => h
  | Some c =>
      let '(c', s') := conn_step e (c, hb_state h) in
      let ns := news (hb_state h) s' in
      mkHub (hb_serving h) (<[i := c']> (broadcast_all ns <$> hb_conns h))
        (hb_sent h ++ ns) s'
  end.

(** One event; an error of [accept] ends the loop, not the connections. *)
Definition hub_step (e : HubEvent) (h : Hub) : Hub :=
  match e with
  | HAccept =>
      if hb_serving h
      then mkHub true (hb_conns h ++ [conn_new]) (hb_sent h) (hb_state h)
      else h
  | HAcceptError => mkHub false (hb_conns h) (hb_sent h) (hb_state h)
  | HLine i line write_ok => hub_turn i (CLine line write_ok) h
  | HEof i => hub_turn i CEof h
  | HReadError i => hub_turn i CReadError h
  | HFan i write_ok => hub_turn i (CFan write_ok) h
  | HSend n =>
      mkHub (hb_serving h) (broadcast n <$> hb_conns h) (hb_sent h ++ [n]) (hb_state h)
  end.

Definition hub_run (es : list HubEvent) (h : Hub) : Hub := foldl (λ h e, hub_step e h) h es.

(** ** Lemmas *)

Lemma news_same s : news s s = [].
Proof. unfold news. by rewrite Nat.sub_diag. Qed.

(** What a connection has written and what it has queued, against the channel. *)
Record fits (sent : list Notification) (c : Conn) : Prop := {
  fits_order : notifications_out c ++ cn_queue c `sublist_of` sent;
  fits_complete : cn_fanout c = Running → cn_queue c `suffix_of` sent;
  fits_idle : cn_fanout c = NotStarted → cn_queue c = [];
}.

Lemma fits_new sent : fits sent conn_new.
Proof. split; [apply sublist_nil_l|done|done]. Qed.

Lemma fits_broadcast sent n c : fits sent c → fits (sent ++ [n]) (broadcast n c).
Proof.
  intros [H1 H2 H3]. unfold broadcast, notifications_out in *.
  destruct (cn_fanout c) eqn:E; (split; simpl; rewrite ?E; try done).
  - by apply sublist_inserts_r.
  - rewrite app_assoc. by apply sublist_app.
  - intros _. apply suffix_snoc; auto.
  - by apply sublist_inserts_r.
Qed.

Lemma fits_broadcast_all sent ns c :
  fits sent c → fits (sent ++ ns) (broadcast_all ns c).
Proof.
  revert sent c. induction ns as [|n ns IH]; intros sent c Hc; simpl.
  - by rewrite app_nil_r.
  - rewrite cons_middle, app_assoc. by apply IH, fits_broadcast.
Qed.

(** A connection that differs in what does not concern the channel. *)
Lemma fits_other sent c c' :
  notifications_out c' = notifications_out c → cn_queue c' = cn_queue c →
  (cn_fanout c' = cn_fanout c ∨ cn_fanout c = NotStarted) →
  cn_fanout c' ≠ NotStarted ∨ cn_fanout c' = cn_fanout c →
  fits sent c → fits sent c'.
Proof.
  intros Ho Hq Hf Hf' [H1 H2 H3]. split; rewrite ?Ho, ?Hq; [done| |].
  - intros E. destruct Hf as [Hf|Hf]; [apply H2; congruence|].
    rewrite H3 by done. apply suffix_nil.
  - intros E. destruct Hf' as [Hf'|Hf']; [done|]. apply H3. congruence.
Qed.

Lemma fits_write_response sent v c : fits sent c → fits sent (write (FResponse v) c).
Proof.
  apply fits_other; auto. unfold notifications_out. simpl. rewrite omap_app. simpl.
  by rewrite app_nil_r.
Qed.

Lemma fits_close sent c : fits sent c → fits sent (close c).
Proof. apply fits_other; auto. Qed.

Lemma fits_subscribe sent params c : fits sent c → fits sent (subscribe params c).2.
Proof. unfold subscribe. simpl. destruct (cn_fanout c) eqn:E; apply fits_other; simpl; auto. Qed.

Lemma fits_answer sent req c s o c' s' :
  answer_request req (c, s) = (o, (c', s')) → fits sent c → fits (sent ++ news s s') c'.
Proof.
  unfold answer_request. intros H Hc. destruct (String.eqb _ _).
  - pose proof (fits_subscribe sent (ipc_params req) c Hc) as Hs.
    destruct (subscribe _ c) as [events c1]. injection H as _ <- <-.
    by rewrite news_same, app_nil_r.
  - destruct (h_handle _ _ s) as [r s1]. injection H as _ <- <-. by apply fits_broadcast_all.
Qed.

Lemma fits_fan sent ok c : fits sent c → fits sent (fan_step ok c).
Proof.
  intros Hc. unfold fan_step. destruct (cn_fanout c) eqn:Ef; try done.
  destruct (cn_queue c) as [|n rest] eqn:Eq; [done|].
  destruct Hc as [H1 H2 H3]. rewrite Eq in H1, H2. specialize (H2 Ef).
  assert (Hrest : rest `suffix_of` sent) by (by eapply suffix_cons_l).
  assert (Hout : notifications_out c ++ rest `sublist_of` sent).
  { etrans; [|exact H1]. apply sublist_app; [done|]. by apply sublist_cons. }
  destruct (bool_decide _); [by split; simpl; rewrite ?Eq|].
  destruct (notification_to_method_and_params n) as [m p].
  destruct (any_eq _ _); [destruct ok|]; split; simpl; try done.
  unfold notifications_out. simpl. rewrite omap_app, <- app_assoc. simpl. exact H1.
Qed.

Lemma fits_turn sent e c s c' s' :
  (∀ n, e ≠ CBroadcast n) → conn_step e (c, s) = (c', s') →
  fits sent c → fits (sent ++ news s s') c'.
Proof.
  intros Hne H Hc. destruct e as [line ok| | |n|ok]; simpl in H.
  - destruct (cn_closed c); [injection H as <- <-; by rewrite news_same, app_nil_r|].
    unfold serve_line in H. destruct (parse_request line) as [err|req].
    + destruct ok; injection H as <- <-; rewrite news_same, app_nil_r;
        [by apply fits_write_response|done].
    + destruct (answer_request req (c, s)) as [o [c1 s1]] eqn:Ha.
      apply fits_answer with (sent := sent) in Ha; [|done].
      destruct o; [destruct ok|]; injection H as <- <-;
        [by apply fits_write_response|by apply fits_close..].
  - injection H as <- <-. rewrite news_same, app_nil_r. by apply fits_close.
  - injection H as <- <-. rewrite news_same, app_nil_r. by apply fits_close.
  - by destruct (Hne n).
  - injection H as <- <-. rewrite news_same, app_nil_r. by apply fits_fan.
Qed.

Definition hub_fits (h : Hub) : Prop := Forall (fits (hb_sent h)) (hb_conns h).

Lemma hub_turn_fits i e h :
  (∀ n, e ≠ CBroadcast n) → hub_fits h → hub_fits (hub_turn i e h).
Proof.
  intros Hne Hh. unfold hub_turn. destruct (hb_conns h !! i) as [c|] eqn:Hi; [|done].
  destruct (conn_step e (c, hb_state h)) as [c' s'] eqn:E.
  unfold hub_fits. cbn [hb_sent hb_conns]. apply Forall_insert.
  - apply Forall_fmap. eapply Forall_impl; [exact Hh|]. intros c1. apply fits_broadcast_all.
  - eapply fits_turn; [done|exact E|]. by eapply Forall_lookup_1.
Qed.

Lemma hub_step_fits e h : hub_fits h → hub_fits (hub_step e h).
Proof.
  intros Hh. destruct e; simpl; try (by apply hub_turn_fits).
  - destruct (hb_serving h); [|done]. apply Forall_app. split; [done|].
    apply Forall_singleton, fits_new.
  - done.
  - apply Forall_fmap. eapply Forall_impl; [exact Hh|]. intros c. apply fits_broadcast.
Qed.
End hub.
Arguments Hub : clear implicits.

(** ** Properties *)

Section properties.
Context `{PF : Platform} {S : Type} {HS : Handler S}.

(** C33: all clients see one order. In any run of the server, with clients that
    come and go, subscribe late or again, lag or fail, what each connection wrote
    of notifications and has queued is a subsequence of what was sent to the
    channel: nothing is invented, doubled or reordered; and while its fan-out
    runs, what is queued is the latest part of the channel, without a gap. *)
Theorem hub_total_order es s c :
  c ∈ hb_conns (hub_run es (hub_start s)) →
  notifications_out c ++ cn_queue c `sublist_of` hb_sent (hub_run es (hub_start s)) ∧
  (cn_fanout c = Running → cn_queue c `suffix_of` hb_sent (hub_run es (hub_start s))).
Proof.
  intros Hc. assert (Hrun : ∀ h, hub_fits h → hub_fits (hub_run es h)).
  { clear. induction es as [|e es IH]; intros h Hh; [done|]. apply IH, hub_step_fits, Hh. }
  assert (Hfits : hub_fits (hub_run es (hub_start s))) by (apply Hrun; constructor).
  unfold hub_fits in Hfits. rewrite Forall_forall in Hfits. by destruct (Hfits c Hc).
Qed.

(** Clients are isolated. A line of one client is answered on its connection
    alone; every other connection keeps what was written to it, its filter and its
    life, and gets in its queue, if its fan-out runs, exactly the notifications the
    handler sent, in order. *)
Theorem hub_isolated i j line ok h c :
  i ≠ j → hb_conns h !! j = Some c →
  let h' := hub_step (HLine i line ok) h in
  ∃ c', hb_conns h' !! j = Some c' ∧
    cn_out c' = cn_out c ∧ cn_subscribed c' = cn_subscribed c ∧
    cn_closed c' = cn_closed c ∧ cn_fanout c' = cn_fanout c ∧
    cn_queue c' = cn_queue c ++
      (if decide (cn_fanout c = Running) then news (hb_state h) (hb_state h') else []).
Proof.
  intros Hne Hj. simpl. unfold hub_turn.
  assert (Hall : ∀ ns c, let c' := broadcast_all ns c in
    cn_out c' = cn_out c ∧ cn_subscribed c' = cn_subscribed c ∧
    cn_closed c' = cn_closed c ∧ cn_fanout c' = cn_fanout c ∧
    cn_queue c' = cn_queue c ++ (if decide (cn_fanout c = Running) then ns else [])).
  { clear. induction ns as [|n ns IH]; intros c; simpl.
    { split_and!; try done. destruct (decide _); by rewrite app_nil_r. }
    destruct (IH (broadcast n c)) as (H1 & H2 & H3 & H4 & H5). unfold broadcast in *.
    destruct (cn_fanout c) eqn:E; rewrite ?E in *; simpl in *; split_and!; try done;
      rewrite H5, ?E; simpl; try done. by rewrite <- app_assoc. }
  destruct (hb_conns h !! i) as [ci|] eqn:Hi.
  - destruct (conn_step (CLine line ok) (ci, hb_state h)) as [c' s'] eqn:E. cbn [hb_conns hb_state].
    exists (broadcast_all (news (hb_state h) s') c).
    rewrite list_lookup_insert_ne, list_lookup_fmap, Hj by done. split; [done|]. apply Hall.
  - exists c. split; [done|]. rewrite news_same.
    destruct (decide _); rewrite app_nil_r; split_and!; done.
Qed.

(** An error of [accept], which [bind_and_serve] returns with [?], ends the
    server for every later client, whatever happens next. *)
Theorem accept_error_final es h :
  length (hb_conns (hub_run es (hub_step HAcceptError h))) = length (hb_conns h).
Proof.
  assert (Hlen : ∀ es h, hb_serving h = false →
    length (hb_conns (hub_run es h)) = length (hb_conns h)).
  { clear. induction es as [|e es IH]; intros h Hs; [done|]. simpl.
    assert (Hturn : ∀ i e, hb_serving (hub_turn i e h) = false ∧
      length (hb_conns (hub_turn i e h)) = length (hb_conns h)).
    { intros i e'. unfold hub_turn. destruct (hb_conns h !! i); [|done].
      destruct (conn_step e' _) as [c' s']. simpl.
      by rewrite length_insert, length_fmap. }
    rewrite IH.
    - destruct e; simpl; rewrite ?Hs, ?length_fmap; try done; by apply Hturn.
    - destruct e; simpl; rewrite ?Hs; try done; by apply Hturn. }
  by rewrite Hlen.
Qed.
End properties.
