(* ===== verification/Cache.v ===== *)
(** * The message cache

    [crates/mail-mcp-core/src/cache.rs]: a bounded cache of messages keyed by
    account and message id, whose entries expire. The LRU structure is the lru
    crate's; the laws say what it documents. *)
From S2P Require Export Types.

(** The operations of [lru::LruCache]. *)
Class LruLib (K V : Type) := {
  lru : Type;
  lru_new : nat → lru;
  lru_put : K → V → lru → lru;
  lru_get : K → lru → option V * lru;
  lru_pop : K → lru → lru;
  lru_iter : lru → list (K * V);
}.

(** An LRU cache is a map of bounded size: a put may evict other entries, a get
    only changes the order. *)
Class LruLaws {K V} `{Countable K} (L : LruLib K V) := {
  lru_view : lru → gmap K V;
  lru_capacity : lru → nat;
  lru_new_view n : lru_view (lru_new n) = ∅;
  lru_new_capacity n : lru_capacity (lru_new n) = n;
  lru_put_capacity k v c : lru_capacity (lru_put k v c) = lru_capacity c;
  lru_get_capacity k c : lru_capacity (lru_get k c).2 = lru_capacity c;
  lru_pop_capacity k c : lru_capacity (lru_pop k c) = lru_capacity c;
  lru_put_same k v c : 0 < lru_capacity c → lru_view (lru_put k v c) !! k = Some v;
  lru_put_other k v c k' x :
    k' ≠ k → lru_view (lru_put k v c) !! k' = Some x → lru_view c !! k' = Some x;
  lru_put_bound k v c :
    size (lru_view c) ≤ lru_capacity c →
    size (lru_view (lru_put k v c)) ≤ lru_capacity c;
  lru_get_value k c : (lru_get k c).1 = lru_view c !! k;
  lru_get_view k c : lru_view (lru_get k c).2 = lru_view c;
  lru_pop_view k c : lru_view (lru_pop k c) = delete k (lru_view c);
  lru_iter_keys k c : k ∈ (lru_iter c).*1 ↔ is_Some (lru_view c !! k);
}.

Abbreviation CacheKey := (AccountId * MessageId)%type.

(** [CacheEntry] *)
Record CacheEntry (V : Type) : Type := mkCacheEntry { ce_value : V; ce_inserted : Z }.
Arguments mkCacheEntry {V}.
Arguments ce_value {V}.
Arguments ce_inserted {V}.

Section cache.
Context {V : Type} {L : LruLib CacheKey (CacheEntry V)}.

(** [MessageCache]; times are nanoseconds of the monotonic clock. *)
Record MessageCache : Type := mkMessageCache { mc_inner : lru; mc_ttl : Z }.

(** [MessageCache::new] *)
Definition cache_new (capacity : nat) (ttl : Z) : MessageCache :=
  mkMessageCache (lru_new capacity) ttl.

(** [put] *)
Definition cache_put (now : Z) (account : AccountId) (msg : MessageId) (v : V)
    (c : MessageCache) : MessageCache :=
  mkMessageCache (lru_put (account, msg) (mkCacheEntry v now) (mc_inner c)) (mc_ttl c).

(** [entry.inserted.elapsed()], which saturates at zero. *)
Definition elapsed (now inserted : Z) : Z := Z.max 0 (now - inserted).

(** [get] *)
Definition cache_get (now : Z) (account : AccountId) (msg : MessageId)
    (c : MessageCache) : option V * MessageCache :=
  let key := (account, msg) in
  let '(found, g) := lru_get key (mc_inner c) in
  match found with
  | Some entry =>
      if (elapsed now (ce_inserted entry) <=? mc_ttl c)%Z
      then (Some (ce_value entry), mkMessageCache g (mc_ttl c))
      else (None, mkMessageCache (lru_pop key g) (mc_ttl c))
  | None => (None, mkMessageCache (lru_pop key g) (mc_ttl c))
  end.

(** [invalidate_account] *)
Definition invalidate_account (account : AccountId) (c : MessageCache) : MessageCache :=
  let to_remove := List.filter (λ k : CacheKey, bool_decide (k.1 = account))
                     (lru_iter (mc_inner c)).*1 in
  mkMessageCache (foldl (λ g k, lru_pop k g) (mc_inner c) to_remove) (mc_ttl c).
End cache.

(** ** Lemmas *)

Section facts.
Context {V : Type} {L : LruLib CacheKey (CacheEntry V)} {LL : LruLaws L}.

Definition cache_view (c : MessageCache) : gmap CacheKey (CacheEntry V) :=
  lru_view (mc_inner c).

Lemma pops_view ks g :
  lru_view (foldl (λ g k, lru_pop k g) g ks) =
    foldl (λ m k, delete k m) (lru_view g) ks.
Proof.
  revert g. induction ks as [|k ks IH]; intros g; simpl; [done|].
  by rewrite IH, lru_pop_view.
Qed.

Lemma deletes_lookup (ks : list CacheKey) (m : gmap CacheKey (CacheEntry V)) k :
  foldl (λ m k, delete k m) m ks !! k = if decide (k ∈ ks) then None else m !! k.
Proof.
  revert m. induction ks as [|k' ks IH]; intros m; simpl.
  { done. }
  rewrite IH. destruct (decide (k ∈ ks)) as [Hin|Hout].
  - rewrite decide_True; [done|by right].
  - destruct (decide (k = k')) as [->|Hne].
    + rewrite decide_True by left. apply lookup_delete_eq.
    + rewrite decide_False by (rewrite elem_of_cons; tauto). by apply lookup_delete_ne.
Qed.
End facts.

(** ** Properties *)

Section properties.
Context {V : Type} {L : LruLib CacheKey (CacheEntry V)} {LL : LruLaws L}.

(** The cache never answers a stale value: a value it returns was inserted
    under that account and message no longer than the time to live ago, and an
    entry found expired is gone afterwards. *)
Theorem cache_get_fresh now account msg (c : MessageCache) :
  match cache_get now account msg c with
  | (Some v, c') =>
      cache_view c' = cache_view c ∧
      ∃ t, cache_view c !! (account, msg) = Some (mkCacheEntry v t) ∧
        (elapsed now t <= mc_ttl c)%Z
  | (None, c') => cache_view c' = delete (account, msg) (cache_view c)
  end.
Proof.
  unfold cache_get, cache_view.
  pose proof (lru_get_value (account, msg) (mc_inner c)) as Hv.
  pose proof (lru_get_view (account, msg) (mc_inner c)) as Hg.
  destruct (lru_get _ _) as [[[v t]|] g]; simpl in *.
  - destruct (elapsed now t <=? mc_ttl c)%Z eqn:E; simpl.
    + apply Z.leb_le in E. split; [done|]. by exists t.
    + by rewrite lru_pop_view, Hg.
  - by rewrite lru_pop_view, Hg.
Qed.

(** A value just put is found until its time to live has elapsed, and not
    afterwards. *)
Theorem cache_put_get now later account msg v (c : MessageCache) :
  0 < lru_capacity (mc_inner c) →
  (cache_get later account msg (cache_put now account msg v c)).1 =
    if (elapsed later now <=? mc_ttl c)%Z then Some v else None.
Proof.
  intros Hcap. unfold cache_get, cache_put. simpl.
  pose proof (lru_get_value (account, msg)
    (lru_put (account, msg) (mkCacheEntry v now) (mc_inner c))) as Hv.
  rewrite lru_put_same in Hv by done.
  destruct (lru_get _ _) as [found g]; simpl in *. subst found. simpl.
  by destruct (_ <=? _)%Z.
Qed.

(** Invalidating an account drops exactly that account's entries. *)
Theorem invalidate_account_exact account (c : MessageCache) k :
  cache_view (invalidate_account account c) !! k =
    if decide (k.1 = account) then None else cache_view c !! k.
Proof.
  unfold invalidate_account, cache_view. simpl. rewrite pops_view, deletes_lookup.
  assert (Hin : k ∈ List.filter (λ k : CacheKey, bool_decide (k.1 = account))
      (lru_iter (mc_inner c)).*1 ↔
    is_Some (lru_view (mc_inner c) !! k) ∧ k.1 = account).
  { rewrite list_elem_of_In, List.filter_In, <- list_elem_of_In, lru_iter_keys.
    by rewrite bool_decide_eq_true. }
  destruct (decide (k ∈ _)) as [[_ Ha]%Hin|Hout].
  - by rewrite decide_True.
  - destruct (decide (k.1 = account)) as [Ha|]; [|done].
    apply eq_None_not_Some. intros Hs. apply Hout, Hin. done.
Qed.
End properties.
