(* ===== verification/Lifecycle.v ===== *)
(** * The files of a running daemon

    [crates/mail-mcp-daemon/src/lifecycle.rs]: the lock on the pid file, the file
    that tells local clients the address and the bearer token of the MCP server,
    and the token. Every state of the file system on the way can be observed by
    another process. *)
From S2P Require Export Paths IpcMessages.

Section lifecycle.
Context `{PF : Platform, OS : OsLib}.

(** [anyhow::Result]: an error is its message. *)
Definition AM (A : Type) : Type := ST Os string A.

(** ** The pid file *)

(** [PidLock::acquire]: the lock is on the open file, the path its name. *)
Definition acquire (path : string) : AM unit :=
  _ ← match parent path with
      | Some d => ignore (anyhow_io (create_dir_all d))
      | None => mret tt
      end;
  _ ← with_context ("opening pid file " +:+ path) (open_create path);
  _ ← with_context ("locking pid file " +:+ path) (try_lock path);
  _ ← ignore (anyhow_io (truncate_file path));
  anyhow_io (write_file path (pretty os_pid +:+ lf)).

(** [PidLock::drop]: the lock, then the file. *)
Definition release (path : string) : AM unit :=
  _ ← ignore (anyhow_io (os_call (OsLock path) (λ fs, inr (tt, fs))));
  ignore (anyhow_io (remove_file path)).

(** ** The endpoint file *)

(** The mode of the file at its creation, [0o600]. *)
Definition PRIVATE_MODE : Z := 384.

(** The file the contents are written to, a sibling of the endpoint file. *)
Definition tmp_path (path name : string) : string :=
  path_join (default "." (parent path)) (name +:+ ".tmp." +:+ pretty os_pid).

(** [write_endpoint] *)
Definition write_endpoint (path : string) (info : McpEndpointInfo) : AM unit :=
  _ ← anyhow_io (create_dir_all (default "." (parent path)));
  let bytes := json_pretty (endpoint_value info) in
  name ← lift_res (ok_or (file_name path) "endpoint path has no file name");
  let tmp := tmp_path path name in
  _ ← with_context ("creating endpoint temp file " +:+ tmp) (open_new tmp PRIVATE_MODE);
  _ ← anyhow_io (write_file tmp bytes);
  with_context ("renaming " +:+ tmp +:+ " → " +:+ path) (rename tmp path).

(** [endpoint_url] *)
Definition endpoint_url (addr : string) : string := "http://" +:+ addr +:+ "/mcp".

(** [fresh_bearer_token] *)
Definition fresh_bearer_token : M string := λ s,
  (Ok (b64url_encode (random_bytes_at (sys_hist s) 32)), record_ev EvRandom s).
End lifecycle.

(** ** Lemmas *)

Section facts.
Context `{PF : Platform, OS : OsLib}.

Lemma tmp_path_name path name :
  file_name path = Some name →
  file_name (tmp_path path name) = Some (name +:+ ".tmp." +:+ pretty os_pid) ∧
  tmp_path path name ≠ path.
Proof.
  intros Hn. pose proof (file_name_no_slash _ _ Hn) as [Hs _].
  destruct (normal_suffix name (".tmp." +:+ pretty os_pid)) as [Hnorm Hne].
  { done. }
  { rewrite contains_app. simpl. by apply pretty_N_no_char. }
  { rewrite string_length_app. simpl. lia. }
  unfold tmp_path. pose proof (file_name_join (default "." (parent path)) _ Hnorm) as Hf.
  split; [exact Hf|]. intros Heq. rewrite Heq, Hn in Hf. congruence.
Qed.

Lemma open_new_Ok p mode s u s' :
  open_new p mode s = (Ok u, s') →
  os_fs s !! p = None ∧ os_fs s' !! p = Some (mkFile Regular (masked os_umask mode) "").
Proof.
  unfold open_new, os_call. destruct (os_fault _ _); [done|].
  destruct (create_node _ _ _) as [|[[] fs]] eqn:E; [done|]. intros [= _ <-].
  apply create_node_Ok in E as [Hc ->]. apply creatable_free in Hc as [Hc _].
  split; [done|]. by apply lookup_insert_eq.
Qed.

(** What [write_all] makes of a file just created, whether it succeeds or not. *)
Lemma write_file_fs p bytes s f :
  os_fs s !! p = Some f → f_content f = "" →
  ∃ part, os_fs (write_file p bytes s).2 !! p = Some (mkFile (f_kind f) (f_mode f) part) ∧
    ((write_file p bytes s).1 = Ok tt → part = bytes).
Proof.
  intros Hf Hc. unfold write_file, set_content. destruct (os_fault _ _); simpl;
    rewrite lookup_alter_eq, Hf; simpl; eexists; (split; [reflexivity|]); [done|].
  intros _. unfold overwrite. rewrite Hc. simpl.
  destruct (String.length bytes); by rewrite string_app_nil_r.
Qed.

Lemma rename_always (I : Fs → Prop) p q s :
  always I s →
  (∀ f, os_fs s !! p = Some f → I (<[q := f]> (delete p (os_fs s)))) →
  always I (rename p q s).2.
Proof.
  intros Hs H. unfold rename, os_call. destruct (os_fault _ _); [exact Hs|].
  destruct (os_fs s !! p) as [f|] eqn:E; [|exact Hs].
  destruct (kind_of (os_fs s) q) as [[]|]; try exact Hs;
    (apply Forall_cons; split; [by apply H|exact Hs]).
Qed.

Lemma map_error_state {S E1 E2 A} (f : E1 → E2) (m : ST S E1 A) s :
  (map_error f m s).2 = (m s).2.
Proof. unfold map_error. by destruct (m s) as [[] ?]. Qed.

(** The writing of the endpoint file keeps an invariant of the file system that
    holds of new directories and of changes to its own temporary file, and of the
    final move of that file, whose contents are complete by then. *)
Lemma write_endpoint_always (I : Fs → Prop) path info s :
  dirs_fine I (λ q, String.length q ≤ String.length (default "." (parent path))) →
  (∀ name fs part, file_name path = Some name → I fs →
     I (<[tmp_path path name := mkFile Regular (masked os_umask PRIVATE_MODE) part]> fs)) →
  (∀ name fs f, file_name path = Some name → I fs →
     fs !! tmp_path path name = Some f →
     f = mkFile Regular (masked os_umask PRIVATE_MODE) (json_pretty (endpoint_value info)) →
     I (<[path := f]> (delete (tmp_path path name) fs))) →
  always I s → always I (write_endpoint path info s).2.
Proof.
  intros Hdirs Htmp Hmove Hs. unfold write_endpoint. apply bind_final.
  { unfold anyhow_io. rewrite map_error_state. by apply create_dir_all_kept. }
  intros _ s1 _ Hs1. cbv zeta. unfold mbind at 1, st_bind at 1, lift_res at 1.
  destruct (file_name path) as [name|] eqn:Hname; simpl; [|exact Hs1].
  set (tmp := tmp_path path name) in *. apply bind_final.
  { unfold with_context. rewrite map_error_state. apply open_new_kept; [|exact Hs1].
    intros fs _ Hfs. by apply Htmp. }
  intros u s2 Hopen%map_error_Ok Hs2. apply open_new_Ok in Hopen as [_ Hfile].
  destruct (write_file_fs tmp (json_pretty (endpoint_value info)) s2 _ Hfile eq_refl)
    as (part & Hpart & Hall). apply bind_final.
  { unfold anyhow_io. rewrite map_error_state. unfold write_file in Hpart |- *.
    assert (Hset : ∀ g, always I (put_fs (set_content tmp g (os_fs s2))
      (record_call (OsWrite tmp) s2))).
    { intros g. apply Forall_cons. split; [|exact Hs2].
      rewrite (set_content_eq _ _ _ _ Hfile). apply Htmp; [done|].
      by apply Forall_cons in Hs2 as [? _]. }
    destruct (os_fault _ _); apply Hset. }
  intros [] s3 Hwrite%map_error_Ok Hs3. unfold with_context. rewrite map_error_state.
  rewrite Hwrite in Hpart, Hall. simpl in Hpart, Hall. rewrite Hall in Hpart by done.
  apply rename_always; [exact Hs3|]. intros f Hf. rewrite Hpart in Hf. injection Hf as <-.
  by apply Hmove; [|apply Forall_cons in Hs3 as [? _]|..].
Qed.

(** After a successful write the endpoint file is complete and private. *)
Lemma write_endpoint_file path name info s s' :
  file_name path = Some name → write_endpoint path info s = (Ok tt, s') →
  os_fs s' !! path =
    Some (mkFile Regular (masked os_umask PRIVATE_MODE) (json_pretty (endpoint_value info))).
Proof.
  intros Hname E. unfold write_endpoint in E. rewrite Hname in E.
  apply bind_Ok in E as (u1 & s1 & _ & E). apply bind_Ok in E as (n & s2 & Hn & E).
  apply lift_res_Ok in Hn as [[= <-] <-]. apply bind_Ok in E as (u & s3 & H3%map_error_Ok & E).
  apply open_new_Ok in H3 as [_ H3]. apply bind_Ok in E as ([] & s4 & H4%map_error_Ok & E).
  destruct (write_file_fs _ (json_pretty (endpoint_value info)) _ _ H3 eq_refl)
    as (part & Hpart & Hall).
  rewrite H4 in Hpart, Hall. simpl in Hpart, Hall. rewrite Hall in Hpart by done.
  apply map_error_Ok in E. unfold rename, os_call in E. destruct (os_fault _ _); [done|].
  rewrite Hpart in E. destruct (kind_of (os_fs s4) path) as [[]|]; try done;
    injection E as <-; apply lookup_insert_eq.
Qed.
End facts.

(** ** Properties *)

Section properties.
Context `{PF : Platform, OS : OsLib}.

(** C36: whatever the umask and whichever call fails, in every state another
    process can observe during the write, each regular file either was there
    before, with the same mode and contents, or is readable by its owner alone:
    the token is never exposed. *)
Theorem endpoint_never_exposed path info s fs q f :
  fs ∈ seen (write_endpoint path info s).2 → fs !! q = Some f → f_kind f = Regular →
  (∃ fs0, fs0 ∈ seen s ∧ fs0 !! q = Some f) ∨ exposed f = false.
Proof.
  set (I := λ fs : Fs, ∀ q f, fs !! q = Some f → f_kind f = Regular →
    (∃ fs0, fs0 ∈ seen s ∧ fs0 !! q = Some f) ∨ exposed f = false).
  assert (Hpriv : ∀ part, exposed (mkFile Regular (masked os_umask PRIVATE_MODE) part) = false).
  { intros part. unfold exposed. cbn [f_mode]. by rewrite masked_private. }
  intros Hin Hf Hk. assert (Halways : always I (write_endpoint path info s).2);
    [|eapply (proj1 (Forall_forall I _) Halways fs); done].
  apply write_endpoint_always.
  - intros fs' p m _ _ Hfs q' f' [[_ <-]|[_ Hf']]%lookup_insert_Some; [done|by apply Hfs].
  - intros name fs' part _ Hfs q' f' [[_ <-]|[_ Hf']]%lookup_insert_Some Hk';
      [right; apply Hpriv|]. exact (Hfs q' f' Hf' Hk').
  - intros name fs' g _ Hfs _ -> q' f' [[_ <-]|[_ [_ Hf']%lookup_delete_Some]]%lookup_insert_Some Hk'.
    + right. apply Hpriv.
    + exact (Hfs q' f' Hf' Hk').
  - apply Forall_forall. intros fs0 Hfs0 q' f' Hf' _. left. by exists fs0.
Qed.

(** The endpoint file changes atomically: in every observable state it is
    either what it was in a state before the call or the complete new contents,
    readable by its owner alone; and after a successful call it is the latter. *)
Theorem endpoint_replaced_atomically path name info s :
  file_name path = Some name →
  let new := mkFile Regular (masked os_umask PRIVATE_MODE) (json_pretty (endpoint_value info)) in
  Forall (λ fs : Fs, (∃ fs0, fs0 ∈ seen s ∧ fs !! path = fs0 !! path) ∨ fs !! path = Some new)
    (seen (write_endpoint path info s).2) ∧
  ((write_endpoint path info s).1 = Ok tt →
   os_fs (write_endpoint path info s).2 !! path = Some new).
Proof.
  intros Hname new. pose proof (tmp_path_name _ _ Hname) as [_ Hne]. split.
  - apply write_endpoint_always.
    + intros fs p m Hp _ [(fs0 & Hin & Heq)|Heq]; rewrite lookup_insert_ne; eauto;
        intros ->; destruct (parent path) as [d|] eqn:Hd;
        [apply parent_shorter in Hd; simpl in Hp; lia|by apply file_name_parent in Hname
        |apply parent_shorter in Hd; simpl in Hp; lia|by apply file_name_parent in Hname].
    + intros name' fs part Hname'. rewrite Hname in Hname'. injection Hname' as <-.
      by rewrite lookup_insert_ne.
    + intros name' fs f _ _ _ ->. right. by rewrite lookup_insert_eq.
    + apply Forall_forall. intros fs0 Hin. left. by exists fs0.
  - intros Hok. destruct (write_endpoint path info s) as [r s'] eqn:E. simpl in Hok |- *. subst r.
    by eapply write_endpoint_file.
Qed.
End properties.
