(* ===== verification/PidLock.v ===== *)
(** * Several daemons and one pid file

    [PidLock] of [crates/mail-mcp-daemon/src/lifecycle.rs], across processes. A
    lock belongs to the inode a process opened, not to the path: the steps of
    [acquire] (open, lock) and of [drop] (unlock, remove) of different processes
    interleave, and a process may die at any point, which releases its lock and
    leaves the file. *)
From S2P Require Export Prelude.

Definition Pid : Type := nat.
Definition Inode : Type := nat.

(** Where a process is: in [acquire] after the open, between [acquire] and
    [drop], or in [drop] after the unlock. *)
Inductive Phase : Type :=
| Opened (i : Inode)
| Holding (i : Inode)
| Unlocked (i : Inode).

Record Locks : Type := mkLocks {
  l_name : option Inode;            (* the inode the path names *)
  l_fresh : Inode;                  (* inodes from here on are unused *)
  l_owner : gmap Inode Pid;         (* who has the lock of an inode *)
  l_procs : gmap Pid Phase;
}.

Definition locks_start : Locks := mkLocks None 0 ∅ ∅.

Definition set_procs (ps : gmap Pid Phase) (s : Locks) : Locks :=
  mkLocks (l_name s) (l_fresh s) (l_owner s) ps.

(** The inode [open] gives, and the state it leaves: the file is created when the
    path names none. *)
Definition opened (s : Locks) : Inode * Locks :=
  match l_name s with
  | Some i => (i, s)
  | None => (l_fresh s, mkLocks (Some (l_fresh s)) (S (l_fresh s)) (l_owner s) (l_procs s))
  end.

(** What the kernel does for a process that dies. *)
Definition released (ph : Phase) (s : Locks) : gmap Inode Pid :=
  match ph with Holding i => delete i (l_owner s) | _ => l_owner s end.

Inductive Label : Type := LOpen | LLock | LRefused | LUnlock | LUnlink | LDie.

Inductive lock_step : Label → Pid → Locks → Locks → Prop :=
| step_open p s :
    l_procs s !! p = None →
    lock_step LOpen p s
      (set_procs (<[p := Opened (opened s).1]> (l_procs s)) (opened s).2)
| step_lock p i s :
    l_procs s !! p = Some (Opened i) → l_owner s !! i = None →
    lock_step LLock p s
      (mkLocks (l_name s) (l_fresh s) (<[i := p]> (l_owner s))
         (<[p := Holding i]> (l_procs s)))
| step_refused p i s :
    l_procs s !! p = Some (Opened i) → is_Some (l_owner s !! i) →
    lock_step LRefused p s (set_procs (delete p (l_procs s)) s)
| step_unlock p i s :
    l_procs s !! p = Some (Holding i) →
    lock_step LUnlock p s
      (mkLocks (l_name s) (l_fresh s) (delete i (l_owner s))
         (<[p := Unlocked i]> (l_procs s)))
| step_unlink p i s :
    l_procs s !! p = Some (Unlocked i) →
    lock_step LUnlink p s
      (mkLocks None (l_fresh s) (l_owner s) (delete p (l_procs s)))
| step_die p ph s :
    l_procs s !! p = Some ph →
    lock_step LDie p s
      (mkLocks (l_name s) (l_fresh s) (released ph s) (delete p (l_procs s))).

Definition any_step (s s' : Locks) : Prop := ∃ l p, lock_step l p s s'.

(** A daemon that removes the file is then alone with it. *)
Definition calm_step (s s' : Locks) : Prop :=
  ∃ l p, lock_step l p s s' ∧
    (l = LUnlink → ∀ q ph, l_procs s !! q = Some ph → q = p).

Definition holds (s : Locks) (p : Pid) : Prop := ∃ i, l_procs s !! p = Some (Holding i).

(** ** The invariant of calm runs *)

(** Whoever is acquiring or holding has the inode the path names; the lock table
    records exactly the holders. *)
Record lock_inv (s : Locks) : Prop := {
  li_name p i : l_procs s !! p = Some (Opened i) ∨ l_procs s !! p = Some (Holding i) →
    l_name s = Some i;
  li_owner p i : l_owner s !! i = Some p ↔ l_procs s !! p = Some (Holding i);
}.

Lemma lock_inv_start : lock_inv locks_start.
Proof. split; simpl; [by intros p i [?|?]|done]. Qed.

(** Updating one process, when neither its old nor its new phase is holding. *)
Lemma owner_untouched s p o :
  lock_inv s → (∀ i, l_procs s !! p ≠ Some (Holding i)) → (∀ i, o ≠ Some (Holding i)) →
  ∀ q i, l_owner s !! i = Some q ↔ partial_alter (λ _, o) p (l_procs s) !! q = Some (Holding i).
Proof.
  intros Hinv Hp Ho q i. rewrite (li_owner s Hinv). destruct (decide (p = q)) as [<-|Hne].
  - rewrite lookup_partial_alter_eq. split; intros H; [by apply Hp in H|by apply Ho in H].
  - by rewrite lookup_partial_alter_ne.
Qed.

Section steps.
Context (s : Locks) (Hinv : lock_inv s) (p : Pid).

Lemma open_inv :
  l_procs s !! p = None →
  lock_inv (set_procs (<[p := Opened (opened s).1]> (l_procs s)) (opened s).2).
Proof.
  intros Hp. assert (Hopen : l_name (opened s).2 = Some (opened s).1 ∧
    l_owner (opened s).2 = l_owner s).
  { unfold opened. by destruct (l_name s) eqn:E. }
  destruct Hopen as (Hn & Ho). split; simpl.
  - rewrite Hn. intros q j. destruct (decide (p = q)) as [<-|Hne].
    { rewrite lookup_insert_eq. by intros [[= <-]|[=]]. }
    rewrite lookup_insert_ne by done. intros Hq%(li_name s Hinv). unfold opened. by rewrite Hq.
  - rewrite Ho. apply (owner_untouched s p (Some _)); [done|by rewrite Hp|done].
Qed.

Lemma locked_inv i :
  l_procs s !! p = Some (Opened i) → l_owner s !! i = None →
  lock_inv (mkLocks (l_name s) (l_fresh s) (<[i := p]> (l_owner s))
              (<[p := Holding i]> (l_procs s))).
Proof.
  intros Hp Ho. split; simpl; intros q j; destruct (decide (p = q)) as [<-|Hne].
  - rewrite lookup_insert_eq. intros [[=]|[= <-]]. apply (li_name s Hinv p). by left.
  - rewrite lookup_insert_ne by done. apply (li_name s Hinv).
  - rewrite lookup_insert_eq. destruct (decide (i = j)) as [<-|Hij].
    { by rewrite lookup_insert_eq. }
    rewrite lookup_insert_ne by done. rewrite (li_owner s Hinv), Hp. naive_solver.
  - rewrite (lookup_insert_ne (l_procs s)) by done. destruct (decide (i = j)) as [<-|Hij].
    { rewrite lookup_insert_eq, <- (li_owner s Hinv), Ho. naive_solver. }
    rewrite lookup_insert_ne by done. apply (li_owner s Hinv).
Qed.

(** Nobody else owns what a holder owns. *)
Lemma holder_alone q i j :
  l_procs s !! p = Some (Holding i) → p ≠ q → l_procs s !! q = Some (Holding j) → i ≠ j.
Proof. intros Hp Hne Hq <-. apply (li_owner s Hinv) in Hp, Hq. congruence. Qed.

Lemma unlocked_inv i :
  l_procs s !! p = Some (Holding i) →
  lock_inv (mkLocks (l_name s) (l_fresh s) (delete i (l_owner s))
              (<[p := Unlocked i]> (l_procs s))).
Proof.
  intros Hp. split; simpl; intros q j.
  - destruct (decide (p = q)) as [<-|Hne].
    { rewrite lookup_insert_eq. by intros [[=]|[=]]. }
    rewrite lookup_insert_ne by done. apply (li_name s Hinv).
  - rewrite lookup_delete_Some, (li_owner s Hinv). destruct (decide (p = q)) as [<-|Hne].
    + rewrite lookup_insert_eq, Hp. naive_solver.
    + rewrite lookup_insert_ne by done. split; [by intros [_ ?]|].
      intros Hq. split; [by eapply holder_alone|done].
Qed.

(** A process that leaves without the lock: refused, or after the unlock. *)
Lemma left_inv name :
  (∀ i, l_procs s !! p ≠ Some (Holding i)) →
  (name = l_name s ∨ ∀ q ph, l_procs s !! q = Some ph → q = p) →
  lock_inv (mkLocks name (l_fresh s) (l_owner s) (delete p (l_procs s))).
Proof.
  intros Hp Hname. split; simpl; [|by apply (owner_untouched s p None)].
  intros q j. rewrite !lookup_delete_Some.
  destruct Hname as [->|Hcalm]; intros [[Hne Hq]|[Hne Hq]];
    try (apply (li_name s Hinv q); by auto); by apply Hcalm in Hq.
Qed.

Lemma died_inv ph :
  l_procs s !! p = Some ph →
  lock_inv (mkLocks (l_name s) (l_fresh s) (released ph s) (delete p (l_procs s))).
Proof.
  intros Hp. destruct ph as [i|i|i]; simpl;
    try (apply left_inv; [by rewrite Hp|by left]).
  split; simpl; intros q j.
  - rewrite !lookup_delete_Some. intros [[_ Hq]|[_ Hq]]; apply (li_name s Hinv q); auto.
  - rewrite !lookup_delete_Some, (li_owner s Hinv).
    destruct (decide (p = q)) as [<-|Hne]; [rewrite Hp; naive_solver|].
    split; [by intros [_ ?]|intros [_ Hq]]. split; [by eapply holder_alone|done].
Qed.
End steps.

Lemma calm_preserves s s' : lock_inv s → calm_step s s' → lock_inv s'.
Proof.
  intros Hinv (l & p & Hstep & Hcalm).
  destruct Hstep as [p s Hp|p i s Hp Ho|p i s Hp Ho|p i s Hp|p i s Hp|p ph s Hp].
  - by apply open_inv.
  - by apply locked_inv.
  - apply (left_inv s Hinv); [by rewrite Hp|by left].
  - by apply unlocked_inv.
  - apply (left_inv s Hinv); [by rewrite Hp|right; by apply Hcalm].
  - by apply died_inv.
Qed.

Lemma calm_inv s s' : lock_inv s → rtc calm_step s s' → lock_inv s'.
Proof. intros Hinv H. induction H as [|s s1 s2 H1 _ IH]; [done|]. by eapply IH, calm_preserves. Qed.

(** ** Properties *)

(** C26: one daemon at a time: in every run of any number of processes, with
    deaths at any point, in which a daemon that removes the file on its way out
    is alone with it, at most one process holds the lock. *)
Theorem pid_lock_exclusive s p q :
  rtc calm_step locks_start s → holds s p → holds s q → p = q.
Proof.
  intros H [i Hp] [j Hq]. pose proof (calm_inv _ _ lock_inv_start H) as Hinv.
  assert (Hi := li_name s Hinv p i (or_intror Hp)). assert (Hj := li_name s Hinv q j (or_intror Hq)).
  rewrite Hi in Hj. injection Hj as <-.
  apply (li_owner s Hinv) in Hp, Hq. congruence.
Qed.

(** A daemon that died leaves no obstacle: in every such run, once no process
    holds the lock, a new process that opens the file gets it. *)
Theorem stale_pid_file_acquired s p :
  rtc calm_step locks_start s → (∀ q, ¬ holds s q) → l_procs s !! p = None →
  ∃ s1 s2, lock_step LOpen p s s1 ∧ lock_step LLock p s1 s2 ∧ holds s2 p.
Proof.
  intros H Hfree Hp. pose proof (calm_inv _ _ lock_inv_start H) as Hinv.
  set (s1 := set_procs (<[p := Opened (opened s).1]> (l_procs s)) (opened s).2).
  assert (Hopened : l_procs s1 !! p = Some (Opened (opened s).1)) by apply lookup_insert_eq.
  assert (Hown : l_owner s1 !! (opened s).1 = None).
  { replace (l_owner s1) with (l_owner s) by (unfold s1, opened; by destruct (l_name s)).
    destruct (l_owner s !! (opened s).1) as [q|] eqn:E; [|done].
    apply (li_owner s Hinv) in E. exfalso. apply (Hfree q). by eexists. }
  eexists s1, _. split; [by constructor|]. split; [by apply (step_lock p (opened s).1)|].
  eexists. simpl. apply lookup_insert_eq.
Qed.

(** C27: without that condition the lock can be held twice: [drop] unlocks before
    it removes the file, so a daemon that starts in between locks the file that
    is about to be removed, and the next one creates and locks another. *)
Theorem pid_lock_held_twice : ∃ s p q,
  rtc any_step locks_start s ∧ p ≠ q ∧ holds s p ∧ holds s q.
Proof.
  assert (Hrun : ∃ s, rtc any_step locks_start s ∧
    l_procs s !! 1 = Some (Holding 0) ∧ l_procs s !! 2 = Some (Holding 1)).
  { eexists. split.
    - eapply rtc_l; [by exists LOpen, 0; apply (step_open 0)|].
      eapply rtc_l; [by exists LLock, 0; apply (step_lock 0 0)|].
      eapply rtc_l; [by exists LUnlock, 0; apply (step_unlock 0 0)|].
      eapply rtc_l; [by exists LOpen, 1; apply (step_open 1)|].
      eapply rtc_l; [by exists LLock, 1; apply (step_lock 1 0)|].
      eapply rtc_l; [by exists LUnlink, 0; apply (step_unlink 0 0)|].
      eapply rtc_l; [by exists LOpen, 2; apply (step_open 2)|].
      eapply rtc_l; [by exists LLock, 2; apply (step_lock 2 1)|].
      apply rtc_refl.
    - by split. }
  destruct Hrun as (s & H & H1 & H2). exists s, 1, 2.
  split; [done|]. split; [done|]. split; by eexists.
Qed.
