(* ===== verification/StdioShim.v ===== *)
(** * The stdio shim

    [crates/mail-mcp-stdio/src/main.rs]: the endpoint file is read once, then
    each line of standard input becomes one POST with the bearer token, and each
    answer one line of standard output. *)
From S2P Require Export HttpDoor Lifecycle.

(** [McpEndpointInfo], read back. *)
Definition de_endpoint_info : De McpEndpointInfo := de_struct (λ v,
  url ← field "url" de_string v;
  bearer_token ← field "bearer_token" de_string v;
  stdio_shim_path ← field_option "stdio_shim_path" de_string v;
  Some (mkMcpEndpointInfo url bearer_token stdio_shim_path)).

(** A line of standard input, or the error that ends it. *)
Inductive StdinItem : Type :=
| StdinLine (line : string)
| StdinError (text : string).

(** The HTTP client on a world: the response's status and text, or the text of an
    error of the request or of its body; and the [Display] of a status. *)
Class HttpClient (W : Type) := {
  http_post : string → string → string → ST W string (Z * string);
  status_display : Z → string;
}.

(** [status.is_success()] *)
Definition is_success (status : Z) : bool := ((200 <=? status) && (status <? 300))%Z.

Section shim.
Context `{PF : Platform}.

(** ** Where the daemon is *)

(** The path of the endpoint file: the argument, or that of the user's paths. *)
Definition endpoint_file `{DirsLib} (t : Target) (arg : option string) : Res string string :=
  match arg with
  | Some p => Ok p
  | None =>
      match default_for_user t with
      | Ok paths => Ok (endpoint_json t paths)
      | _ => Err "could not locate endpoint.json"
      end
  end.

(** [serde_json::from_slice(&std::fs::read(..)?)?] *)
Definition read_endpoint `{OsLib} (path : string) : ST Os string McpEndpointInfo :=
  text ← with_context ("reading " +:+ path) (read_file path);
  lift_res (match json_from_str text with
            | inl e => Err e
            | inr v => ok_or (de_endpoint_info v) (de_error "McpEndpointInfo" v)
            end).

(** ** The loop *)

Section loop.
Context {W : Type} {HC : HttpClient W}.

(** Writing a line of standard output may fail. *)
Context (stdout_fault : list string → option string).

(** The world and the lines written, oldest first. *)
Definition SM (A : Type) : Type := ST (W * list string) string A.

(** [writeln!(stdout, ..)?; stdout.flush()?] *)
Definition write_out (line : string) : SM unit := λ s,
  match stdout_fault s.2 with
  | Some e => (Err e, s)
  | None => (Ok tt, (s.1, s.2 ++ [line]))
  end.

(** The JSON-RPC error made of a failed status. *)
Definition synth_error (status : Z) (body : string) : Value :=
  VObject [("error", VObject [("code", VInt (-32099));
             ("message", VString ("daemon http " +:+ status_display status +:+ ": " +:+ body))]);
           ("id", VNull); ("jsonrpc", VString "2.0")].

(** The line written for a response. *)
Definition reply_line (resp : Z * string) : string :=
  let '(status, body) := resp in
  if is_success status then trim_end body else json_to_string (synth_error status body).

(** One turn of the loop of [main]. *)
Definition forward_line (info : McpEndpointInfo) (item : StdinItem) : SM unit :=
  match item with
  | StdinError e => throw e
  | StdinLine line =>
      if String.eqb (trim line) "" then mret tt
      else
        resp ← zoom fst (λ w s, (w, s.2))
                 (http_post (ep_url info) (ep_bearer_token info) line);
        write_out (reply_line resp)
  end.

Definition shim_loop (info : McpEndpointInfo) (stdin : list StdinItem) : SM unit :=
  for_each stdin (forward_line info).
End loop.
End shim.

(** ** The daemon as the shim's world *)

Section daemon.
Context `{PF : Platform, AX : AxumLib}.

(** A request to the daemon's own URL reaches its router; a handler that panics
    or never answers is an error of the request, and so is any other URL. *)
Definition post_to_daemon (state : McpState) (url : string) (lost : string)
    (u token body : string) : ST Context string (Z * string) := λ c,
  if String.eqb u url then
    match route state POST "/mcp" (Some (bearer_header token)) body c with
    | (Ok resp, c') => (Ok resp, c')
    | (_, c') => (Err lost, c')
    end
  else (Err lost, c).

Definition daemon_http (state : McpState) (url lost : string) (display : Z → string) :
    HttpClient Context := {|
  http_post := post_to_daemon state url lost;
  status_display := display;
|}.
End daemon.

(** ** Lemmas *)

Section facts.
Context `{PF : Platform}.

Lemma endpoint_info_read info :
  de_endpoint_info (normalize (endpoint_value info)) = Some info.
Proof. by destruct info as [url token [p|]]. Qed.

Lemma endpoint_printable info : printable json_max_depth (endpoint_value info) = true.
Proof.
  unfold json_max_depth, endpoint_value. rewrite printable_object.
  cbn [forallb fmap list_fmap snd fst].
  rewrite !printable_string. by destruct (ep_stdio_shim_path info) as [p|].
Qed.

(** What a file that holds the endpoint is read as. *)
Lemma read_endpoint_file `{OS : OsLib, SL : !SerdeLaws} path info s f :
  os_fs s !! path = Some f → f_kind f = Regular →
  f_content f = json_pretty (endpoint_value info) →
  os_fault (os_calls s) (OsRead path) = None → path ≠ "/" → path ≠ "." →
  (read_endpoint path s).1 = Ok info.
Proof.
  intros Hf Hk Hc Hfault Hroot Hdot. unfold read_endpoint, with_context, map_error, read_file,
    os_call, mbind, st_bind. rewrite Hfault.
  assert (Hkind : kind_of (os_fs s) path = Some Regular).
  { unfold kind_of. rewrite (proj2 (String.eqb_neq _ _) Hroot), (proj2 (String.eqb_neq _ _) Hdot).
    simpl. by rewrite Hf; simpl; rewrite Hk. }
  rewrite Hkind, Hf. simpl. rewrite Hc, json_pretty_parse by apply endpoint_printable.
  by rewrite endpoint_info_read.
Qed.

Lemma trim_end_text `{SL : !SerdeLaws} v : trim_end (json_to_string v) = json_to_string v.
Proof. apply trim_end_of_trimmed, json_trim. Qed.
End facts.

(** ** Properties *)

Section properties.
Context `{PF : Platform, AX : AxumLib}.

(** What the daemon wrote the shim reads: after a successful [write_endpoint]
    the shim finds the daemon's URL and token in the file. *)
Theorem endpoint_read_back `{OS : OsLib, SL : !SerdeLaws} path name info s s' :
  file_name path = Some name → write_endpoint path info s = (Ok tt, s') →
  os_fault (os_calls s') (OsRead path) = None →
  (read_endpoint path s').1 = Ok info.
Proof.
  intros Hname Hw Hread. pose proof (write_endpoint_file _ _ _ _ _ Hname Hw) as Hfile.
  eapply read_endpoint_file; [exact Hfile|done|done|done|..];
    intros ->; by compute in Hname.
Qed.

(** The answers to the lines of a client, as the reference has them: blank lines
    are none, each other line is posted once, in order, authorised. *)
Fixpoint daemon_answers (state : McpState) (synth : Z * string → string)
    (lines : list string) (c : Context) : option (list string) * Context :=
  match lines with
  | [] => (Some [], c)
  | line :: lines =>
      if String.eqb (trim line) "" then daemon_answers state synth lines c
      else match post_mcp state (Some (bearer_header (bearer_token state))) line c with
           | (Ok resp, c') =>
               let '(out, c'') := daemon_answers state synth lines c' in
               ((λ out, synth resp :: out) <$> out, c'')
           | (_, c') => (None, c')
           end
  end.


(** A line that is a request gets the daemon's JSON-RPC answer, unchanged; one that
    is not gets an error made of axum's rejection. *)
Theorem shim_reply `{SL : !SerdeLaws, AL : !AxumLaws} state info lost display line req c r c' :
  Forall (λ a, between 32 126 a = true) (chars (bearer_token state)) →
  HeaderLaws →
  parse_rpc line = Some req →
  handle_post state (Some (bearer_header (bearer_token state))) req c = (Ok r, c') →
  let hc := daemon_http state (ep_url info) lost display in
  post_mcp state (Some (bearer_header (bearer_token state))) line c =
    (Ok (STATUS_OK, json_to_string r.2), c') ∧
  reply_line (HC := hc) (STATUS_OK, json_to_string r.2) = json_to_string r.2.
Proof.
  intros Htok HL Hreq Hpost hc.
  pose proof (post_status _ _ _ _ _ _ (bearer_accepted _ Htok) Hpost) as Hs.
  split; [|simpl; apply trim_end_text]. unfold post_mcp. rewrite Hreq.
  unfold mbind, st_bind. rewrite Hpost. destruct r as [status v]. simpl in Hs. by subst.
Qed.
End properties.
