(* ===== verification/Transport.v ===== *)
(** * The IPC transport

    [crates/mail-mcp-core/src/ipc/transport.rs]: the listening socket on Unix,
    whose file other processes see appear, and the named pipe on Windows, whose
    instances the operating system hands out. *)
From S2P Require Export Paths.

(** ** Unix: a socket file *)

Module Unix.
Section unix.
Context `{OS : OsLib}.

(** [0o700] and [0o600] *)
Definition DIR_MODE : Z := 448.
Definition SOCKET_MODE : Z := 384.

(** [IpcListener::bind]: a failed tightening of a mode is not an error. *)
Definition bind (path : string) : FM unit :=
  _ ← match parent path with
      | Some d =>
          _ ← create_dir_all d;
          ignore (set_permissions d DIR_MODE)
      | None => mret tt
      end;
  stale ← path_exists path;
  _ ← (if stale : bool then remove_file path else mret tt);
  _ ← listen path;
  ignore (set_permissions path SOCKET_MODE).
End unix.
End Unix.

(** ** Windows: instances of a named pipe *)

Module Windows.

(** [ERROR_PIPE_BUSY] *)
Definition PIPE_BUSY : Z := 231.
Definition CONNECT_TRIES : nat := 50.
(** Milliseconds between two tries. *)
Definition RETRY_DELAY : Z := 20.

(** An attempt to open the client's end: a client, or the error's code, if it
    has one, and text. *)
Definition Attempt : Type := (option Z * string) + nat.

(** The loop of [IpcStream::connect] over the answers of the system: the result
    and the milliseconds slept. *)
Fixpoint connect_from (tries : nat) (slept : Z) (answers : nat → Attempt) (k : nat) :
    (string + nat) * Z :=
  match tries with
  | 0 => (inl "named pipe busy after retries", slept)
  | S tries =>
      match answers k with
      | inr client => (inr client, slept)
      | inl (code, text) =>
          if bool_decide (code = Some PIPE_BUSY)
          then connect_from tries (slept + RETRY_DELAY)%Z answers (S k)
          else (inl text, slept)
      end
  end.

(** [IpcStream::connect] *)
Definition connect (answers : nat → Attempt) : (string + nat) * Z :=
  connect_from CONNECT_TRIES 0 answers 0.

(** [IpcListener]: the instance created ahead, if any; [pw_live] are the instances
    the system keeps, oldest first. *)
Record PipeWorld : Type := mkPipeWorld {
  pw_next : option nat;
  pw_live : list nat;
  pw_made : nat;
}.

Definition PM (A : Type) : Type := ST PipeWorld string A.

(** [ServerOptions::create]: the environment may refuse. *)
Definition create_instance (refused : option string) : PM nat := λ w,
  match refused with
  | Some text => (Err text, w)
  | None =>
      (Ok (pw_made w),
       mkPipeWorld (pw_next w) (pw_live w ++ [pw_made w]) (S (pw_made w)))
  end.

Definition set_next (n : option nat) (w : PipeWorld) : PipeWorld :=
  mkPipeWorld n (pw_live w) (pw_made w).

(** An instance that is dropped is closed. *)
Definition close_instance (i : nat) (w : PipeWorld) : PipeWorld :=
  mkPipeWorld (pw_next w) (filter (λ j, j ≠ i) (pw_live w)) (pw_made w).

(** [IpcListener::bind] *)
Definition bind (refused : option string) : PM unit :=
  first ← create_instance refused;
  modify (set_next (Some first)).

(** [IpcListener::accept]: [refused] and [failed] are the system's answers to the
    creation of the next instance and to the wait. *)
Definition accept (refused failed : option string) : PM nat :=
  taken ← gets pw_next;
  server ← lift_res (ok_or taken "listener instance missing");
  _ ← modify (set_next None);
  next ← catch (create_instance refused);
  match next with
  | inl e => _ ← modify (close_instance server); throw e
  | inr i =>
      _ ← modify (set_next (Some i));
      match failed with
      | Some e => _ ← modify (close_instance server); throw e
      | None => mret server
      end
  end.
End Windows.

(** ** Properties of the Unix socket *)

Section unix.
Context `{OS : OsLib}.
Import Unix.

(** A directory closed to other users. *)
Definition closed_dir (d : string) (fs : Fs) : Prop :=
  ∃ g, fs !! d = Some g ∧ exposed g = false.

Lemma closed_dir_insert d p f fs :
  d ≠ p → closed_dir d fs → closed_dir d (<[p := f]> fs).
Proof. intros Hne (g & ? & ?). exists g. by rewrite lookup_insert_ne. Qed.

(** Once the directory is closed, the rest of [bind] leaves it so. *)
Lemma after_private path d (I : Fs → Prop) :
  d ≠ path → (∀ fs, closed_dir d fs → I fs) →
  within (keeps (λ s, always I s ∧ closed_dir d (os_fs s)))
    (stale ← path_exists path;
     _ ← (if stale : bool then remove_file path else mret tt);
     _ ← listen path;
     ignore (set_permissions path SOCKET_MODE)).
Proof.
  intros Hne HIJ.
  assert (remove : within (keeps (λ s, always I s ∧ closed_dir d (os_fs s))) (remove_file path)).
  { apply os_call_kept_now; [done|]. intros fs a fs' (g & ? & ?).
    destruct (kind_of fs path) as [[]|]; try done; intros [= _ <-]; exists g;
      by rewrite lookup_delete_ne. }
  assert (appear : within (keeps (λ s, always I s ∧ closed_dir d (os_fs s))) (listen path)).
  { apply os_call_kept_now; [done|]. intros fs a fs' Hj.
    destruct (create_node _ _ fs) as [[]|] eqn:E; try done. intros [= ->].
    apply create_node_Ok in E as [_ ->]. by apply closed_dir_insert. }
  assert (tighten : within (keeps (λ s, always I s ∧ closed_dir d (os_fs s)))
    (set_permissions path SOCKET_MODE)).
  { apply os_call_kept_now; [done|]. intros fs a fs' Hj.
    destruct (fs !! path); [|done]. intros [= _ <-]. by apply closed_dir_insert. }
  unfold path_exists. frame.
Qed.


(** A successful [bind] leaves a fresh socket under the path. *)
Theorem bind_listens path s s' :
  bind path s = (Ok tt, s') → f_kind <$> os_fs s' !! path = Some Socket.
Proof.
  intros H. unfold bind in H. apply bind_Ok in H as (_ & s1 & _ & H).
  apply bind_Ok in H as (stale & s2 & _ & H). apply bind_Ok in H as (_ & s3 & _ & H).
  apply bind_Ok in H as ([] & s4 & Hl & H).
  assert (H4 : f_kind <$> os_fs s4 !! path = Some Socket).
  { unfold listen, os_call in Hl. destruct (os_fault _ _); [done|].
    destruct (create_node _ _ _) as [[]|[[] fs]] eqn:E; try done. injection Hl as <-.
    apply create_node_Ok in E as [_ ->]. simpl. by rewrite lookup_insert_eq. }
  unfold ignore, set_permissions, os_call in H. destruct (os_fault _ _); [by injection H as <-|].
  destruct (os_fs s4 !! path) as [f|] eqn:E; [|by injection H as <-].
  injection H as <-. simpl. rewrite lookup_insert_eq. exact H4.
Qed.
End unix.

(** ** Properties of the named pipe *)

Section windows.
Import Windows.

Lemma connect_from_spec tries slept answers k :
  let '(r, total) := connect_from tries slept answers k in
  (slept ≤ total ≤ slept + RETRY_DELAY * Z.of_nat tries)%Z ∧
  match r with
  | inr client => ∃ n, n < tries ∧ answers (k + n) = inr client ∧
      total = (slept + RETRY_DELAY * Z.of_nat n)%Z ∧
      ∀ m, m < n → ∃ text, answers (k + m) = inl (Some PIPE_BUSY, text)
  | inl text =>
      (∃ n code, n < tries ∧ answers (k + n) = inl (code, text) ∧ code ≠ Some PIPE_BUSY ∧
         ∀ m, m < n → ∃ t, answers (k + m) = inl (Some PIPE_BUSY, t)) ∨
      (text = "named pipe busy after retries" ∧
       ∀ m, m < tries → ∃ t, answers (k + m) = inl (Some PIPE_BUSY, t))
  end.
Proof.
  unfold RETRY_DELAY. revert slept k. induction tries as [|tries IH]; intros slept k; simpl.
  { split; [lia|]. right. split; [done|]. lia. }
  destruct (answers k) as [[code text]|client] eqn:E.
  - destruct (bool_decide (code = Some PIPE_BUSY)) eqn:Hb.
    + apply bool_decide_eq_true in Hb as ->. unfold RETRY_DELAY. specialize (IH (slept + 20)%Z (S k)).
      assert (Hm : ∀ n, (∀ m, m < n → ∃ t, answers (S k + m) = inl (Some PIPE_BUSY, t)) →
        ∀ m, m < S n → ∃ t, answers (k + m) = inl (Some PIPE_BUSY, t)).
      { intros n H [|m] Hm; [rewrite Nat.add_0_r; by eexists|].
        rewrite Nat.add_succ_r. apply H. lia. }
      destruct (connect_from tries _ answers (S k)) as [[text'|client] total];
        destruct IH as [Hlen IH]; (split; [lia|]).
      * destruct IH as [(n & code & ? & H1 & ? & H2)|[-> H]]; [left|right].
        { exists (S n), code. rewrite Nat.add_succ_r. split_and!; [lia|done|done|by apply Hm]. }
        split; [done|]. by apply Hm.
      * destruct IH as (n & ? & H1 & -> & H2). exists (S n). rewrite Nat.add_succ_r.
        split_and!; [lia|done|lia|by apply Hm].
    + apply bool_decide_eq_false in Hb. split; [lia|]. left. exists 0, code.
      rewrite Nat.add_0_r. split_and!; [lia|done|done|lia].
  - split; [lia|]. exists 0. rewrite Nat.add_0_r. split_and!; [lia|done|lia|lia].
Qed.

(** Connecting to a busy pipe ends: at most 50 attempts and one second of
    sleep; the answer is that of the first attempt that was not refused as busy,
    and an error when all were. *)
Theorem connect_bounded answers r total :
  connect answers = (r, total) →
  (0 ≤ total ≤ 1000)%Z ∧
  match r with
  | inr client => ∃ n, n < CONNECT_TRIES ∧ answers n = inr client ∧
      total = (RETRY_DELAY * Z.of_nat n)%Z ∧
      ∀ m, m < n → ∃ text, answers m = inl (Some PIPE_BUSY, text)
  | inl text =>
      (∃ n code, n < CONNECT_TRIES ∧ answers n = inl (code, text) ∧ code ≠ Some PIPE_BUSY ∧
         ∀ m, m < n → ∃ t, answers m = inl (Some PIPE_BUSY, t)) ∨
      (text = "named pipe busy after retries" ∧
       ∀ m, m < CONNECT_TRIES → ∃ t, answers m = inl (Some PIPE_BUSY, t))
  end.
Proof.
  intros H. pose proof (connect_from_spec CONNECT_TRIES 0 answers 0) as Hs.
  unfold connect in H. rewrite H in Hs. destruct Hs as [Hb Hs].
  split; [unfold RETRY_DELAY, CONNECT_TRIES in Hb; lia|exact Hs].
Qed.

(** The listener always has an instance ready: [bind] makes one, and an accepted
    connection leaves a fresh one, so a client that connects between two accepts
    finds the pipe. *)
Definition armed (w : PipeWorld) : Prop :=
  ∃ i, pw_next w = Some i ∧ i ∈ pw_live w ∧ i < pw_made w.

Lemma bind_arms refused w w' : bind refused w = (Ok tt, w') → armed w'.
Proof.
  unfold bind, create_instance, mbind, st_bind, modify. destruct refused; [done|].
  intros [= <-]. exists (pw_made w). simpl. split_and!; [done| |lia].
  apply elem_of_app. right. by apply list_elem_of_singleton.
Qed.

(** Whatever the outcome of the wait, an accept that could create its next
    instance leaves the listener armed with an instance of its own; a connection
    it answers is the instance that was ready; and once a creation was refused,
    every later accept fails. *)
Theorem accept_rearms refused failed w :
  armed w → (∀ i, i ∈ pw_live w → i < pw_made w) →
  let '(r, w') := accept refused failed w in
  (refused = None → armed w' ∧ pw_next w' ≠ pw_next w) ∧
  (∀ server, r = Ok server → pw_next w = Some server ∧ server ∈ pw_live w') ∧
  (refused ≠ None → ∀ refused' failed',
     (accept refused' failed' w').1 = Err "listener instance missing").
Proof.
  intros (i & Hn & Hlive & Hlt) Hall.
  unfold accept, create_instance, mbind, st_bind, gets, lift_res, modify, throw, catch. rewrite Hn.
  simpl. destruct refused as [text|]; simpl; [split_and!; [done|done|done]|].
  assert (Harmed : ∀ live, pw_made w ∈ live →
    armed (mkPipeWorld (Some (pw_made w)) live (S (pw_made w)))).
  { intros live Hin. exists (pw_made w). simpl. split_and!; [done|done|lia]. }
  assert (Hin : pw_made w ∈ pw_live w ++ [pw_made w]).
  { apply elem_of_app. right. by apply list_elem_of_singleton. }
  destruct failed as [text|]; simpl; (split_and!; [intros _; split|intros server|done]).
  - apply Harmed. apply list_elem_of_filter. split; [simpl; lia|done].
  - rewrite ?Hn. intros [= Heq]. lia.
  - done.
  - by apply Harmed.
  - rewrite ?Hn. intros [= Heq]. lia.
  - intros [= <-]. split; [done|]. apply elem_of_app. by left.
Qed.
End windows.
