(* ===== verification/Startup.v ===== *)
(** * Starting the daemon

    [crates/mail-mcp-daemon/src/main.rs] and [Storage::open]: the directories, the
    lock, the database, the providers of the known accounts, the bearer token, the
    two servers and the endpoint file, in the order of the code. *)
From S2P Require Export StdioShim Transport Daemon.

(** What the start relies on: sqlx (its reading of a URL, the connection, which
    creates a missing file, and its migrator), the builder of reqwest's client,
    and the TCP listener, with the address it reports. *)
Class StartLib := {
  sqlite_url_error : string → option string;
  sqlite_connect : string → string + Db;
  migrate_error : Db → option string;
  http_build_error : option string;
  tcp_bind : string → string + string;
  package_version : string;
}.

(** SQLite keeps the constraints of a database it has written; a new one is empty. *)
Class StartLaws `{StartLib} : Prop := {
  connect_wf url db : sqlite_connect url = inr db → db_wf db;
}.

(** [Args] *)
Record Args : Type := mkArgs {
  arg_root : option string;
  arg_google_client_id : string;
  arg_http_port : option Z;
  arg_stdio_shim_path : option string;
}.

Section start.
Context `{PF : Platform, OS : OsLib, DL : DirsLib, SL : StartLib} (t : Target).

(** The process as it starts: the file system, and the state its parts share. *)
Record Boot : Type := mkBoot { bt_os : Os; bt_ctx : Context }.

Definition set_bt_os (s : Os) (b : Boot) : Boot := mkBoot s (bt_ctx b).
Definition set_bt_ctx (c : Context) (b : Boot) : Boot := mkBoot (bt_os b) c.

(** Nothing registered, nothing pending; the database is empty until it is opened. *)
Definition boot (os : Os) (keychain : kr_store) (h : History) (sc : Script) : Boot :=
  mkBoot os (mkContext (mkDesk (mkSys empty_db keychain [] h) queue_new ∅ sc) ∅ false).

(** [anyhow::Result] again, over the whole process. *)
Definition BM (A : Type) : Type := ST Boot string A.

Definition on_os {A} (m : AM A) : BM A := zoom bt_os set_bt_os m.
Definition on_ctx {A} (m : CM A) : BM A := map_error error_to_string (zoom bt_ctx set_bt_ctx m).

Definition core {A} (m : ST Os Error A) : AM A := map_error error_to_string m.

Definition put_db (db : Db) (c : Context) : Context :=
  set_desk (set_dk_sys (set_db db (dk_sys (cx_desk c))) (cx_desk c)) c.

(** [Storage::open] *)
Definition storage_open (path : string) : BM unit :=
  _ ← match parent path with
      | Some d => on_os (core (core_io (create_dir_all d)))
      | None => mret tt
      end;
  let url := "sqlite://" +:+ path in
  _ ← match sqlite_url_error url with
      | Some e => throw (error_to_string (Config ("bad sqlite url: " +:+ e)))
      | None => mret tt
      end;
  match sqlite_connect url with
  | inl e => throw (error_to_string (Storage e))
  | inr db =>
      _ ← match migrate_error db with
          | Some e => throw (error_to_string (Config ("migrate: " +:+ e)))
          | None => mret tt
          end;
      modify (λ b, set_bt_ctx (put_db db (bt_ctx b)) b)
  end.

(** What [main] holds when it starts to wait. *)
Record Started : Type := mkStarted {
  sd_paths : Paths;
  sd_mcp : McpState;
  sd_hc : HandlerConfig;
}.

(** [main] between the lock and the servers. *)
Definition wire (args : Args) (paths : Paths) : BM Started :=
  _ ← storage_open (state_db t paths);
  _ ← match http_build_error with Some e => throw e | None => mret tt end;
  let cfg := google_config (arg_google_client_id args) in
  _ ← on_ctx (hydrate_providers cfg);
  token ← on_ctx (at_sys fresh_bearer_token);
  let info := mkServerInfo "mail-mcp" package_version in
  let state := mkMcpState token info in
  addr ← match tcp_bind (match arg_http_port args with
                         | Some p => "127.0.0.1:" +:+ pretty p
                         | None => "127.0.0.1:0"
                         end) with
         | inl e => throw e
         | inr addr => mret addr
         end;
  let endpoint := mkMcpEndpointInfo (endpoint_url addr) token (arg_stdio_shim_path args) in
  _ ← on_os (write_endpoint (endpoint_json t paths) endpoint);
  now ← on_ctx (at_sys utc_now);
  mret (mkStarted paths state (mkHandlerConfig package_version now endpoint cfg)).

(** A value with a destructor: it runs on every way out that is no success. *)
Definition or_drop {A} (m : BM A) (drop : BM unit) : BM A := λ b,
  match m b with
  | (Ok a, b') => (Ok a, b')
  | (r, b') => (r, (drop b').2)
  end.

(** [main], up to the wait for a signal. *)
Definition start (args : Args) : BM Started :=
  paths ← lift_res (match arg_root args with
                    | Some r => Ok (with_root t r)
                    | None =>
                        match default_for_user t with
                        | Ok p => Ok p
                        | Err e => Err (error_to_string e)
                        | Panic => Panic
                        | Hang => Hang
                        end
                    end);
  _ ← on_os (core (ensure_dirs t paths));
  _ ← on_os (anyhow_io (create_dir_all (logs_dir paths)));
  _ ← on_os (acquire (pid_file t paths));
  or_drop (wire args paths) (on_os (release (pid_file t paths))).

(** The task of the IPC server on Unix: a failure to bind is only logged. *)
Definition ipc_task (sd : Started) : BM unit :=
  ignore (on_os (anyhow_io (Unix.bind (ipc_socket t (sd_paths sd))))).

(** The end of [main]: the tasks are aborted, [_pid] is dropped. *)
Definition shutdown (sd : Started) : BM unit := on_os (release (pid_file t (sd_paths sd))).

(** The path arguments of a run. *)
Definition paths_of (args : Args) : option Paths :=
  match arg_root args with
  | Some r => Some (with_root t r)
  | None => match default_for_user t with Ok p => Some p | _ => None end
  end.

(** The handler's state: no authorization is pending, nothing was broadcast. *)
Definition daemon_of (b : Boot) : Daemon := mkDaemon (bt_ctx b) ∅ [].
End start.

(** ** Lemmas *)

Section facts.
Context `{PF : Platform, OS : OsLib, DL : DirsLib, SL : StartLib} (t : Target).

Lemma on_os_Ok {A} (m : AM A) b a b' :
  on_os m b = (Ok a, b') → m (bt_os b) = (Ok a, bt_os b') ∧ bt_ctx b' = bt_ctx b.
Proof. unfold on_os, zoom. destruct (m (bt_os b)) as [r s]. by intros [= -> <-]. Qed.

Lemma on_ctx_Ok {A} (m : CM A) b a b' :
  on_ctx m b = (Ok a, b') → m (bt_ctx b) = (Ok a, bt_ctx b') ∧ bt_os b' = bt_os b.
Proof.
  unfold on_ctx, zoom. intros E%map_error_Ok. destruct (m (bt_ctx b)) as [r s].
  by injection E as -> <-.
Qed.

(** The part of the context that is no provider and no shared state. *)
Definition quarters (c : Context) : Queue * gmap (AccountId * Category) bool * Script * bool :=
  (dk_queue (cx_desk c), dk_trust (cx_desk c), dk_script (cx_desk c), cx_paused c).

Lemma at_sys_quarters {A} (m : M A) : within (same quarters) (at_sys m).
Proof. intros c. by rewrite at_sys_run. Qed.

Lemma hydrate_quarters cfg : within (same quarters) (hydrate_providers cfg).
Proof.
  pose proof (@at_sys_quarters) as Hs. unfold hydrate_providers.
  apply within_bind; [apply _|apply Hs|intros accs].
  apply within_for_each; [apply _|intros acc].
  apply within_bind; [apply _|apply Hs|intros [rt|]]; [|apply within_ret, _].
  apply within_bind; [apply _|apply Hs|intros now].
  apply within_bind; [apply _|apply Hs|intros client].
  by apply within_modify.
Qed.

Lemma storage_open_Ok path b u b' :
  storage_open path b = (Ok u, b') →
  ∃ db, sqlite_connect ("sqlite://" +:+ path) = inr db ∧ bt_ctx b' = put_db db (bt_ctx b).
Proof.
  unfold storage_open. intros (u1 & b1 & H1 & H)%bind_Ok.
  assert (Hc1 : bt_ctx b1 = bt_ctx b).
  { destruct (parent path); [by apply on_os_Ok in H1 as [_ ?]|by apply ret_Ok in H1 as [_ <-]]. }
  apply bind_Ok in H as (u2 & b2 & H2 & H).
  destruct (sqlite_url_error _); [done|]. apply ret_Ok in H2 as [_ <-].
  destruct (sqlite_connect _) as [e|db]; [done|]. apply bind_Ok in H as (u3 & b3 & H3 & H).
  destruct (migrate_error db); [done|]. apply ret_Ok in H3 as [_ <-].
  exists db. split; [done|]. injection H as _ <-. simpl. by rewrite Hc1.
Qed.

(** A successful start, step by step. *)
Lemma start_Ok args b sd b' :
  start t args b = (Ok sd, b') →
  ∃ paths c1 db addr s s' now,
    paths_of t args = Some paths ∧ sd_paths sd = paths ∧
    sqlite_connect ("sqlite://" +:+ state_db t paths) = inr db ∧
    hydrate_providers (google_config (arg_google_client_id args)) (put_db db (bt_ctx b)) =
      (Ok tt, c1) ∧
    bearer_token (sd_mcp sd) =
      b64url_encode (random_bytes_at (sys_hist (cx_sys c1)) 32) ∧
    sd_hc sd = mkHandlerConfig package_version now
      (mkMcpEndpointInfo (endpoint_url addr) (bearer_token (sd_mcp sd))
         (arg_stdio_shim_path args)) (google_config (arg_google_client_id args)) ∧
    write_endpoint (endpoint_json t paths) (hc_mcp_endpoint (sd_hc sd)) s = (Ok tt, s') ∧
    bt_os b' = s' ∧ bt_ctx b' = (at_sys utc_now (at_sys fresh_bearer_token c1).2).2.
Proof.
  unfold start. intros (paths & b0 & [Hp <-]%lift_res_Ok & H)%bind_Ok.
  apply bind_Ok in H as (u1 & b1 & [_ H1]%on_os_Ok & H).
  apply bind_Ok in H as (u2 & b2 & [_ H2]%on_os_Ok & H).
  apply bind_Ok in H as (u3 & b3 & [_ H3]%on_os_Ok & H).
  unfold or_drop in H. destruct (wire t args paths b3) as [[sd'|e| |] b4] eqn:E; try done.
  injection H as -> ->. unfold wire in E.
  apply bind_Ok in E as (u4 & b4 & (db & Hdb & H4)%storage_open_Ok & E).
  apply bind_Ok in E as (u5 & b5 & H5 & E).
  assert (b5 = b4) as -> by (destruct http_build_error; [done|by apply ret_Ok in H5 as [_ <-]]).
  apply bind_Ok in E as ([] & b6 & [H6 _]%on_ctx_Ok & E).
  apply bind_Ok in E as (token & b7 & [H7 _]%on_ctx_Ok & E).
  apply bind_Ok in E as (addr & b8 & H8 & E).
  assert (b8 = b7) as ->
    by (destruct (tcp_bind _) as [e|a]; [done|by apply ret_Ok in H8 as [_ <-]]).
  apply bind_Ok in E as ([] & b9 & [H9 H9c]%on_os_Ok & E).
  apply bind_Ok in E as (now & b10 & [H10 H10o]%on_ctx_Ok & E).
  apply ret_Ok in E as [<- <-]. cbn [sd_paths sd_mcp sd_hc bearer_token hc_mcp_endpoint].
  exists paths, (bt_ctx b6), db, addr, (bt_os b7), (bt_os b9), now.
  assert (H7s : (at_sys fresh_bearer_token (bt_ctx b6)).2 = bt_ctx b7) by (by rewrite H7).
  rewrite at_sys_run in H7. injection H7 as <- _.
  split_and!; try done.
  - unfold paths_of. destruct (arg_root args); [by injection Hp as <-|].
    by destruct (default_for_user t); inversion Hp; subst.
  - rewrite <- H6. by rewrite H4, H3, H2, H1.
  - rewrite H7s, <- H9c. by rewrite H10.
Qed.
End facts.

(** ** A start beside a running daemon *)

Section beside.
Context `{PF : Platform, OS : OsLib, DL : DirsLib, SL : StartLib} (t : Target).

(** A regular file with these contents. *)
Definition holds_text (q text : string) (fs : Fs) : Prop :=
  ∃ f, fs !! q = Some f ∧ f_kind f = Regular ∧ f_content f = text.

Definition both_hold (q1 x1 q2 x2 : string) (fs : Fs) : Prop :=
  holds_text q1 x1 fs ∧ holds_text q2 x2 fs.

Lemma holds_text_fresh q text p f fs :
  fs !! p = None → holds_text q text fs → holds_text q text (<[p := f]> fs).
Proof.
  intros Hp (g & Hg & ?). exists g. rewrite lookup_insert_ne; [done|]. intros ->. congruence.
Qed.

Lemma holds_text_mode q text p f mode fs :
  fs !! p = Some f → holds_text q text fs →
  holds_text q text (<[p := mkFile (f_kind f) mode (f_content f)]> fs).
Proof.
  intros Hp (g & Hg & ?). destruct (decide (p = q)) as [->|Hne].
  - rewrite Hp in Hg. injection Hg as ->. eexists. by rewrite lookup_insert_eq.
  - exists g. by rewrite lookup_insert_ne.
Qed.

Context (q1 x1 q2 x2 : string).
Abbreviation I := (both_hold q1 x1 q2 x2).

Lemma both_create_dir_all p : kept I (create_dir_all p).
Proof.
  apply create_dir_all_kept. intros fs p' m _ Hp [H1 H2].
  by split; apply holds_text_fresh.
Qed.

Lemma both_chmod p mode : kept I (set_permissions p mode).
Proof. apply chmod_kept. intros fs f Hf [H1 H2]. by split; apply holds_text_mode. Qed.

Lemma both_open_create p : kept I (open_create p).
Proof.
  apply os_call_kept. intros fs a fs' [H1 H2].
  destruct (kind_of fs p) as [[]|] eqn:E; try done; [by intros [= _ <-]|].
  intros (Hc & ->)%create_node_Ok. apply creatable_free in Hc as [Hc _].
  by split; apply holds_text_fresh.
Qed.

Lemma both_ensure_dirs p : kept I (ensure_dirs t p).
Proof.
  pose proof both_create_dir_all as Hd. pose proof both_chmod as Hc.
  assert (Hio : ∀ A (m : FM A), kept I m → kept I (core_io m)) by (intros; by apply within_map_error).
  unfold ensure_dirs, kept. repeat (apply within_bind; [apply _|by apply Hio, Hd|intros _]).
  destruct t; [..|by apply within_ret, _];
    (apply within_bind; [apply _|by apply Hio, Hc|intros _]); by apply Hio, Hc.
Qed.

(** A refused lock ends [acquire] before it changes anything. *)
Lemma acquire_refused path :
  (∀ calls, is_Some (os_fault calls (OsLock path))) →
  kept I (acquire path) ∧ ∀ s u s', acquire path s ≠ (Ok u, s').
Proof.
  intros Hlock.
  assert (Hlast : ∀ s, ∃ e s', try_lock path s = (Err e, s') ∧ seen s' = seen s).
  { intros s. unfold try_lock, os_call. destruct (Hlock (os_calls s)) as [e ->].
    by exists e, (record_call (OsLock path) s). }
  split.
  - unfold acquire. apply within_bind; [apply _| |intros _].
    { destruct (parent path); [|by apply within_ret, _].
      apply within_ignore, within_map_error, both_create_dir_all. }
    apply within_bind; [apply _|by apply within_with_context, both_open_create|intros _].
    intros s Hs. destruct (Hlast s) as (e & s' & H & Heq).
    unfold mbind, st_bind, with_context, map_error. rewrite H. simpl.
    unfold always. by rewrite Heq.
  - intros s u s' H. unfold acquire in H. apply bind_Ok in H as (u1 & s1 & _ & H).
    apply bind_Ok in H as (u2 & s2 & _ & H). apply bind_Ok in H as (u3 & s3 & H%map_error_Ok & _).
    destruct (Hlast s2) as (e & s4 & H' & _). congruence.
Qed.

Lemma on_os_always {A} (m : AM A) b :
  kept I m → always I (bt_os b) → always I (bt_os (on_os m b).2).
Proof.
  intros Hm Hb. unfold on_os, zoom. specialize (Hm (bt_os b) Hb).
  by destruct (m (bt_os b)).
Qed.
End beside.

(** ** Properties *)

Section properties.
Context `{PF : Platform, OS : OsLib, DL : DirsLib, SL : StartLib} (t : Target).

(** C21: a started daemon is consistent with itself. Its state is well-formed, with
    no pending approval, no session trust and no pause; and the endpoint file is
    complete, closed to other users, and read by the stdio shim as exactly the
    endpoint the IPC handler reports, whose token opens the HTTP door. *)
Theorem startup_consistent
    `{STL : !StartLaws, SEL : !SerdeLaws, CL : !CodecLaws, HL : !HeaderLaws}
    args os keychain h sc sd b' :
  t ≠ Windows →
  start t args (boot os keychain h sc) = (Ok sd, b') →
  let path := endpoint_json t (sd_paths sd) in
  let endpoint := hc_mcp_endpoint (sd_hc sd) in
  daemon_wf (daemon_of b') ∧ quarters (bt_ctx b') = (queue_new, ∅, sc, false) ∧
  (∃ f, os_fs (bt_os b') !! path = Some f ∧ exposed f = false) ∧
  (os_fault (os_calls (bt_os b')) (OsRead path) = None →
   (read_endpoint path (bt_os b')).1 = Ok endpoint) ∧
  check_auth (Some (bearer_header (ep_bearer_token endpoint))) (bearer_token (sd_mcp sd)) = true.
Proof.
  intros Ht H. apply start_Ok in H as
    (paths & c1 & db & addr & s & s' & now & Hp & Hsp & Hdb & Hh & Htok & Hhc & Hw & Ho & Hc).
  cbv zeta. rewrite Hsp.
  assert (Hname : file_name (endpoint_json t paths) = Some "endpoint.json").
  { unfold endpoint_json, join_on. destruct t; [| |done]; by apply file_name_join. }
  pose proof (write_endpoint_file _ _ _ _ _ Hname Hw) as Hfile. rewrite Ho.
  assert (Hwf : ctx_wf c1 ∧ quarters c1 = (queue_new, ∅, sc, false)).
  { pose proof (hydrate_wf (google_config (arg_google_client_id args))
      (put_db db (bt_ctx (boot os keychain h sc)))) as H1.
    pose proof (hydrate_quarters (google_config (arg_google_client_id args))
      (put_db db (bt_ctx (boot os keychain h sc)))) as H2.
    rewrite Hh in H1, H2. split; [apply H1|exact H2]. split; simpl.
    - by eapply connect_wf.
    - apply queue_inv_new.
    - intros *. by rewrite lookup_empty. }
  destruct Hwf as [Hwf Hq]. split_and!.
  - split; simpl; [|intros *; by rewrite lookup_empty]. rewrite Hc.
    apply (at_sys_wf_same utc_now); [by frame|].
    by apply (at_sys_wf_same fresh_bearer_token); [|done].
  - rewrite Hc, <- Hq. by rewrite !at_sys_run.
  - eexists. split; [exact Hfile|]. unfold exposed. cbn [f_mode]. by rewrite masked_private.
  - intros Hread. by eapply read_endpoint_file;
      [exact Hfile|..|exact Hread|intros Hn|intros Hn]; try done; rewrite Hn in Hname.
  - rewrite Hhc at 1. cbn [ep_bearer_token hc_mcp_endpoint]. rewrite Htok.
    apply bearer_accepted, b64url_visible.
Qed.

(** C22: a daemon started beside a running one does no harm. While the lock is
    refused, [main] never gets to serve; and in every state another process can
    observe, the running daemon's pid file and endpoint file hold what they held. *)
Theorem second_daemon_harmless args b paths endpoint pid :
  paths_of t args = Some paths →
  (∀ calls, is_Some (os_fault calls (OsLock (pid_file t paths)))) →
  always (both_hold (endpoint_json t paths) endpoint (pid_file t paths) pid) (bt_os b) →
  (∀ sd b', start t args b ≠ (Ok sd, b')) ∧
  always (both_hold (endpoint_json t paths) endpoint (pid_file t paths) pid)
    (bt_os (start t args b).2).
Proof.
  intros Hp Hlock Hb.
  pose proof (acquire_refused (endpoint_json t paths) endpoint (pid_file t paths) pid _ Hlock)
    as [Hkeep Hfail].
  assert (Hpaths : ∀ p b1, lift_res (match arg_root args with
      | Some r => Ok (with_root t r)
      | None => match default_for_user t with
                | Ok p => Ok p | Err e => Err (error_to_string e)
                | Panic => Panic | Hang => Hang end
      end) b = (Ok p, b1) → p = paths ∧ b1 = b).
  { intros p b1 [H <-]%lift_res_Ok. split; [|done]. unfold paths_of in Hp.
    destruct (arg_root args); [by simplify_eq|].
    destruct (default_for_user t); by simplify_eq. }
  split.
  - intros sd b' H. unfold start in H.
    apply bind_Ok in H as (p & b0 & [-> ->]%Hpaths & H).
    apply bind_Ok in H as (u1 & b1 & _ & H). apply bind_Ok in H as (u2 & b2 & _ & H).
    apply bind_Ok in H as (u3 & b3 & [H _]%on_os_Ok & _). by apply Hfail in H.
  - unfold start. apply (bind_final (λ b, always _ (bt_os b))); [done|].
    intros p b0 [-> ->]%Hpaths _. apply (bind_final (λ b, always _ (bt_os b))).
    { apply on_os_always; [|done]. by apply within_map_error, both_ensure_dirs. }
    intros _ b1 _ Hb1. apply (bind_final (λ b, always _ (bt_os b))).
    { apply on_os_always; [|done]. by apply within_map_error, both_create_dir_all. }
    intros _ b2 _ Hb2. apply (bind_final (λ b, always _ (bt_os b))); [by apply on_os_always|].
    intros u b3 [H _]%on_os_Ok _. by apply Hfail in H.
Qed.
End properties.
