(* ===== verification/IpcClient.v ===== *)
(** * The IPC client, and a client on a connection

    [crates/mail-mcp-admin/src/ipc_client.rs], and its composition with the
    server of [IpcServer]: what one writes the other reads, line by line, while
    notifications interleave. *)
From S2P Require Export IpcServer.

(** What the client's reads answer: a line, the end of the stream, an error. *)
Inductive Rx : Type :=
| RxLine (line : string)
| RxEof
| RxError (text : string).

(** [struct Resp] and [struct RespErr] *)
Record Resp : Type := mkResp {
  resp_id : Value;
  resp_result : option Value;
  resp_error : option (Z * string);
}.

Definition de_resp_err : De (Z * string) := de_struct (λ v,
  code ← field "code" de_i64 v;
  message ← field "message" de_string v;
  Some (code, message)).

Definition de_resp : De Resp := de_struct (λ v,
  id ← field_default "id" de_value VNull v;
  result ← field_option "result" de_value v;
  error ← field_option "error" de_resp_err v;
  Some (mkResp id result error)).

Section client.
Context `{PF : Platform}.

(** [serde_json::from_str::<Resp>(buf.trim())] *)
Definition parse_resp (buf : string) : string + Resp :=
  match json_from_str (trim buf) with
  | inl e => inl e
  | inr v =>
      match de_resp v with
      | Some r => inr r
      | None => inl (de_error "Resp" v)
      end
  end.

(** [IpcClient], as far as a call sees it: the next id, what is left to read. *)
Record IpcClient : Type := mkIpcClient { ic_next_id : Z; ic_rx : list Rx }.

(** The client of a fresh connection: [IpcClient::connect]. *)
Definition client_new : IpcClient := mkIpcClient 1 [].

(** The request of [call], as the [json!] map orders it. *)
Definition request_value (id : Z) (method : string) (params : Value) : Value :=
  VObject [("id", VInt id); ("jsonrpc", VString "2.0"); ("method", VString method);
           ("params", params)].

Definition request_line (id : Z) (method : string) (params : Value) : string :=
  json_to_string (request_value id method params) +:+ lf.

(** The answer a response carries. *)
Definition resp_answer (r : Resp) : Res string Value :=
  match resp_error r with
  | Some (code, message) =>
      Err ("daemon error (" +:+ pretty code +:+ "): " +:+ message)
  | None => ok_or (resp_result r) "response missing result"
  end.

(** The loop of [call]: lines are read until one has the id of the request. *)
Fixpoint await_response (id : Z) (rx : list Rx) : Res string Value * list Rx :=
  match rx with
  | [] => (Hang, [])
  | RxEof :: _ => (Err "daemon closed connection", rx)
  | RxError text :: rx => (Err text, rx)
  | RxLine buf :: rx =>
      match parse_resp buf with
      | inl e => (Err e, rx)
      | inr r =>
          if bool_decide (as_u64 (resp_id r) = Some id) then (resp_answer r, rx)
          else await_response id rx
      end
  end.

(** [read_notification] *)
Definition read_notification (rx : list Rx) : Res string Value * list Rx :=
  match rx with
  | [] => (Hang, [])
  | RxEof :: _ => (Err "daemon closed connection", rx)
  | RxError text :: rx => (Err text, rx)
  | RxLine buf :: rx =>
      (match json_from_str (trim buf) with inl e => Err e | inr v => Ok v end, rx)
  end.

(** [self.next_id += 1] on a [u64] *)
Definition succ_u64 (n : Z) : Z := ((n + 1) mod 2 ^ 64)%Z.

(** ** The wire *)

Definition frame_value (f : Frame) : Value :=
  match f with
  | FResponse v => v
  | FNotification n =>
      let '(method, params) := notification_to_method_and_params n in
      notification_frame method params
  end.

(** A frame as it is written. *)
Definition frame_line (f : Frame) : string := json_to_string (frame_value f) +:+ lf.

Section link.
Context {S : Type} {HS : Handler S}.

(** A client, its connection and the daemon behind it. *)
Record Link : Type := mkLink {
  lk_client : IpcClient;
  lk_conn : Conn;
  lk_srv : S;
}.

(** The frames written since a state of the connection. *)
Definition written_since (c c' : Conn) : list Frame := drop (length (cn_out c)) (cn_out c').

(** [IpcClient::call] over the connection: what the channel does before and after
    the server reads the request is given as events. *)
Definition call (before after : list CEvent) (method : string) (params : Value) :
    ST Link string Value := λ l,
  let id := ic_next_id (lk_client l) in
  let events := before ++ CLine (request_line id method params) true :: after in
  let '(c, s) := conn_run events (lk_conn l, lk_srv l) in
  let news := RxLine ∘ frame_line <$> written_since (lk_conn l) c in
  let hangup := if cn_closed c then [RxEof] else [] in
  let '(r, rx) := await_response id (ic_rx (lk_client l) ++ news ++ hangup) in
  (r, mkLink (mkIpcClient (succ_u64 id) rx) c s).
End link.
End client.
Arguments Link S : clear implicits.
Arguments mkLink {S}.

(** ** Lemmas *)

Section facts.
Context `{PF : Platform, SL : !SerdeLaws}.

(** The text of a printable value, as a line, is parsed as the value. *)
Lemma parse_line v :
  printable json_max_depth v = true →
  json_from_str (trim (json_to_string v +:+ lf)) = inr (normalize v).
Proof. intros Hp. rewrite json_trim_line. by apply json_print_parse. Qed.

Lemma VInt_u64 id : (0 ≤ id)%Z → VInt id = VNumber (PosInt id).
Proof. intros H. unfold VInt. by rewrite (proj2 (Z.ltb_ge _ _)). Qed.

Lemma normalize_VInt n : normalize (VInt n) = VInt n.
Proof. done. Qed.

Lemma printable_VInt depth n :
  (- 2 ^ 63 ≤ n < 2 ^ 63)%Z → printable depth (VInt n) = true.
Proof.
  intros H. unfold VInt. destruct (Z.ltb_spec n 0); destruct depth; unfold printable; lia.
Qed.

Lemma printable_u64 depth n : (0 ≤ n < 2 ^ 64)%Z → printable depth (VInt n) = true.
Proof. intros H. rewrite VInt_u64 by lia. destruct depth; unfold printable; lia. Qed.

Lemma printable_mono d1 d2 v : d1 ≤ d2 → printable d1 v = true → printable d2 v = true.
Proof.
  revert d2 v. induction d1 as [|d1 IH]; intros d2 v Hle.
  - destruct v as [| |[]| | |], d2; done.
  - destruct d2 as [|d2]; [lia|]. destruct v as [| |[]| |vs|kvs]; try done;
      unfold printable; fold printable.
    + rewrite !forallb_forall. intros Hall x Hin. apply (IH d2); [lia|by apply Hall].
    + rewrite !andb_true_iff, !forallb_forall. intros [? Hall]. split; [done|].
      intros x Hin. apply (IH d2); [lia|by apply Hall].
Qed.

(** The server reads the request the client wrote. *)
Lemma request_printable id method params :
  (0 ≤ id < 2 ^ 64)%Z → printable 126 params = true →
  printable json_max_depth (request_value id method params) = true.
Proof.
  intros Hid Hp. unfold json_max_depth, request_value. rewrite printable_object.
  cbn [forallb fmap list_fmap snd fst].
  by rewrite printable_u64, !printable_string, Hp.
Qed.

Lemma request_normalize id method params :
  normalize (request_value id method params) = request_value id method (normalize params).
Proof. reflexivity. Qed.

Lemma parse_request_line id method params :
  (0 ≤ id < 2 ^ 64)%Z → printable 126 params = true →
  ∃ req, parse_request (request_line id method params) = inr req ∧
    ipc_id req = VInt id ∧ ipc_method req = method ∧
    default VNull (ipc_params req) = normalize params.
Proof.
  intros Hid Hp. unfold parse_request, request_line.
  rewrite parse_line by (by apply request_printable). rewrite request_normalize.
  unfold request_value, de_ipc_request, de_struct, field, field_default, field_option.
  simpl. unfold de_option. destruct (normalize params); eexists; split_and!; reflexivity.
Qed.

Lemma ok_printable id v :
  (0 ≤ id < 2 ^ 64)%Z → printable 126 v = true →
  printable json_max_depth (response_ok (VInt id) v) = true.
Proof.
  intros Hid Hp. unfold json_max_depth, response_ok. rewrite printable_object.
  cbn [forallb fmap list_fmap snd fst].
  by rewrite printable_u64, !printable_string, Hp.
Qed.

Lemma err_printable id code message :
  (0 ≤ id < 2 ^ 64)%Z → (- 2 ^ 31 ≤ code < 2 ^ 31)%Z →
  printable json_max_depth (response_err (VInt id) code message) = true.
Proof.
  intros Hid Hcode. unfold json_max_depth, response_err. rewrite !printable_object.
  cbn [forallb fmap list_fmap snd fst]. rewrite printable_object.
  cbn [forallb fmap list_fmap snd fst].
  by rewrite printable_u64, printable_VInt, !printable_string by lia.
Qed.

Lemma notification_printable n :
  printable 126 (notification_content n) = true →
  printable json_max_depth
    (notification_frame (notification_method n) (notification_content n)) = true.
Proof.
  intros Hp. unfold json_max_depth, notification_frame. rewrite printable_object.
  cbn [forallb fmap list_fmap snd fst]. by rewrite !printable_string, Hp.
Qed.

(** What the client makes of a frame. *)
Lemma parse_response_ok id v :
  (0 ≤ id < 2 ^ 64)%Z → printable 126 v = true →
  ∃ r, parse_resp (frame_line (FResponse (response_ok (VInt id) v))) = inr r ∧
    as_u64 (resp_id r) = Some id ∧
    resp_answer r = match normalize v with
                    | VNull => Err "response missing result"
                    | v => Ok v
                    end.
Proof.
  intros Hid Hp. unfold parse_resp, frame_line. cbn [frame_value]. rewrite parse_line by (by apply ok_printable).
  assert (Hn : normalize (response_ok (VInt id) v) =
    VObject [("id", VInt id); ("jsonrpc", VString "2.0"); ("result", normalize v)]) by reflexivity.
  rewrite Hn. unfold de_resp, de_struct, field_default, field_option. simpl.
  unfold de_option, de_value. rewrite VInt_u64 by lia.
  destruct (normalize v); eexists; split_and!; reflexivity.
Qed.

Lemma parse_response_err id code message :
  (0 ≤ id < 2 ^ 64)%Z → (- 2 ^ 31 ≤ code < 2 ^ 31)%Z →
  ∃ r, parse_resp (frame_line (FResponse (response_err (VInt id) code message))) = inr r ∧
    as_u64 (resp_id r) = Some id ∧
    resp_answer r = Err ("daemon error (" +:+ pretty code +:+ "): " +:+ message).
Proof.
  intros Hid Hcode. unfold parse_resp, frame_line. cbn [frame_value]. rewrite parse_line by (by apply err_printable).
  assert (Hn : normalize (response_err (VInt id) code message) =
    VObject [("error", VObject [("code", VInt code); ("message", VString message)]);
             ("id", VInt id); ("jsonrpc", VString "2.0")]) by reflexivity.
  assert (Hc : de_i64 (VInt code) = Some code).
  { unfold VInt, de_i64. destruct (Z.ltb_spec code 0);
      by rewrite (proj2 (Z.leb_le _ _)) by lia. }
  assert (He : de_resp_err (VObject [("code", VInt code); ("message", VString message)]) =
    Some (code, message)) by (unfold de_resp_err, de_struct, field; cbn -[de_i64 VInt]; by rewrite Hc).
  rewrite Hn. unfold de_resp, de_struct, field_default, field_option.
  cbn -[de_resp_err VInt]. unfold de_option. cbn -[de_resp_err VInt]. rewrite He. cbn -[VInt].
  rewrite VInt_u64 by lia. eexists. split_and!; reflexivity.
Qed.

(** A notification carries no id. *)
Lemma parse_notification n :
  printable 126 (notification_content n) = true →
  ∃ r, parse_resp (frame_line (FNotification n)) = inr r ∧ resp_id r = VNull.
Proof.
  intros Hp. unfold parse_resp, frame_line. cbn [frame_value]. rewrite notification_params.
  rewrite parse_line by (by apply notification_printable).
  assert (Hn : normalize (notification_frame (notification_method n) (notification_content n)) =
    VObject [("jsonrpc", VString "2.0"); ("method", VString (notification_method n));
             ("params", normalize (notification_content n))]) by reflexivity.
  rewrite Hn. eexists. split; reflexivity.
Qed.
End facts.

(** ** One exchange *)

Section exchange.
Context `{PF : Platform, SL : !SerdeLaws} {S : Type} {HS : Handler S}.

(** A line that a call with this id reads past. *)
Definition stale (id : Z) (x : Rx) : Prop :=
  ∃ line r, x = RxLine line ∧ parse_resp line = inr r ∧ as_u64 (resp_id r) ≠ Some id.

Lemma await_skips id rx rx' :
  Forall (stale id) rx → await_response id (rx ++ rx') = await_response id rx'.
Proof.
  induction 1 as [|x rx (line & r & -> & Hr & Hid) _ IH]; [done|]. simpl.
  rewrite Hr, bool_decide_eq_false_2 by done. exact IH.
Qed.

(** The notifications among frames are read past. *)
Lemma notifications_stale id ns :
  Forall (λ n, printable 126 (notification_content n) = true) ns →
  Forall (stale id) (RxLine ∘ frame_line ∘ FNotification <$> ns).
Proof.
  induction 1 as [|n ns Hn _ IH]; simpl; [constructor|]. constructor; [|exact IH].
  destruct (parse_notification n Hn) as (r & Hr & Hid). exists (frame_line (FNotification n)), r.
  split_and!; [done|done|]. by rewrite Hid.
Qed.

(** Channel events write notifications only, and leave the daemon alone. *)
Lemma channel_run es c (s : S) :
  Forall (λ e, channel_event e = true) es →
  ∃ c' ns, conn_run es (c, s) = (c', s) ∧ cn_closed c' = cn_closed c ∧
    cn_out c' = cn_out c ++ (FNotification <$> ns).
Proof.
  intros Hes. revert c. induction Hes as [|e es He Hes IH]; intros c.
  { exists c, []. by rewrite app_nil_r. }
  assert (Hstep : ∃ c1 ns, conn_step e (c, s) = (c1, s) ∧ cn_closed c1 = cn_closed c ∧
    cn_out c1 = cn_out c ++ (FNotification <$> ns)).
  { destruct e as [| | |n|ok]; try done; simpl in He |- *.
    - exists (broadcast n c), []. rewrite broadcast_out, app_nil_r. split; [done|].
      split; [unfold broadcast; by destruct (cn_fanout c)|done].
    - subst ok. unfold fan_step. destruct (cn_fanout c); try (exists c, []; by rewrite app_nil_r).
      destruct (cn_queue c) as [|n rest]; [exists c, []; by rewrite app_nil_r|].
      destruct (bool_decide _); [eexists _, []; simpl; by rewrite app_nil_r|].
      rewrite notification_params. destruct (any_eq _ _).
      + eexists _, [n]. by split_and!.
      + eexists _, []. simpl. by rewrite app_nil_r. }
  destruct Hstep as (c1 & ns1 & H1 & Hc1 & Ho1). destruct (IH c1) as (c2 & ns2 & H2 & Hc2 & Ho2).
  exists c2, (ns1 ++ ns2). simpl conn_run. split_and!.
  - unfold conn_run in *. simpl. by rewrite H1.
  - congruence.
  - by rewrite Ho2, Ho1, fmap_app, app_assoc.
Qed.

Lemma broadcasts_closed l c : cn_closed (foldl (λ c n, broadcast n c) c l) = cn_closed c.
Proof.
  revert c. induction l as [|n l IH]; intros c; simpl; [done|]. rewrite IH.
  unfold broadcast. by destruct (cn_fanout c).
Qed.

(** The response to a request the handler answers. *)
Definition response_to (id : Value) (r : Res Error Value) : option Value :=
  match r with
  | Ok v => Some (response_ok id v)
  | Err e => Some (response_err id (error_code e) (error_to_string e))
  | _ => None
  end.

Lemma serve_request line req c s r s' resp :
  cn_closed c = false → parse_request line = inr req → ipc_method req ≠ "subscribe" →
  h_handle (ipc_method req) (default VNull (ipc_params req)) s = (r, s') →
  response_to (ipc_id req) r = Some resp →
  ∃ c', conn_step (CLine line true) (c, s) = (c', s') ∧ cn_closed c' = false ∧
    cn_out c' = cn_out c ++ [FResponse resp].
Proof.
  intros Hopen Hreq Hm Hh Hresp. simpl. rewrite Hopen. unfold serve_line. rewrite Hreq.
  unfold answer_request. rewrite (proj2 (String.eqb_neq _ _) Hm), Hh.
  destruct r as [v|e| |]; try done; injection Hresp as <-; eexists; (split; [reflexivity|]);
    simpl; by rewrite broadcasts_closed, broadcasts_out.
Qed.

Lemma error_code_i32 e : (- 2 ^ 31 ≤ error_code e < 2 ^ 31)%Z.
Proof. destruct e; simpl; lia. Qed.

(** What the caller gets for a result of the handler. *)
Definition answer_of (r : Res Error Value) : Res string Value :=
  match r with
  | Ok v => match normalize v with VNull => Err "response missing result" | v => Ok v end
  | Err e => Err ("daemon error (" +:+ pretty (error_code e) +:+ "): " +:+ error_to_string e)
  | _ => Hang
  end.

(** The client reads the response as the answer. *)
Lemma response_read id r resp :
  (0 ≤ id < 2 ^ 64)%Z → response_to (VInt id) r = Some resp →
  (∀ v, r = Ok v → printable 126 v = true) →
  ∃ x, parse_resp (frame_line (FResponse resp)) = inr x ∧ as_u64 (resp_id x) = Some id ∧
    resp_answer x = answer_of r.
Proof.
  intros Hid Hresp Hp. destruct r as [v|e| |]; try done; injection Hresp as <-.
  - apply parse_response_ok; auto.
  - apply parse_response_err; [done|apply error_code_i32].
Qed.

Lemma written_app c c' fs : cn_out c' = cn_out c ++ fs → written_since c c' = fs.
Proof. intros H. unfold written_since. by rewrite H, drop_app_length. Qed.

(** A link on which a call can be made: the connection is open, and nothing that
    is still to be read answers it. *)
Definition link_ready (l : Link S) : Prop :=
  cn_closed (lk_conn l) = false ∧ (0 ≤ ic_next_id (lk_client l) < 2 ^ 64)%Z ∧
  ∀ id, (ic_next_id (lk_client l) ≤ id)%Z → Forall (stale id) (ic_rx (lk_client l)).

(** The notifications written between two states of the connection can be
    printed. *)
Definition news_printable (c c' : Conn) : Prop :=
  ∀ n, FNotification n ∈ written_since c c' → printable 126 (notification_content n) = true.

Lemma conn_run_app es1 es2 (cs : Conn * S) :
  conn_run (es1 ++ es2) cs = conn_run es2 (conn_run es1 cs).
Proof. apply foldl_app. Qed.

Lemma conn_run_cons e es (cs : Conn * S) :
  conn_run (e :: es) cs = conn_run es (conn_step e cs).
Proof. done. Qed.

(** The events of one call: notifications, the response, notifications. *)
Lemma exchange_run before after id method params c s r s' resp :
  cn_closed c = false → (0 ≤ id < 2 ^ 64)%Z → method ≠ "subscribe" →
  printable 126 params = true →
  Forall (λ e, channel_event e = true) (before ++ after) →
  h_handle method (normalize params) s = (r, s') → response_to (VInt id) r = Some resp →
  ∃ c' ns1 ns2,
    conn_run (before ++ CLine (request_line id method params) true :: after) (c, s) = (c', s') ∧
    cn_closed c' = false ∧
    written_since c c' = (FNotification <$> ns1) ++ FResponse resp :: (FNotification <$> ns2).
Proof.
  intros Hopen Hid Hm Hp [Hb Ha]%Forall_app Hh Hresp.
  destruct (parse_request_line id method params Hid Hp) as (req & Hreq & Hrid & Hrm & Hrp).
  rewrite <- Hrm in Hm. rewrite <- Hrm, <- Hrp in Hh.
  destruct (channel_run before c s Hb) as (c1 & ns1 & Hrun1 & Hc1 & Ho1).
  rewrite Hopen in Hc1. rewrite <- Hrid in Hresp.
  destruct (serve_request _ req c1 s r s' resp Hc1 Hreq Hm Hh Hresp) as (c2 & Hrun2 & Hc2 & Ho2).
  destruct (channel_run after c2 s' Ha) as (c3 & ns2 & Hrun3 & Hc3 & Ho3).
  exists c3, ns1, ns2. split_and!; [|by rewrite Hc3|].
  - rewrite conn_run_app, Hrun1.
    rewrite conn_run_cons. by rewrite Hrun2.
  - apply written_app. by rewrite Ho3, Ho2, Ho1, <- !app_assoc.
Qed.

(** The client finds the response among the lines of an exchange. *)
Lemma await_exchange id rx r resp ns1 ns2 :
  (0 ≤ id < 2 ^ 64)%Z → Forall (stale id) rx → response_to (VInt id) r = Some resp →
  (∀ v, r = Ok v → printable 126 v = true) →
  Forall (λ n, printable 126 (notification_content n) = true) ns1 →
  await_response id (rx ++ (RxLine ∘ frame_line <$>
    (FNotification <$> ns1) ++ FResponse resp :: (FNotification <$> ns2)) ++ []) =
    (answer_of r, RxLine ∘ frame_line ∘ FNotification <$> ns2).
Proof.
  intros Hid Hstale Hresp Hp Hns1.
  destruct (response_read id r resp Hid Hresp Hp) as (x & Hx & Hxid & Hans).
  rewrite await_skips by done. rewrite app_nil_r, fmap_app, <- list_fmap_compose.
  rewrite await_skips by (by apply notifications_stale). simpl.
  rewrite Hx, bool_decide_eq_true_2 by done. rewrite Hans. by rewrite <- list_fmap_compose.
Qed.

(** A call, its result, the daemon after it and the link after it. *)
Lemma call_handles before after method params (l : Link S) r s' :
  link_ready l → method ≠ "subscribe" → printable 126 params = true →
  Forall (λ e, channel_event e = true) (before ++ after) →
  h_handle method (normalize params) (lk_srv l) = (r, s') →
  match r with Ok v => printable 126 v = true | Err _ => True | _ => False end →
  news_printable (lk_conn l) (lk_conn (call before after method params l).2) →
  (call before after method params l).1 = answer_of r ∧
  lk_srv (call before after method params l).2 = s' ∧
  ((ic_next_id (lk_client l) + 1 < 2 ^ 64)%Z →
   link_ready (call before after method params l).2).
Proof.
  intros (Hopen & Hid & Hstale) Hm Hp Hes Hh Hr Hnews.
  assert (Hresp : ∃ resp, response_to (VInt (ic_next_id (lk_client l))) r = Some resp).
  { destruct r; try done; by eexists. }
  destruct Hresp as [resp Hresp].
  destruct (exchange_run before after _ method params _ _ r s' resp Hopen Hid Hm Hp Hes Hh Hresp)
    as (c & ns1 & ns2 & Hrun & Hc & Hw).
  unfold call in *. rewrite Hrun, Hc, Hw in Hnews |- *.
  assert (Hns : news_printable (lk_conn l) c).
  { by destruct (await_response _ _). }
  assert (Hnsp : ∀ ns, (∀ n, n ∈ ns → FNotification n ∈ written_since (lk_conn l) c) →
    Forall (λ n, printable 126 (notification_content n) = true) ns).
  { intros ns Hin. apply Forall_forall. intros n Hn. by apply Hns, Hin. }
  rewrite Hw in Hnsp. rewrite (await_exchange _ _ r); [|done|by apply Hstale|done| |].
  - simpl. split_and!; [done|done|]. intros Hlt. split; [done|]. split.
    + simpl. unfold succ_u64. rewrite Z.mod_small by lia. lia.
    + intros id' _. apply notifications_stale, Hnsp. set_solver.
  - by intros v ->.
  - apply Hnsp. set_solver.
Qed.
(** C20: over a connection, [call] is the handler's method: whatever notifications
    interleave before and after, the handler runs once, on the method and the
    parameters of the caller, and the caller gets its result, or its error with
    its code and text; the link is ready for the next call. *)
Theorem call_runs_handler before after method params (l : Link S) r s' :
  link_ready l → method ≠ "subscribe" → printable 126 params = true →
  Forall (λ e, channel_event e = true) (before ++ after) →
  h_handle method (normalize params) (lk_srv l) = (r, s') →
  match r with Ok v => printable 126 v = true | Err _ => True | _ => False end →
  news_printable (lk_conn l) (lk_conn (call before after method params l).2) →
  (call before after method params l).1 = answer_of r ∧
  lk_srv (call before after method params l).2 = s' ∧
  ((ic_next_id (lk_client l) + 1 < 2 ^ 64)%Z →
   link_ready (call before after method params l).2).
Proof. apply call_handles. Qed.
End exchange.

(** ** The stream *)

Section stream.
Context `{PF : Platform, SL : !SerdeLaws}.

End stream.
