(* ===== verification/Admin.v ===== *)
(** * The admin command line

    [crates/mail-mcp-admin/src/main.rs]: each command is one or two calls over
    the IPC client, and what is printed of their answers. The commands are
    stated over any such [call]; the theorems put them on a link to the daemon. *)
From S2P Require Export Paths IpcClient.

Module Cli.

(** [enum AccountsCmd], [PermissionsCmd], [ApprovalsCmd] and [Cmd] *)
Inductive AccountsCmd : Type :=
| List
| AddGmail (label : option string)
| Remove (id : string).

Inductive PermissionsCmd : Type :=
| Get (account_id : string)
| Set_ (account_id category policy : string).

Inductive ApprovalsCmd : Type :=
| Queue
| ApproveOne (id : string)
| RejectOne (id : string).

Inductive Cmd : Type :=
| Status
| Endpoint
| Pause
| Resume
| Accounts (c : AccountsCmd)
| Permissions (c : PermissionsCmd)
| Approvals (c : ApprovalsCmd).

(** [struct Cli] *)
Record Args : Type := mkArgs {
  socket : option string;
  root : option string;
  cmd : Cmd;
}.

(** What a command does apart from its calls: lines printed, a browser opened. *)
Inductive Out : Type :=
| Printed (text : string)
| Browser (url : string).

(** The socket of the connection: an option, or that of the paths; paths that
    cannot be found are an error even then. *)
Definition socket_path `{DirsLib} (t : Target) (a : Args) : Result string :=
  match match root a with
        | Some r => Ok (with_root t r)
        | None => default_for_user t
        end with
  | Ok paths => Ok (default (ipc_socket t paths) (socket a))
  | Err e => Err e
  | Panic => Panic
  | Hang => Hang
  end.

Section commands.
Context `{PF : Platform} {W : Type} (call : string → Value → ST W string Value).

(** The connection and what was put out so far, oldest first. *)
Definition AM (A : Type) : Type := ST (W * list Out) string A.

Definition do_call (method : string) (params : Value) : AM Value :=
  zoom fst (λ w s, (w, s.2)) (call method params).

Definition put_out (o : Out) : AM unit := modify (λ s, (s.1, s.2 ++ [o])).

Definition println (text : string) : AM unit := put_out (Printed text).

(** [v[k].as_str().unwrap_or("")] *)
Definition index_str (k : string) (v : Value) : string := default "" (get_str k v).

(** A call whose answer is printed as it is. *)
Definition show (method : string) (params : Value) : AM unit :=
  v ← do_call method params;
  println (json_pretty v).

(** A call whose success is acknowledged. *)
Definition act_on (method : string) (params : Value) (text : string) : AM unit :=
  _ ← do_call method params;
  println text.

Definition newline : string := String LF "".

Definition add_gmail (label : option string) : AM unit :=
  v ← do_call "accounts.add_oauth" (VObject [("provider", VString "gmail")]);
  let challenge_id := index_str "challenge_id" v in
  let auth_url := index_str "auth_url" v in
  _ ← println ("Opening browser:" +:+ newline +:+ "  " +:+ auth_url +:+ newline +:+
               "Waiting for sign-in to complete...");
  _ ← put_out (Browser auth_url);
  v ← do_call "accounts.complete_oauth"
        (VObject [("challenge_id", VString challenge_id);
                  ("label", VString (default "" label))]);
  println ("Account added:" +:+ newline +:+ json_pretty v).

Definition run_accounts (c : AccountsCmd) : AM unit :=
  match c with
  | List => show "accounts.list" (VObject [])
  | AddGmail label => add_gmail label
  | Remove id => act_on "accounts.remove" (VObject [("account_id", VString id)]) "removed"
  end.

Definition run_permissions (c : PermissionsCmd) : AM unit :=
  match c with
  | Get account_id => show "permissions.get" (VObject [("account_id", VString account_id)])
  | Set_ account_id category policy =>
      act_on "permissions.set"
        (VObject [("account_id", VString account_id); ("category", VString category);
                  ("policy", VString policy)]) "set"
  end.

Definition run_approvals (c : ApprovalsCmd) : AM unit :=
  match c with
  | Queue => show "approvals.list" (VObject [])
  | ApproveOne id =>
      act_on "approvals.decide"
        (VObject [("decision", VString "approve"); ("id", VString id)]) "approved"
  | RejectOne id =>
      act_on "approvals.decide"
        (VObject [("decision", VString "reject"); ("id", VString id)]) "rejected"
  end.

(** The body of [main] once connected. *)
Definition run (c : Cmd) : AM unit :=
  match c with
  | Status => show "status" (VObject [])
  | Endpoint => show "mcp.endpoint" (VObject [])
  | Pause => act_on "mcp.pause" (VObject [("paused", VBool true)]) "MCP paused"
  | Resume => act_on "mcp.pause" (VObject [("paused", VBool false)]) "MCP resumed"
  | Accounts c => run_accounts c
  | Permissions c => run_permissions c
  | Approvals c => run_approvals c
  end.

(** Everything a command prints on success follows the answers; a failed call
    prints nothing of its own. *)
Lemma act_on_run method params text w o :
  act_on method params text (w, o) =
    match call method params w with
    | (Ok _, w') => (Ok tt, (w', o ++ [Printed text]))
    | (Err e, w') => (Err e, (w', o))
    | (Panic, w') => (Panic, (w', o))
    | (Hang, w') => (Hang, (w', o))
    end.
Proof.
  unfold act_on, do_call, println, put_out, zoom, mbind, st_bind, modify. simpl.
  by destruct (call method params w) as [[] w'].
Qed.

Lemma show_run method params w o :
  show method params (w, o) =
    match call method params w with
    | (Ok v, w') => (Ok tt, (w', o ++ [Printed (json_pretty v)]))
    | (Err e, w') => (Err e, (w', o))
    | (Panic, w') => (Panic, (w', o))
    | (Hang, w') => (Hang, (w', o))
    end.
Proof.
  unfold show, do_call, println, put_out, zoom, mbind, st_bind, modify. simpl.
  by destruct (call method params w) as [[] w'].
Qed.
End commands.

(** The commands of one call: the request, and what is printed of the answer. *)
Definition request (c : Cmd) : option (string * Value) :=
  match c with
  | Status => Some ("status", VObject [])
  | Endpoint => Some ("mcp.endpoint", VObject [])
  | Pause => Some ("mcp.pause", VObject [("paused", VBool true)])
  | Resume => Some ("mcp.pause", VObject [("paused", VBool false)])
  | Accounts List => Some ("accounts.list", VObject [])
  | Accounts (AddGmail _) => None
  | Accounts (Remove id) => Some ("accounts.remove", VObject [("account_id", VString id)])
  | Permissions (Get id) => Some ("permissions.get", VObject [("account_id", VString id)])
  | Permissions (Set_ id cat pol) =>
      Some ("permissions.set",
        VObject [("account_id", VString id); ("category", VString cat); ("policy", VString pol)])
  | Approvals Queue => Some ("approvals.list", VObject [])
  | Approvals (ApproveOne id) =>
      Some ("approvals.decide", VObject [("decision", VString "approve"); ("id", VString id)])
  | Approvals (RejectOne id) =>
      Some ("approvals.decide", VObject [("decision", VString "reject"); ("id", VString id)])
  end.

Definition shown `{PF : Platform} (c : Cmd) (v : Value) : string :=
  match c with
  | Pause => "MCP paused"
  | Resume => "MCP resumed"
  | Accounts (Remove _) => "removed"
  | Permissions (Set_ _ _ _) => "set"
  | Approvals (ApproveOne _) => "approved"
  | Approvals (RejectOne _) => "rejected"
  | _ => json_pretty v
  end.

Lemma run_single `{PF : Platform} {W} (call : string → Value → ST W string Value) c m p w o :
  request c = Some (m, p) →
  run call c (w, o) =
    match call m p w with
    | (Ok v, w') => (Ok tt, (w', o ++ [Printed (shown c v)]))
    | (Err e, w') => (Err e, (w', o))
    | (Panic, w') => (Panic, (w', o))
    | (Hang, w') => (Hang, (w', o))
    end.
Proof.
  destruct c as [| | | |[| |]|[|]|[| |]]; simpl; intros [= <- <-];
    first [apply show_run|apply act_on_run].
Qed.

Lemma request_fine c m p :
  request c = Some (m, p) → m ≠ "subscribe" ∧ printable 126 p = true ∧ normalize p = p.
Proof.
  destruct c as [| | | |[| |]|[|]|[| |]]; simpl; intros [= <- <-]; split_and!;
    first [done|by rewrite printable_object; simpl; rewrite ?printable_string|reflexivity].
Qed.
End Cli.

(** ** On a link to the daemon *)

Section daemon.
Context `{PF : Platform, SL : !SerdeLaws} (hc : HandlerConfig).

(** What the channel does around the call with a given id. *)
Context (around : Z → list CEvent * list CEvent).

Definition admin_call (method : string) (params : Value) :
    ST (Link Daemon) string Value := λ l,
  let '(before, after) := around (ic_next_id (lk_client l)) in
  call (HS := daemon_handler hc) before after method params l.

Definition admin (c : Cli.Cmd) : Cli.AM (W := Link Daemon) unit := Cli.run admin_call c.

(** The channel only carries events of the channel, and notifications that can
    be printed, around the calls of a link. *)
Definition fair (method : string) (params : Value) (l : Link Daemon) : Prop :=
  let '(before, after) := around (ic_next_id (lk_client l)) in
  Forall (λ e, channel_event e = true) (before ++ after) ∧
  news_printable (lk_conn l) (lk_conn (admin_call method params l).2).

(** A call of the command line is a call of the daemon's method. *)
Lemma admin_call_handle method params l :
  link_ready l → method ≠ "subscribe" → printable 126 params = true →
  normalize params = params → fair method params l →
  let '(r, d) := handle hc method params (lk_srv l) in
  match r with Ok v => printable 126 v = true | Err _ => True | _ => False end →
  (admin_call method params l).1 = answer_of r ∧ lk_srv (admin_call method params l).2 = d.
Proof.
  intros Hl Hm Hp Hn Hfair. destruct (handle hc method params (lk_srv l)) as [r d] eqn:Hh.
  intros Hr. unfold fair in Hfair. revert Hfair. unfold admin_call.
  destruct (around _) as [before after]. intros [Hes Hnews].
  destruct (call_handles (HS := daemon_handler hc) before after method params l r d) as (H1 & H2 & _); auto.
  by rewrite Hn.
Qed.

(** A result the server can answer. *)
Definition answerable (r : Res Error Value) : Prop :=
  match r with Ok v => printable 126 v = true | Err _ => True | _ => False end.

(** A command of the command line does what its method does on the daemon: the
    handler runs once on the command's parameters, the daemon is left as the
    handler left it, the answer is printed on success, and on failure nothing is
    printed and the error carries the handler's code and text. *)
Theorem admin_runs_method c m p l o :
  Cli.request c = Some (m, p) → link_ready l → fair m p l →
  answerable (handle hc m p (lk_srv l)).1 →
  lk_srv (admin c (l, o)).2.1 = (handle hc m p (lk_srv l)).2 ∧
  match answer_of (handle hc m p (lk_srv l)).1 with
  | Ok v => (admin c (l, o)).1 = Ok tt ∧
            (admin c (l, o)).2.2 = o ++ [Cli.Printed (Cli.shown c v)]
  | Err e => (admin c (l, o)).1 = Err e ∧ (admin c (l, o)).2.2 = o
  | _ => False
  end.
Proof.
  intros Hc Hl Hfair Hans. destruct (Cli.request_fine c m p Hc) as (Hm & Hp & Hn).
  pose proof (admin_call_handle m p l Hl Hm Hp Hn Hfair) as Hcall.
  unfold admin. rewrite (Cli.run_single _ c m p) by done.
  destruct (handle hc m p (lk_srv l)) as [r d]. destruct (Hcall Hans) as [H1 H2].
  destruct (admin_call m p l) as [a l']. simpl in H1, H2. subst a.
  destruct r as [v|e| |]; try done; simpl.
  by destruct (normalize v).
Qed.
End daemon.

(** ** What two of the commands achieve *)

Section effects.
Context `{PF : Platform, SL : !SerdeLaws, UL : !UlidLaws} (hc : HandlerConfig).
Context (around : Z → list CEvent * list CEvent).

(** The policies the daemon behind a link has stored. *)
Definition policy_of (l : Link Daemon) (id : AccountId) (c : Category) : Policy :=
  stored_policy (sys_db (sys_of (lk_srv l))) id c.

Lemma permissions_set_cases params d :
  let '(r, d') := permissions_set params d in
  match r with
  | Ok v => v = empty_object ∧ ∃ id cat pol cs ps,
      param_account params = Ok id ∧
      get_str "category" params = Some cs ∧ category_from_str cs = inr cat ∧
      get_str "policy" params = Some ps ∧ policy_from_str ps = inr pol ∧
      ∀ id' c', stored_policy (sys_db (sys_of d')) id' c' =
        if decide (id' = id ∧ c' = cat) then pol
        else stored_policy (sys_db (sys_of d)) id' c'
  | Err _ => True
  | _ => False
  end.
Proof.
  unfold permissions_set. destruct (param_account params) as [id|e| |] eqn:Hid.
  2: by unfold mbind, st_bind, lift_res.
  2,3: by unfold param_account, res_cast, map_err, param_str, ok_or in Hid;
    repeat case_match.
  unfold param_str.
  destruct (get_str "category" params) as [cs|] eqn:Hcs; [|done].
  destruct (get_str "policy" params) as [ps|] eqn:Hps; [|done].
  unfold mbind, st_bind, lift_res, ok_or.
  destruct (category_from_str cs) as [e|cat] eqn:Hcat; [done|].
  destruct (policy_from_str ps) as [e|pol] eqn:Hpol; [done|]. simpl.
  rewrite in_sys_run. pose proof (sql_answers _ (sys_of d) : match
    (set_permission id cat pol (sys_of d)).1 with Ok _ | Err _ => True | _ => False end) as Hans.
  destruct (set_permission id cat pol (sys_of d)) as [r s'] eqn:E.
  destruct r as [[]|e| |]; simpl in *; [|done..].
  split; [done|]. exists id, cat, pol, cs, ps. split_and!; try done.
  intros id' c'. by apply set_permission_stored.
Qed.

(** [permissions set] does what it says: when the command line acknowledges
    it, the account, the category and the policy it was given were understood, and
    from then on the daemon has that policy for the pair, and every other policy as
    before. *)
Theorem admin_set_effective acc cat pol l o l' o' :
  let p := VObject [("account_id", VString acc); ("category", VString cat);
                    ("policy", VString pol)] in
  link_ready l → fair hc around "permissions.set" p l →
  admin hc around (Cli.Permissions (Cli.Set_ acc cat pol)) (l, o) = (Ok tt, (l', o')) →
  o' = o ++ [Cli.Printed "set"] ∧
  ∃ id c q, account_from_str acc = inr id ∧ category_from_str cat = inr c ∧
    policy_from_str pol = inr q ∧
    ∀ id' c', policy_of l' id' c' =
      if decide (id' = id ∧ c' = c) then q else policy_of l id' c'.
Proof.
  intros p Hl Hfair Hrun. unfold admin in Hrun.
  rewrite (Cli.run_single _ _ "permissions.set" p) in Hrun by done.
  destruct (Cli.request_fine (Cli.Permissions (Cli.Set_ acc cat pol)) _ _ eq_refl)
    as (Hm & Hp & Hn).
  pose proof (admin_call_handle hc around _ p l Hl Hm Hp Hn Hfair) as Hcall.
  pose proof (permissions_set_cases p (lk_srv l)) as Hcases.
  change (handle hc "permissions.set" p (lk_srv l)) with (permissions_set p (lk_srv l)) in Hcall.
  destruct (permissions_set p (lk_srv l)) as [r d].
  destruct (admin_call hc around "permissions.set" p l) as [a l1]. simpl in Hcall.
  destruct r as [v|e| |]; [|destruct (Hcall I) as [-> _]; done|done..].
  destruct Hcases as (-> & id & c & q & cs & ps & Hid & [= <-] & Hc & [= <-] & Hq & Hall).
  destruct (Hcall eq_refl) as [-> Hd]. simpl in Hrun. injection Hrun as <- <-.
  split; [done|]. exists id, c, q. split_and!; [|done|done|].
  - unfold param_account, param_str in Hid. simpl in Hid.
    destruct (account_from_str acc); [done|]. by injection Hid as ->.
  - intros id' c'. unfold policy_of. rewrite Hd. apply Hall.
Qed.

(** [pause] reaches the other door: once the command line acknowledges it,
    every tool call over MCP, but [list_accounts], is answered with the refusal, and
    changes nothing. *)
Theorem admin_pause_effective l o l' o' state header req name t :
  let p := VObject [("paused", VBool true)] in
  link_ready l → fair hc around "mcp.pause" p l →
  admin hc around Cli.Pause (l, o) = (Ok tt, (l', o')) →
  check_auth header (bearer_token state) = true → rpc_method req = "tools/call" →
  get_str "name" (rpc_params req) = Some name → name ≠ "list_accounts" →
  find_tool name = Some t →
  handle_post state header req (h_ctx (lk_srv l')) =
    (Ok (STATUS_OK, rpc_err (rpc_id req) (-32000)
           (error_to_string (PermissionDenied paused_message))), h_ctx (lk_srv l')).
Proof.
  intros p Hl Hfair Hrun Hauth Hmethod Hname Hne Htool. unfold admin in Hrun.
  rewrite (Cli.run_single _ _ "mcp.pause" p) in Hrun by done.
  destruct (Cli.request_fine Cli.Pause _ _ eq_refl) as (Hm & Hp & Hn).
  pose proof (admin_call_handle hc around _ p l Hl Hm Hp Hn Hfair) as Hcall.
  destruct (admin_call hc around "mcp.pause" p l) as [a l1].
  destruct (Hcall eq_refl) as [Ha Hd]. simpl in Ha, Hrun, Hd. subst a. injection Hrun as <- <-.
  assert (Hpaused : cx_paused (h_ctx (lk_srv l1)) = true) by (by rewrite Hd).
  unfold handle_post. rewrite Hauth, Hmethod. simpl. unfold tools_call. rewrite Hname. simpl.
  rewrite (proj2 (String.eqb_neq _ _) Hne), Htool. unfold mbind, st_bind, catch.
  by rewrite paused_dispatch_refused.
Qed.
End effects.
