(* ===== verification/Concrete.v ===== *)
(** * A concrete environment

    An instance of every parameter of [Platform] that satisfies all of its
    laws, so that the hypotheses of the theorems are shown to hold together, and
    a concrete run can be evaluated. Text forms are bit strings, the keychain is
    a map, each external call takes one second, and the replies of the network
    and the traffic of the loopback port are arguments. *)
From Stdlib Require Import Sorted.
From stdpp Require Import sorting.
From S2P Require Import IpcServer Cache.

(** ** Bit strings *)

Fixpoint bits (p : positive) : string :=
  match p with
  | xH => "!"
  | xO p => String "0" (bits p)
  | xI p => String "1" (bits p)
  end.

Fixpoint of_bits (s : string) : option positive :=
  match s with
  | String c s =>
      if Ascii.eqb c "!" then Some xH
      else if Ascii.eqb c "0" then xO <$> of_bits s
      else if Ascii.eqb c "1" then xI <$> of_bits s
      else None
  | EmptyString => None
  end.

Lemma of_bits_bits p : of_bits (bits p) = Some p.
Proof. induction p as [p IH|p IH|]; simpl; rewrite ?IH; done. Qed.

(** ** JSON text *)

Definition Leaf : Type := bool + (Z + string).

Fixpoint value_tree (v : Value) : gen_tree Leaf :=
  match v with
  | VNull => GenNode 0 []
  | VBool b => GenLeaf (inl b)
  | VNumber (PosInt n) => GenNode 1 [GenLeaf (inr (inl n))]
  | VNumber (NegInt n) => GenNode 2 [GenLeaf (inr (inl n))]
  | VNumber (Float t) => GenNode 3 [GenLeaf (inr (inr t))]
  | VString s => GenLeaf (inr (inr s))
  | VArray vs => GenNode 4 (value_tree <$> vs)
  | VObject kvs =>
      GenNode 5 ((λ kv : string * Value,
        let '(k, v) := kv in GenNode 6 [GenLeaf (inr (inr k)); value_tree v]) <$> kvs)
  end.

Fixpoint tree_value (t : gen_tree Leaf) : Value :=
  match t with
  | GenLeaf (inl b) => VBool b
  | GenLeaf (inr (inr s)) => VString s
  | GenNode 1 [GenLeaf (inr (inl n))] => VNumber (PosInt n)
  | GenNode 2 [GenLeaf (inr (inl n))] => VNumber (NegInt n)
  | GenNode 3 [GenLeaf (inr (inr t))] => VNumber (Float t)
  | GenNode 4 ts => VArray (tree_value <$> ts)
  | GenNode 5 ts =>
      VObject ((λ t, match t with
        | GenNode _ [GenLeaf (inr (inr k)); t] => (k, tree_value t)
        | _ => ("", VNull)
        end) <$> ts)
  | _ => VNull
  end.

Section Value_ind.
Variable P : Value → Prop.
Hypotheses (Hnull : P VNull) (Hbool : ∀ b, P (VBool b)) (Hnum : ∀ n, P (VNumber n))
  (Hstr : ∀ s, P (VString s)) (Harr : ∀ vs, Forall P vs → P (VArray vs))
  (Hobj : ∀ kvs, Forall (λ kv : string * Value, P kv.2) kvs → P (VObject kvs)).

Fixpoint Value_nested_ind (v : Value) : P v :=
  match v with
  | VNull => Hnull
  | VBool b => Hbool b
  | VNumber n => Hnum n
  | VString s => Hstr s
  | VArray vs => Harr vs
      ((fix go (l : list Value) : Forall P l :=
          match l with
          | [] => Forall_nil_2 P
          | v :: l => Forall_cons_2 P v l (Value_nested_ind v) (go l)
          end) vs)
  | VObject kvs => Hobj kvs
      ((fix go (l : list (string * Value)) : Forall (λ kv, P kv.2) l :=
          match l with
          | [] => Forall_nil_2 _
          | kv :: l => Forall_cons_2 (λ kv, P kv.2) kv l (Value_nested_ind kv.2) (go l)
          end) kvs)
  end.
End Value_ind.

Lemma tree_value_tree v : tree_value (value_tree v) = v.
Proof.
  induction v as [|b|[n|n|t]|s|vs IH|kvs IH] using Value_nested_ind; simpl; try done.
  - f_equal. induction IH as [|v l Hv Hl IHl]; [done|]. by apply (f_equal2 cons).
  - f_equal. induction IH as [|[k v] l Hv Hl IHl]; [done|]. simpl in Hv.
    apply (f_equal2 cons); [|exact IHl]. simpl. by rewrite Hv.
Qed.

Definition value_text (v : Value) : string := bits (encode (value_tree v)).
Definition text_value (s : string) : string + Value :=
  match of_bits s ≫= decode with
  | Some t => inr (normalize (tree_value t))
  | None => inl "not JSON"
  end.

Lemma text_value_text v : text_value (value_text v) = inr (normalize v).
Proof.
  unfold text_value, value_text. rewrite of_bits_bits. simpl.
  rewrite decode_encode. by rewrite tree_value_tree.
Qed.

(** The texts are plain: no line feed, no margin. *)
Lemma bits_chars p : Forall (λ a, a ∈ ["!"; "0"; "1"]%char) (chars (bits p)).
Proof. induction p as [p IH|p IH|]; simpl; constructor; set_solver. Qed.

Lemma bits_last p : ∃ s, bits p = s +:+ "!".
Proof.
  induction p as [p [s Hs]|p [s Hs]|]; simpl; [rewrite Hs; by exists (String "1" s)
    |rewrite Hs; by exists (String "0" s)|by exists ""].
Qed.

Lemma bits_line p : contains LF (bits p) = false.
Proof.
  destruct (contains LF (bits p)) eqn:E; [|done]. apply contains_las in E.
  pose proof (bits_chars p) as H. rewrite Forall_forall in H. apply H in E.
  repeat (apply elem_of_cons in E as [E|E]; [discriminate E|]).
  by apply not_elem_of_nil in E.
Qed.

Lemma bits_trim p w :
  Forall (λ c, ws1 c = true) (chars w) → trim (bits p +:+ w) = bits p.
Proof.
  intros Hw. destruct (bits_last p) as [s Hs].
  destruct s as [|a s]; [rewrite Hs; by apply (trim_char "!")|].
  rewrite Hs. apply trim_plain; [|done|done].
  pose proof (bits_chars p) as H. rewrite Hs in H. apply Forall_cons in H as [H _].
  by repeat (apply elem_of_cons in H as [->|H]; [done|]); apply not_elem_of_nil in H.
Qed.

(** ** base64url *)

Definition b64_char (n : N) : ascii :=
  if (n <? 26)%N then ascii_of_N (65 + n)
  else if (n <? 52)%N then ascii_of_N (71 + n)
  else if (n <? 62)%N then ascii_of_N (n - 4)
  else if (n =? 62)%N then "-"%char else "_"%char.

Definition b64_value (a : ascii) : option N :=
  let n := byte a in
  if RustStr.between 65%N 90%N a then Some (n - 65)%N
  else if RustStr.between 97%N 122%N a then Some (n - 71)%N
  else if RustStr.between 48%N 57%N a then Some (n + 4)%N
  else if Ascii.eqb a "-" then Some 62%N
  else if Ascii.eqb a "_" then Some 63%N else None.

(** The [k]-th group of six bits, counted from the low end. *)
Definition sextet (x : N) (k : N) : ascii := b64_char (N.land (N.shiftr x (6 * k)) 63).

Fixpoint b64_encode (s : string) : string :=
  match s with
  | "" => ""
  | String a "" =>
      let x := N.shiftl (byte a) 16 in String (sextet x 3) (String (sextet x 2) "")
  | String a (String b "") =>
      let x := (N.shiftl (byte a) 16 + N.shiftl (byte b) 8)%N in
      String (sextet x 3) (String (sextet x 2) (String (sextet x 1) ""))
  | String a (String b (String c s)) =>
      let x := (N.shiftl (byte a) 16 + N.shiftl (byte b) 8 + byte c)%N in
      String (sextet x 3) (String (sextet x 2) (String (sextet x 1)
        (String (sextet x 0) (b64_encode s))))
  end.

Definition octet (x : N) (k : N) : ascii := ascii_of_N (N.land (N.shiftr x (8 * k)) 255).

Fixpoint b64_decode (s : string) : option string :=
  match s with
  | "" => Some ""
  | String a (String b rest) =>
      u ← b64_value a; v ← b64_value b;
      let x := (N.shiftl u 18 + N.shiftl v 12)%N in
      match rest with
      | "" => Some (String (octet x 2) "")
      | String c "" =>
          w ← b64_value c;
          let x := (x + N.shiftl w 6)%N in
          Some (String (octet x 2) (String (octet x 1) ""))
      | String c (String d s) =>
          w ← b64_value c; y ← b64_value d; t ← b64_decode s;
          let x := (x + N.shiftl w 6 + y)%N in
          Some (String (octet x 2) (String (octet x 1) (String (octet x 0) t)))
      end
  | _ => None
  end.

Example b64_hi : b64_encode "<p>Hi</p>" = "PHA-SGk8L3A-" ∧
  b64_decode "PHA-SGk8L3A-" = Some "<p>Hi</p>".
Proof. vm_compute. done. Qed.

Lemma b64_char_visible n : RustStr.between 32%N 126%N (b64_char n) = true.
Proof.
  unfold b64_char, RustStr.between, byte.
  destruct (N.ltb_spec n 26); [|destruct (N.ltb_spec n 52); [|destruct (N.ltb_spec n 62)]];
    try (rewrite N_ascii_embedding by lia; apply andb_true_intro; split; apply N.leb_le; lia).
  by destruct (n =? 62)%N.
Qed.

Lemma b64_visible s : Forall (λ a, RustStr.between 32%N 126%N a = true) (chars (b64_encode s)).
Proof.
  revert s. fix IH 1. intros s.
  destruct s as [|a s1]; [by apply Forall_nil_2|].
  destruct s1 as [|b s2]; [|destruct s2 as [|c s3]]; cbn [b64_encode chars String.list_ascii_of_string];
    repeat (apply Forall_cons; split; [apply b64_char_visible|]); [apply Forall_nil_2..|].
  apply IH.
Qed.

(** ** The rest of the environment *)

Section lab.
Context (reply : History → Request → string + Response) (traffic : list Accept).

Definition kr_map : Type := gmap (string * string) string.

Definition oldest_first (r1 r2 : AccountRow) : Prop :=
  (row_created_at r1 ≤ row_created_at r2)%Z.

Global Instance oldest_first_dec : RelDecision oldest_first := λ r1 r2,
  decide (row_created_at r1 ≤ row_created_at r2)%Z.
Global Instance oldest_first_total : Total oldest_first.
Proof. intros r1 r2. unfold oldest_first. lia. Qed.
Global Instance oldest_first_trans : Transitive oldest_first.
Proof. intros r1 r2 r3. unfold oldest_first. lia. Qed.

Definition lab : Platform := {|
  platform_ulid := {|
    ulid_to_string u := bits (N.succ_pos u);
    ulid_from_str s :=
      match of_bits s with Some p => inr (Pos.pred_N p) | None => inl "invalid ulid" end |};
  platform_serde := {|
    json_to_string := value_text;
    json_pretty := value_text;
    json_from_str := text_value;
    de_error what _ := "invalid " +:+ what |};
  platform_chrono := {|
    timestamp_opt t := Some (t * 10 ^ 9)%Z;
    from_timestamp_millis t := Some (t * 10 ^ 6)%Z;
    parse_from_rfc2822 _ := None;
    parse_from_rfc3339 s :=
      if String.eqb s "1970-01-01T00:00:00Z" then Some 0%Z else None;
    date_to_json := VInt;
    date_in_range _ := true |};
  platform_codec := {|
    b64url_encode := b64_encode;
    b64url_decode := b64_decode;
    pct_encode s := s;
    pct_decode_lossy s := s;
    sha256 s := "sha256 of " +:+ s |};
  platform_sqlite := {|
    sql_fault _ := None;
    constraint_text _ := "constraint failed";
    order_by_created_at m := merge_sort oldest_first (map_to_list m).*2 |};
  platform_keyring := {|
    kr_store := kr_map;
    kr_entry_new _ _ := None;
    kr_set_password s u p k := (inr tt, <[(s, u) := p]> k : kr_map);
    kr_get_password s u (k : kr_map) :=
      match k !! (s, u) with Some p => inr p | None => inl NoEntry end;
    kr_delete_credential s u (k : kr_map) :=
      match k !! (s, u) with
      | Some _ => (inr tt, delete (s, u) k)
      | None => (inl NoEntry, k)
      end;
    kr_error_text _ := "keychain" |};
  platform_http := {|
    http_reply := reply;
    http_status_text _ := "HTTP status error";
    http_decode_text := "error decoding response body";
    header_to_str := Some |};
  platform_net := {|
    bind_loopback _ := inr 4000%Z;
    loopback_traffic _ _ := traffic;
    join_error_text := "panic" |};
  platform_mime := {| mime_write _ m := inr (mm_subject m) |};
  platform_entropy := {|
    clock_at h := (10 ^ 9 * Z.of_nat (length h))%Z;
    ulid_at h := N.of_nat (length h);
    alphanumeric_at _ n := String.concat "" (replicate n "a");
    random_bytes_at _ n := String.concat "" (replicate n "r") |};
|}.

Global Instance lab_ulid : @UlidLaws (@platform_ulid lab).
Proof.
  split. intros u. simpl. rewrite of_bits_bits. by rewrite N.pos_pred_succ.
Qed.

Global Instance lab_fresh : @UlidFresh (@platform_entropy lab).
Proof. split. intros h1 h2. simpl. lia. Qed.

Global Instance lab_serde : @SerdeLaws (@platform_serde lab).
Proof.
  split; simpl.
  - intros v _. apply text_value_text.
  - intros v _. apply text_value_text.
  - intros v. apply bits_line.
  - intros v. rewrite <- (string_app_nil_r (value_text v)) at 1. by apply bits_trim.
  - intros v. apply bits_trim. by repeat constructor.
Qed.

Global Instance lab_codec : @CodecLaws (@platform_codec lab).
Proof. split. apply b64_visible. Qed.

Global Instance lab_chrono : @ChronoLaws (@platform_chrono lab) (@platform_entropy lab).
Proof. split; simpl; [by intros t d [= <-]|intros h; by eexists]. Qed.

Global Instance lab_sqlite : @SqliteLaws (@platform_sqlite lab).
Proof.
  split; intros m; simpl.
  - apply merge_sort_Permutation.
  - apply (StronglySorted_merge_sort oldest_first).
Qed.

Global Instance lab_keyring : @KeyringLaws (@platform_keyring lab).
Proof.
  exists (λ k, k); simpl.
  - by intros s u p k k' [= <-].
  - done.
  - intros s u p k. destruct (k !! (s, u)) eqn:E; [|done]. intros [= <-]. exact E.
  - intros s u k. destruct (k !! (s, u)) eqn:E; [done|]. intros _. exact E.
  - intros s u k k'. by destruct (k !! (s, u)); [intros [= <-]|].
  - intros s u k k'. destruct (k !! (s, u)) eqn:E; [done|]. intros [= <-].
    split; [done|exact E].
  - intros s u k e k'. by destruct (k !! (s, u)) eqn:E; [|intros [= _ <-]].
Defined.
End lab.

(** ** A bounded cache, most recently used first *)

Section lru.
Context {K V : Type} `{Countable K}.

Record LruList : Type := mkLruList { ll_capacity : nat; ll_entries : list (K * V) }.

Definition without (k : K) (l : list (K * V)) : list (K * V) :=
  filter (λ kv, kv.1 ≠ k) l.

Definition lookup_of (k : K) (l : list (K * V)) : option V :=
  (list_to_map l : gmap K V) !! k.

Definition LruList_lib : LruLib K V := {|
  lru := LruList;
  lru_new n := mkLruList n [];
  lru_put k v c :=
    match ll_capacity c with
    | 0 => c
    | S n => mkLruList (S n) ((k, v) :: take n (without k (ll_entries c)))
    end;
  lru_get k c :=
    match lookup_of k (ll_entries c) with
    | Some v =>
        (Some v, mkLruList (ll_capacity c) ((k, v) :: without k (ll_entries c)))
    | None => (None, c)
    end;
  lru_pop k c := mkLruList (ll_capacity c) (without k (ll_entries c));
  lru_iter := ll_entries;
|}.

Lemma without_view k l :
  (list_to_map (without k l) : gmap K V) = delete k (list_to_map l).
Proof.
  induction l as [|[k' v] l IH]; [by rewrite delete_id|].
  unfold without in *. rewrite filter_cons. simpl. destruct (decide (k' ≠ k)) as [Hne|Heq].
  - simpl. rewrite IH. by rewrite delete_insert_ne by congruence.
  - apply dec_stable in Heq as ->. rewrite IH. by rewrite delete_insert_eq.
Qed.

Lemma take_view n (l : list (K * V)) k x :
  (list_to_map (take n l) : gmap K V) !! k = Some x →
  (list_to_map l : gmap K V) !! k = Some x.
Proof.
  intros Hx. rewrite <- (take_drop n l), list_to_map_app. by apply lookup_union_Some_l.
Qed.

Lemma size_list_to_map (l : list (K * V)) : size (list_to_map l : gmap K V) ≤ length l.
Proof.
  induction l as [|[k v] l IH]; simpl; [by rewrite map_size_empty|].
  rewrite map_size_insert. destruct (_ !! k); simpl; lia.
Qed.

Global Instance LruList_laws : LruLaws LruList_lib.
Proof.
  exists (λ c, list_to_map (ll_entries c)) ll_capacity; simpl.
  - done.
  - done.
  - intros k v [[|n] l]; done.
  - intros k [n l]. simpl. by destruct (lookup_of k l).
  - done.
  - intros k v [[|n] l]; simpl; [lia|]. intros _. apply lookup_insert_eq.
  - intros k v [[|n] l] k' x Hne; simpl; [done|]. rewrite lookup_insert_ne by done.
    intros Hx%take_view. rewrite without_view in Hx. by apply lookup_delete_Some in Hx as [_ ?].
  - intros k v [[|n] l]; simpl; [done|]. intros _.
    etrans; [apply (size_list_to_map ((k, v) :: take n (without k l)))|].
    simpl. rewrite length_take. lia.
  - intros k [n l]. simpl. unfold lookup_of. by destruct (_ !! k).
  - intros k [n l]. simpl. destruct (lookup_of k l) eqn:E; [|done]. simpl.
    rewrite without_view, insert_delete_eq. by apply insert_id.
  - intros k [n l]. apply without_view.
  - intros k [n l]. simpl. rewrite <- not_eq_None_Some, <- not_elem_of_list_to_map.
    split; [by intros ? []|intros ?; by apply dec_stable].
Defined.
End lru.
