(* ===== verification/Witnesses.v ===== *)
(** * Witnesses

    Each theorem with a hypothesis, applied to a concrete run in the environment
    of [Concrete], so that its hypotheses are seen to hold together. *)
From S2P Require Import PidLock Transport Admin Cache Lifecycle M365 Concrete.

(** ** The scene: one Gmail account, one browser, one mail server *)

Definition demo_config : ProviderConfig := google_config "client-1".

Definition token_reply : Response := mkResponse 200%Z (Some (VObject [
  ("access_token", VString "at-2"); ("refresh_token", VString "rt-2");
  ("expires_in", VInt 3600); ("scope", VString "openid email")])).

Definition demo_reply (h : History) (rq : Request) : string + Response :=
  if String.eqb (rq_url rq) (token_url demo_config) then inr token_reply
  else inr (mkResponse 200%Z (Some (VObject [("email", VString "me@example.com")]))).

(** The nonce of every authorization of this scene. *)
Definition demo_nonce : string := String.concat "" (replicate 40 "a").

Definition browser_line : string :=
  "GET /callback?state=" +:+ demo_nonce +:+ "&code=c-1 HTTP/1.1".
Definition stranger_line : string := "GET /callback?state=guess&code=evil HTTP/1.1".

Definition demo_traffic : list Accept := [
  Accepted 5%Z (ReadBytes stranger_line) 1%Z;
  Accepted 7%Z (ReadBytes browser_line) 1%Z].

Global Instance demo : Platform := lab demo_reply demo_traffic.
Global Instance demo_ulid : UlidLaws := lab_ulid demo_reply demo_traffic.
Global Instance demo_fresh : UlidFresh := lab_fresh demo_reply demo_traffic.
Global Instance demo_serde : SerdeLaws := lab_serde demo_reply demo_traffic.
Global Instance demo_chrono : ChronoLaws := lab_chrono demo_reply demo_traffic.
Global Instance demo_sqlite : SqliteLaws := lab_sqlite demo_reply demo_traffic.
Global Instance demo_keyring : KeyringLaws := lab_keyring demo_reply demo_traffic.

(** Splitting a computed run into its result and the state it leaves. *)
Lemma run_split {A B} (p : A * B) a : p.1 = a → p = (a, p.2).
Proof. destruct p. by intros <-. Qed.

Definition demo_tokens : OAuthTokens :=
  mkOAuthTokens "at-1" (Some "rt-1") 0%Z (Some "openid email").

(** A daemon that just started, with nothing stored. *)
Definition sys0 : Sys := mkSys empty_db (∅ : kr_map) [] [].
Definition desk0 : Desk := mkDesk sys0 queue_new ∅ [].
Definition ctx0 : Context := mkContext desk0 ∅ false.
Definition daemon0 : Daemon := mkDaemon ctx0 ∅ [].

Lemma daemon0_start : daemon_start daemon0.
Proof. split; [exact db_wf_empty|done]. Qed.

Definition demo_handler : HandlerConfig :=
  mkHandlerConfig "0.1" 0%Z (mkMcpEndpointInfo "http://127.0.0.1:1/mcp" "secret" None) demo_config.

(** The same daemon once the account was added. *)
Definition added : Res Error Value * Daemon :=
  persist_account demo_handler "Work" demo_tokens "me@example.com" daemon0.
Definition daemon1 : Daemon := added.2.
Definition ctx1 : Context := h_ctx daemon1.
Definition sys1 : Sys := cx_sys ctx1.
Definition demo_id : AccountId := mkAccountId 0%N.
Definition demo_key : string := account_to_string demo_id.

Lemma added_Ok : added = (Ok (account_value (account_of demo_id
  (new_gmail_account "Work" "me@example.com" demo_tokens) 1%Z)), daemon1).
Proof. unfold daemon1. apply (run_split added). vm_compute. reflexivity. Qed.

Lemma daemon1_wf : daemon_wf daemon1.
Proof.
  unfold daemon1, added.
  apply (persist_account_wf demo_handler "Work" demo_tokens "me@example.com" daemon0).
  apply daemon_start_wf, daemon0_start.
Qed.

Lemma db1_wf : db_wf (sys_db sys1).
Proof. exact (cw_db _ (dw_ctx _ daemon1_wf)). Qed.

Lemma queue1_inv : queue_inv (dk_queue (cx_desk ctx1)).
Proof. exact (cw_queue _ (dw_ctx _ daemon1_wf)). Qed.

Lemma some_by {A} (o : option A) :
  match o with Some _ => true | None => false end = true → is_Some o.
Proof. destruct o; [by eexists|done]. Qed.

Lemma provider1 : is_Some (cx_providers ctx1 !! demo_id).
Proof. apply some_by. vm_compute. reflexivity. Qed.

Definition search_tool : ToolSpec := default (mkToolSpec "" "" VNull Read) (find_tool "search").
Definition send_tool : ToolSpec := default (mkToolSpec "" "" VNull Read) (find_tool "send_message").
Definition demo_args : Value := VObject [("account_id", VString demo_key)].

(** ** Permissions and dispatch *)

Lemma search_has_effect :
  quiet (cx_sys (dispatch search_tool demo_args ctx1).2) ≠ quiet (cx_sys ctx1).
Proof.
  intros H. apply (f_equal (λ q, length q.2)) in H. vm_compute in H. discriminate H.
Qed.

(** A search reaches the mail server, under the policy [Allow]. *)
Lemma dispatch_effects_authorized_witness :
  ∃ id p, cx_paused ctx1 = false ∧ parse_account_id demo_args = Ok id ∧
    cx_providers ctx1 !! id = Some p.
Proof.
  destruct (dispatch_effects_authorized search_tool demo_args ctx1 db1_wf queue1_inv
    search_has_effect) as (id & p & Hpaused & Hid & Hp & _).
  exists id, p. exact (conj Hpaused (conj Hid Hp)).
Defined.

Definition demo_request : ApprovalRequest :=
  mkApprovalRequest demo_id Trash "trash" demo_args.
Definition demo_perms : Permissions := with_defaults.

(** The user approves the request that is about to be enqueued. *)
Definition approving_desk : Desk :=
  mkDesk sys0 queue_new ∅ [([ADecide (mkApprovalId 0%N) Approve], [])].

Lemma enforce_proceed_authorized_witness :
  policy_for demo_perms Trash = Allow ∨
  (policy_for demo_perms Trash = Session ∧
   is_trusted (dk_trust approving_desk) (ar_account demo_request) Trash = true) ∨
  (policy_for demo_perms Trash ≠ Block ∧
   ADecide (next_id approving_desk) Approve ∈ script_before approving_desk).
Proof.
  apply (enforce_proceed_authorized demo_perms Trash demo_request approving_desk
    (enforce demo_perms Trash demo_request approving_desk).2).
  - exact queue_inv_new.
  - apply run_split. vm_compute. reflexivity.
Defined.

Lemma enforce_refines_table_witness :
  (enforce demo_perms Trash demo_request approving_desk).1 =
    Ok (policy_table Confirm Trash false (Some Approve)).
Proof.
  apply (enforce_refines_table demo_perms Trash demo_request approving_desk queue_inv_new).
  intros H%list_elem_of_singleton. discriminate H.
Defined.

Lemma draftify_never_sends_witness :
  (dispatch send_tool demo_args (disarm_account demo_id ctx1)).1 =
    (dispatch send_tool demo_args ctx1).1.
Proof.
  apply (draftify_never_sends send_tool demo_args ctx1 demo_id db1_wf);
    vm_compute; reflexivity.
Defined.

Lemma reachable_daemon_wf_witness :
  daemon_wf (in_ctx (hydrate_providers demo_config) daemon0).2.
Proof.
  apply (reachable_daemon_wf daemon0 _ daemon0_start), rtc_once.
  exact (DHydrate demo_config daemon0).
Defined.

(** ** OAuth *)

Definition demo_challenge : AuthChallenge :=
  mkChallenge "url" "http://127.0.0.1:4000/callback" demo_nonce "verifier"
    (mkListener 4000 demo_nonce).

Lemma complete_authorization_exchanges_witness :
  ∃ a code, a ∈ demo_traffic ∧ genuine demo_nonce code a ∧
    http_log (complete_authorization demo_config demo_challenge 100 sys0).2 =
      mkRequest POST (token_url demo_config) None (FormBody [
        ("client_id", "client-1"); ("grant_type", "authorization_code"); ("code", code);
        ("redirect_uri", "http://127.0.0.1:4000/callback");
        ("code_verifier", "verifier")]) :: [].
Proof.
  apply (complete_authorization_exchanges demo_config demo_challenge 100 sys0
    (mkOAuthTokens "at-2" (Some "rt-2") 3571000000000%Z (Some "openid email"))).
  apply run_split. vm_compute. reflexivity.
Defined.

(** ** Clients and providers *)

(** A client whose cell holds an expired token and that stores a rotated one. *)
Definition demo_client : AuthClient :=
  mkAuthClient demo_config 0 (Some (make_rotation_callback demo_id)).
Definition sys_client : Sys := mkSys empty_db (∅ : kr_map) [demo_tokens] [].

Definition demo_http : Request := mkRequest GET "https://example.com/x" None NoBody.

Lemma client_send_bounded_witness :
  ∃ l, http_log (client_send demo_client demo_http sys_client).2 = l ++ [] ∧
    length (bearing l) ≤ 2 ∧ length l ≤ 4 ∧
    ∀ r, r ∈ bearing l → ∃ token, r = with_bearer demo_http token.
Proof.
  exact (client_send_bounded demo_client demo_http sys_client
    (rotation_callback_ok demo_id demo_config 0)).
Defined.

Lemma ensure_fresh_refreshes_witness :
  (ensure_fresh demo_client sys_client).1 = Ok tt.
Proof.
  rewrite (ensure_fresh_refreshes demo_client sys_client demo_tokens "rt-1"
    (mkOAuthTokens "at-2" (Some "rt-2") 3572000000000%Z (Some "openid email"))
    (refresh demo_config "rt-1" (record_ev EvClock sys_client)).2).
  - vm_compute. reflexivity.
  - reflexivity.
  - vm_compute. discriminate.
  - reflexivity.
  - apply run_split. vm_compute. reflexivity.
Defined.

Lemma modify_all_requests_witness :
  sends_each (modify_http GMAIL_BASE (mkModifyRequest [] ["INBOX"]))
    [MessageId_from "m1"; MessageId_from "m2"]
    (archive_impl demo_client GMAIL_BASE [MessageId_from "m1"; MessageId_from "m2"])
    sys_client.
Proof.
  exact (modify_all_requests demo_client GMAIL_BASE _ (mkModifyRequest [] ["INBOX"])
    sys_client (rotation_callback_ok demo_id demo_config 0)).
Defined.

(** An HTML message with a picture. *)
Definition demo_payload : RawPart :=
  mkRawPart "multipart/mixed" "" [mkRawHeader "Subject" "Hi"] None [
    mkRawPart "text/html" "" [] (Some (mkRawBody 9 (Some "PHA-SGk8L3A-") None)) [];
    mkRawPart "image/png" "a.png" [] (Some (mkRawBody 10 None None)) []].

Definition demo_raw : RawMessage :=
  mkRawMessage "m1" "t1" ["INBOX"; "UNREAD"; "Label_1"] "Hi" "1000" (Some demo_payload).

Definition demo_decoded (payload : RawPart) : Message :=
  match (decode (mkRawMessage "m1" "t1" ["INBOX"; "UNREAD"; "Label_1"] "Hi" "1000"
                   (Some payload)) sys0).1 with
  | Ok m => m
  | _ => mkMessage (MessageId_from "") (ThreadId_from "") None [] [] [] "" 0%Z None None []
           None (mkMessageFlags false false false) [] ""
  end.

Lemma decode_attachments_witness :
  msg_attachments (demo_decoded demo_payload)
    `sublist_of` omap attachment_of (preorder demo_payload) ∧
  omap attachment_of (List.filter (λ p, negb (is_text p)) (preorder demo_payload))
    `sublist_of` msg_attachments (demo_decoded demo_payload).
Proof.
  apply (decode_attachments demo_raw sys0 _ (decode demo_raw sys0).2);
    [apply run_split; vm_compute; reflexivity|reflexivity].
Defined.

Lemma decode_bodies_witness :
  msg_body_text (demo_decoded demo_payload) = None ∧
  msg_body_html (demo_decoded demo_payload) = Some "<p>Hi</p>".
Proof.
  apply (decode_bodies demo_raw sys0 _ (decode demo_raw sys0).2 demo_payload);
    [apply run_split; vm_compute; reflexivity|reflexivity].
Defined.

Lemma decode_labels_witness :
  "INBOX" ∈ rm_label_ids demo_raw ∧
  LabelId_from "INBOX" ∉ msg_labels (demo_decoded demo_payload).
Proof.
  assert (H : decode demo_raw sys0 = (Ok (demo_decoded demo_payload), (decode demo_raw sys0).2))
    by (apply run_split; vm_compute; reflexivity).
  exact (proj1 (decode_labels demo_raw sys0 _ _ H) (FolderId_from "INBOX") eq_refl).
Defined.

Definition lost_payload : RawPart :=
  mkRawPart "multipart/mixed" "" [] None [
    mkRawPart "text/html" "" [] (Some (mkRawBody 9 (Some "PHA-SGk8L3A-") None)) [];
    mkRawPart "text/plain" "notes.txt" [] (Some (mkRawBody 90 None None)) []].

Lemma text_attachment_lost_witness :
  msg_attachments (demo_decoded lost_payload) = [] ∧
  msg_body_text (demo_decoded lost_payload) = None.
Proof.
  apply (text_attachment_lost
    (mkRawMessage "m1" "t1" ["INBOX"; "UNREAD"; "Label_1"] "Hi" "1000" (Some lost_payload))
    sys0 _ (decode (mkRawMessage "m1" "t1" ["INBOX"; "UNREAD"; "Label_1"] "Hi" "1000"
                      (Some lost_payload)) sys0).2
    [] (mkRawBody 9 (Some "PHA-SGk8L3A-") None) "notes.txt" 90 None);
    [apply run_split; vm_compute; reflexivity|discriminate|reflexivity].
Defined.

(** ** Accounts, permissions and secrets *)

Definition demo_new : NewAccount :=
  new_gmail_account "Work" "me@example.com" demo_tokens.
Definition sys_created : Sys := (create demo_new sys0).2.

Lemma create_run : create demo_new sys0 = (Ok demo_id, sys_created).
Proof. apply (run_split (create demo_new sys0)). vm_compute. reflexivity. Qed.

Lemma create_get_round_trip_witness :
  (get_account demo_id sys_created).1 = Ok (Some (account_of demo_id demo_new 1)).
Proof.
  exact (create_get_round_trip demo_new sys0 demo_id sys_created eq_refl create_run).
Defined.

Lemma created_decode : rows_decode (sys_db sys_created).
Proof.
  apply (create_keeps_rows_decodable demo_new sys0 demo_id sys_created eq_refl create_run).
  intros id row H. change ((∅ : gmap string AccountRow) !! id = Some row) in H.
  rewrite lookup_empty in H. discriminate H.
Qed.

Lemma list_accounts_complete_witness :
  ∃ rows accs, (list_accounts sys_created).1 = Ok accs ∧
    rows ≡ₚ (map_to_list (db_accounts (sys_db sys_created))).*2.
Proof.
  destruct (list_accounts_complete sys_created created_decode eq_refl)
    as (rows & accs & H & Hp & _).
  exists rows, accs. exact (conj H Hp).
Defined.

Lemma for_account_loads_stored_witness :
  match (for_account demo_id sys1).1 with
  | Ok m => ∀ c, policy_for m c = stored_policy (sys_db sys1) demo_id c
  | Err e => ∃ text, e = Storage text
  | Panic | Hang => False
  end.
Proof. exact (for_account_loads_stored demo_id sys1 db1_wf). Defined.

Lemma set_permission_round_trip_witness :
  stored_policy (sys_db (set_permission demo_id Send Block sys1).2) demo_id Send = Block.
Proof.
  rewrite (set_permission_round_trip demo_id Send Block sys1
    (set_permission demo_id Send Block sys1).2);
    [reflexivity|apply run_split; vm_compute; reflexivity].
Defined.

Lemma secret_set_get_witness :
  secret_at demo_id SmtpPassword (secret_set demo_id RefreshToken "rt-9" sys1).2 =
    secret_at demo_id SmtpPassword sys1.
Proof.
  apply (secret_set_get demo_id RefreshToken "rt-9" sys1);
    [apply run_split; vm_compute; reflexivity|discriminate].
Defined.

Lemma secret_purge_contract_witness :
  ∃ s', secret_purge demo_id sys1 = (Ok tt, s').
Proof.
  destruct (secret_purge_contract demo_id sys1) as (s' & H & _). exists s'. exact H.
Defined.

(** ** The daemon *)

Lemma persist_account_complete_witness :
  ∃ id, ∀ c, stored_policy (sys_db (sys_of daemon1)) id c = default_policy c.
Proof.
  destruct (persist_account_complete demo_handler "Work" demo_tokens "me@example.com"
    daemon0 _ daemon1 added_Ok) as (id & now & client & H).
  exists id. exact (proj1 (proj2 (proj2 (proj2 (proj2 H))))).
Defined.

Definition removal : Value := VObject [("account_id", VString demo_key)].


Definition tokens_without_refresh : OAuthTokens := mkOAuthTokens "at-1" None 0%Z None.
Definition half_new : NewAccount :=
  new_gmail_account "Work" "me@example.com" tokens_without_refresh.

Lemma half_created_account_witness :
  ∃ d, persist_account demo_handler "Work" tokens_without_refresh "me@example.com" daemon0 =
    (Err missing_refresh_token, d).
Proof.
  destruct (half_created_account demo_handler "Work" tokens_without_refresh "me@example.com"
    daemon0 demo_id (create half_new sys0).2
    (install_defaults demo_id (create half_new sys0).2).2) as (d & H & _);
    [reflexivity|apply (run_split (create half_new sys0)); vm_compute; reflexivity
    |apply (run_split (install_defaults demo_id _)); vm_compute; reflexivity|].
  exists d. exact H.
Defined.

(** ** Approvals *)

Definition session_perms : Permissions := <[Trash := Session]> with_defaults.
Definition trusting_desk : Desk := (enforce session_perms Trash demo_request approving_desk).2.

Lemma trusting_run :
  enforce session_perms Trash demo_request approving_desk = (Ok Proceed, trusting_desk).
Proof.
  apply (run_split (enforce session_perms Trash demo_request approving_desk)).
  vm_compute. reflexivity.
Qed.

Lemma trust_granted_by_approval_witness :
  ADecide (next_id approving_desk) Approve ∈ script_before approving_desk.
Proof.
  apply (trust_granted_by_approval session_perms Trash demo_request approving_desk
    demo_id Trash queue_inv_new).
  intros H. vm_compute in H. discriminate H.
Defined.

Lemma session_trust_sticks_witness :
  enforce session_perms Trash demo_request trusting_desk = (Ok Proceed, trusting_desk).
Proof.
  exact (session_trust_sticks session_perms Trash demo_request approving_desk trusting_desk
    demo_request eq_refl trusting_run eq_refl).
Defined.

(** A desk with one request pending. *)
Definition asked_desk : Desk := (enqueue demo_request desk0).2.
Definition asked_future : ApprovalFuture := mkFuture (mkApprovalId 0%N) 0.

Lemma asked_run : enqueue demo_request desk0 = (Ok asked_future, asked_desk).
Proof. apply (run_split (enqueue demo_request desk0)). vm_compute. reflexivity. Qed.

Lemma asked_inv : queue_inv (dk_queue asked_desk).
Proof. apply queue_inv_insert, queue_inv_new. Qed.

Definition asked_pending : PendingApproval :=
  mkPendingApproval (mkApprovalId 0%N) demo_request 1000000000%Z.

Lemma decide_once_witness :
  ∃ d', decide_approval (mkApprovalId 0%N) Approve asked_desk = (Ok tt, d') ∧
    decide_approval (mkApprovalId 0%N) Reject d' =
      (Err (NotFound ("approval " +:+ approval_to_string (mkApprovalId 0%N))), d').
Proof.
  destruct (decide_once (mkApprovalId 0%N) Approve Reject asked_pending 0 asked_desk asked_inv)
    as (d' & H1 & _ & _ & H2); [vm_compute; reflexivity|].
  exists d'. exact (conj H1 H2).
Defined.

Lemma wait_leaves_no_entry_witness :
  ¬ ∃ p, q_pending (dk_queue (await_outcome asked_future asked_desk).2) !! mkApprovalId 0%N =
    Some (p, 0).
Proof.
  intros [p Hp].
  apply (wait_leaves_no_entry demo_request Timeout desk0 asked_desk
    (await_outcome asked_future asked_desk).2 asked_future queue_inv_new asked_run
    (run_split (await_outcome asked_future asked_desk) _ eq_refl) _ _ Hp).
  reflexivity.
Defined.

Definition daemon_asked : Daemon := mkDaemon (mkContext asked_desk ∅ false) ∅ [].

Lemma daemon_asked_wf : daemon_wf daemon_asked.
Proof.
  split; [split; [exact db_wf_empty|exact asked_inv|]|]; intros id x H.
  - by apply (lookup_empty_Some (M:=gmap AccountId) id x) in H.
  - by apply (lookup_empty_Some (M:=gmap string) id x) in H.
Qed.

Lemma listed_approval_decidable_witness :
  ∃ d', approvals_decide (VObject [
      ("id", VString (approval_to_string (mkApprovalId 0%N)));
      ("decision", VString "approve")]) daemon_asked = (Ok empty_object, d').
Proof.
  destruct (listed_approval_decidable daemon_asked asked_pending Approve daemon_asked_wf)
    as (d' & c & H & _); [vm_compute; left|].
  exists d'. exact H.
Defined.

(** ** The MCP door *)

Definition demo_state : McpState :=
  mkMcpState "secret" (mkServerInfo "mail-mcp" "0.1").
Definition demo_rpc : JsonRpcReq := mkJsonRpcReq (VInt 1) "tools/list" VNull.

Lemma handle_post_unauthorized_witness :
  handle_post demo_state (Some "Bearer guess") demo_rpc ctx0 =
    (Ok (UNAUTHORIZED, rpc_err (VInt 1) (-32001) "missing or invalid bearer token"), ctx0).
Proof.
  apply (handle_post_unauthorized demo_state (Some "Bearer guess") demo_rpc ctx0).
  intros h Hh. injection Hh as <-. intros H. vm_compute in H. discriminate H.
Defined.

Lemma catalog_tools_execute_witness :
  handled "search" (gmail_new demo_client "me@example.com") demo_args.
Proof.
  apply (catalog_tools_execute (gmail_new demo_client "me@example.com") demo_args search_tool).
  - apply list_elem_of_In. right. left. reflexivity.
  - discriminate.
Defined.

(** ** Microsoft Graph *)

Definition graph_message (id conv : string) : Graph.RawMessage :=
  Graph.mkRawMessage id conv None None None [] [] [] [] false None false None
    (Some "1970-01-01T00:00:00Z") None.

Definition graph_page : list Graph.RawMessage :=
  [graph_message "m1" "c1"; graph_message "m2" "c2"; graph_message "m3" "c1"].

Definition graph_threads : list ThreadSummary :=
  match Graph.group_threads ∅ graph_page with Ok l => l | _ => [] end.

Lemma search_groups_conversations_witness :
  NoDup (Graph.conversation <$> graph_threads) ∧
  ∀ conv, conv ∈ (Graph.conversation <$> graph_threads) ↔
    conv ∈ (Graph.rm_conversation_id <$> graph_page).
Proof.
  apply (Graph.search_groups_conversations graph_page graph_threads).
  vm_compute. reflexivity.
Defined.

(** ** The loopback listener *)

Lemma await_callback_ends_witness :
  await_callback "other" 100 demo_traffic ≠ Hang ∧
  await_callback "other" 100 demo_traffic ≠ Panic.
Proof.
  apply (await_callback_ends "other" 100 demo_traffic).
  intros wait took H. apply list_elem_of_In in H. simpl in H.
  destruct H as [H|[H|H]]; [discriminate H|discriminate H|exact H].
Defined.

(** ** The IPC server *)

#[local] Instance demo_ipc : Handler Daemon := daemon_handler demo_handler.

Definition status_line : string := value_text (VObject [
  ("jsonrpc", VString "2.0"); ("id", VInt 4); ("method", VString "accounts.list")]).
Definition status_request : IpcRequest := mkIpcRequest (VInt 4) "accounts.list" None.

Lemma one_response_per_line_witness :
  ∃ body, cn_out (conn_step (CLine status_line true) (conn_new, daemon0)).1 =
    [FResponse (VObject (("jsonrpc", VString "2.0") :: ("id", VInt 4) :: body))].
Proof.
  destruct (one_response_per_line status_line status_request conn_new daemon0 eq_refl)
    as (body & H & _).
  - vm_compute. reflexivity.
  - intros s'. split; intros H; apply (f_equal fst) in H; vm_compute in H; discriminate H.
  - exists body. exact H.
Defined.

Definition pause_notice : Notification := McpPausedChanged true.
Definition listening : Conn := mkConn ["mcp.paused_changed"] Running [] [] false.
Definition stopped : Conn := mkConn ["mcp.paused_changed"] Stopped [] [] false.

Lemma fanout_in_order_witness :
  ∃ k, notifications_out
      (conn_run [CBroadcast pause_notice; CFan true] (listening, daemon0)).1 =
    forwarded ["mcp.paused_changed"] (take k [pause_notice]).
Proof.
  destruct (fanout_in_order [CBroadcast pause_notice; CFan true] listening daemon0 eq_refl)
    as (k & H & _).
  - repeat constructor.
  - vm_compute. lia.
  - exists k. exact H.
Defined.

Lemma stopped_fanout_stays_stopped_witness :
  cn_fanout (conn_run [CLine status_line true; CBroadcast pause_notice; CFan true]
    (stopped, daemon0)).1 = Stopped.
Proof.
  apply (stopped_fanout_stays_stopped
    [CLine status_line true; CBroadcast pause_notice; CFan true] stopped daemon0 eq_refl).
Defined.

(** ** The cache and the endpoint file *)

#[local] Instance demo_lru : LruLib CacheKey (CacheEntry string) := LruList_lib.

Definition demo_cache : MessageCache :=
  cache_put 10 demo_id (MessageId_from "m1") "body" (cache_new 2 60).

Lemma cache_get_fresh_witness :
  ∃ t, cache_view demo_cache !! (demo_id, MessageId_from "m1") = Some (mkCacheEntry "body" t) ∧
    (elapsed 50 t <= 60)%Z.
Proof.
  exact (proj2 (cache_get_fresh 50 demo_id (MessageId_from "m1") demo_cache)).
Defined.

(** ** The files of the daemon *)

(** A system on which every call works. *)
#[local] Instance calm_os : OsLib := {
  os_fault _ _ := None;
  os_short_write _ := 0;
  os_message _ := "system error";
  os_umask := 18%Z;
  os_pid := 42%N;
}.

Definition empty_os : Os := mkOs ∅ [] [].

Definition demo_path : string := "/run/mail-mcp/data/endpoint.json".
Definition demo_info : McpEndpointInfo :=
  mkMcpEndpointInfo "http://127.0.0.1:1/mcp" "secret" None.

Definition written_file : File :=
  mkFile Regular (masked os_umask PRIVATE_MODE) (json_pretty (endpoint_value demo_info)).

Definition written_os : Os := (write_endpoint demo_path demo_info empty_os).2.

Lemma endpoint_never_exposed_witness :
  (∃ fs0, fs0 ∈ seen empty_os ∧ fs0 !! demo_path = Some written_file) ∨
  exposed written_file = false.
Proof.
  apply (endpoint_never_exposed demo_path demo_info empty_os (os_fs written_os) demo_path).
  - left.
  - vm_compute. reflexivity.
  - reflexivity.
Defined.

Lemma endpoint_replaced_atomically_witness : os_fs written_os !! demo_path = Some written_file.
Proof.
  apply (endpoint_replaced_atomically demo_path "endpoint.json" demo_info empty_os);
    vm_compute; reflexivity.
Defined.
